(* ===== verification/_CoqProject ===== *)
-Q . S2P
Prelude.v
Hickory.v
Reference.v
ZeroX20.v
Net.v
Dns64.v
Cache.v
TtlCaches.v
Text.v
Files.v
LocalZones.v
Anchor.v
Dnssec.v
Validator.v
Iterative.v
ClientPolicy.v
Tunnel.v
Forwarder.v
Handler.v
Provenance.v
Http.v
Service.v
Listeners.v
Accept.v
Transport.v
Doh.v
DohAccept.v
EndToEnd.v
Config.v
Workers.v
IpText.v
Hints.v
Build.v
AnchorLife.v
Tls.v
Daemon.v
Process.v
Control.v
