(* ===== verification/Prelude.v ===== *)
(** * dnsd: a validating, forwarding, DNS64-capable DNS resolver

    This library models [dnsd] (Rust, under [src/src/]), from its configuration and
    listeners to the resolver core, as executable definitions and proves the properties that make it
    correct.  Definitions keep the names of the functions and types they
    translate.

    ** The program and its parts

    A listener (UDP, TCP, DoT, DoH) receives the bytes of a query and passes them,
    after the client policy, to [RecursorHandler::handle_bytes].  The handler
    answers from the locally served names or the response cache, and else takes the
    lock of the question, so that equal questions in flight wait for the first.
    Then it asks a forwarder, or walks the delegations from the roots.  What a walk
    brings is validated against the trust anchors, cached, and translated by DNS64
    where the listener asks for it.  Beside the queries one task refreshes the trust
    anchors (RFC 5011).  The process around it reads the configuration, builds the
    handler, binds the listeners and serves the control socket; a SIGHUP rebuilds the
    handler and brings the listeners to the new configuration, without losing the cache.

    ** Files

    - [Prelude]: the result monad, bytes, widths, time, shared tactics.
    - [Hickory], [Net]: the crates [hickory-proto] and [ipnet] as the program sees
      them.  Their data are records and inductive types, what they compute are the
      classes [NameOps], [Hickory] and [IpNets], and the documented behaviour the
      theorems need are the laws [NameLaws], [HickoryLaws] and [IpNetLaws].
    - [Reference]: an instance of those classes that satisfies the laws and computes;
      every witness runs on it.
    - [ZeroX20] ([recursor/zeroxtwenty.rs]): letter-case randomisation of queries.
    - [Dns64] ([recursor/dns64.rs]): address embedding, AAAA synthesis, PTR rewriting.
    - [Cache] ([recursor/cache.rs]): the response cache.
    - [TtlCaches] ([recursor/mod.rs], [recursor/dnssec.rs]): the failed-walk cache,
      the map of per-question locks, the zone-key cache; all three evict alike.
    - [Text]: the string operations of the Rust standard library in use.
    - [LocalZones] ([recursor/local_zones.rs], [ipv4only.rs], [ddr.rs],
      [normalize.rs]): questions answered without recursion.
    - [Files] ([recursor/anchor.rs]): the replacement of a file by [atomic_write], over a
      file system whose operations fail and which may crash.
    - [Anchor] ([recursor/anchor.rs]): the RFC 5011 state machine, the two files it
      keeps, as texts, and the refresh tick.
    - [AnchorLife] (the same file, [recursor/mod.rs]): ticks and starts over a file system, the
      task loop, and all of it with restarts and crashes as a system of steps.
    - [Dnssec] ([recursor/dnssec.rs]): signature windows, RRset validation, NSEC and
      NSEC3 denial proofs, the AD policy.
    - [Validator] (the same file): key fetches, DS matching, chain validation.
    - [Iterative] ([recursor/iterative.rs]): the delegation walk, its budgets, racing
      upstreams, sub-walks for name-server addresses, delegation cache, priming.
    - [ClientPolicy] ([acl.rs], [recursor/rrl.rs], [recursor/cookies.rs]).
    - [Tunnel] ([recursor/socks.rs], [recursor/dot_client.rs]): SOCKS5 and DNS
      framing over a byte stream.
    - [Forwarder] ([recursor/forwarder.rs], [recursor/dot_pool.rs], forwarder part of
      [config.rs]): the forwarder table, query preparation and response checks, the
      transports, the connection pool, the UDP demultiplexer.
    - [Handler] ([recursor/mod.rs], [handler.rs]): the query handler, which composes
      all of the above.
    - [Provenance]: what a reply's AD bit is worth: the handler, its caches, prewarm,
      priming, anchor refreshes, flushes and reloads as one system of steps.
    - [Service] ([handler.rs], [worker.rs]): the trait [DnsHandler] between transports
      and resolver as a class with its laws, and its instances.
    - [Listeners] ([io/udp.rs], [io/tcp.rs], [io/dot.rs]): the UDP loop as a machine
      driven by events, the framing loop of TCP and DoT; for any [DnsHandler].
    - [Accept] (the same files): the accept loops of TCP and DoT, with the turns of any
      number of connections and handshakes interleaved.
    - [Http], [Doh] ([io/doh.rs]): the HTTP/1.1 request head, the connection loop and
      the responses byte for byte; the HTTP/2 path by request.
    - [DohAccept] (the same file): the accept loop of DoH, with HTTP/1.1 connections and
      HTTP/2 streams interleaved.
    - [EndToEnd]: contracts of a [DnsHandler] carried through the wrappers and the
      listeners to the sockets, and the resolver's contract.
    - [Config] ([config.rs], [worker.rs]): configuration, loading of the default and of
      a VRF instance, worker counts.
    - [Transport] ([io/transport/kernel.rs]): client streams and the one-shot query over
      TCP, and the clients against the listeners.
    - [Workers] ([worker.rs]): the pool of I/O threads: start, choice of a worker, shutdown.
    - [IpText]: the text form of addresses in the Rust standard library.
    - [Hints] ([recursor/iterative.rs]): the root-hints file.
    - [Build] ([recursor/mod.rs], [recursor/forwarder.rs]): source addresses, upstream
      sockets, construction of the handler, the prewarm and the readiness gate.
    - [Tls] ([acme/mod.rs]): TLS material and what is reported of it.
    - [Daemon] ([main.rs]): the set of bound listeners: binding with retry, the diff
      of a reload, the report, shutdown.
    - [Process] ([main.rs]): start-up, reload of the whole daemon, signals.
    - [Control] ([control.rs], [metrics.rs]): the control socket and its client.

    ** How code becomes definitions

    Pure functions are functions.  Code that can fail returns [result], whose error
    carries the static part of the message.  Code with state takes and returns a
    record of it: [DnsCache], [DnskeyCache], [St] of the validator, [ISt] of the
    resolver, [USt] of the upstream client, [HSt] of the handler.  The socket code
    of [Tunnel] is written in a state-and-error monad over a byte channel.  Clocks,
    random numbers, upstream replies, the order in which concurrent exchanges finish
    and whether a deadline has passed are readings of a world ([World], [IWorld],
    [UWorld], [HWorld]), indexed by the number of readings taken so far; theorems
    quantify over all worlds, so a hostile network and an arbitrary schedule are
    covered.  Third-party code is a class argument: [moka]'s own evictions ([Moka]),
    the iteration order of a hash map ([MapIter]), base64 and JSON ([Base64],
    [Serde]), the token bucket of [governor] ([Governor]).

    The handler waits for other queries at one point, the lock of its question.
    [before_lock] and [after_lock] are the two halves, and an arbitrary state change
    may stand between them.  The cells that listeners share ([ArcSwap]) are a store with
    numbered cells in [Daemon], so aliasing is visible.  What concurrent tasks do is an
    event of the machine at hand: a task of the UDP listener ends, a connection or an
    HTTP/2 stream takes its turn, other tasks change the handler's state between two
    steps of the prewarm or two signals.

    ** What the theorems show

    - Trust: [secure_chain_of_trust], [denial_secure_sound], [ad_means_trusted]: AD and
      Secure are given only to data with a chain of signatures and DS matches down
      from the anchors, each signature in its window at a reading of the clock since the
      keys were first checked, and to negative answers only with a proof for the very
      name and type asked; a Bogus answer is refused and not cached.  The relation
      they use is the one the code enforces; the findings of [ValidatorExamples]
      show where it is weaker than RFC 4035.  [ad_is_earned] carries this through
      the caches, reloads and any interleaving of the handler's work to the replies, and
      [ad_on_the_wire] through the four listeners to the bytes that leave the sockets; their
      laws about encoding are [WireLaws]: where the AD bit stands in a header, and that the
      question section survives encoding and decoding.
    - Anchors: [hold_down_enforced], [active_until_revoked], [tick_authenticated],
      [anchor_file_roundtrip]; [atomic_write_crash_safe]: a file always holds an old text or
      a new one; [tick_fs_refines], [start_fs_refines]: the operations over files
      implement those over texts; [anchors_keep_custody]: through refreshes, restarts and crashes
      no key is trusted that was not initial or held down under keys trusted alike;
      [rollover_completes]: a new key comes into force.  Their laws about the wire are
      [KeyLaws].  [replay_resurrects_revoked] shows what they cannot exclude.
    - Replies and upstreams: [reply_echoes_txid], [accepted_reply_matches],
      [demux_delivers_own], [encode_verify], [qname_byte_range_spec],
      [tor_fails_closed], [socks_connect_exact], [framing_roundtrip].
    - Listeners: [udp_one_reply], [tcp_serves_all], [tcp_hostile_stream]; [doh_pipeline],
      [doh_hostile_stream], [parse_request_head_exact], [doh_h2_same]: whatever bytes
      arrive, only allowed and authorised requests reach the handler, each is
      answered at most once and in order, and well-formed pipelines are answered
      completely; [client_meets_server], [dot_stream_in_step]: the stream clients and
      the stream listeners agree on the wire; [streams_do_not_mix], [connection_gets_on],
      [doh_streams_apart]: connections and streams neither see each other's messages nor
      hold each other up, however they are scheduled; every admission and every query is
      tied to the event that made it and to the settings loaded there.
    - The daemon: [service_follows_config], [reload_reaches_config],
      [reload_keeps_service], [listeners_report]: handler and listeners always belong
      to the last configuration that could be applied, given configurations whose entries
      of one address and port agree ([split_settings_collapse] shows the other case); [construction_well_formed],
      [readiness_gate], [primed_roots_survive], [rfc3339_counts_days],
      [vrf_isolation]; [control_lines], [control_roundtrip], [control_effects],
      [cache_dump_exact]; [pool_lifecycle], [picks_round_robin]: the I/O threads.
    - Effort: [walk_query_bound], [walk_terminates], [walk_chain_accounted],
      [failed_walk_suppressed], [fast_path_offline], [private_names_stay_local].
    - Caches: [cache_never_stale], [put_then_get], [compute_ttl_bounds],
      [dnskey_cache_sound], [neg_cache_sound], [lock_for_coalesces].
    - DNS64 and local answers: [embed_extract_roundtrip], [ptr_of_synthesised],
      [synthesise_from_a_spec], [ipv4only_probe], [ddr_records_sound],
      [is_private_reverse_iff], [normalize_forgets_case].
    - Tables: [lookup_longest_match], [buckets_are_subnets].

    ** Fuel

    Every recursion that is not structural has a fuel, and lemmas show that it is
    enough, in the sense that more changes nothing:
    - the question-name scan: one unit per byte of the message, since each label
      takes at least one ([qname_scan]);
    - the walks up the name tree (closest encloser, cached delegations, zones to
      fetch): one unit per label ([encloser_walk], [nsec3_encloser], [ancestors],
      [closest_cached_loop]);
    - the delegation loop: one more than the queries left in the budget
      ([walk_terminates]); the race and the pipeline of sub-walks: the number of
      servers, or names, still to be tried ([race_fuel], [drain_fuel]);
    - the depth of sub-walks inside sub-walks.  The code bounds it by the walk's
      deadline only, so it is an argument [nesting]: a sub-walk that is deeper has met its
      deadline.  The theorems hold for every [nesting];
    - connections: one unit per byte still to come, since every turn consumes one
      ([serve_frames], [read_head], [read_body], [handle_conn]), and 1000 requests per
      HTTP/1.1 connection, the code's own limit;
    - the bind loop: passes are at least 200 ms apart, so [bind_fuel] passes reach the
      deadline ([bind_loop_ends]).

    ** What is left out

    TLS and HTTP/2 framing, the YAML, JSON and X.509 parsers, certificate issuance,
    the construction of runtimes, logging: libraries and I/O around the code.
    The dispatch of an upstream query to a worker thread is left out, as are the
    pauses of the upstream receive loop between the datagrams it drains.
    A tick or a start of one anchor task runs to its end before another task's; a crash may come at
    any point within it, and leaves one of the directories since the last sync, as a whole.
    Aborting a listener takes effect at once, and the tasks of connections it had accepted,
    which outlive it, are followed in [Accept] and [DohAccept] only, not in [Daemon].
    [str::trim] is modelled on ASCII white space. *)
From stdpp Require Export base tactics option list numbers strings gmap.
From Stdlib Require Export ZArith Lia.
Open Scope Z_scope.

(** ** Results

    The Rust code returns [anyhow::Result]; an error carries the static part
    of its message. *)
Inductive result (A : Type) : Type :=
| Ok (a : A)
| Err (e : string).
Arguments Ok {A} _.
Arguments Err {A} _.

#[export] Instance result_ret : MRet result := @Ok.
#[export] Instance result_bind : MBind result := λ A B f r,
  match r with Ok a => f a | Err e => Err e end.
#[export] Instance result_fmap : FMap result := λ A B f r,
  match r with Ok a => Ok (f a) | Err e => Err e end.

(** [Option::ok_or_else] and [Result::ok]. *)
Definition ok_or {A} (e : string) (o : option A) : result A :=
  match o with Some a => Ok a | None => Err e end.
Definition res_ok {A} (r : result A) : option A :=
  match r with Ok a => Some a | Err _ => None end.
Definition is_ok {A} (r : result A) : bool :=
  match r with Ok _ => true | Err _ => false end.

Lemma result_bind_Ok {A B} (f : A → result B) r b :
  r ≫= f = Ok b ↔ ∃ a, r = Ok a ∧ f a = Ok b.
Proof. destruct r; cbn; naive_solver. Qed.

Lemma ok_or_Ok {A} e (o : option A) a : ok_or e o = Ok a ↔ o = Some a.
Proof. destruct o; cbn; naive_solver. Qed.

Lemma res_ok_Some {A} (r : result A) a : res_ok r = Some a ↔ r = Ok a.
Proof. destruct r; cbn; naive_solver. Qed.

Lemma is_ok_true {A} (r : result A) : is_ok r = true ↔ ∃ a, r = Ok a.
Proof. destruct r; cbn; naive_solver. Qed.

(** ** Tactics *)

(** Turns boolean tests among the hypotheses into propositions. *)
Ltac bool_inv :=
  repeat match goal with
  | E : negb _ = false |- _ => apply negb_false_iff in E
  | E : negb _ = true |- _ => apply negb_true_iff in E
  | E : _ || _ = false |- _ => apply orb_false_iff in E as [? ?]
  | E : _ && _ = true |- _ => apply andb_true_iff in E as [? ?]
  | E : (_ =? _) = true |- _ => apply Z.eqb_eq in E
  | E : (_ <? _)%nat = false |- _ => apply Nat.ltb_ge in E
  end.

(** ** Finite maps *)
Lemma map_size_insert_le {K A} `{Countable K} (m : gmap K A) k a :
  (size (<[k := a]> m) ≤ S (size m))%nat.
Proof.
  rewrite map_size_insert. destruct (m !! k); cbn; lia.
Qed.

(** ** Bytes *)
Definition is_byte (b : Z) : Prop := 0 ≤ b < 256.

#[export] Instance is_byte_dec b : Decision (is_byte b).
Proof. unfold is_byte; apply _. Defined.

(** [u8::is_ascii_alphabetic], [to_ascii_lowercase], [eq_ignore_ascii_case]. *)
Definition is_ascii_upper (b : Z) : bool := (65 <=? b) && (b <=? 90).
Definition is_ascii_lower (b : Z) : bool := (97 <=? b) && (b <=? 122).
Definition is_ascii_alphabetic (b : Z) : bool := is_ascii_upper b || is_ascii_lower b.
Definition to_ascii_lowercase (b : Z) : Z := if is_ascii_upper b then b + 32 else b.
Definition eq_ignore_ascii_case (a b : Z) : bool :=
  to_ascii_lowercase a =? to_ascii_lowercase b.

Lemma to_ascii_lowercase_idemp b :
  to_ascii_lowercase (to_ascii_lowercase b) = to_ascii_lowercase b.
Proof.
  unfold to_ascii_lowercase, is_ascii_upper.
  repeat case_match; rewrite ?andb_true_iff, ?andb_false_iff in *; lia.
Qed.

(** [str::as_bytes] and [str::from_utf8] on text. *)
Definition bytes_of_string (s : string) : list Z :=
  map (λ a, Z.of_N (Ascii.N_of_ascii a)) (String.list_ascii_of_string s).
Definition string_of_bytes (l : list Z) : string :=
  String.string_of_list_ascii (map (λ b, Ascii.ascii_of_N (Z.to_N b)) l).

(** Big-endian 16-bit words: [u16::to_be_bytes] and [u16::from_be_bytes]. *)
Definition is_u16 (n : Z) : Prop := 0 ≤ n < 65536.
Definition to_be16 (n : Z) : list Z := [n / 256; n mod 256].
Definition from_be16 (hi lo : Z) : Z := hi * 256 + lo.

Lemma from_to_be16 n : from_be16 (n / 256) (n mod 256) = n.
Proof. unfold from_be16. pose proof (Z.div_mod n 256). lia. Qed.

Lemma to_from_be16 hi lo : is_byte lo → to_be16 (from_be16 hi lo) = [hi; lo].
Proof.
  unfold to_be16, from_be16, is_byte. intros.
  by rewrite Z.div_add_l, Z.div_small, Z.add_0_r, Z.add_comm, Z.mod_add, Z.mod_small by lia.
Qed.

Lemma to_be16_bytes n : is_u16 n → Forall is_byte (to_be16 n).
Proof.
  unfold is_u16, to_be16, is_byte. intros ?. repeat constructor.
  all: try (apply Z.div_pos; lia); try (apply Z.div_lt_upper_bound; lia);
    apply Z.mod_pos_bound; lia.
Qed.

(** ** Machine integers *)
Definition u32_max : Z := 4294967295.
Definition is_u32 (n : Z) : Prop := 0 ≤ n ≤ u32_max.
(** [a + b] at width 32 in a release build: wrap-around. *)
Definition wrap32 (n : Z) : Z := n mod 4294967296.
(** [a.saturating_sub(b)] on an unsigned type. *)
Definition saturating_sub (a b : Z) : Z := Z.max 0 (a - b).

(** ** Time

    An [Instant] is a number of nanoseconds on the monotonic clock; durations
    written in seconds are scaled. *)
Definition NANOS : Z := 1000000000.
Definition from_secs (s : Z) : Z := s * NANOS.
Definition as_secs (d : Z) : Z := d / NANOS.

Lemma from_secs_mono a b : a ≤ b → from_secs a ≤ from_secs b.
Proof. unfold from_secs, NANOS; lia. Qed.
