(* ===== verification/Hickory.v ===== *)
(** * The DNS message library as the program sees it

    [hickory-proto] is not part of the repository.  The structs whose public
    fields the program reads and writes ([Message], [Metadata], [Query],
    [Record], the [RData] variants, the DNSSEC rdata) are records and inductive
    types here; everything the library computes (name algebra, wire codec,
    signature verification, hashing) is an operation of the classes
    [NameOps] and [Hickory], and the documented behaviour the program relies on
    is stated as the laws [NameLaws] and [HickoryLaws]. *)
From S2P Require Import Prelude.

(** ** Addresses *)

(** An [Ipv4Addr] is its four octets, an [Ipv6Addr] its sixteen. *)
Abbreviation Ipv4Addr := (list Z).
Abbreviation Ipv6Addr := (list Z).
Inductive IpAddr : Type :=
| V4 (v4 : Ipv4Addr)
| V6 (v6 : Ipv6Addr).

Definition is_v4_addr (a : Ipv4Addr) : Prop := length a = 4%nat ∧ Forall is_byte a.
Definition is_v6_addr (a : Ipv6Addr) : Prop := length a = 16%nat ∧ Forall is_byte a.
Definition is_ip_addr (ip : IpAddr) : Prop :=
  match ip with V4 a => is_v4_addr a | V6 a => is_v6_addr a end.

Definition is_ipv4 (ip : IpAddr) : bool := match ip with V4 _ => true | V6 _ => false end.
Definition is_ipv6 (ip : IpAddr) : bool := match ip with V6 _ => true | V4 _ => false end.

#[export] Instance IpAddr_eq_dec : EqDecision IpAddr.
Proof. solve_decision. Defined.
#[export] Instance IpAddr_countable : Countable IpAddr.
Proof.
  refine (inj_countable' (λ ip, match ip with V4 a => inl a | V6 a => inr a end)
            (λ s, match s with inl a => V4 a | inr a => V6 a end) _).
  by intros [].
Defined.

(** [Ipv6Addr::segments]: the eight 16-bit groups. *)
Fixpoint pair_octets (l : list Z) : list Z :=
  match l with
  | hi :: lo :: rest => from_be16 hi lo :: pair_octets rest
  | _ => []
  end.
Definition segments (a : Ipv6Addr) : list Z := pair_octets a.

Record SocketAddr := { sa_ip : IpAddr; sa_port : Z }.
#[export] Instance SocketAddr_eq_dec : EqDecision SocketAddr.
Proof. solve_decision. Defined.
#[export] Instance SocketAddr_countable : Countable SocketAddr.
Proof.
  refine (inj_countable' (λ s, (sa_ip s, sa_port s))
            (λ p, {| sa_ip := p.1; sa_port := p.2 |}) _).
  by intros [].
Defined.

(** ** Codes *)

Inductive RecordType : Type :=
| RT_A | RT_AAAA | RT_CNAME | RT_NS | RT_PTR | RT_SOA | RT_SVCB
| RT_DS | RT_DNSKEY | RT_RRSIG | RT_NSEC | RT_NSEC3
| RT_Other (code : Z).
#[export] Instance RecordType_eq_dec : EqDecision RecordType.
Proof. solve_decision. Defined.
#[export] Instance RecordType_countable : Countable RecordType.
Proof.
  refine (inj_countable'
    (λ t, match t with
          | RT_A => inl 0%nat | RT_AAAA => inl 1%nat | RT_CNAME => inl 2%nat
          | RT_NS => inl 3%nat | RT_PTR => inl 4%nat | RT_SOA => inl 5%nat
          | RT_SVCB => inl 6%nat | RT_DS => inl 7%nat | RT_DNSKEY => inl 8%nat
          | RT_RRSIG => inl 9%nat | RT_NSEC => inl 10%nat | RT_NSEC3 => inl 11%nat
          | RT_Other c => inr c end)
    (λ s, match s with
          | inl 0%nat => RT_A | inl 1%nat => RT_AAAA | inl 2%nat => RT_CNAME
          | inl 3%nat => RT_NS | inl 4%nat => RT_PTR | inl 5%nat => RT_SOA
          | inl 6%nat => RT_SVCB | inl 7%nat => RT_DS | inl 8%nat => RT_DNSKEY
          | inl 9%nat => RT_RRSIG | inl 10%nat => RT_NSEC | inl _ => RT_NSEC3
          | inr c => RT_Other c end) _).
  by intros [].
Defined.

Inductive DNSClass : Type := DC_IN | DC_Other (code : Z).
#[export] Instance DNSClass_eq_dec : EqDecision DNSClass.
Proof. solve_decision. Defined.
#[export] Instance DNSClass_countable : Countable DNSClass.
Proof.
  refine (inj_countable' (λ c, match c with DC_IN => None | DC_Other z => Some z end)
            (λ o, match o with None => DC_IN | Some z => DC_Other z end) _).
  by intros [].
Defined.

Inductive ResponseCode : Type :=
| RC_NoError | RC_ServFail | RC_NXDomain | RC_NotImp | RC_Refused | RC_Other (code : Z).
#[export] Instance ResponseCode_eq_dec : EqDecision ResponseCode.
Proof. solve_decision. Defined.

Inductive OpCode : Type := OC_Query | OC_Other (code : Z).
#[export] Instance OpCode_eq_dec : EqDecision OpCode.
Proof. solve_decision. Defined.

Inductive MessageType : Type := MT_Query | MT_Response.
#[export] Instance MessageType_eq_dec : EqDecision MessageType.
Proof. solve_decision. Defined.

(** ** Names *)

(** The operations of [hickory_proto::rr::Name] the program calls. [name_eqb]
    is [Name]'s [PartialEq], [name_cmp] its [Ord], [labels] its [iter]. *)
Class NameOps := {
  Name : Type;
  Name_eq_dec :: EqDecision Name;
  Name_countable :: Countable Name;
  name_eqb : Name → Name → bool;
  name_cmp : Name → Name → comparison;
  to_lowercase : Name → Name;
  to_ascii : Name → string;
  from_ascii : string → option Name;
  set_fqdn : Name → bool → Name;
  is_fqdn : Name → bool;
  root : Name;
  is_root : Name → bool;
  base_name : Name → Name;
  num_labels : Name → nat;
  labels : Name → list (list Z);
  trim_to : Name → nat → Name;
  zone_of : Name → Name → bool;
  append_domain : Name → Name → option Name;
}.

(** Documented behaviour of names: comparison ignores ASCII case, lower-casing
    is idempotent and keeps the label structure, [base_name] drops the first
    label. *)
Class NameLaws `{NameOps} := {
  name_eqb_spec a b : name_eqb a b = true ↔ to_lowercase a = to_lowercase b;
  to_lowercase_idemp a : to_lowercase (to_lowercase a) = to_lowercase a;
  num_labels_lower a : num_labels (to_lowercase a) = num_labels a;
  num_labels_le a : (num_labels a ≤ length (labels a))%nat;
  labels_lower a : labels (to_lowercase a) = map (map to_ascii_lowercase) (labels a);
  labels_root : labels root = [];
  root_lower : to_lowercase root = root;
  is_root_spec a : is_root a = true ↔ to_lowercase a = root;
  base_name_labels a : labels (base_name a) = tail (labels a);
  name_cmp_eq a b : name_cmp a b = Eq → to_lowercase a = to_lowercase b;
  is_fqdn_lower a : is_fqdn (to_lowercase a) = is_fqdn a;
  base_name_fqdn a : is_fqdn a = true → is_fqdn (base_name a) = true;
  fqdn_root a : is_fqdn a = true → labels a = [] → to_lowercase a = root;
  num_labels_trim a k : (k < num_labels a)%nat → (num_labels (trim_to a k) ≤ k)%nat;
  zone_of_lower a b : zone_of (to_lowercase a) (to_lowercase b) = zone_of a b;
}.

Section Messages.
Context `{NameOps}.

(** ** Record data *)

Record SOA := {
  soa_mname : Name; soa_rname : Name; soa_serial : Z; soa_refresh : Z;
  soa_retry : Z; soa_expire : Z; soa_minimum : Z }.
Record DNSKEY := {
  zone_key : bool; secure_entry_point : bool; revoke : bool;
  key_algorithm : Z; public_bytes : list Z }.
Record DS := { ds_key_tag : Z; ds_algorithm : Z; ds_digest_type : Z; ds_digest : list Z }.
Record RRSIG := {
  type_covered : RecordType; sig_algorithm : Z; sig_num_labels : nat;
  sig_expiration : Z; sig_inception : Z; sig_key_tag : Z;
  signer_name : Name; signature : list Z }.
Record NSEC := { next_domain_name : Name; nsec_types : list RecordType }.
Inductive Nsec3HashAlgorithm : Type := HA_SHA1 | HA_Other (code : Z).
Record NSEC3 := {
  nsec3_hash_algorithm : Nsec3HashAlgorithm; opt_out : bool; iterations : Z;
  salt : list Z; next_hashed_owner_name : list Z; nsec3_types : list RecordType }.

Inductive SvcParamKey : Type := SK_Alpn | SK_Port | SK_Ipv4Hint | SK_Ipv6Hint | SK_Unknown (k : Z).
Inductive SvcParamValue : Type :=
| SV_Alpn (protos : list string) | SV_Port (p : Z)
| SV_Ipv4Hint (hints : list Ipv4Addr) | SV_Ipv6Hint (hints : list Ipv6Addr)
| SV_Unknown (bytes : list Z).
Record SVCB := {
  svc_priority : Z; target_name : Name; svc_params : list (SvcParamKey * SvcParamValue) }.

(** Any other rdata keeps its type code and its bytes. *)
Inductive RData : Type :=
| RD_A (a : Ipv4Addr) | RD_AAAA (a : Ipv6Addr)
| RD_CNAME (n : Name) | RD_NS (n : Name) | RD_PTR (n : Name)
| RD_SOA (s : SOA) | RD_SVCB (s : SVCB)
| RD_DS (d : DS) | RD_DNSKEY (k : DNSKEY) | RD_RRSIG (s : RRSIG)
| RD_NSEC (n : NSEC) | RD_NSEC3 (n : NSEC3)
| RD_Other (rt : RecordType) (bytes : list Z).

Definition rdata_type (d : RData) : RecordType :=
  match d with
  | RD_A _ => RT_A | RD_AAAA _ => RT_AAAA | RD_CNAME _ => RT_CNAME
  | RD_NS _ => RT_NS | RD_PTR _ => RT_PTR | RD_SOA _ => RT_SOA | RD_SVCB _ => RT_SVCB
  | RD_DS _ => RT_DS | RD_DNSKEY _ => RT_DNSKEY | RD_RRSIG _ => RT_RRSIG
  | RD_NSEC _ => RT_NSEC | RD_NSEC3 _ => RT_NSEC3 | RD_Other rt _ => rt
  end.

(** ** Messages *)

Record DnsRecord := { r_name : Name; r_class : DNSClass; r_ttl : Z; r_data : RData }.
Record Query := { q_name : Name; query_type : RecordType; query_class : DNSClass }.
Record Edns := {
  max_payload : Z; edns_version : Z; dnssec_ok : bool; edns_options : list (Z * list Z) }.
Record Metadata := {
  id : Z; message_type : MessageType; op_code : OpCode;
  authoritative : bool; truncation : bool; recursion_desired : bool;
  recursion_available : bool; authentic_data : bool; checking_disabled : bool;
  response_code : ResponseCode }.
Record Message := {
  metadata : Metadata; queries : list Query; answers : list DnsRecord;
  authorities : list DnsRecord; additionals : list DnsRecord; edns : option Edns }.

(** Assignments to the public fields. *)
Definition with_metadata (f : Metadata → Metadata) (m : Message) : Message :=
  {| metadata := f (metadata m); queries := queries m; answers := answers m;
     authorities := authorities m; additionals := additionals m; edns := edns m |}.
Definition set_meta_id (i : Z) (d : Metadata) : Metadata :=
  {| id := i; message_type := message_type d; op_code := op_code d;
     authoritative := authoritative d; truncation := truncation d;
     recursion_desired := recursion_desired d; recursion_available := recursion_available d;
     authentic_data := authentic_data d; checking_disabled := checking_disabled d;
     response_code := response_code d |}.
Definition set_meta_flags (rd ra ad : bool) (rc : ResponseCode) (d : Metadata) : Metadata :=
  {| id := id d; message_type := message_type d; op_code := op_code d;
     authoritative := authoritative d; truncation := truncation d;
     recursion_desired := rd; recursion_available := ra;
     authentic_data := ad; checking_disabled := checking_disabled d;
     response_code := rc |}.
Definition set_meta_aa (aa : bool) (d : Metadata) : Metadata :=
  {| id := id d; message_type := message_type d; op_code := op_code d;
     authoritative := aa; truncation := truncation d;
     recursion_desired := recursion_desired d; recursion_available := recursion_available d;
     authentic_data := authentic_data d; checking_disabled := checking_disabled d;
     response_code := response_code d |}.

Definition set_id (i : Z) : Message → Message := with_metadata (set_meta_id i).
Definition set_aa (aa : bool) : Message → Message := with_metadata (set_meta_aa aa).
Definition set_ad (ad : bool) (m : Message) : Message :=
  with_metadata (λ d, set_meta_flags (recursion_desired d) (recursion_available d) ad
                        (response_code d) d) m.
Definition set_rd (rd : bool) (m : Message) : Message :=
  with_metadata (λ d, set_meta_flags rd (recursion_available d) (authentic_data d)
                        (response_code d) d) m.
Definition set_ra (ra : bool) (m : Message) : Message :=
  with_metadata (λ d, set_meta_flags (recursion_desired d) ra (authentic_data d)
                        (response_code d) d) m.
Definition set_rcode (rc : ResponseCode) (m : Message) : Message :=
  with_metadata (λ d, set_meta_flags (recursion_desired d) (recursion_available d)
                        (authentic_data d) rc d) m.
Definition set_queries (qs : list Query) (m : Message) : Message :=
  {| metadata := metadata m; queries := qs; answers := answers m;
     authorities := authorities m; additionals := additionals m; edns := edns m |}.
Definition set_answers (rs : list DnsRecord) (m : Message) : Message :=
  {| metadata := metadata m; queries := queries m; answers := rs;
     authorities := authorities m; additionals := additionals m; edns := edns m |}.
Definition set_authorities (rs : list DnsRecord) (m : Message) : Message :=
  {| metadata := metadata m; queries := queries m; answers := answers m;
     authorities := rs; additionals := additionals m; edns := edns m |}.
Definition set_additionals (rs : list DnsRecord) (m : Message) : Message :=
  {| metadata := metadata m; queries := queries m; answers := answers m;
     authorities := authorities m; additionals := rs; edns := edns m |}.
Definition set_edns (e : Edns) (m : Message) : Message :=
  {| metadata := metadata m; queries := queries m; answers := answers m;
     authorities := authorities m; additionals := additionals m; edns := Some e |}.
Definition add_query (q : Query) (m : Message) : Message := set_queries (queries m ++ [q]) m.
Definition add_answer (r : DnsRecord) (m : Message) : Message := set_answers (answers m ++ [r]) m.
Definition add_authority (r : DnsRecord) (m : Message) : Message :=
  set_authorities (authorities m ++ [r]) m.
Definition set_r_name (n : Name) (r : DnsRecord) : DnsRecord :=
  {| r_name := n; r_class := r_class r; r_ttl := r_ttl r; r_data := r_data r |}.
Definition set_r_class (c : DNSClass) (r : DnsRecord) : DnsRecord :=
  {| r_name := r_name r; r_class := c; r_ttl := r_ttl r; r_data := r_data r |}.
Definition set_q_name (n : Name) (q : Query) : Query :=
  {| q_name := n; query_type := query_type q; query_class := query_class q |}.
Definition set_query_class (c : DNSClass) (q : Query) : Query :=
  {| q_name := q_name q; query_type := query_type q; query_class := c |}.

(** [for q in &original.queries { resp.add_query(q.clone()) }] and the like. *)
Definition add_queries (qs : list Query) (m : Message) : Message :=
  fold_left (λ m q, add_query q m) qs m.
Definition add_answers (rs : list DnsRecord) (m : Message) : Message :=
  fold_left (λ m r, add_answer r m) rs m.
Definition add_authorities (rs : list DnsRecord) (m : Message) : Message :=
  fold_left (λ m r, add_authority r m) rs m.
End Messages.

(** ** The library's operations and their laws *)
Class Hickory `{NameOps} := {
  from_bytes : list Z → option Message;
  to_vec : Message → option (list Z);
  message_new : Z → MessageType → OpCode → Message;
  record_from_rdata : Name → Z → RData → DnsRecord;
  query_query : Name → RecordType → Query;
  record_type : DnsRecord → RecordType;
  verify_rrsig : DNSKEY → Name → DNSClass → RRSIG → list DnsRecord → bool;
  ds_covers : DS → Name → DNSKEY → option bool;
  calculate_key_tag : DNSKEY → option Z;
  nsec3_hash : list Z → Name → Z → option (list Z);
  record_type_cmp : RecordType → RecordType → comparison;
  class_cmp : DNSClass → DNSClass → comparison;
  base32hex_decode : list Z → option (list Z);
}.

(** [Message::response(id, op)]. *)
Definition message_response `{Hickory} (i : Z) (o : OpCode) : Message :=
  message_new i MT_Response o.

(** Documented behaviour: a new message has the given identity and otherwise
    empty sections and clear flags; a record built from rdata has class IN; the
    record type is that of its data; the first two bytes of the 12-byte header
    are the message id. *)
Class HickoryLaws `{Hickory} := {
  message_new_spec i t o :
    message_new i t o =
      {| metadata := {| id := i; message_type := t; op_code := o;
           authoritative := false; truncation := false; recursion_desired := false;
           recursion_available := false; authentic_data := false;
           checking_disabled := false; response_code := RC_NoError |};
         queries := []; answers := []; authorities := []; additionals := [];
         edns := None |};
  record_from_rdata_spec n ttl d :
    record_from_rdata n ttl d = {| r_name := n; r_class := DC_IN; r_ttl := ttl; r_data := d |};
  query_query_spec n t :
    query_query n t = {| q_name := n; query_type := t; query_class := DC_IN |};
  record_type_cmp_eq a b : record_type_cmp a b = Eq → a = b;
  class_cmp_eq a b : class_cmp a b = Eq → a = b;
  record_type_spec r : record_type r = rdata_type (r_data r);
  from_bytes_header b m :
    from_bytes b = Some m →
    (12 ≤ length b)%nat ∧ ∃ hi lo rest, b = hi :: lo :: rest ∧ id (metadata m) = from_be16 hi lo;
  to_vec_length m b : to_vec m = Some b → (12 ≤ length b)%nat;
  to_vec_header m b :
    to_vec m = Some b → is_u16 (id (metadata m)) →
    (12 ≤ length b)%nat ∧ ∃ rest, b = to_be16 (id (metadata m)) ++ rest;
}.

(** ** Lemmas on message assembly *)
Section MessageLemmas.
Context `{NameOps}.

Lemma add_queries_eq qs m : add_queries qs m = set_queries (queries m ++ qs) m.
Proof.
  revert m; induction qs as [|q qs IH]; intros m; cbn.
  - by destruct m; cbn; rewrite app_nil_r.
  - unfold add_queries in IH; rewrite IH. by cbn; rewrite <- app_assoc.
Qed.

Lemma add_answers_eq rs m : add_answers rs m = set_answers (answers m ++ rs) m.
Proof.
  revert m; induction rs as [|r rs IH]; intros m; cbn.
  - by destruct m; cbn; rewrite app_nil_r.
  - unfold add_answers in IH; rewrite IH. by cbn; rewrite <- app_assoc.
Qed.

Lemma add_authorities_eq rs m : add_authorities rs m = set_authorities (authorities m ++ rs) m.
Proof.
  revert m; induction rs as [|r rs IH]; intros m; cbn.
  - by destruct m; cbn; rewrite app_nil_r.
  - unfold add_authorities in IH; rewrite IH. by cbn; rewrite <- app_assoc.
Qed.

Lemma add_answers_app rs1 rs2 m : add_answers (rs1 ++ rs2) m = add_answers rs2 (add_answers rs1 m).
Proof. apply fold_left_app. Qed.

Lemma name_eqb_refl `{!NameLaws} n : name_eqb n n = true.
Proof. by apply name_eqb_spec. Qed.

Lemma name_eqb_sym `{!NameLaws} a b : name_eqb a b = name_eqb b a.
Proof. apply eq_bool_prop_intro. rewrite !Is_true_true, !name_eqb_spec. naive_solver. Qed.

Lemma name_eqb_trans `{!NameLaws} a b c :
  name_eqb a b = true → name_eqb b c = true → name_eqb a c = true.
Proof. rewrite !name_eqb_spec. congruence. Qed.

Lemma name_eqb_lower `{!NameLaws} a b :
  name_eqb (to_lowercase a) (to_lowercase b) = name_eqb a b.
Proof.
  apply eq_bool_prop_intro.
  by rewrite !Is_true_true, !name_eqb_spec, !to_lowercase_idemp.
Qed.

(** [to_lowercase a == to_lowercase b], the program's usual comparison, is
    name equality. *)
Lemma name_eqb_lower_eq `{!NameLaws} a b :
  name_eqb (to_lowercase a) (to_lowercase b) = true ↔ to_lowercase a = to_lowercase b.
Proof. rewrite name_eqb_spec, !to_lowercase_idemp. done. Qed.
End MessageLemmas.

Create Rewrite HintDb msg.
#[export] Hint Rewrite @add_queries_eq @add_answers_eq @add_authorities_eq : msg.

(** Unfold the assembly of a message down to its fields. *)
Ltac msg_simpl :=
  repeat (autorewrite with msg; cbn [set_queries set_answers set_authorities set_additionals
    set_edns with_metadata metadata queries answers authorities additionals edns
    set_meta_id set_meta_aa set_meta_flags set_id set_aa set_ad set_rd set_ra set_rcode id message_type op_code
    authoritative truncation recursion_desired recursion_available authentic_data
    checking_disabled response_code r_name r_class r_ttl r_data set_r_name set_r_class
    q_name query_type query_class set_q_name set_query_class app]).
