(* ===== verification/Reference.v ===== *)
(** * A reference instance of the message library

    Concrete names (lists of labels), a header-and-question wire codec and a
    table-driven signature oracle.  The theorems of the development are proved
    for every instance of the classes; this one is what the witnesses compute
    with, and it shows that the laws can hold together. *)
From Stdlib Require Import Ascii String.
From S2P Require Import Prelude Hickory.

Record rname := RN { rlabels : list (list Z); rfqdn : bool }.
#[export] Instance rname_eq_dec : EqDecision rname.
Proof. solve_decision. Defined.
#[export] Instance rname_countable : Countable rname.
Proof.
  refine (inj_countable' (λ n, (rlabels n, rfqdn n)) (λ p, RN p.1 p.2) _).
  by intros [].
Defined.

Definition rlower (n : rname) : rname :=
  RN (map (map to_ascii_lowercase) (rlabels n)) (rfqdn n).
Definition rroot : rname := RN [] true.
Definition rbase (n : rname) : rname := RN (tail (rlabels n)) (rfqdn n).
Definition rnum_labels (n : rname) : nat :=
  match rlabels n with
  | [42] :: rest => Datatypes.length rest
  | l => Datatypes.length l
  end.
Definition rtrim_to (n : rname) (k : nat) : rname :=
  RN (drop (Datatypes.length (rlabels n) - k) (rlabels n)) (rfqdn n).
Definition rzone_of (z n : rname) : bool :=
  let lz := rlabels (rlower z) in
  let ln := rlabels (rlower n) in
  bool_decide (rfqdn z = rfqdn n) &&
  bool_decide (drop (Datatypes.length ln - Datatypes.length lz) ln = lz).

Fixpoint bytes_cmp (a b : list Z) : comparison :=
  match a, b with
  | [], [] => Eq
  | [], _ :: _ => Lt
  | _ :: _, [] => Gt
  | x :: a', y :: b' => match Z.compare x y with Eq => bytes_cmp a' b' | c => c end
  end.
Fixpoint labels_cmp (a b : list (list Z)) : comparison :=
  match a, b with
  | [], [] => Eq
  | [], _ :: _ => Lt
  | _ :: _, [] => Gt
  | x :: a', y :: b' => match bytes_cmp x y with Eq => labels_cmp a' b' | c => c end
  end.
Definition rcmp (a b : rname) : comparison :=
  match labels_cmp (rev (rlabels (rlower a))) (rev (rlabels (rlower b))) with
  | Eq => match rfqdn a, rfqdn b with
          | false, true => Lt | true, false => Gt | _, _ => Eq end
  | c => c
  end.

Definition rto_ascii (n : rname) : string :=
  match rlabels n with
  | [] => "."
  | ls => let s := List.concat (map (λ l, l ++ [46]) ls) in
          string_of_bytes (if rfqdn n then s else removelast s)
  end.

Fixpoint split_dots (acc l : list Z) : list (list Z) :=
  match l with
  | [] => [rev acc]
  | c :: l' => if c =? 46 then rev acc :: split_dots [] l' else split_dots (c :: acc) l'
  end.
Definition rfrom_ascii (s : string) : option rname :=
  match bytes_of_string s with
  | [46] => Some rroot
  | bs =>
      let parts := split_dots [] bs in
      let fq := bool_decide (List.last parts [0] = []) in
      let ls := if fq then removelast parts else parts in
      if forallb (λ l, negb (bool_decide (l = []))) ls then Some (RN ls fq) else None
  end.

#[export] Instance RefNames : NameOps := {|
  Name := rname;
  name_eqb a b := bool_decide (rlower a = rlower b);
  name_cmp := rcmp;
  to_lowercase := rlower;
  to_ascii := rto_ascii;
  from_ascii := rfrom_ascii;
  set_fqdn n b := RN (rlabels n) b;
  is_fqdn := rfqdn;
  root := rroot;
  is_root n := bool_decide (rlower n = rroot);
  base_name n := rbase n;
  num_labels := rnum_labels;
  labels := rlabels;
  trim_to := rtrim_to;
  zone_of := rzone_of;
  append_domain a b := Some (RN (rlabels a ++ rlabels b) (rfqdn b));
|}.

Lemma rlower_idemp n : rlower (rlower n) = rlower n.
Proof.
  unfold rlower; cbn. f_equal. rewrite map_map. apply map_ext. intros l.
  rewrite map_map. apply map_ext, to_ascii_lowercase_idemp.
Qed.

Lemma lower_star l : map to_ascii_lowercase l = [42] ↔ l = [42].
Proof.
  split; [|by intros ->].
  destruct l as [|b [|]]; cbn; [done| |done].
  unfold to_ascii_lowercase, is_ascii_upper. case_match eqn:E; intros [= Hb]; [|by subst].
  apply andb_true_iff in E. lia.
Qed.

Lemma rnum_labels_spec n :
  rnum_labels n = match rlabels n with
                  | l :: rest => if bool_decide (l = [42]) then Datatypes.length rest else S (Datatypes.length rest)
                  | [] => 0%nat end.
Proof.
  unfold rnum_labels. destruct (rlabels n) as [|l rest]; [done|].
  case_bool_decide as E; [by rewrite E|].
  destruct l as [|z [|]]; try done; destruct z; try done.
  all: repeat (match goal with p : positive |- _ => destruct p; try done end).
Qed.

Lemma bytes_cmp_eq a b : bytes_cmp a b = Eq → a = b.
Proof.
  revert b. induction a as [|x a IH]; intros [|y b]; cbn; try done.
  destruct (Z.compare_spec x y) as [->| |]; try done. intros He. by rewrite (IH _ He).
Qed.

Lemma labels_cmp_eq a b : labels_cmp a b = Eq → a = b.
Proof.
  revert b. induction a as [|x a IH]; intros [|y b]; cbn; try done.
  destruct (bytes_cmp x y) eqn:E; try done. intros He.
  by rewrite (bytes_cmp_eq _ _ E), (IH _ He).
Qed.

#[export] Instance RefNameLaws : NameLaws.
Proof.
  split; cbn.
  - intros. apply bool_decide_eq_true.
  - apply rlower_idemp.
  - intros n. rewrite !rnum_labels_spec. destruct n as [[|l ls] f]; cbn; [done|].
    rewrite length_map, (bool_decide_ext _ (l = [42])); [done|]. apply lower_star.
  - intros n. rewrite rnum_labels_spec. destruct (rlabels n); cbn; [lia|]. case_bool_decide; lia.
  - done.
  - done.
  - done.
  - intros. apply bool_decide_eq_true.
  - done.
  - intros [a fa] [b fb]. unfold rcmp, rlower. cbn.
    destruct (labels_cmp _ _) eqn:E; try done. intros Hf.
    apply labels_cmp_eq in E. apply (f_equal (@rev _)) in E. rewrite !rev_involutive in E.
    rewrite E. by destruct fa, fb.
  - done.
  - done.
  - intros [ls f]. cbn. by intros -> ->.
  - intros [ls f] k Hk. assert (Hl : (rnum_labels (rtrim_to (RN ls f) k)
      ≤ Datatypes.length (rlabels (rtrim_to (RN ls f) k)))%nat)
      by (rewrite rnum_labels_spec; destruct (rlabels _); cbn; [lia|case_bool_decide; lia]).
    cbn in Hl. rewrite length_drop in Hl.
    assert (rnum_labels (RN ls f) ≤ Datatypes.length ls)%nat
      by (rewrite rnum_labels_spec; destruct ls; cbn; [lia|case_bool_decide; lia]).
    unfold rtrim_to in *. cbn in *. lia.
  - intros a b. unfold rzone_of. by rewrite !rlower_idemp.
Qed.

(** ** Wire codec: the 12-byte header and the question section *)

Definition flag_byte (bs : list bool) : Z :=
  fold_left (λ acc (b : bool), 2 * acc + (if b then 1 else 0)) bs 0.
Definition rcode_to_Z (rc : ResponseCode) : Z :=
  match rc with
  | RC_NoError => 0 | RC_ServFail => 2 | RC_NXDomain => 3 | RC_NotImp => 4
  | RC_Refused => 5 | RC_Other c => c end.
Definition rcode_of_Z (c : Z) : ResponseCode :=
  match c with
  | 0 => RC_NoError | 2 => RC_ServFail | 3 => RC_NXDomain | 4 => RC_NotImp
  | 5 => RC_Refused | c => RC_Other c end.
Definition rtype_to_Z (t : RecordType) : Z :=
  match t with
  | RT_A => 1 | RT_NS => 2 | RT_CNAME => 5 | RT_SOA => 6 | RT_PTR => 12 | RT_AAAA => 28
  | RT_DS => 43 | RT_RRSIG => 46 | RT_NSEC => 47 | RT_DNSKEY => 48 | RT_NSEC3 => 50
  | RT_SVCB => 64 | RT_Other c => c end.
Definition rtype_of_Z (c : Z) : RecordType :=
  match c with
  | 1 => RT_A | 2 => RT_NS | 5 => RT_CNAME | 6 => RT_SOA | 12 => RT_PTR | 28 => RT_AAAA
  | 43 => RT_DS | 46 => RT_RRSIG | 47 => RT_NSEC | 48 => RT_DNSKEY | 50 => RT_NSEC3
  | 64 => RT_SVCB | c => RT_Other c end.

Definition enc_name (n : rname) : list Z :=
  List.concat (map (λ l, Z.of_nat (Datatypes.length l) :: l) (rlabels n)) ++ [0].
Definition enc_query (q : Query) : list Z :=
  enc_name (q_name q) ++ to_be16 (rtype_to_Z (query_type q)) ++ [0; 1].

Fixpoint dec_labels (fuel : nat) (b : list Z) : option (list (list Z) * list Z) :=
  match fuel, b with
  | S fuel', l :: rest =>
      if l =? 0 then Some ([], rest)
      else let n := Z.to_nat l in
           if (Datatypes.length rest <? n)%nat then None
           else ' (ls, rest') ← dec_labels fuel' (drop n rest);
                Some (take n rest :: ls, rest')
  | _, _ => None
  end.
Definition dec_query (b : list Z) : option Query :=
  match dec_labels 128 b with
  | Some (ls, hi :: lo :: _ :: _ :: _) =>
      Some {| q_name := RN ls true; query_type := rtype_of_Z (from_be16 hi lo);
              query_class := DC_IN |}
  | _ => None
  end.

(** A signature verifies when its bytes are the key's bytes, a DS covers the
    key whose bytes it lists, and a name hashes to its label bytes: simple
    stand-ins that make both outcomes reachable. *)
Definition ref_to_vec (m : Message) : option (list Z) :=
  let d := metadata m in
  Some (to_be16 (id d) ++
    [flag_byte [bool_decide (message_type d = MT_Response); false; false; false; false;
       authoritative d; truncation d; recursion_desired d];
     flag_byte [recursion_available d; false; authentic_data d; checking_disabled d] * 16
       + rcode_to_Z (response_code d) mod 16;
     0; Z.of_nat (Datatypes.length (queries m)); 0; Z.of_nat (Datatypes.length (answers m));
     0; 0; 0; 0] ++ List.concat (map enc_query (queries m))).
Definition ref_from_bytes (b : list Z) : option Message :=
  match b with
  | i1 :: i0 :: f1 :: f0 :: _ :: qd :: _ :: _ :: _ :: _ :: _ :: _ :: rest =>
      Some {| metadata := {| id := from_be16 i1 i0;
                message_type := if Z.testbit f1 7 then MT_Response else MT_Query;
                op_code := OC_Query; authoritative := Z.testbit f1 2;
                truncation := Z.testbit f1 1; recursion_desired := Z.testbit f1 0;
                recursion_available := Z.testbit f0 7; authentic_data := Z.testbit f0 5;
                checking_disabled := Z.testbit f0 4;
                response_code := rcode_of_Z (f0 mod 16) |};
              queries := if qd =? 0 then [] else
                           match dec_query rest with Some q => [q] | None => [] end;
              answers := []; authorities := []; additionals := []; edns := None |}
  | _ => None
  end.

#[export] Instance RefHickory : Hickory := {|
  from_bytes := ref_from_bytes;
  to_vec := ref_to_vec;
  message_new i t o :=
    {| metadata := {| id := i; message_type := t; op_code := o;
         authoritative := false; truncation := false; recursion_desired := false;
         recursion_available := false; authentic_data := false;
         checking_disabled := false; response_code := RC_NoError |};
       queries := []; answers := []; authorities := []; additionals := [];
       edns := None |};
  record_from_rdata n ttl d := {| r_name := n; r_class := DC_IN; r_ttl := ttl; r_data := d |};
  query_query n t := {| q_name := n; query_type := t; query_class := DC_IN |};
  record_type r := rdata_type (r_data r);
  verify_rrsig k _ _ s _ := bool_decide (signature s = public_bytes k);
  ds_covers d _ k := Some (bool_decide (ds_digest d = public_bytes k));
  calculate_key_tag k := head (public_bytes k);
  nsec3_hash _ n _ := Some (List.concat (rlabels (rlower n)));
  record_type_cmp a b := if bool_decide (a = b) then Eq
                         else if (encode a <? encode b)%positive then Lt else Gt;
  class_cmp a b := if bool_decide (a = b) then Eq
                   else if (encode a <? encode b)%positive then Lt else Gt;
  base32hex_decode l := Some l;
|}.

#[export] Instance RefHickoryLaws : HickoryLaws.
Proof.
  split; try done.
  - intros a b. cbn. case_bool_decide; [done|]. by case_match.
  - intros a b. cbn. case_bool_decide; [done|]. by case_match.
  - intros b m. cbn. unfold ref_from_bytes.
    do 12 (destruct b as [|? b]; [done|]). intros [= <-]. cbn. split; [lia|eauto].
  - intros m b [= <-]. cbn. lia.
  - intros m b [= <-] _. cbn. split; [lia|]. by eexists.
Qed.

(** Test names. *)
Definition rn (s : string) : Name := default rroot (rfrom_ascii s).
