(* ===== verification/ZeroX20.v ===== *)
(** * 0x20 case randomisation ([recursor/zeroxtwenty.rs])

    The scanner of the question name, the in-place case randomisation of an
    outbound query and the check of the echoed name.  Randomness is the
    argument [coin]: the draw made for the letter at a byte position. *)
From S2P Require Import Prelude.

Module ZeroX20.

(** ** Model *)

(** The loop of [qname_byte_range]; [fuel] bounds the number of labels. *)
Fixpoint qname_scan (fuel : nat) (msg : list Z) (i : nat) : result nat :=
  match fuel with
  | O => Err "out of fuel"
  | S fuel' =>
      match msg !! i with
      | None => Err "unterminated QNAME"
      | Some len =>
          if len =? 0 then Ok (i + 1)%nat
          else if negb (Z.land len 0xc0 =? 0) then
            Err "compression pointer in question section"
          else if (length msg <? i + 1 + Z.to_nat len)%nat then
            Err "QNAME label overruns message"
          else qname_scan fuel' msg (i + (1 + Z.to_nat len))
      end
  end.

(** The range [12 .. end). *)
Definition qname_byte_range (msg : list Z) : result (nat * nat) :=
  if (length msg <? 12)%nat then Err "DNS message too short for header"
  else e ← qname_scan (S (length msg)) msg 12; Ok (12%nat, e).

(** One iteration of the [for] loop of [encode]. *)
Definition flip_at (coin : nat → bool) (q : list Z) (i : nat) : list Z :=
  match q !! i with
  | Some b => if is_ascii_alphabetic b && coin i then <[i := Z.lxor b 0x20]> q else q
  | None => q
  end.

(** [encode]: the rewritten query and the encoded name bytes. *)
Definition encode (coin : nat → bool) (query : list Z) : result (list Z * list Z) :=
  '(s, e) ← qname_byte_range query;
  let query' := foldl (flip_at coin) query (seq s (e - s)) in
  Ok (query', take (e - s) (drop s query')).

Definition verify_byte (g e : Z) : bool :=
  if is_ascii_alphabetic e then eq_ignore_ascii_case g e else g =? e.

Definition verify (response expected : list Z) : result unit :=
  '(s, e) ← qname_byte_range response;
  let got := take (e - s) (drop s response) in
  if negb (Nat.eqb (length got) (length expected)) then Err "0x20 length mismatch"
  else if forallb (λ p, verify_byte p.1 p.2) (zip got expected) then Ok tt
  else Err "0x20 mismatch (possible spoof)".

(** ** Letters *)

Lemma alpha_cases b :
  is_ascii_alphabetic b = true → (65 ≤ b ≤ 90) ∨ (97 ≤ b ≤ 122).
Proof.
  unfold is_ascii_alphabetic, is_ascii_upper, is_ascii_lower.
  rewrite orb_true_iff, !andb_true_iff. lia.
Qed.

(** Letters have one of the two top bits set, so no length byte of a label
    that the scanner accepts is a letter. *)
Lemma alpha_not_length b : is_ascii_alphabetic b = true → Z.land b 0xc0 ≠ 0.
Proof.
  intros Hb%alpha_cases.
  assert (Forall (λ b, Z.land b 0xc0 ≠ 0) (seqZ 65 58)) as HF by (vm_compute; repeat constructor; done).
  rewrite Forall_forall in HF. apply HF, elem_of_seqZ. lia.
Qed.

Lemma lower_flip b :
  is_ascii_alphabetic b = true → to_ascii_lowercase (Z.lxor b 0x20) = to_ascii_lowercase b.
Proof.
  intros Hb%alpha_cases.
  assert (Forall (λ b, to_ascii_lowercase (Z.lxor b 0x20) = to_ascii_lowercase b)
            (seqZ 65 26 ++ seqZ 97 26)) as HF by (vm_compute; repeat constructor; done).
  rewrite Forall_forall in HF. apply HF, elem_of_app. rewrite !elem_of_seqZ. lia.
Qed.

(** The per-byte test is equality up to ASCII case. *)
Lemma verify_byte_spec g e :
  verify_byte g e = true ↔ to_ascii_lowercase g = to_ascii_lowercase e.
Proof.
  unfold verify_byte, eq_ignore_ascii_case. destruct (is_ascii_alphabetic e) eqn:He.
  - apply Z.eqb_eq.
  - rewrite Z.eqb_eq. split; [by intros ->|].
    revert He. unfold to_ascii_lowercase, is_ascii_alphabetic, is_ascii_upper, is_ascii_lower.
    rewrite orb_false_iff, !andb_false_iff, !Z.leb_gt. intros.
    destruct (65 <=? g) eqn:?, (g <=? 90) eqn:?, (65 <=? e) eqn:?, (e <=? 90) eqn:?;
      cbn in *; rewrite ?Z.leb_le, ?Z.leb_gt in *; lia.
Qed.

Lemma verify_bytes_spec got expected :
  length got = length expected →
  forallb (λ p, verify_byte p.1 p.2) (zip got expected) = true ↔
  map to_ascii_lowercase got = map to_ascii_lowercase expected.
Proof.
  revert expected. induction got as [|g got IH]; intros [|e expected] Hlen; try done.
  cbn in *. rewrite andb_true_iff, verify_byte_spec, IH by lia. naive_solver congruence.
Qed.

(** ** The scanner *)

Lemma qname_scan_bounds fuel msg i e :
  qname_scan fuel msg i = Ok e → (i < e ≤ length msg)%nat ∧ msg !! (e - 1)%nat = Some 0.
Proof.
  revert i. induction fuel as [|fuel IH]; intros i; cbn; [done|].
  destruct (msg !! i) as [len|] eqn:Hi; [|done].
  apply lookup_lt_Some in Hi as Hlt.
  destruct (len =? 0) eqn:Hz.
  - intros [= <-]. split; [lia|]. replace (i + 1 - 1)%nat with i by lia.
    by apply Z.eqb_eq in Hz as <-.
  - repeat (case_match; [done|]). intros [Hb ?]%IH. split; [lia|done].
Qed.

(** Each iteration moves forward, so fuel the length of the message is enough. *)
Lemma qname_scan_fuel fuel msg i :
  (i ≤ length msg < i + fuel)%nat → qname_scan fuel msg i ≠ Err "out of fuel".
Proof.
  revert i. induction fuel as [|fuel IH]; intros i Hf; cbn [qname_scan]; [lia|].
  destruct (msg !! i) as [len|] eqn:Hi; [|done]. apply lookup_lt_Some in Hi.
  repeat case_match; try done. apply IH. rewrite Nat.ltb_ge in *. lia.
Qed.

Lemma qname_byte_range_Ok msg s e :
  qname_byte_range msg = Ok (s, e) ↔
  s = 12%nat ∧ (12 ≤ length msg)%nat ∧ qname_scan (S (length msg)) msg 12 = Ok e.
Proof.
  unfold qname_byte_range. destruct (length msg <? 12)%nat eqn:Hl.
  - apply Nat.ltb_lt in Hl. split; [done|lia].
  - apply Nat.ltb_ge in Hl. rewrite result_bind_Ok. naive_solver.
Qed.

(** ** Case flips *)

(** [b'] is [b] or, when [b] is a letter, its other case. *)
Definition case_variant (b b' : Z) : Prop :=
  b' = b ∨ (is_ascii_alphabetic b = true ∧ b' = Z.lxor b 0x20).

Lemma case_variant_lower b b' :
  case_variant b b' → to_ascii_lowercase b' = to_ascii_lowercase b.
Proof. intros [->|[? ->]]; [done|by apply lower_flip]. Qed.

Lemma case_variants_lower q q' :
  Forall2 case_variant q q' → map to_ascii_lowercase q' = map to_ascii_lowercase q.
Proof. induction 1; cbn; [done|]. f_equal; [by apply case_variant_lower|done]. Qed.

(** Recasing the letters of a message leaves the scan unchanged. *)
Lemma qname_scan_case fuel q q' i e :
  Forall2 case_variant q q' → qname_scan fuel q i = Ok e → qname_scan fuel q' i = Ok e.
Proof.
  intros Hqq. pose proof (Forall2_length _ _ _ Hqq) as Hlen.
  revert i. induction fuel as [|fuel IH]; intros i; cbn; [done|].
  destruct (q !! i) as [len|] eqn:Hi; [|done].
  destruct (Forall2_lookup_l _ _ _ _ _ Hqq Hi) as (len' & -> & Hv).
  destruct (len =? 0) eqn:Hz.
  - intros He. destruct Hv as [->|[Ha ->]]; [by rewrite Hz|].
    apply Z.eqb_eq in Hz as ->. done.
  - destruct (Z.land len 0xc0 =? 0) eqn:Hc; [|done]. cbn.
    assert (len' = len) as ->.
    { destruct Hv as [?|[Ha _]]; [done|]. apply alpha_not_length in Ha.
      apply Z.eqb_eq in Hc. done. }
    rewrite Hz, Hc, <- Hlen. cbn. case_match; [done|]. apply IH.
Qed.

Lemma flip_at_lookup coin q i j :
  flip_at coin q i !! j =
    (if decide (i = j)
     then (λ b, if is_ascii_alphabetic b && coin i then Z.lxor b 0x20 else b) <$> q !! j
     else q !! j).
Proof.
  unfold flip_at. destruct (q !! i) as [b|] eqn:Hi; case_decide as Hd.
  - subst j. rewrite Hi. cbn. case_match; [|done].
    apply list_lookup_insert_eq. by eapply lookup_lt_Some.
  - case_match; [|done]. by apply list_lookup_insert_ne.
  - subst j. by rewrite Hi.
  - done.
Qed.

(** The loop of [encode]: the letters at the positions of the range are
    flipped when their coin says so, every other byte is untouched. *)
Lemma flips_lookup coin q s n j :
  foldl (flip_at coin) q (seq s n) !! j =
    (if decide (s ≤ j < s + n)%nat
     then (λ b, if is_ascii_alphabetic b && coin j then Z.lxor b 0x20 else b) <$> q !! j
     else q !! j).
Proof.
  revert q s. induction n as [|n IH]; intros q s; cbn.
  - case_decide; [lia|done].
  - rewrite IH, flip_at_lookup. repeat case_decide; subst; try lia; try done.
Qed.

Lemma flips_length coin q l : length (foldl (flip_at coin) q l) = length q.
Proof.
  revert q. induction l as [|i l IH]; intros q; cbn; [done|].
  rewrite IH. unfold flip_at. repeat case_match; rewrite ?length_insert; done.
Qed.

Lemma flips_case coin q s n : Forall2 case_variant q (foldl (flip_at coin) q (seq s n)).
Proof.
  apply Forall2_same_length_lookup_2; [by rewrite flips_length|].
  intros j b b' Hb. rewrite flips_lookup, Hb. unfold case_variant.
  case_decide; cbn; [|naive_solver].
  destruct (is_ascii_alphabetic b), (coin j); cbn; naive_solver.
Qed.

Lemma qname_byte_range_case q q' r :
  Forall2 case_variant q q' → qname_byte_range q = Ok r → qname_byte_range q' = Ok r.
Proof.
  intros Hqq. destruct r as [s e]. rewrite !qname_byte_range_Ok.
  rewrite <- (Forall2_length _ _ _ Hqq). intros (?&?&?). eauto using qname_scan_case.
Qed.

(** ** Correctness *)

Lemma verify_Ok_iff response expected :
  verify response expected = Ok tt ↔
  ∃ e, qname_byte_range response = Ok (12%nat, e) ∧
       map to_ascii_lowercase (take (e - 12) (drop 12 response)) =
       map to_ascii_lowercase expected.
Proof.
  unfold verify. rewrite result_bind_Ok. split.
  - intros ([s e] & Hr & Hv). apply qname_byte_range_Ok in Hr as Hs. destruct Hs as [-> _].
    exists e. split; [done|]. case_match eqn:Hl; [done|].
    apply negb_false_iff, Nat.eqb_eq in Hl. case_match eqn:Hf; [|done].
    by apply verify_bytes_spec in Hf.
  - intros (e & Hr & Hm). exists (12%nat, e). split; [done|].
    assert (length (take (e - 12) (drop 12 response)) = length expected) as Hl
      by (by apply (f_equal length) in Hm; rewrite !length_map in Hm).
    rewrite Hl, Nat.eqb_refl. cbn.
    by rewrite (proj2 (verify_bytes_spec _ _ Hl) Hm).
Qed.

(** ** The wire layout of a question name *)

(** Length-prefixed labels and the terminating zero. *)
Definition wire_name (ls : list (list Z)) : list Z :=
  concat (map (λ l, Z.of_nat (length l) :: l) ls) ++ [0].
Definition valid_label (l : list Z) : Prop := (1 ≤ length l ≤ 63)%nat.

Lemma length_bits_clear len : is_byte len → Z.land len 0xc0 = 0 ↔ len < 64.
Proof.
  intros Hb.
  assert (Forall (λ b, Z.land b 0xc0 = 0 ↔ b < 64) (seqZ 0 256)) as HF.
  { apply Forall_forall. intros b Hb'%elem_of_seqZ.
    assert (forallb (λ b, Bool.eqb (Z.land b 0xc0 =? 0) (b <? 64)) (seqZ 0 256) = true) as Hc
      by (vm_compute; done).
    rewrite forallb_forall in Hc. specialize (Hc b).
    rewrite <- list_elem_of_In, elem_of_seqZ, Bool.eqb_true_iff in Hc.
    specialize (Hc Hb'). rewrite <- Z.eqb_eq, <- Z.ltb_lt. by rewrite Hc. }
  rewrite Forall_forall in HF. apply HF, elem_of_seqZ. unfold is_byte in Hb. lia.
Qed.

Lemma drop_cons_lookup {A} (l : list A) i x rest :
  drop i l = x :: rest → l !! i = Some x ∧ drop (S i) l = rest.
Proof.
  intros H. assert (drop i l !! 0%nat = Some x) as H0 by (by rewrite H).
  rewrite lookup_drop, Nat.add_0_r in H0. split; [done|].
  apply drop_S in H0. rewrite H in H0. congruence.
Qed.

Lemma qname_scan_complete fuel msg i ls rest :
  Forall valid_label ls → (length ls < fuel)%nat → drop i msg = wire_name ls ++ rest →
  qname_scan fuel msg i = Ok (i + length (wire_name ls))%nat.
Proof.
  intros Hv. revert fuel i. induction Hv as [|l ls Hl Hv IH]; intros fuel i Hf Hd.
  all: destruct fuel as [|fuel]; [cbn in Hf; lia|]; cbn [qname_scan].
  - destruct (drop_cons_lookup _ _ _ _ Hd) as [-> _]. done.
  - unfold wire_name in Hd. cbn in Hd. unfold valid_label in Hl.
    destruct (drop_cons_lookup _ _ _ _ Hd) as [-> Hd'].
    rewrite (proj2 (Z.eqb_neq _ _)) by lia.
    rewrite (proj2 (Z.eqb_eq _ _)) by (apply length_bits_clear; unfold is_byte; lia).
    cbn [negb]. rewrite Nat2Z.id.
    assert (length (drop i msg) = S (length l + length (wire_name ls ++ rest)))%nat as Hlen.
    { rewrite Hd. cbn. unfold wire_name. rewrite !length_app. cbn. lia. }
    rewrite length_drop in Hlen. case_match eqn:Ho; [apply Nat.ltb_lt in Ho; lia|].
    rewrite IH.
    + unfold wire_name. cbn. rewrite !length_app. cbn. f_equal. lia.
    + cbn in Hf. lia.
    + replace (i + (1 + length l))%nat with (S i + length l)%nat by lia.
      rewrite <- drop_drop, Hd'. unfold wire_name. rewrite <- !app_assoc. by rewrite drop_app_length.
Qed.

Lemma qname_scan_sound fuel msg i e :
  Forall is_byte msg → qname_scan fuel msg i = Ok e →
  ∃ ls rest, Forall valid_label ls ∧ drop i msg = wire_name ls ++ rest ∧
             e = (i + length (wire_name ls))%nat.
Proof.
  intros Hb. revert i. induction fuel as [|fuel IH]; intros i; cbn [qname_scan]; [done|].
  destruct (msg !! i) as [len|] eqn:Hi; [|done].
  apply (Forall_lookup_1 _ _ _ _ Hb) in Hi as Hlb. apply drop_S in Hi.
  destruct (len =? 0) eqn:Hz.
  { apply Z.eqb_eq in Hz as ->. intros [= <-]. exists [], (drop (S i) msg). done. }
  destruct (Z.land len 0xc0 =? 0) eqn:Hc; [|done]. cbn [negb].
  apply Z.eqb_neq in Hz. apply Z.eqb_eq, length_bits_clear in Hc; [|done].
  case_match eqn:Ho; [done|]. apply Nat.ltb_ge in Ho.
  intros (ls & rest & Hv & Hd & ->)%IH. unfold is_byte in Hlb.
  assert (length (take (Z.to_nat len) (drop (S i) msg)) = Z.to_nat len) as Hlt
    by (rewrite length_take, length_drop; lia).
  exists (take (Z.to_nat len) (drop (S i) msg) :: ls), rest. split_and!.
  - constructor; [|done]. unfold valid_label. lia.
  - rewrite Hi. unfold wire_name in *. cbn. rewrite Hlt, Z2Nat.id by lia. f_equal.
    rewrite <- !app_assoc. rewrite <- app_assoc in Hd. rewrite <- Hd.
    replace (i + (1 + Z.to_nat len))%nat with (S i + Z.to_nat len)%nat by lia.
    by rewrite <- drop_drop, take_drop.
  - unfold wire_name. cbn. rewrite !length_app, Hlt. cbn. lia.
Qed.

Lemma wire_name_length ls : Forall valid_label ls → (length ls < length (wire_name ls))%nat.
Proof.
  unfold wire_name. induction 1 as [|l ls Hl _ IH]; cbn; [lia|].
  rewrite !length_app in *. cbn in *. lia.
Qed.

(** The scanner accepts exactly the messages whose bytes after the 12-byte
    header are a sequence of length-prefixed labels of 1 to 63 bytes and a zero,
    and the range it returns is exactly that name; it never runs past the
    message and always terminates. *)
Theorem qname_byte_range_spec msg s e :
  Forall is_byte msg →
  qname_byte_range msg = Ok (s, e) ↔
  ∃ hdr ls rest, msg = hdr ++ wire_name ls ++ rest ∧ length hdr = 12%nat ∧
    Forall valid_label ls ∧ s = 12%nat ∧ e = (12 + length (wire_name ls))%nat.
Proof.
  intros Hb. rewrite qname_byte_range_Ok. split.
  - intros (-> & Hlen & Hs). destruct (qname_scan_sound _ _ _ _ Hb Hs) as (ls & rest & Hv & Hd & ->).
    exists (take 12 msg), ls, rest. rewrite <- Hd, take_drop, length_take. split_and!; try done. lia.
  - intros (hdr & ls & rest & -> & Hh & Hv & -> & ->). split; [done|].
    pose proof (wire_name_length _ Hv). rewrite !length_app. split; [lia|].
    apply qname_scan_complete with rest; [done|lia|]. by rewrite <- Hh, drop_app_length.
Qed.

Lemma qname_byte_range_spec_witness :
  ∃ hdr ls rest, [0;0;0;0;0;1;0;0;0;0;0;0; 1;97;0; 9] = hdr ++ wire_name ls ++ rest ∧
    length hdr = 12%nat ∧ Forall valid_label ls ∧ 12%nat = 12%nat ∧
    15%nat = (12 + length (wire_name ls))%nat.
Proof.
  apply (qname_byte_range_spec [0;0;0;0;0;1;0;0;0;0;0;0; 1;97;0; 9] 12 15).
  - repeat constructor; unfold is_byte; lia.
  - reflexivity.
Defined.

(** C33. Whatever the coin flips, an encoded query keeps its length, every byte
    outside the question name and every byte up to letter case, and its own
    echo passes the verification against the returned mask. *)
Theorem encode_verify coin query query' mask :
  encode coin query = Ok (query', mask) →
  verify query' mask = Ok tt ∧
  length query' = length query ∧
  map to_ascii_lowercase query' = map to_ascii_lowercase query ∧
  ∀ j, (j < 12 ∨ 12 + length mask ≤ j)%nat → query' !! j = query !! j.
Proof.
  unfold encode. rewrite result_bind_Ok. intros ([s e] & Hr & [= <- <-]).
  pose proof (qname_byte_range_case _ _ _ (flips_case coin query s (e - s)) Hr) as Hr'.
  apply qname_byte_range_Ok in Hr as (-> & Hlen & Hs).
  apply qname_scan_bounds in Hs as [? _]. split_and!.
  - apply verify_Ok_iff. eauto.
  - apply flips_length.
  - apply case_variants_lower, flips_case.
  - rewrite length_take, length_drop, flips_length. intros j Hj.
    rewrite flips_lookup. case_decide; [lia|done].
Qed.

Lemma encode_verify_witness :
  encode (λ _, true) [0;1;1;0;0;1;0;0;0;0;0;0; 2;97;53;0; 0;1;0;1]
    = Ok ([0;1;1;0;0;1;0;0;0;0;0;0; 2;65;53;0; 0;1;0;1], [2;65;53;0]) ∧
  verify [0;1;1;0;0;1;0;0;0;0;0;0; 2;65;53;0; 0;1;0;1] [2;65;53;0] = Ok tt.
Proof.
  split; [reflexivity|].
  apply (encode_verify (λ _, true) [0;1;1;0;0;1;0;0;0;0;0;0; 2;97;53;0; 0;1;0;1]).
  reflexivity.
Defined.

(** A response is accepted exactly when its question name is well formed
    and equals the name that was sent up to ASCII case: letters may be recased,
    length bytes, digits and hyphens may not change. *)
Theorem verify_accepts response expected :
  verify response expected = Ok tt ↔
  ∃ e, qname_byte_range response = Ok (12%nat, e) ∧
       map to_ascii_lowercase (take (e - 12) (drop 12 response)) =
       map to_ascii_lowercase expected.
Proof. apply verify_Ok_iff. Qed.

End ZeroX20.
