(* ===== verification/Net.v ===== *)
(** * CIDR networks as the program sees them

    The crate [ipnet] is not part of the repository: a network is the address
    and prefix length it was written with, parsing and the containment test are
    operations of the class [IpNets], and [IpNetLaws] states the documented
    meaning of containment. *)
From S2P Require Import Prelude Hickory.

Record Ipv6Net := { net6_addr : Ipv6Addr; net6_prefix_len : Z }.
Record IpNet := { net_ip : IpAddr; net_prefix_len : Z }.

Class IpNets := {
  parse_net6 : string → option Ipv6Net;
  net6_contains : Ipv6Net → Ipv6Addr → bool;
  ipnet_contains : IpNet → IpAddr → bool;
}.

(** The octets of an address as one big-endian number. *)
Definition octets_value (l : list Z) : Z := foldl (λ acc b, acc * 256 + b) 0 l.

(** [a] and [b], of [bits] bits, agree on their first [len] bits. *)
Definition same_prefix (bits len : Z) (a b : list Z) : Prop :=
  octets_value a / 2 ^ (bits - len) = octets_value b / 2 ^ (bits - len).

Class IpNetLaws `{IpNets} := {
  net6_contains_spec p a :
    is_v6_addr (net6_addr p) → is_v6_addr a → 0 ≤ net6_prefix_len p ≤ 128 →
    net6_contains p a = true ↔ same_prefix 128 (net6_prefix_len p) (net6_addr p) a;
  ipnet_contains_v4 n a b :
    net_ip n = V4 b → is_v4_addr a → is_v4_addr b → 0 ≤ net_prefix_len n ≤ 32 →
    ipnet_contains n (V4 a) = true ↔ same_prefix 32 (net_prefix_len n) b a;
  ipnet_contains_v6 n a b :
    net_ip n = V6 b → is_v6_addr a → is_v6_addr b → 0 ≤ net_prefix_len n ≤ 128 →
    ipnet_contains n (V6 a) = true ↔ same_prefix 128 (net_prefix_len n) b a;
  ipnet_contains_family n a : is_ipv4 (net_ip n) ≠ is_ipv4 a → ipnet_contains n a = false;
}.

Lemma octets_value_acc l acc :
  foldl (λ acc b, acc * 256 + b) acc l = acc * 256 ^ Z.of_nat (length l) + octets_value l.
Proof.
  unfold octets_value. revert acc. induction l as [|b l IH]; intros acc; cbn [foldl length].
  - cbn. lia.
  - rewrite IH, (IH (0 * 256 + b)). rewrite Nat2Z.inj_succ, Z.pow_succ_r by lia. lia.
Qed.

Lemma octets_value_app l1 l2 :
  octets_value (l1 ++ l2) = octets_value l1 * 256 ^ Z.of_nat (length l2) + octets_value l2.
Proof. unfold octets_value at 1. by rewrite foldl_app, octets_value_acc. Qed.

Lemma octets_value_bound l :
  Forall is_byte l → 0 ≤ octets_value l < 256 ^ Z.of_nat (length l).
Proof.
  induction l as [|b l IH] using rev_ind; intros Hb; [cbn; lia|].
  apply Forall_app in Hb as [Hl [Hb _]%Forall_cons]. specialize (IH Hl). unfold is_byte in Hb.
  rewrite octets_value_app, length_app, Nat2Z.inj_add, Z.pow_add_r by lia. cbn -[Z.mul Z.pow].
  change (octets_value [b]) with (0 * 256 + b). change (256 ^ 1) with 256. lia.
Qed.

Lemma octets_value_inj l1 l2 :
  length l1 = length l2 → Forall is_byte l1 → Forall is_byte l2 →
  octets_value l1 = octets_value l2 → l1 = l2.
Proof.
  revert l2. induction l1 as [|b l1 IH] using rev_ind; intros l2 Hlen H1 H2 Hv.
  - by destruct l2.
  - destruct l2 as [|b2 l2 _] using rev_ind; [rewrite length_app in Hlen; cbn in Hlen; lia|].
    rewrite !length_app in Hlen. cbn in Hlen.
    apply Forall_app in H1 as [Hl1 [Hb1 _]%Forall_cons], H2 as [Hl2 [Hb2 _]%Forall_cons].
    rewrite !octets_value_app in Hv. cbn [length] in Hv. change (256 ^ Z.of_nat 1) with 256 in Hv.
    change (octets_value [b]) with (0 * 256 + b) in Hv.
    change (octets_value [b2]) with (0 * 256 + b2) in Hv. unfold is_byte in *.
    assert (octets_value l1 = octets_value l2) as Hv' by lia.
    f_equal; [apply IH; auto; lia|f_equal; lia].
Qed.

(** On a whole number of octets, agreeing on the prefix is having the same
    leading octets. *)
Lemma same_prefix_octets k a b :
  length a = length b → Forall is_byte a → Forall is_byte b → (k ≤ length a)%nat →
  same_prefix (8 * Z.of_nat (length a)) (8 * Z.of_nat k) a b ↔ take k a = take k b.
Proof.
  intros Hlen Ha Hb Hk. unfold same_prefix.
  assert (∀ l, length l = length a → Forall is_byte l →
    octets_value l / 2 ^ (8 * Z.of_nat (length a) - 8 * Z.of_nat k) = octets_value (take k l)) as Hdiv.
  { intros l Hl Hbl. rewrite <- (take_drop k l) at 1. rewrite octets_value_app.
    assert (length (drop k l) = (length a - k)%nat) as Hd by (rewrite length_drop; lia).
    pose proof (octets_value_bound (drop k l) (Forall_drop _ _ _ Hbl)) as Hbd.
    rewrite Hd in *.
    replace (2 ^ (8 * Z.of_nat (length a) - 8 * Z.of_nat k))
      with (256 ^ Z.of_nat (length a - k)).
    2:{ change 256 with (2 ^ 8). rewrite <- Z.pow_mul_r by lia. f_equal. lia. }
    rewrite Z.div_add_l, (Z.div_small (octets_value (drop k l))) by lia. lia. }
  rewrite !Hdiv by auto. split; [|congruence].
  apply octets_value_inj; rewrite ?length_take; auto using Forall_take.
Qed.

(** A computable instance: compare the numbers.  Its parser knows only the
    well-known NAT64 prefix. *)
Definition ref_same_prefix (bits len : Z) (a b : list Z) : bool :=
  octets_value a / 2 ^ (bits - len) =? octets_value b / 2 ^ (bits - len).

#[export] Instance RefNets : IpNets := {|
  parse_net6 s :=
    if String.eqb s "64:ff9b::/96"
    then Some {| net6_addr := [0;100;255;155;0;0;0;0;0;0;0;0;0;0;0;0]; net6_prefix_len := 96 |}
    else None;
  net6_contains p a := ref_same_prefix 128 (net6_prefix_len p) (net6_addr p) a;
  ipnet_contains n a :=
    match net_ip n, a with
    | V4 b, V4 a => ref_same_prefix 32 (net_prefix_len n) b a
    | V6 b, V6 a => ref_same_prefix 128 (net_prefix_len n) b a
    | _, _ => false
    end;
|}.

#[export] Instance RefNetLaws : IpNetLaws.
Proof.
  split; cbn.
  - intros. apply Z.eqb_eq.
  - intros n a b -> **. apply Z.eqb_eq.
  - intros n a b -> **. apply Z.eqb_eq.
  - intros n a. by destruct (net_ip n), a.
Qed.

(** ** Address scopes

    The predicates of [std::net] the program uses, on octets. *)
Definition v4_is_private (a : Ipv4Addr) : bool :=
  match a with
  | [x; y; _; _] => (x =? 10) || ((x =? 172) && (16 <=? y) && (y <=? 31))
                    || ((x =? 192) && (y =? 168))
  | _ => false
  end.
Definition v4_is_loopback (a : Ipv4Addr) : bool :=
  match a with [x; _; _; _] => x =? 127 | _ => false end.
Definition v4_is_link_local (a : Ipv4Addr) : bool :=
  match a with [x; y; _; _] => (x =? 169) && (y =? 254) | _ => false end.
Definition v4_is_unspecified (a : Ipv4Addr) : bool := bool_decide (a = [0; 0; 0; 0]).
Definition v4_is_broadcast (a : Ipv4Addr) : bool := bool_decide (a = [255; 255; 255; 255]).
Definition v4_is_documentation (a : Ipv4Addr) : bool :=
  match a with
  | [x; y; z; _] => ((x =? 192) && (y =? 0) && (z =? 2))
                    || ((x =? 198) && (y =? 51) && (z =? 100))
                    || ((x =? 203) && (y =? 0) && (z =? 113))
  | _ => false
  end.
Definition v4_is_multicast (a : Ipv4Addr) : bool :=
  match a with [x; _; _; _] => (224 <=? x) && (x <=? 239) | _ => false end.
Definition v6_is_loopback (a : Ipv6Addr) : bool :=
  bool_decide (a = [0;0;0;0;0;0;0;0;0;0;0;0;0;0;0;1]).
Definition v6_is_unspecified (a : Ipv6Addr) : bool :=
  bool_decide (a = [0;0;0;0;0;0;0;0;0;0;0;0;0;0;0;0]).
Definition v6_is_multicast (a : Ipv6Addr) : bool :=
  match a with x :: _ => x =? 255 | [] => false end.
Definition to_ipv4_mapped (a : Ipv6Addr) : option Ipv4Addr :=
  if bool_decide (take 12 a = [0;0;0;0;0;0;0;0;0;0;255;255]) then Some (drop 12 a) else None.

(** Masking the first segment: [fc00::/7] and [fe80::/10]. *)
Definition segment_masks_ok (hi lo : Z) : bool :=
  Bool.eqb (Z.land (from_be16 hi lo) 0xfe00 =? 0xfc00) ((hi =? 252) || (hi =? 253))
  && Bool.eqb (Z.land (from_be16 hi lo) 0xffc0 =? 0xfe80)
       ((hi =? 254) && (128 <=? lo) && (lo <? 192)).

Lemma segment_masks hi lo :
  is_byte hi → is_byte lo →
  (Z.land (from_be16 hi lo) 0xfe00 =? 0xfc00) = ((hi =? 252) || (hi =? 253)) ∧
  (Z.land (from_be16 hi lo) 0xffc0 =? 0xfe80) = ((hi =? 254) && (128 <=? lo) && (lo <? 192)).
Proof.
  assert (Hall : Forall (λ h, Forall (λ l, segment_masks_ok h l = true) (seqZ 0 256)) (seqZ 0 256)).
  { apply List.Forall_forall. intros h Hh. apply List.Forall_forall. intros l Hl.
    revert h Hh l Hl.
    assert (Hc : forallb (λ h, forallb (segment_masks_ok h) (seqZ 0 256)) (seqZ 0 256) = true)
      by (vm_compute; reflexivity).
    intros h Hh l Hl. rewrite forallb_forall in Hc. specialize (Hc h Hh).
    rewrite forallb_forall in Hc. exact (Hc l Hl). }
  intros Hh Hl. rewrite Forall_forall in Hall.
  specialize (Hall hi (proj2 (elem_of_seqZ _ _ _) Hh)).
  rewrite Forall_forall in Hall. specialize (Hall lo (proj2 (elem_of_seqZ _ _ _) Hl)).
  apply andb_true_iff in Hall as [H1%eqb_prop H2%eqb_prop]. done.
Qed.

(** The octets of an address, made explicit. *)
Lemma is_v4_addr_inv a : is_v4_addr a → ∃ w x y z, a = [w; x; y; z] ∧
  is_byte w ∧ is_byte x ∧ is_byte y ∧ is_byte z.
Proof.
  intros [Hl Hb]. do 4 (destruct a as [|? a]; [done|]). destruct a; [|done].
  rewrite !Forall_cons in Hb. eexists _, _, _, _. split; [done|]. tauto.
Qed.

Lemma is_v6_addr_inv a : is_v6_addr a → ∃ hi lo rest, a = hi :: lo :: rest ∧
  is_byte hi ∧ is_byte lo ∧ length rest = 14%nat ∧ Forall is_byte rest.
Proof.
  intros [Hl Hb]. do 2 (destruct a as [|? a]; [done|]). rewrite !Forall_cons in Hb.
  eexists _, _, _. split; [done|]. cbn in Hl. split_and!; try apply Hb. lia.
Qed.

Lemma same_prefix_v4 len w x y z w' x' y' z' :
  same_prefix 32 len [w; x; y; z] [w'; x'; y'; z'] ↔
  (((w * 256 + x) * 256 + y) * 256 + z) / 2 ^ (32 - len)
  = (((w' * 256 + x') * 256 + y') * 256 + z') / 2 ^ (32 - len).
Proof. done. Qed.

Lemma same_prefix_v6 len hi lo rest hi' lo' rest' :
  length rest = 14%nat → length rest' = 14%nat →
  same_prefix 128 len (hi :: lo :: rest) (hi' :: lo' :: rest') ↔
  ((hi * 256 + lo) * 2 ^ 112 + octets_value rest) / 2 ^ (128 - len)
  = ((hi' * 256 + lo') * 2 ^ 112 + octets_value rest') / 2 ^ (128 - len).
Proof.
  intros H1 H2. unfold same_prefix.
  change (hi :: lo :: rest) with ([hi; lo] ++ rest). change (hi' :: lo' :: rest') with ([hi'; lo'] ++ rest').
  rewrite !octets_value_app, H1, H2. change (256 ^ Z.of_nat 14) with (2 ^ 112). done.
Qed.
