(* ===== verification/Dns64.v ===== *)
(** * DNS64 synthesis ([recursor/dns64.rs])

    The NAT64 address embedding and its inverse, the decoding of [ip6.arpa]
    names, the decision to synthesise and the assembly of the synthesised
    responses. *)
From stdpp Require Import pretty.
From S2P Require Import Prelude Hickory Net Reference.

Module Dns64.
Section Dns64.
Context `{NameOps, !Hickory, IpNets}.

(** ** Policy *)

Definition DEFAULT_PREFIX : string := "64:ff9b::/96".
Definition DEFAULT_EXCLUSIONS : list string := [].

(** [config::Dns64]. *)
Record Dns64Cfg := { cfg_prefix : option string; cfg_exclusions : list string }.
Record Dns64Policy := { prefix : Ipv6Net; exclusions : list Name }.

Definition valid_prefix_length (len : Z) : bool :=
  bool_decide (len ∈ [32; 40; 48; 56; 64; 96]).

Definition from_config (cfg : Dns64Cfg) : result Dns64Policy :=
  let prefix_str := default DEFAULT_PREFIX (cfg_prefix cfg) in
  p ← ok_or "invalid dns64 prefix" (parse_net6 prefix_str);
  if negb (valid_prefix_length (net6_prefix_len p)) then
    Err "dns64 prefix length not valid per RFC 6052"
  else
    defaults ← ok_or "unwrap" (mapM from_ascii DEFAULT_EXCLUSIONS);
    extra ← ok_or "bad dns64 exclusion" (mapM from_ascii (cfg_exclusions cfg));
    Ok {| prefix := p; exclusions := map to_lowercase defaults ++ map to_lowercase extra |}.

(** [default_wkp]; the [expect]s and [unwrap]s that panic are [None]. *)
Definition default_wkp : option Dns64Policy :=
  p ← parse_net6 DEFAULT_PREFIX;
  ex ← mapM from_ascii DEFAULT_EXCLUSIONS;
  Some {| prefix := p; exclusions := map to_lowercase ex |}.

Definition is_excluded (policy : Dns64Policy) (qname : Name) : bool :=
  let lq := to_lowercase qname in
  existsb (λ ex, zone_of ex lq || name_eqb lq ex) (exclusions policy).

(** ** Address embedding *)

(** [addr[i..i + len].copy_from_slice(bs)]. *)
Definition copy_at (i : nat) (bs l : list Z) : list Z :=
  take i l ++ bs ++ drop (i + length bs) l.
(** [v[i..j]]. *)
Definition slice (i j : nat) (l : list Z) : list Z := take (j - i) (drop i l).

(** [None] is the [unreachable!()] panic. *)
Definition embed_v4 (p : Ipv6Net) (v4 : Ipv4Addr) : option Ipv6Addr :=
  let addr := net6_addr p in
  let v4_bytes := v4 in
  match net6_prefix_len p with
  | 32 => Some (copy_at 4 v4_bytes addr)
  | 40 => Some (copy_at 9 (slice 3 4 v4_bytes) (copy_at 8 [0] (copy_at 5 (slice 0 3 v4_bytes) addr)))
  | 48 => Some (copy_at 9 (slice 2 4 v4_bytes) (copy_at 8 [0] (copy_at 6 (slice 0 2 v4_bytes) addr)))
  | 56 => Some (copy_at 9 (slice 1 4 v4_bytes) (copy_at 8 [0] (copy_at 7 (slice 0 1 v4_bytes) addr)))
  | 64 => Some (copy_at 9 v4_bytes (copy_at 8 [0] addr))
  | 96 => Some (copy_at 12 v4_bytes addr)
  | _ => None
  end.

(** [Ipv4Addr::new(o[i], o[j], o[k], o[l])]. *)
Definition pick4 (o : list Z) (i j k l : nat) : option Ipv4Addr :=
  a ← o !! i; b ← o !! j; c ← o !! k; d ← o !! l; Some [a; b; c; d].

Definition extract_v4 (p : Ipv6Net) (o : Ipv6Addr) : option Ipv4Addr :=
  if negb (net6_contains p o) then None
  else match net6_prefix_len p with
       | 32 => pick4 o 4 5 6 7
       | 40 => pick4 o 5 6 7 9
       | 48 => pick4 o 6 7 9 10
       | 56 => pick4 o 7 9 10 11
       | 64 => pick4 o 9 10 11 12
       | 96 => pick4 o 12 13 14 15
       | _ => None
       end.

(** ** [ip6.arpa] names *)

(** [char::to_digit(16)]. *)
Definition to_digit16 (c : Z) : option Z :=
  if (48 <=? c) && (c <=? 57) then Some (c - 48)
  else if (97 <=? c) && (c <=? 102) then Some (c - 87)
  else if (65 <=? c) && (c <=? 70) then Some (c - 55)
  else None.

Definition nibble_of_label (lbl : list Z) : option Z :=
  match lbl with [c] => to_digit16 c | _ => None end.

(** [bytes[i] = (nibbles[i * 2] << 4) | nibbles[i * 2 + 1]]. *)
Fixpoint pack_nibbles (nibbles : list Z) : list Z :=
  match nibbles with
  | hi :: lo :: rest => Z.lor (Z.shiftl hi 4) lo :: pack_nibbles rest
  | _ => []
  end.

Definition LBL_IP6 : list Z := [105; 112; 54].
Definition LBL_ARPA : list Z := [97; 114; 112; 97].

Definition ip6_arpa_to_addr (name : Name) : option Ipv6Addr :=
  let lower := to_lowercase name in
  if negb (Nat.eqb (num_labels lower) 34) then None
  else
    let ls := labels lower in
    if (length ls <? 34)%nat then None
    else if negb (bool_decide (ls !! 32%nat = Some LBL_IP6)
                  && bool_decide (ls !! 33%nat = Some LBL_ARPA)) then None
    else
      nibbles ← mapM nibble_of_label (take 32 ls);
      Some (pack_nibbles (rev nibbles)).

(** ** Responses *)

Definition should_synthesise (policy : option Dns64Policy) (listener_enabled : bool)
    (qname : Name) (qtype : RecordType) (response : Message) : bool :=
  if negb listener_enabled then false
  else match policy with
  | None => false
  | Some policy =>
      if negb (bool_decide (qtype = RT_AAAA)) then false
      else if is_excluded policy qname then false
      else match response_code (metadata response) with
           | RC_NoError =>
               negb (existsb (λ r, bool_decide (record_type r = RT_AAAA)) (answers response))
           | RC_NXDomain => true
           | _ => false
           end
  end.

(** The response shell shared by the synthesisers: the client's id, RD bit and
    questions, RA set, AD clear. *)
Definition response_shell (original_query : Message) (rc : ResponseCode) : Message :=
  let resp := message_response (id (metadata original_query)) OC_Query in
  let resp := set_rd (recursion_desired (metadata original_query)) resp in
  let resp := set_ra true resp in
  let resp := set_rcode rc resp in
  let resp := set_ad false resp in
  add_queries (queries original_query) resp.

(** One iteration over the A response's answers; [None] is [embed_v4]'s panic. *)
Definition synth_step (policy : Dns64Policy) (resp : option Message) (rec : DnsRecord)
  : option Message :=
  resp ← resp;
  if bool_decide (record_type rec = RT_CNAME) then Some (add_answer rec resp)
  else if bool_decide (record_type rec = RT_A) then
    match r_data rec with
    | RD_A a =>
        v6 ← embed_v4 (prefix policy) a;
        let new_rec := record_from_rdata (r_name rec) (r_ttl rec) (RD_AAAA v6) in
        Some (add_answer (set_r_class (r_class rec) new_rec) resp)
    | _ => Some resp
    end
  else Some resp.

Definition synthesise_from_a (policy : Dns64Policy) (original_query a_response : Message)
  : option Message :=
  foldl (synth_step policy) (Some (response_shell original_query RC_NoError))
    (answers a_response).

(** [format!("{}.{}.{}.{}.in-addr.arpa.", o[3], o[2], o[1], o[0])]. *)
Definition octet_string (b : Z) : string := pretty (Z.to_N b).
Definition in_addr_arpa (v4 : Ipv4Addr) : string :=
  foldr (λ o s, octet_string o +:+ "." +:+ s) "in-addr.arpa." (rev v4).

Definition rewrite_ptr_question (policy : Dns64Policy) (qname : Name) : option Name :=
  addr ← ip6_arpa_to_addr qname;
  v4 ← extract_v4 (prefix policy) addr;
  from_ascii (in_addr_arpa v4).

Definition rewrap_step (owner : Name) (resp : Message) (rec : DnsRecord) : Message :=
  if negb (bool_decide (record_type rec = RT_PTR)) then resp
  else match r_data rec with
       | RD_PTR ptr =>
           add_answer (set_r_class DC_IN (record_from_rdata owner (r_ttl rec) (RD_PTR ptr))) resp
       | _ => resp
       end.

Definition rewrap_ptr_response (original_query v4_response : Message) : Message :=
  match head (queries original_query) with
  | None => v4_response
  | Some q =>
      foldl (rewrap_step (q_name q))
        (response_shell original_query (response_code (metadata v4_response)))
        (answers v4_response)
  end.
End Dns64.

Section Facts.
Context `{NameOps, !NameLaws, !Hickory, !HickoryLaws, IpNets, !IpNetLaws}.

(** ** Embedding *)

Lemma valid_prefix_length_cases len :
  valid_prefix_length len = true →
  len = 32 ∨ len = 40 ∨ len = 48 ∨ len = 56 ∨ len = 64 ∨ len = 96.
Proof.
  unfold valid_prefix_length. rewrite bool_decide_eq_true, !elem_of_cons, elem_of_nil. lia.
Qed.

(** Open an address into its octets. *)
Ltac open_addr H :=
  let Hl := fresh "Hl" in let Hb := fresh "Hb" in
  destruct H as [Hl Hb];
  repeat match type of Hl with
  | length ?l = S _ => destruct l as [|? l]; [discriminate Hl|]; cbn in Hl; apply Nat.succ_inj in Hl
  | length ?l = O => destruct l; [clear Hl|discriminate Hl]
  end;
  repeat match goal with H : Forall is_byte (_ :: _) |- _ => apply Forall_cons in H as [? H] end.

Lemma embed_v4_v6 p v4 :
  is_v6_addr (net6_addr p) → is_v4_addr v4 → valid_prefix_length (net6_prefix_len p) = true →
  ∃ v6, embed_v4 p v4 = Some v6 ∧ is_v6_addr v6 ∧
    take (Z.to_nat (net6_prefix_len p / 8)) v6 =
    take (Z.to_nat (net6_prefix_len p / 8)) (net6_addr p) ∧
    (net6_prefix_len p ≤ 64 → 32 < net6_prefix_len p → v6 !! 8%nat = Some 0).
Proof.
  destruct p as [addr len]. cbn [net6_addr net6_prefix_len]. intros Hp6 Hp4 Hv.
  open_addr Hp6. open_addr Hp4.
  apply valid_prefix_length_cases in Hv as [->|[->|[->|[->|[->| ->]]]]];
    (eexists; split; [reflexivity|]);
    (split; [split; [reflexivity|repeat (apply Forall_cons; split; [first [done|unfold is_byte; lia]|]); constructor]|]);
    (split; [reflexivity|]); first [intros; reflexivity|lia].
Qed.

Lemma extract_embed p v4 v6 :
  is_v6_addr (net6_addr p) → is_v4_addr v4 → valid_prefix_length (net6_prefix_len p) = true →
  embed_v4 p v4 = Some v6 → extract_v4 p v6 = Some v4.
Proof.
  intros Hp6 Hp4 Hv He.
  destruct (embed_v4_v6 p v4 Hp6 Hp4 Hv) as (v6' & He' & Hv6 & Hpre & _).
  assert (v6' = v6) as -> by congruence.
  assert (net6_contains p v6 = true) as Hc.
  { apply net6_contains_spec; [done|done| |].
    - apply valid_prefix_length_cases in Hv. lia.
    - destruct Hp6 as [Hl6 Hb6], Hv6 as [Hl Hb].
      assert (net6_prefix_len p = 8 * Z.of_nat (Z.to_nat (net6_prefix_len p / 8))) as Hk.
      { apply valid_prefix_length_cases in Hv as [->|[->|[->|[->|[->| ->]]]]]; done. }
      rewrite Hk. change 128 with (8 * Z.of_nat 16). rewrite <- Hl6.
      apply same_prefix_octets; [congruence|done|done| |by rewrite Hpre].
      apply valid_prefix_length_cases in Hv. rewrite Hl6.
      destruct Hv as [->|[->|[->|[->|[->| ->]]]]]; vm_compute; lia. }
  unfold extract_v4. rewrite Hc. cbn [negb]. revert He.
  destruct p as [addr len]. cbn [net6_addr net6_prefix_len] in *. clear Hpre He' Hc Hv6.
  open_addr Hp6. open_addr Hp4. unfold embed_v4. cbn [net6_addr net6_prefix_len].
  apply valid_prefix_length_cases in Hv as [->|[->|[->|[->|[->| ->]]]]]; by intros [= <-].
Qed.

(** C34. RFC 6052: for each of the six prefix lengths the embedding is total,
    yields an address inside the prefix whose reserved octet (bits 64 to 71) is
    zero where the prefix is longer than 32 and at most 64 bits, and extraction
    recovers the embedded IPv4 address. *)
Theorem embed_extract_roundtrip p v4 :
  is_v6_addr (net6_addr p) → is_v4_addr v4 → valid_prefix_length (net6_prefix_len p) = true →
  ∃ v6, embed_v4 p v4 = Some v6 ∧ is_v6_addr v6 ∧ net6_contains p v6 = true ∧
    (32 < net6_prefix_len p ≤ 64 → v6 !! 8%nat = Some 0) ∧ extract_v4 p v6 = Some v4.
Proof.
  intros Hp6 Hp4 Hv. destruct (embed_v4_v6 p v4 Hp6 Hp4 Hv) as (v6 & He & Hv6 & _ & Hu).
  exists v6. pose proof (extract_embed _ _ _ Hp6 Hp4 Hv He) as Hx.
  split_and!; try done; [|intros; apply Hu; lia].
  unfold extract_v4 in Hx. by destruct (net6_contains p v6).
Qed.

(** ** Nibble labels *)

Definition hex_char (n : Z) : Z := if n <? 10 then n + 48 else n + 87.
Definition byte_nibbles (b : Z) : list Z := [b / 16; b mod 16].
(** The 34 labels of the reverse name of an address. *)
Definition arpa_labels (addr : Ipv6Addr) : list (list Z) :=
  map (λ n, [hex_char n]) (rev (concat (map byte_nibbles addr))) ++ [LBL_IP6; LBL_ARPA].

Lemma to_digit16_hex n : 0 ≤ n < 16 → to_digit16 (hex_char n) = Some n.
Proof.
  intros Hn. unfold hex_char, to_digit16.
  destruct (n <? 10) eqn:E; repeat case_match; f_equal;
    rewrite ?andb_true_iff, ?andb_false_iff, ?Z.leb_le, ?Z.leb_gt, ?Z.ltb_lt, ?Z.ltb_ge in *; lia.
Qed.

Lemma pack_byte b : is_byte b → Z.lor (Z.shiftl (b / 16) 4) (b mod 16) = b.
Proof.
  intros Hb.
  assert (forallb (λ b, Z.lor (Z.shiftl (b / 16) 4) (b mod 16) =? b) (seqZ 0 256) = true) as Hc
    by (vm_compute; done).
  rewrite forallb_forall in Hc. apply Z.eqb_eq, Hc, list_elem_of_In, elem_of_seqZ.
  unfold is_byte in Hb. lia.
Qed.

Lemma pack_bytes l : Forall is_byte l → pack_nibbles (concat (map byte_nibbles l)) = l.
Proof. induction 1; cbn; [done|]. by rewrite pack_byte, IHForall. Qed.

Lemma byte_nibbles_range l :
  Forall is_byte l → Forall (λ n, 0 ≤ n < 16) (concat (map byte_nibbles l)).
Proof.
  induction 1 as [|b l Hb _ IH]; cbn; [constructor|]. unfold is_byte in Hb.
  repeat constructor; try done; first [apply Z.div_pos|apply Z.div_lt_upper_bound|apply Z.mod_pos_bound]; lia.
Qed.

Lemma nibble_labels l :
  Forall (λ n, 0 ≤ n < 16) l → mapM nibble_of_label (map (λ n, [hex_char n]) l) = Some l.
Proof. induction 1; cbn; [done|]. rewrite to_digit16_hex by done. cbn. by rewrite IHForall. Qed.

Lemma length_nibbles l : length (concat (map byte_nibbles l)) = (2 * length l)%nat.
Proof. induction l; cbn in *; lia. Qed.

Lemma ip6_arpa_decode name addr :
  is_v6_addr addr → num_labels name = 34%nat →
  labels (to_lowercase name) = arpa_labels addr → ip6_arpa_to_addr name = Some addr.
Proof.
  intros [Hl Hb] Hn Hlab. unfold ip6_arpa_to_addr.
  rewrite num_labels_lower, Hn, Hlab. cbn [Nat.eqb negb].
  assert (length (map (λ n, [hex_char n]) (rev (concat (map byte_nibbles addr)))) = 32%nat) as H32
    by (rewrite length_map, length_rev, length_nibbles; lia).
  unfold arpa_labels. rewrite length_app, H32. cbn [length Nat.add Nat.ltb Nat.leb].
  rewrite !lookup_app_r by lia. rewrite H32. cbn [Nat.sub lookup list_lookup].
  rewrite !bool_decide_true by done. cbn [andb negb].
  rewrite <- H32, take_app_length, nibble_labels by (apply Forall_rev, byte_nibbles_range, Hb).
  cbn. by rewrite rev_involutive, pack_bytes.
Qed.

(** The reverse name of an address synthesised under the NAT64 prefix is
    rewritten to the [in-addr.arpa] name of the IPv4 address it embeds: the PTR
    path inverts the AAAA path. *)
Theorem ptr_of_synthesised policy v4 v6 name :
  is_v6_addr (net6_addr (prefix policy)) → is_v4_addr v4 →
  valid_prefix_length (net6_prefix_len (prefix policy)) = true →
  embed_v4 (prefix policy) v4 = Some v6 → num_labels name = 34%nat →
  labels (to_lowercase name) = arpa_labels v6 →
  rewrite_ptr_question policy name = from_ascii (in_addr_arpa v4).
Proof.
  intros Hp6 Hp4 Hv He Hn Hlab. destruct (embed_v4_v6 _ _ Hp6 Hp4 Hv) as (v6' & He' & Hv6 & _).
  assert (v6' = v6) as -> by congruence.
  unfold rewrite_ptr_question. rewrite (ip6_arpa_decode name v6) by done. cbn.
  by rewrite (extract_embed _ v4 v6).
Qed.

(** ** Synthesised responses *)

(** What one record of the A response contributes. *)
Definition synth_image (policy : Dns64Policy) (rec : DnsRecord) : list DnsRecord :=
  if bool_decide (rdata_type (r_data rec) = RT_CNAME) then [rec]
  else match r_data rec with
       | RD_A a =>
           match embed_v4 (prefix policy) a with
           | Some v6 => [{| r_name := r_name rec; r_class := r_class rec;
                            r_ttl := r_ttl rec; r_data := RD_AAAA v6 |}]
           | None => []
           end
       | _ => []
       end.

Lemma embed_v4_total p v4 :
  valid_prefix_length (net6_prefix_len p) = true → is_Some (embed_v4 p v4).
Proof.
  intros Hv. unfold embed_v4.
  apply valid_prefix_length_cases in Hv as [->|[->|[->|[->|[->| ->]]]]]; eauto.
Qed.

Lemma synth_step_image policy m rec :
  valid_prefix_length (net6_prefix_len (prefix policy)) = true →
  synth_step policy (Some m) rec = Some (add_answers (synth_image policy rec) m).
Proof.
  intros Hv. unfold synth_step, synth_image. cbn. rewrite !record_type_spec.
  destruct (bool_decide (rdata_type (r_data rec) = RT_CNAME)) eqn:E; [done|].
  destruct rec as [n c ttl d]; cbn [r_data r_name r_class r_ttl] in *.
  destruct d; cbn in *; try done; try (by rewrite bool_decide_true in E).
  - destruct (embed_v4_total (prefix policy) a Hv) as [v6 ->]. cbn.
    by rewrite record_from_rdata_spec.
  - case_match; done.
Qed.

Lemma synth_fold policy m rs :
  valid_prefix_length (net6_prefix_len (prefix policy)) = true →
  foldl (synth_step policy) (Some m) rs =
  Some (add_answers (concat (map (synth_image policy) rs)) m).
Proof.
  intros Hv. revert m. induction rs as [|r rs IH]; intros m; cbn [foldl map concat]; [done|].
  by rewrite synth_step_image, IH, add_answers_app by done.
Qed.

Lemma response_shell_spec q rc :
  response_shell q rc =
  {| metadata := {| id := id (metadata q); message_type := MT_Response; op_code := OC_Query;
       authoritative := false; truncation := false;
       recursion_desired := recursion_desired (metadata q); recursion_available := true;
       authentic_data := false; checking_disabled := false; response_code := rc |};
     queries := queries q; answers := []; authorities := []; additionals := []; edns := None |}.
Proof.
  unfold response_shell, message_response. rewrite message_new_spec, add_queries_eq. done.
Qed.

(** RFC 6147 section 5: the synthesised response never panics under a valid
    prefix, answers the client's question under the client's id with AD clear,
    and its answer section is, in order, each CNAME verbatim and each A record
    turned into the AAAA of the embedded address with the same owner, class and
    TTL; nothing else is copied. *)
Theorem synthesise_from_a_spec policy original_query a_response :
  valid_prefix_length (net6_prefix_len (prefix policy)) = true →
  synthesise_from_a policy original_query a_response =
  Some {| metadata := {| id := id (metadata original_query); message_type := MT_Response;
            op_code := OC_Query; authoritative := false; truncation := false;
            recursion_desired := recursion_desired (metadata original_query);
            recursion_available := true; authentic_data := false;
            checking_disabled := false; response_code := RC_NoError |};
          queries := queries original_query;
          answers := concat (map (synth_image policy) (answers a_response));
          authorities := []; additionals := []; edns := None |}.
Proof.
  intros Hv. unfold synthesise_from_a.
  by rewrite synth_fold, add_answers_eq, response_shell_spec.
Qed.

(** What one record of the v4 PTR response contributes. *)
Definition rewrap_image (owner : Name) (rec : DnsRecord) : list DnsRecord :=
  match r_data rec with
  | RD_PTR ptr => [{| r_name := owner; r_class := DC_IN; r_ttl := r_ttl rec; r_data := RD_PTR ptr |}]
  | _ => []
  end.

Lemma rewrap_step_image owner m rec :
  rewrap_step owner m rec = add_answers (rewrap_image owner rec) m.
Proof.
  unfold rewrap_step, rewrap_image. rewrite record_type_spec.
  destruct (r_data rec); cbn; rewrite ?record_from_rdata_spec; try done; by case_match.
Qed.

Lemma rewrap_fold owner m rs :
  foldl (rewrap_step owner) m rs = add_answers (concat (map (rewrap_image owner) rs)) m.
Proof.
  revert m. induction rs as [|r rs IH]; intros m; cbn [foldl map concat]; [done|].
  by rewrite IH, rewrap_step_image, add_answers_app.
Qed.

(** The rewrapped PTR answer carries the client's id and question, the
    upstream's response code, AD clear, and exactly the PTR records of the v4
    answer with their targets and TTLs, re-owned by the client's question name. *)
Theorem rewrap_ptr_response_spec original_query q rest v4_response :
  queries original_query = q :: rest →
  rewrap_ptr_response original_query v4_response =
  {| metadata := {| id := id (metadata original_query); message_type := MT_Response;
       op_code := OC_Query; authoritative := false; truncation := false;
       recursion_desired := recursion_desired (metadata original_query);
       recursion_available := true; authentic_data := false; checking_disabled := false;
       response_code := response_code (metadata v4_response) |};
     queries := queries original_query;
     answers := concat (map (rewrap_image (q_name q)) (answers v4_response));
     authorities := []; additionals := []; edns := None |}.
Proof.
  intros Hq. unfold rewrap_ptr_response. rewrite Hq. cbn [head].
  by rewrite rewrap_fold, add_answers_eq, response_shell_spec, Hq.
Qed.

(** Synthesis is triggered exactly for an AAAA question on a listener that
    opted in, with a policy that does not exclude the name, when the upstream
    answered NXDOMAIN or NOERROR without any AAAA record (CNAME chains
    included). *)
Theorem should_synthesise_iff policy enabled qname qtype response :
  should_synthesise policy enabled qname qtype response = true ↔
  enabled = true ∧ qtype = RT_AAAA ∧
  (∃ p, policy = Some p ∧ ¬ ∃ ex, ex ∈ exclusions p ∧
        (zone_of ex (to_lowercase qname) = true ∨ to_lowercase qname = to_lowercase ex)) ∧
  (response_code (metadata response) = RC_NXDomain ∨
   response_code (metadata response) = RC_NoError ∧
   ∀ r, r ∈ answers response → rdata_type (r_data r) ≠ RT_AAAA).
Proof.
  unfold should_synthesise.
  destruct enabled; cbn [negb]; [|naive_solver]. destruct policy as [p|]; [|naive_solver].
  case_bool_decide as Ht; cbn [negb]; [|naive_solver].
  assert (is_excluded p qname = true ↔ ∃ ex, ex ∈ exclusions p ∧
      (zone_of ex (to_lowercase qname) = true ∨ to_lowercase qname = to_lowercase ex)) as Hex.
  { unfold is_excluded. rewrite existsb_exists.
    setoid_rewrite orb_true_iff. setoid_rewrite name_eqb_spec. rewrite to_lowercase_idemp.
    by setoid_rewrite <- list_elem_of_In. }
  assert (existsb (λ r, bool_decide (record_type r = RT_AAAA)) (answers response) = false ↔
          ∀ r, r ∈ answers response → rdata_type (r_data r) ≠ RT_AAAA) as Han.
  { rewrite <- not_true_iff_false, existsb_exists. setoid_rewrite bool_decide_eq_true.
    setoid_rewrite record_type_spec. setoid_rewrite <- list_elem_of_In. naive_solver. }
  destruct (is_excluded p qname).
  - split; [done|]. intros (_ & _ & (p' & [= <-] & Hn) & _). by destruct Hn; apply Hex.
  - assert (¬ (∃ ex, ex ∈ exclusions p ∧ (zone_of ex (to_lowercase qname) = true ∨
                to_lowercase qname = to_lowercase ex))) as Hn by (by rewrite <- Hex).
    clear Hex. destruct (response_code (metadata response)); rewrite ?negb_true_iff, ?Han;
      (split; [intros HH; try done; split_and!; eauto|intros (_ & _ & _ & [?|[? ?]]); done]).
Qed.
End Facts.

(** ** Witnesses *)
Definition wkp : Ipv6Net :=
  {| net6_addr := [0;100;255;155;0;0;0;0;0;0;0;0;0;0;0;0]; net6_prefix_len := 96 |}.
Definition wkp_policy : Dns64Policy := {| prefix := wkp; exclusions := [] |}.
Definition slash48 : Ipv6Net :=
  {| net6_addr := [32;1;13;184;1;34;0;0;0;0;0;0;0;0;0;0]; net6_prefix_len := 48 |}.

Lemma embed_extract_roundtrip_witness :
  ∃ v6, embed_v4 slash48 [192;0;2;33] = Some v6 ∧ is_v6_addr v6 ∧
    net6_contains slash48 v6 = true ∧ (32 < 48 ≤ 64 → v6 !! 8%nat = Some 0) ∧
    extract_v4 slash48 v6 = Some [192;0;2;33].
Proof.
  apply (embed_extract_roundtrip slash48).
  - split; [reflexivity|]. repeat constructor; unfold is_byte; lia.
  - split; [reflexivity|]. repeat constructor; unfold is_byte; lia.
  - reflexivity.
Defined.

Definition arpa_192_0_2_33 : Name :=
  rn "1.2.2.0.0.0.0.c.0.0.0.0.0.0.0.0.0.0.0.0.0.0.0.0.b.9.F.f.4.6.0.0.ip6.arpa.".

Lemma ptr_of_synthesised_witness :
  rewrite_ptr_question wkp_policy arpa_192_0_2_33 = Some (rn "33.2.0.192.in-addr.arpa.").
Proof.
  rewrite (ptr_of_synthesised wkp_policy [192;0;2;33]
             [0;100;255;155;0;0;0;0;0;0;0;0;192;0;2;33] arpa_192_0_2_33).
  - vm_compute; reflexivity.
  - split; [reflexivity|]. repeat constructor; unfold is_byte; lia.
  - split; [reflexivity|]. repeat constructor; unfold is_byte; lia.
  - reflexivity.
  - reflexivity.
  - vm_compute; reflexivity.
  - vm_compute; reflexivity.
Defined.

Definition query_aaaa : Message := add_query (query_query (rn "v4.example.") RT_AAAA)
  (message_new 7 MT_Query OC_Query).
Definition answer_a : Message :=
  add_answers [record_from_rdata (rn "v4.example.") 60 (RD_CNAME (rn "h.example."));
               record_from_rdata (rn "h.example.") 30 (RD_A [192;0;2;33])]
    (message_response 9 OC_Query).

Lemma synthesise_from_a_witness :
  option_map answers (synthesise_from_a wkp_policy query_aaaa answer_a) =
  Some [record_from_rdata (rn "v4.example.") 60 (RD_CNAME (rn "h.example."));
        record_from_rdata (rn "h.example.") 30
          (RD_AAAA [0;100;255;155;0;0;0;0;0;0;0;0;192;0;2;33])].
Proof. rewrite (synthesise_from_a_spec wkp_policy); [vm_compute; reflexivity|reflexivity]. Defined.

Lemma rewrap_ptr_response_witness :
  answers (rewrap_ptr_response (add_query (query_query arpa_192_0_2_33 RT_PTR)
             (message_new 7 MT_Query OC_Query))
             (add_answer (record_from_rdata (rn "33.2.0.192.in-addr.arpa.") 5
                            (RD_PTR (rn "h.example."))) (message_response 9 OC_Query)))
  = [record_from_rdata arpa_192_0_2_33 5 (RD_PTR (rn "h.example."))].
Proof.
  rewrite (rewrap_ptr_response_spec _ (query_query arpa_192_0_2_33 RT_PTR) []); reflexivity.
Defined.
End Dns64.
