(* ===== verification/Cache.v ===== *)
(** * The response cache ([recursor/cache.rs])

    [moka]'s store is a finite map; what it drops on its own when it is full is
    the parameter [moka_evict].  Every operation takes the clock reading its
    [Instant::now()] call returns. *)
From S2P Require Import Prelude Hickory Reference.

Section CacheKeys.
Context `{NameOps}.

Record CacheKey := { k_name : Name; k_rtype : RecordType; k_class : DNSClass }.

#[export] Instance CacheKey_eq_dec : EqDecision CacheKey.
Proof. solve_decision. Defined.
#[export] Instance CacheKey_countable : Countable CacheKey.
Proof.
  refine (inj_countable' (λ k, (k_name k, k_rtype k, k_class k))
            (λ p, {| k_name := p.1.1; k_rtype := p.1.2; k_class := p.2 |}) _).
  by intros [].
Defined.

(** [CacheKey::new]. *)
Definition cache_key (name : Name) (rtype : RecordType) (class : DNSClass) : CacheKey :=
  {| k_name := to_lowercase name; k_rtype := rtype; k_class := class |}.
End CacheKeys.

Record Entry := { e_bytes : list Z; e_expires : Z }.

(** [moka]: after an insertion some entries may be dropped (the new one
    included); within the capacity nothing is. *)
Class Moka `{NameOps} := {
  moka_evict : Z → gmap CacheKey Entry → gmap CacheKey Entry;
  moka_evict_subset cap m : moka_evict cap m ⊆ m;
  moka_evict_fits cap m : Z.of_nat (size m) ≤ cap → moka_evict cap m = m;
}.

Module DnsCache.
Section DnsCache.
Context `{NameOps, !Hickory, !Moka}.

Record DnsCache := {
  inner : gmap CacheKey Entry; max_capacity : Z;
  min_ttl : Z; max_ttl : Z; negative_ttl : Z; max_negative_ttl : Z }.

(** [DnsCache::new]. *)
Definition new (max_entries min_ttl max_ttl negative_ttl max_negative_ttl : Z) : DnsCache :=
  {| inner := ∅; max_capacity := max_entries; min_ttl := min_ttl; max_ttl := max_ttl;
     negative_ttl := negative_ttl; max_negative_ttl := max_negative_ttl |}.

Definition set_inner (m : gmap CacheKey Entry) (c : DnsCache) : DnsCache :=
  {| inner := m; max_capacity := max_capacity c; min_ttl := min_ttl c; max_ttl := max_ttl c;
     negative_ttl := negative_ttl c; max_negative_ttl := max_negative_ttl c |}.

Definition get (now : Z) (key : CacheKey) (c : DnsCache) : option (list Z) * DnsCache :=
  match inner c !! key with
  | None => (None, c)
  | Some entry =>
      if e_expires entry <=? now then (None, set_inner (delete key (inner c)) c)
      else (Some (e_bytes entry), c)
  end.

(** [find_map] of the first SOA's MINIMUM in the authority section. *)
Fixpoint soa_minimum_of (rs : list DnsRecord) : option Z :=
  match rs with
  | [] => None
  | r :: rs' =>
      if bool_decide (record_type r = RT_SOA)
      then match r_data r with RD_SOA soa => Some (soa_minimum soa) | _ => soa_minimum_of rs' end
      else soa_minimum_of rs'
  end.

(** [iter().map(|r| r.ttl).min()]. *)
Fixpoint min_answer_ttl (rs : list DnsRecord) : option Z :=
  match rs with
  | [] => None
  | r :: rs' => match min_answer_ttl rs' with
                | None => Some (r_ttl r)
                | Some t => Some (Z.min (r_ttl r) t)
                end
  end.

Definition compute_ttl (c : DnsCache) (msg : Message) : Z :=
  let negative :=
    let soa_min := default (negative_ttl c) (soa_minimum_of (authorities msg)) in
    Z.max (Z.min soa_min (max_negative_ttl c)) (min_ttl c) in
  match response_code (metadata msg), answers msg with
  | RC_NXDomain, [] => negative
  | RC_NoError, [] => negative
  | RC_NoError, rs =>
      let t := default (negative_ttl c) (min_answer_ttl rs) in
      Z.max (Z.min t (max_ttl c)) (min_ttl c)
  | _, _ => 0
  end.

Definition put (now : Z) (key : CacheKey) (msg : Message) (bytes : list Z) (c : DnsCache)
  : DnsCache :=
  let ttl := compute_ttl c msg in
  if ttl =? 0 then c
  else set_inner (moka_evict (max_capacity c)
         (<[key := {| e_bytes := bytes; e_expires := now + from_secs ttl |}]> (inner c))) c.

Definition entry_count (c : DnsCache) : Z := Z.of_nat (size (inner c)).
Definition flush (c : DnsCache) : DnsCache := set_inner ∅ c.

(** The remaining seconds and size of every entry with at least a whole second
    left, as [cache dump] reports them. *)
Definition dump (now : Z) (c : DnsCache) : gmap CacheKey (Z * nat) :=
  omap (λ e, let remaining := as_secs (saturating_sub (e_expires e) now) in
             if remaining =? 0 then None else Some (remaining, length (e_bytes e))) (inner c).

(** [rewrite_txid]; the slice panics on fewer than two bytes. *)
Definition rewrite_txid (bytes : list Z) (new_id : Z) : option (list Z) :=
  match bytes with
  | _ :: _ :: rest => Some (to_be16 new_id ++ rest)
  | _ => None
  end.
End DnsCache.

Section Facts.
Context `{NameOps, !NameLaws, !Hickory, !HickoryLaws, !Moka}.

Lemma min_answer_ttl_spec rs t :
  min_answer_ttl rs = Some t ↔
  (∃ r, r ∈ rs ∧ r_ttl r = t) ∧ ∀ r, r ∈ rs → t ≤ r_ttl r.
Proof.
  revert t. induction rs as [|r rs IH]; intros t; cbn.
  { split; [done|]. intros [(? & ?%elem_of_nil & _) _]. done. }
  setoid_rewrite elem_of_cons. destruct (min_answer_ttl rs) as [t'|] eqn:E.
  - destruct (proj1 (IH t') eq_refl) as [(r' & Hr' & <-) Hmin]. split.
    + intros [= <-]. split.
      * destruct (Z.min_spec (r_ttl r) (r_ttl r')) as [[_ ->]|[_ ->]]; eauto.
      * intros x [->|Hx]; [lia|]. specialize (Hmin x Hx). lia.
    + intros [(x & [->|Hx] & <-) Hle]; f_equal.
      * pose proof (Hle r' (or_intror Hr')). lia.
      * pose proof (Hle r (or_introl eq_refl)). pose proof (Hle r' (or_intror Hr')).
        pose proof (Hmin x Hx). lia.
  - destruct rs as [|r0 rs].
    + setoid_rewrite elem_of_nil. split; [intros [= <-]; naive_solver lia|].
      intros [(x & [->|[]] & <-) _]. done.
    + exfalso. cbn in E. by case_match.
Qed.

(** ** Lifetimes *)

(** What is cached and for how long: a response with any other code than
    NOERROR and NXDOMAIN, or an NXDOMAIN with answers, is never cached; a negative
    response lives at most as long as the SOA MINIMUM and the negative cap, a
    positive one at most as long as every answer's TTL and the positive cap, the
    operator's floor [min_ttl] always winning. *)
Theorem compute_ttl_bounds c msg :
  (response_code (metadata msg) ≠ RC_NoError → response_code (metadata msg) ≠ RC_NXDomain →
     compute_ttl c msg = 0) ∧
  (response_code (metadata msg) = RC_NXDomain → answers msg ≠ [] → compute_ttl c msg = 0) ∧
  (answers msg = [] →
     compute_ttl c msg ≤ Z.max 0 (Z.max (min_ttl c) (max_negative_ttl c)) ∧
     ∀ m, soa_minimum_of (authorities msg) = Some m →
          compute_ttl c msg ≤ Z.max 0 (Z.max (min_ttl c) m)) ∧
  (answers msg ≠ [] →
     compute_ttl c msg ≤ Z.max 0 (Z.max (min_ttl c) (max_ttl c)) ∧
     ∀ r, r ∈ answers msg → compute_ttl c msg ≤ Z.max 0 (Z.max (min_ttl c) (r_ttl r))) ∧
  (response_code (metadata msg) = RC_NoError → min_ttl c ≤ compute_ttl c msg).
Proof.
  unfold compute_ttl. cbn zeta. split_and!.
  - destruct (response_code (metadata msg)); try done; by destruct (answers msg).
  - intros ->. by destruct (answers msg).
  - intros ->. split; [|intros m Hm; rewrite Hm; cbn [from_option Datatypes.id]]; destruct (response_code (metadata msg)); lia.
  - intros Hne. destruct (answers msg) as [|r0 rs] eqn:Ea; [done|].
    destruct (response_code (metadata msg)); try (split; intros; lia).
    destruct (min_answer_ttl (r0 :: rs)) as [t|] eqn:E; [|cbn in E; by case_match].
    apply min_answer_ttl_spec in E as [_ Hle]. split; [cbn; lia|].
    intros r Hr. specialize (Hle r Hr). cbn [from_option Datatypes.id]. lia.
  - intros ->. destruct (answers msg); lia.
Qed.

Lemma compute_ttl_inner c m msg : compute_ttl (set_inner m c) msg = compute_ttl c msg.
Proof. done. Qed.

(** ** Freshness *)

Record PutEvent := {
  pe_time : Z; pe_key : CacheKey; pe_msg : Message; pe_bytes : list Z }.

(** The states a cache can reach, with the insertions made so far; [moka] may
    drop entries at any time. *)
Inductive reach (c0 : DnsCache) : list PutEvent → DnsCache → Prop :=
| reach_init : reach c0 [] c0
| reach_put h c t k msg b :
    reach c0 h c →
    reach c0 ({| pe_time := t; pe_key := k; pe_msg := msg; pe_bytes := b |} :: h)
      (put t k msg b c)
| reach_get h c t k : reach c0 h c → reach c0 h (get t k c).2
| reach_flush h c : reach c0 h c → reach c0 h (flush c)
| reach_evict h c m : reach c0 h c → m ⊆ inner c → reach c0 h (set_inner m c).

(** Every entry comes from an insertion and expires its TTL after it. *)
Definition justified (c0 : DnsCache) (h : list PutEvent) (m : gmap CacheKey Entry) : Prop :=
  map_Forall (λ k e, ∃ ev, ev ∈ h ∧ pe_key ev = k ∧ pe_bytes ev = e_bytes e ∧
    compute_ttl c0 (pe_msg ev) ≠ 0 ∧
    e_expires e = pe_time ev + from_secs (compute_ttl c0 (pe_msg ev))) m.

Lemma justified_mono c0 h h' m : h ⊆ h' → justified c0 h m → justified c0 h' m.
Proof. intros Hs Hj k e He. destruct (Hj k e He) as (ev & ? & ?). exists ev. eauto. Qed.

Lemma justified_subset c0 h m m' : m' ⊆ m → justified c0 h m → justified c0 h m'.
Proof. intros Hs Hj k e He. apply Hj. by eapply lookup_weaken. Qed.

Lemma reach_justified c0 h c :
  inner c0 = ∅ → reach c0 h c →
  justified c0 h (inner c) ∧ ∀ msg, compute_ttl c msg = compute_ttl c0 msg.
Proof.
  intros Hc0 Hr. induction Hr as [|h c t k msg b _ [IH Ht]|h c t k _ [IH Ht]|h c _ [IH Ht]|h c m _ [IH Ht] Hm].
  - rewrite Hc0. split; [apply map_Forall_empty|done].
  - unfold put. rewrite Ht. case_match eqn:E.
    { split; [|done]. eapply justified_mono; [|done]. set_solver. }
    split; [|done]. cbn. eapply justified_subset; [apply moka_evict_subset|].
    apply map_Forall_insert_2; [|eapply justified_mono; [|done]; set_solver].
    apply Z.eqb_neq in E. eexists. split; [apply list_elem_of_here|]. done.
  - unfold get. repeat case_match; cbn; try done. split; [|done].
    eapply justified_subset; [apply delete_subseteq|done].
  - split; [apply map_Forall_empty|done].
  - split; [by eapply justified_subset|done].
Qed.

(** C8. Whatever sequence of insertions, lookups, flushes and spontaneous
    evictions a cache goes through, a hit returns the bytes of an earlier
    insertion under that very key whose TTL has not elapsed: nothing stale, and
    nothing that was not to be cached, is ever served. *)
Theorem cache_never_stale max_entries min max neg max_neg h c now k b :
  reach (new max_entries min max neg max_neg) h c →
  (get now k c).1 = Some b →
  ∃ ev, ev ∈ h ∧ pe_key ev = k ∧ pe_bytes ev = b ∧
    now < pe_time ev + from_secs (compute_ttl (new max_entries min max neg max_neg) (pe_msg ev)).
Proof.
  intros [Hj _]%reach_justified Hg; [|done]. unfold get in Hg.
  destruct (inner c !! k) as [e|] eqn:He; [|done]. case_match eqn:Hx; [done|].
  injection Hg as <-. apply Z.leb_gt in Hx.
  destruct (Hj k e He) as (ev & ? & ? & ? & ? & Hexp). exists ev. split_and!; try done. lia.
Qed.

(** While the cache is below capacity, an inserted response is served, byte
    for byte, under any spelling of its name until its TTL elapses and is gone
    afterwards; the entry of every other key is untouched. *)
Theorem put_then_get c now now' name name' rtype class msg bytes :
  name_eqb name name' = true →
  compute_ttl c msg ≠ 0 → Z.of_nat (size (inner c)) < max_capacity c →
  let c' := put now (cache_key name rtype class) msg bytes c in
  (get now' (cache_key name' rtype class) c').1 =
    (if now' <? now + from_secs (compute_ttl c msg) then Some bytes else None) ∧
  ∀ k, k ≠ cache_key name rtype class → inner c' !! k = inner c !! k.
Proof.
  intros Hn Ht Hsz. cbn zeta. apply name_eqb_spec in Hn. unfold put.
  rewrite (proj2 (Z.eqb_neq _ _) Ht).
  rewrite moka_evict_fits.
  2:{ pose proof (map_size_insert_le (inner c) (cache_key name rtype class)
        {| e_bytes := bytes; e_expires := now + from_secs (compute_ttl c msg) |}). lia. }
  split; [|intros k Hk; cbn; by rewrite lookup_insert_ne].
  unfold get. cbn. unfold cache_key. rewrite <- Hn, lookup_insert_eq. cbn.
  destruct (_ <? _) eqn:E; [rewrite (proj2 (Z.leb_gt _ _))|rewrite (proj2 (Z.leb_le _ _))]; try done;
    rewrite ?Z.ltb_lt, ?Z.ltb_ge in E; lia.
Qed.

Lemma rewrite_txid_spec bytes new_id :
  (2 ≤ length bytes)%nat →
  rewrite_txid bytes new_id = Some (to_be16 new_id ++ drop 2 bytes).
Proof. destruct bytes as [|? [|? rest]]; cbn; [lia|lia|done]. Qed.
End Facts.

(** ** Examples *)

(** A store that never evicts before it is full, and then keeps growing, is one
    admissible behaviour of [moka]. *)
#[local] Instance RefMoka : Moka.
Proof. by refine {| moka_evict _ m := m |}. Defined.

Definition ex_msg : Message :=
  add_answer (record_from_rdata (rn "www.example.com.") 300 (RD_A [192; 0; 2; 1]))
    (message_response 7 OC_Query).
Definition ex_key : CacheKey := cache_key (rn "www.example.com.") RT_A DC_IN.
Definition ex_cache : DnsCache := new 10 0 3600 60 900.

Lemma cache_never_stale_witness :
  ∃ ev, ev ∈ [{| pe_time := 5; pe_key := ex_key; pe_msg := ex_msg; pe_bytes := [1; 2] |}] ∧
    pe_key ev = ex_key ∧ pe_bytes ev = [1; 2] ∧
    100 < pe_time ev + from_secs (compute_ttl ex_cache (pe_msg ev)).
Proof.
  apply (cache_never_stale 10 0 3600 60 900 _ (put 5 ex_key ex_msg [1; 2] ex_cache) 100 ex_key
           [1; 2]).
  - apply reach_put, reach_init.
  - vm_compute. reflexivity.
Defined.

Lemma put_then_get_witness :
  (get (from_secs 299) (cache_key (rn "WWW.example.com.") RT_A DC_IN)
     (put 5 ex_key ex_msg [1; 2] ex_cache)).1 = Some [1; 2].
Proof.
  apply (put_then_get ex_cache 5 (from_secs 299) (rn "www.example.com.") (rn "WWW.example.com.")
           RT_A DC_IN ex_msg [1; 2]); vm_compute; done.
Defined.
End DnsCache.
