(* ===== verification/TtlCaches.v ===== *)
(** * The resolver's bounded TTL maps

    [NegResolveCache] and [InFlightMap] of [recursor/mod.rs] and [DnskeyCache] of
    [recursor/dnssec.rs].  A [HashMap] keyed by names is a finite map keyed by the
    lower-cased name, since [Name]'s [Eq] and [Hash] ignore case; which key its
    iterator yields first is the parameter [first_key].  Each operation takes the
    readings of the [Instant::now()] calls it makes, in order. *)
From S2P Require Import Prelude Hickory Reference.

(** Iteration over a [HashMap]: some key of the map comes first. *)
Class MapIter := {
  first_key {K V} `{Countable K} : gmap K V → option K;
  first_key_in {K V} `{Countable K} (m : gmap K V) k : first_key m = Some k → is_Some (m !! k);
  first_key_none {K V} `{Countable K} (m : gmap K V) : first_key m = None → m = ∅;
}.

(** ** Eviction *)
Section Evict.
Context `{!MapIter} {K V : Type} `{Countable K}.
Implicit Types (m : gmap K V).

(** [evict]: expired entries go first; when none is, one arbitrary entry. *)
Definition evict (now : Z) (expiry_of : V → Z) m : gmap K V :=
  let stale := (filter (λ kv, expiry_of kv.2 ≤ now) (map_to_list m)).*1 in
  match stale with
  | [] => match first_key m with Some k => delete k m | None => m end
  | _ => foldr delete m stale
  end.

(** The insertion both caches perform: make room when a new key meets a full
    map. *)
Definition put_capped (cap : nat) (now : Z) (expiry_of : V → Z) (k : K) (v : V) m : gmap K V :=
  let m' := if bool_decide (cap ≤ size m)%nat && bool_decide (m !! k = None)
            then evict now expiry_of m else m in
  <[k := v]> m'.

Lemma foldr_delete_subseteq m ks : foldr delete m ks ⊆ m.
Proof. induction ks; cbn; [done|]. etrans; [apply delete_subseteq|done]. Qed.

Lemma size_delete_lt m k : is_Some (m !! k) → (size (delete k m) < size m)%nat.
Proof.
  intros [x Hx]. rewrite map_size_delete, Hx.
  assert (size m ≠ 0%nat) by (rewrite map_size_ne_0_lookup; eauto). cbn; lia.
Qed.

Lemma size_foldr_delete_le m ks : (size (foldr delete m ks) ≤ size m)%nat.
Proof. apply map_subseteq_size, foldr_delete_subseteq. Qed.

Lemma evict_subseteq now f m : evict now f m ⊆ m.
Proof.
  unfold evict. case_match; [|apply foldr_delete_subseteq].
  case_match; [apply delete_subseteq|done].
Qed.

(** Eviction always makes room. *)
Lemma evict_size now f m : m ≠ ∅ → (size (evict now f m) < size m)%nat.
Proof.
  intros Hne. unfold evict. case_match eqn:E.
  - destruct (first_key m) as [k|] eqn:Hk; [|by apply first_key_none in Hk].
    by apply size_delete_lt, first_key_in.
  - assert (Hin : k ∈ (filter (λ kv, f kv.2 ≤ now) (map_to_list m)).*1) by (rewrite E; left).
    apply list_elem_of_fmap in Hin as ([k' v] & -> & [_ Hin]%list_elem_of_filter).
    apply elem_of_map_to_list in Hin. cbn.
    apply Nat.le_lt_trans with (size (delete k' m)); [|by apply size_delete_lt].
    apply map_subseteq_size, delete_mono, foldr_delete_subseteq.
Qed.

Lemma put_capped_size cap now f k v m :
  (0 < cap)%nat → (size m ≤ cap)%nat → (size (put_capped cap now f k v m) ≤ cap)%nat.
Proof.
  intros Hc Hm. unfold put_capped. case_match eqn:E.
  - apply andb_true_iff in E as [E1%bool_decide_eq_true _].
    assert (m ≠ ∅) as Hne by (intros ->; rewrite map_size_empty in E1; lia).
    pose proof (evict_size now f m Hne). pose proof (map_size_insert_le (evict now f m) k v). lia.
  - rewrite map_size_insert. apply andb_false_iff in E as [E|E]; apply bool_decide_eq_false in E.
    + destruct (m !! k); cbn; lia.
    + destruct (m !! k); cbn; [lia|done].
Qed.

Lemma put_capped_lookup cap now f k v m : put_capped cap now f k v m !! k = Some v.
Proof. apply lookup_insert_eq. Qed.

(** An invariant of all entries survives an insertion that satisfies it. *)
Lemma put_capped_Forall (P : K → V → Prop) cap now f k v m :
  P k v → map_Forall P m → map_Forall P (put_capped cap now f k v m).
Proof.
  intros Hv Hm. apply map_Forall_insert_2; [done|]. case_match; [|done].
  intros k' v' Hl. apply Hm. eapply lookup_weaken; [done|apply evict_subseteq].
Qed.

(** Below capacity the other entries stay. *)
Lemma put_capped_other cap now f k v m k' :
  (size m < cap)%nat → k' ≠ k → put_capped cap now f k v m !! k' = m !! k'.
Proof.
  intros Hs Hk. unfold put_capped. rewrite lookup_insert_ne by done.
  by rewrite bool_decide_eq_false_2 by lia.
Qed.
End Evict.

(** ** Failed walks *)
Module NegResolveCache.
Section NegResolveCache.
Context `{NameOps, !MapIter}.

Definition NEG_RESOLVE_CAP : nat := 256.
Definition NEG_RESOLVE_TTL : Z := from_secs 300.

(** [entries]: the expiry of each failed question. *)
Record NegResolveCache := { entries : gmap (Name * RecordType) Z }.
Definition new : NegResolveCache := {| entries := ∅ |}.

Definition hit (now : Z) (name : Name) (rtype : RecordType) (c : NegResolveCache) : bool :=
  match entries c !! (to_lowercase name, rtype) with
  | Some e => bool_decide (now < e)
  | None => false
  end.

Definition insert_with_ttl (now now_evict : Z) (name : Name) (rtype : RecordType) (ttl : Z)
  (c : NegResolveCache) : NegResolveCache :=
  {| entries := put_capped NEG_RESOLVE_CAP now_evict (λ e, e) (to_lowercase name, rtype)
                  (now + ttl) (entries c) |}.

Definition insert (now now_evict : Z) (name : Name) (rtype : RecordType) (c : NegResolveCache)
  : NegResolveCache :=
  insert_with_ttl now now_evict name rtype NEG_RESOLVE_TTL c.

(** The insertions that lead to a state: time, question and lifetime. *)
Record NegEvent := { ne_time : Z; ne_name : Name; ne_rtype : RecordType; ne_ttl : Z }.
Inductive reach : list NegEvent → NegResolveCache → Prop :=
| reach_new : reach [] new
| reach_insert h c t t' n rt ttl :
    reach h c →
    reach ({| ne_time := t; ne_name := n; ne_rtype := rt; ne_ttl := ttl |} :: h)
      (insert_with_ttl t t' n rt ttl c).

Definition justified (h : list NegEvent) (c : NegResolveCache) : Prop :=
  map_Forall (λ k e, ∃ ev, ev ∈ h ∧ k = (to_lowercase (ne_name ev), ne_rtype ev) ∧
                e = ne_time ev + ne_ttl ev) (entries c).

Lemma neg_reach_inv h c : reach h c → (size (entries c) ≤ NEG_RESOLVE_CAP)%nat ∧ justified h c.
Proof.
  induction 1 as [|h c t t' n rt ttl _ [IHs IHj]].
  { split; [by cbn; rewrite map_size_empty; unfold NEG_RESOLVE_CAP; lia|apply map_Forall_empty]. }
  split; [apply put_capped_size; [unfold NEG_RESOLVE_CAP; lia|done]|].
  apply put_capped_Forall; [eexists; split; [left|]; done|].
  intros k e He. destruct (IHj k e He) as (ev & Hin & ?). exists ev. split; [by right|done].
Qed.

(** The failed-walk cache never holds more than 256 questions, whatever is
    inserted and evicted, and it suppresses a walk only when the same question
    (names compared without case) failed within its lifetime; right after a
    failure every spelling of the question is suppressed for exactly that
    lifetime. *)
Theorem neg_cache_sound `{!NameLaws} h c :
  reach h c →
  (size (entries c) ≤ NEG_RESOLVE_CAP)%nat ∧
  (∀ now name rt, hit now name rt c = true →
     ∃ ev, ev ∈ h ∧ name_eqb (ne_name ev) name = true ∧ ne_rtype ev = rt ∧
           now < ne_time ev + ne_ttl ev) ∧
  (∀ t t' n n' rt ttl now, name_eqb n n' = true →
     hit now n' rt (insert_with_ttl t t' n rt ttl c) = bool_decide (now < t + ttl)).
Proof.
  intros [Hs Hj]%neg_reach_inv. split_and!; [done| |].
  - intros now name rt Hh. unfold hit in Hh. case_match eqn:E; [|done].
    apply bool_decide_eq_true in Hh. destruct (Hj _ _ E) as (ev & ? & [= ? ?] & ->).
    exists ev. split_and!; [done|by apply name_eqb_spec|done|done].
  - intros t t' n n' rt ttl now Hn%name_eqb_spec. unfold hit, insert_with_ttl.
    cbn. by rewrite <- Hn, put_capped_lookup.
Qed.
End NegResolveCache.
End NegResolveCache.

(** ** Coalescing of identical walks *)
Module InFlight.
Section InFlight.
Context `{NameOps, !MapIter}.

Definition IN_FLIGHT_CAP : Z := 4096.

(** A lock is identified by the number of its allocation. *)
Record InFlightMap := { locks : gmap (Name * RecordType) nat; fresh : nat }.
Definition new : InFlightMap := {| locks := ∅; fresh := 0 |}.

(** [strong] is [Arc::strong_count] of each lock, the map's own reference
    included. *)
Definition retain (strong : nat → nat) (m : gmap (Name * RecordType) nat)
  : gmap (Name * RecordType) nat :=
  filter (λ kl, (1 < strong kl.2)%nat) m.

Definition sweep (strong : nat → nat) (m : gmap (Name * RecordType) nat)
  : gmap (Name * RecordType) nat :=
  if bool_decide (IN_FLIGHT_CAP ≤ Z.of_nat (size m)) then
    let m := retain strong m in
    if bool_decide (IN_FLIGHT_CAP ≤ Z.of_nat (size m)) then
      match first_key m with Some k => delete k m | None => m end
    else m
  else m.

Definition lock_for (strong : nat → nat) (name : Name) (rtype : RecordType) (s : InFlightMap)
  : nat * InFlightMap :=
  let key := (to_lowercase name, rtype) in
  let m := sweep strong (locks s) in
  match m !! key with
  | Some l => (l, {| locks := m; fresh := fresh s |})
  | None => (fresh s, {| locks := <[key := fresh s]> m; fresh := S (fresh s) |})
  end.

(** Distinct questions have distinct locks, all allocated, and the map is
    bounded. *)
Record inv (s : InFlightMap) : Prop := {
  inv_size : Z.of_nat (size (locks s)) ≤ IN_FLIGHT_CAP;
  inv_alloc : map_Forall (λ _ l, (l < fresh s)%nat) (locks s);
  inv_inj k k' l : locks s !! k = Some l → locks s !! k' = Some l → k = k';
}.

Lemma sweep_subseteq strong m : sweep strong m ⊆ m.
Proof.
  unfold sweep, retain. repeat case_match; try done; try apply map_filter_subseteq.
  etrans; [apply delete_subseteq|apply map_filter_subseteq].
Qed.

Lemma sweep_size strong m :
  Z.of_nat (size m) ≤ IN_FLIGHT_CAP → Z.of_nat (size (sweep strong m)) < IN_FLIGHT_CAP.
Proof.
  intros Hm. unfold sweep. repeat (case_bool_decide; try lia).
  assert (size (retain strong m) ≤ size m)%nat by apply map_subseteq_size, map_filter_subseteq.
  destruct (first_key _) as [k|] eqn:Hk.
  - apply first_key_in, size_delete_lt in Hk. lia.
  - apply first_key_none in Hk. rewrite Hk, map_size_empty in *. unfold IN_FLIGHT_CAP in *. lia.
Qed.

Lemma sweep_keeps strong m k l :
  m !! k = Some l → (1 < strong l)%nat → Z.of_nat (size (retain strong m)) < IN_FLIGHT_CAP →
  sweep strong m !! k = Some l.
Proof.
  intros Hk Hl Hs. unfold sweep. repeat (case_bool_decide; try lia); [|done].
  by apply map_lookup_filter_Some_2.
Qed.

Lemma inv_new : inv new.
Proof. split; cbn; [by rewrite map_size_empty|apply map_Forall_empty|by intros ?? ? ?%lookup_empty_Some]. Qed.

Lemma lock_for_inv strong name rt s : inv s → inv (lock_for strong name rt s).2.
Proof.
  intros [Hsz Ha Hi]. unfold lock_for.
  pose proof (sweep_subseteq strong (locks s)) as Hsub. pose proof (sweep_size strong _ Hsz) as Hlt.
  assert (Ha' : map_Forall (λ _ l, (l < fresh s)%nat) (sweep strong (locks s))).
  { intros k l Hl. eapply Ha, lookup_weaken; done. }
  case_match eqn:E; cbn.
  - split; cbn; [lia|done|]. intros k k' l' Hk Hk'. eapply Hi; by eapply lookup_weaken.
  - split; cbn.
    + pose proof (map_size_insert_le (sweep strong (locks s)) (to_lowercase name, rt) (fresh s)). lia.
    + apply map_Forall_insert_2; [lia|]. intros k l Hl. specialize (Ha' k l Hl). cbn in Ha'. lia.
    + intros k k' l'. rewrite !lookup_insert_Some.
      intros [[<- <-]|[? Hk]] [[<- ?]|[? Hk']]; subst; try done.
      * specialize (Ha' _ _ Hk'). cbn in Ha'. lia.
      * specialize (Ha' _ _ Hk). cbn in Ha'. lia.
      * eapply Hi; by eapply lookup_weaken.
Qed.

(** States of the map: callers come in any order, and before each call the
    reference counts may be anything. *)
Inductive reach : InFlightMap → Prop :=
| reach_new : reach new
| reach_lock_for s strong n rt : reach s → reach (lock_for strong n rt s).2.

Lemma flight_reach_inv s : reach s → inv s.
Proof. induction 1; [apply inv_new|by apply lock_for_inv]. Qed.

(** The in-flight map holds at most 4096 locks.  A caller's lock stays the
    lock of its question while someone holds it and fewer than 4096 held
    questions are in flight: the next caller for any spelling of the name gets
    that very lock, and a caller for another question gets a different one and
    leaves it in place. *)
Theorem lock_for_coalesces `{!NameLaws} s s' n rt l strong strong' :
  reach s → lock_for strong n rt s = (l, s') →
  Z.of_nat (size (locks s')) ≤ IN_FLIGHT_CAP ∧
  ((1 < strong' l)%nat → Z.of_nat (size (retain strong' (locks s'))) < IN_FLIGHT_CAP →
   (∀ n', name_eqb n n' = true → (lock_for strong' n' rt s').1 = l) ∧
   (∀ n' rt', name_eqb n n' = false ∨ rt' ≠ rt →
      (lock_for strong' n' rt' s').1 ≠ l ∧
      locks (lock_for strong' n' rt' s').2 !! (to_lowercase n, rt) = Some l)).
Proof.
  intros Hr Hl. assert (Hi : inv s') by (replace s' with (lock_for strong n rt s).2 by (by rewrite Hl);
    by apply lock_for_inv, flight_reach_inv).
  split; [apply Hi|]. intros Hh Hsz.
  assert (Hk : locks s' !! (to_lowercase n, rt) = Some l).
  { unfold lock_for in Hl. case_match eqn:E; injection Hl as <- <-; cbn; [done|].
    apply lookup_insert_eq. }
  pose proof (sweep_keeps strong' _ _ _ Hk Hh Hsz) as Hkeep. split.
  - intros n' Hn%name_eqb_spec. unfold lock_for. by rewrite <- Hn, Hkeep.
  - intros n' rt' Hne. unfold lock_for.
    assert (Hneq : (to_lowercase n, rt) ≠ (to_lowercase n', rt')).
    { intros [= En ->]. destruct Hne as [Hne|]; [|done].
      rewrite (proj2 (name_eqb_spec n n') En) in Hne. done. }
    case_match eqn:E; cbn.
    + split; [|done]. intros Heq. subst. apply Hneq. eapply (inv_inj _ Hi); [done|].
      eapply lookup_weaken; [done|apply sweep_subseteq].
    + rewrite lookup_insert_ne by done. split; [|done]. intros Heq.
      pose proof (inv_alloc _ Hi _ _ Hk) as Hlt. clear - Hlt Heq. cbn in Hlt. lia.
Qed.
End InFlight.
End InFlight.

(** ** Zone keys *)
Module DnskeyCache.
Section DnskeyCache.
Context `{NameOps, !MapIter}.

Definition POSITIVE_CACHE_CAP : nat := 256.
Definition NEGATIVE_CACHE_CAP : nat := 256.
Definition NEGATIVE_TTL : Z := from_secs 300.
Definition MIN_POSITIVE_TTL : Z := from_secs 60.
Definition MAX_POSITIVE_TTL : Z := from_secs 86400.

Record PositiveEntry := { keys : list DNSKEY; expiry : Z }.
Record DnskeyCache := { positive : gmap Name PositiveEntry; negative : gmap Name Z }.

Definition new : DnskeyCache := {| positive := ∅; negative := ∅ |}.

Definition get_positive (now : Z) (zone : Name) (c : DnskeyCache) : option (list DNSKEY) :=
  match positive c !! to_lowercase zone with
  | None => None
  | Some entry => if bool_decide (now < expiry entry) then Some (keys entry) else None
  end.

Definition clamp_ttl (ttl : Z) : Z := Z.max MIN_POSITIVE_TTL (Z.min ttl MAX_POSITIVE_TTL).

Definition put_positive (now now_evict : Z) (zone : Name) (ks : list DNSKEY) (ttl : Z)
  (c : DnskeyCache) : DnskeyCache :=
  {| positive := put_capped POSITIVE_CACHE_CAP now_evict expiry (to_lowercase zone)
                   {| keys := ks; expiry := now + clamp_ttl ttl |} (positive c);
     negative := negative c |}.

Definition invalidate_positive (zone : Name) (c : DnskeyCache) : DnskeyCache :=
  {| positive := delete (to_lowercase zone) (positive c); negative := negative c |}.

Definition has_negative (now : Z) (zone : Name) (c : DnskeyCache) : bool :=
  match negative c !! to_lowercase zone with
  | Some e => bool_decide (now < e)
  | None => false
  end.

Definition put_negative (now now_evict : Z) (zone : Name) (c : DnskeyCache) : DnskeyCache :=
  {| positive := positive c;
     negative := put_capped NEGATIVE_CACHE_CAP now_evict (λ e, e) (to_lowercase zone)
                   (now + NEGATIVE_TTL) (negative c) |}.

(** The history of a cache, latest operation first. *)
Inductive Event : Type :=
| EvPositive (t : Z) (zone : Name) (ks : list DNSKEY) (ttl : Z)
| EvNegative (t : Z) (zone : Name)
| EvInvalidate (zone : Name).

Inductive reach : list Event → DnskeyCache → Prop :=
| reach_new : reach [] new
| reach_positive h c t t' z ks ttl :
    reach h c → reach (EvPositive t z ks ttl :: h) (put_positive t t' z ks ttl c)
| reach_negative h c t t' z : reach h c → reach (EvNegative t z :: h) (put_negative t t' z c)
| dnskey_reach_invalidate h c z : reach h c → reach (EvInvalidate z :: h) (invalidate_positive z c).

(** The positive entry the history leaves for a zone: its latest insertion,
    unless the zone was invalidated since. *)
Fixpoint latest_positive (z : Name) (h : list Event) : option (list DNSKEY * Z) :=
  match h with
  | [] => None
  | EvPositive t z' ks ttl :: h' =>
      if name_eqb z' z then Some (ks, t + clamp_ttl ttl) else latest_positive z h'
  | EvInvalidate z' :: h' => if name_eqb z' z then None else latest_positive z h'
  | EvNegative _ _ :: h' => latest_positive z h'
  end.

Fixpoint latest_negative (z : Name) (h : list Event) : option Z :=
  match h with
  | [] => None
  | EvNegative t z' :: h' => if name_eqb z' z then Some (t + NEGATIVE_TTL) else latest_negative z h'
  | _ :: h' => latest_negative z h'
  end.

(** The entry of a zone is the latest one, if it has not been evicted. *)
Record inv (h : list Event) (c : DnskeyCache) : Prop := {
  inv_pos_size : (size (positive c) ≤ POSITIVE_CACHE_CAP)%nat;
  inv_neg_size : (size (negative c) ≤ NEGATIVE_CACHE_CAP)%nat;
  inv_pos z e : positive c !! to_lowercase z = Some e →
    latest_positive z h = Some (keys e, expiry e);
  inv_neg z e : negative c !! to_lowercase z = Some e → latest_negative z h = Some e;
}.

Lemma name_eqb_false `{!NameLaws} a b : name_eqb a b = false ↔ to_lowercase a ≠ to_lowercase b.
Proof. rewrite <- not_true_iff_false, name_eqb_spec. done. Qed.

Lemma put_capped_lookup_ne {K V} `{Countable K} cap now (f : V → Z) k v (m : gmap K V) k' v' :
  k ≠ k' → put_capped cap now f k v m !! k' = Some v' → m !! k' = Some v'.
Proof.
  intros Hk. unfold put_capped. rewrite lookup_insert_ne by done. case_match; [|done].
  intros Hl. eapply lookup_weaken; [done|apply evict_subseteq].
Qed.

Lemma dnskey_reach_inv `{!NameLaws} h c : reach h c → inv h c.
Proof.
  induction 1 as [|h c t t' z ks ttl _ [Hps Hns Hp Hn]|h c t t' z _ [Hps Hns Hp Hn]
                  |h c z _ [Hps Hns Hp Hn]]; split; cbn; try done;
    rewrite ?map_size_empty; try (unfold POSITIVE_CACHE_CAP, NEGATIVE_CACHE_CAP; lia).
  - by apply put_capped_size; [unfold POSITIVE_CACHE_CAP; lia|].
  - intros z' e. destruct (name_eqb z z') eqn:E.
    + apply name_eqb_spec in E. by rewrite <- E, put_capped_lookup; intros [= <-].
    + intros He%put_capped_lookup_ne; [by apply Hp|by apply name_eqb_false].
  - by apply put_capped_size; [unfold NEGATIVE_CACHE_CAP; lia|].
  - intros z' e. destruct (name_eqb z z') eqn:E.
    + apply name_eqb_spec in E. by rewrite <- E, put_capped_lookup; intros [= <-].
    + intros He%put_capped_lookup_ne; [by apply Hn|by apply name_eqb_false].
  - etrans; [apply map_subseteq_size, delete_subseteq|done].
  - intros z' e He%lookup_delete_Some. destruct He as [Hne He].
    apply name_eqb_false in Hne. rewrite Hne. by apply Hp.
Qed.

(** The zone-key cache is bounded by 256 entries a side.  Keys it returns
    are those of the latest insertion for that zone, not invalidated since, and
    at most a day old (a minute at least); a zone is reported as failing only
    within 300 seconds of its latest recorded failure. *)
Theorem dnskey_cache_sound `{!NameLaws} h c :
  reach h c →
  (size (positive c) ≤ POSITIVE_CACHE_CAP ∧ size (negative c) ≤ NEGATIVE_CACHE_CAP)%nat ∧
  (∀ now z ks, get_positive now z c = Some ks →
     ∃ e, latest_positive z h = Some (ks, e) ∧ now < e) ∧
  (∀ now z, has_negative now z c = true → ∃ e, latest_negative z h = Some e ∧ now < e) ∧
  (∀ t t' z ks ttl now, get_positive now z (put_positive t t' z ks ttl c) =
     if bool_decide (now < t + clamp_ttl ttl) then Some ks else None) ∧
  (∀ now z, get_positive now z (invalidate_positive z c) = None).
Proof.
  intros [Hps Hns Hp Hn]%dnskey_reach_inv. split_and!; try done.
  - intros now z ks. unfold get_positive. case_match eqn:E; [|done].
    case_bool_decide; [|done]. intros [= <-]. eauto.
  - intros now z. unfold has_negative. case_match eqn:E; [|done].
    intros Hx%bool_decide_eq_true. eauto.
  - intros. unfold get_positive. cbn. by rewrite put_capped_lookup.
  - intros. unfold get_positive. cbn. by rewrite lookup_delete_eq.
Qed.
End DnskeyCache.
End DnskeyCache.

(** ** Examples *)

(** Iteration in the order of the key encoding. *)
#[export] Instance RefMapIter : MapIter.
Proof.
  refine {| first_key K V _ _ m := head (map_to_list m).*1 |}.
  - intros K V ? ? m k. destruct (map_to_list m) as [|[k' v] l] eqn:E; [done|]. intros [= <-].
    exists v. apply elem_of_map_to_list. rewrite E. left.
  - intros K V ? ? m. destruct (map_to_list m) eqn:E; [|done]. intros _. by apply map_to_list_empty_iff.
Defined.

Lemma neg_cache_sound_witness :
  NegResolveCache.hit (from_secs 299) (rn "WWW.example.com.") RT_A
    (NegResolveCache.insert 5 5 (rn "www.example.com.") RT_A NegResolveCache.new) = true.
Proof.
  destruct (NegResolveCache.neg_cache_sound [] NegResolveCache.new NegResolveCache.reach_new)
    as (_ & _ & Hx).
  unfold NegResolveCache.insert. rewrite (Hx 5 5 (rn "www.example.com.")) by (vm_compute; reflexivity).
  vm_compute. reflexivity.
Defined.

Lemma lock_for_coalesces_witness :
  let s' := (InFlight.lock_for (λ _, 1%nat) (rn "www.example.com.") RT_A InFlight.new).2 in
  (InFlight.lock_for (λ _, 2%nat) (rn "WWW.example.com.") RT_A s').1 = 0%nat.
Proof.
  cbn zeta.
  apply (InFlight.lock_for_coalesces InFlight.new _ (rn "www.example.com.") RT_A 0%nat (λ _, 1%nat)
           (λ _, 2%nat)); [apply InFlight.reach_new|reflexivity|lia| |vm_compute; reflexivity].
  vm_compute. reflexivity.
Defined.

Lemma dnskey_cache_sound_witness :
  let k := {| zone_key := true; secure_entry_point := false; revoke := false;
              key_algorithm := 8; public_bytes := [1; 2; 3] |} in
  DnskeyCache.get_positive (from_secs 30) (rn "com.")
    (DnskeyCache.put_positive 5 5 (rn "com.") [k] 0 DnskeyCache.new) = Some [k].
Proof.
  destruct (DnskeyCache.dnskey_cache_sound [] DnskeyCache.new DnskeyCache.reach_new)
    as (_ & _ & _ & Hx & _).
  cbn zeta. rewrite Hx. reflexivity.
Defined.
