(* ===== verification/Text.v ===== *)
(** * Text scanning

    The string operations of the Rust standard library the program uses
    ([ends_with], [lines], [split_once], [trim], [split_whitespace], [parse]) on
    ASCII text, with the lemmas that relate them to concatenation. *)
From stdpp Require Import pretty.
From Stdlib Require Import Ascii.
From S2P Require Import Prelude.

(** ** Suffixes *)
Fixpoint string_drop (n : nat) (s : string) : string :=
  match n, s with
  | S n', String _ s' => string_drop n' s'
  | _, _ => s
  end.

(** [str::ends_with]. *)
Definition ends_with (s z : string) : bool :=
  (String.length z <=? String.length s)%nat &&
  String.eqb (string_drop (String.length s - String.length z) s) z.

Lemma string_app_cons c p z : String c p +:+ z = String c (p +:+ z).
Proof. done. Qed.

Lemma string_app_assoc p q z : (p +:+ q) +:+ z = p +:+ (q +:+ z).
Proof. induction p as [|c p IH]; [done|]. by rewrite !string_app_cons, IH. Qed.

Lemma string_app_nil_r p : p +:+ "" = p.
Proof. induction p as [|c p IH]; [done|]. by rewrite string_app_cons, IH. Qed.

Lemma string_drop_app p z : string_drop (String.length p) (p +:+ z) = z.
Proof. induction p; [by destruct z|done]. Qed.

Lemma string_drop_split n s :
  (n ≤ String.length s)%nat → ∃ p, s = p +:+ string_drop n s ∧ String.length p = n.
Proof.
  revert n. induction s as [|c s IH]; intros [|n] Hn; cbn in *; try lia; try by exists "".
  destruct (IH n) as (p & Hp & Hl); [lia|]. exists (String c p). cbn. split; [exact (f_equal (String c) Hp)|by rewrite Hl].
Qed.

Lemma string_length_app p z : String.length (p +:+ z) = (String.length p + String.length z)%nat.
Proof. induction p as [|c p IH]; [done|]. rewrite string_app_cons. cbn. by rewrite IH. Qed.

Lemma ends_with_spec s z : ends_with s z = true ↔ ∃ p, s = p +:+ z.
Proof.
  unfold ends_with. rewrite andb_true_iff, Nat.leb_le, String.eqb_eq. split.
  - intros [Hl Hd]. destruct (string_drop_split (String.length s - String.length z) s) as (p & Hp & _);
      [lia|]. exists p. by rewrite Hd in Hp.
  - intros [p ->]. rewrite string_length_app. split; [lia|].
    replace (_ + _ - _)%nat with (String.length p) by lia. apply string_drop_app.
Qed.

Lemma string_get_app p c z : String.get (String.length p) (p +:+ String c z) = Some c.
Proof. by induction p. Qed.

(** ** Characters *)

Definition is_whitespace (c : ascii) : bool :=
  let n := nat_of_ascii c in ((9 <=? n) && (n <=? 13) || (n =? 32))%nat.
Definition is_newline (c : ascii) : bool := (nat_of_ascii c =? 10)%nat.
Definition is_semicolon (c : ascii) : bool := (nat_of_ascii c =? 59)%nat.
Definition is_open (c : ascii) : bool := (nat_of_ascii c =? 40)%nat.
Definition is_close (c : ascii) : bool := (nat_of_ascii c =? 41)%nat.
Definition TAB : ascii := ascii_of_nat 9.
Definition NL : ascii := ascii_of_nat 10.
Definition SP : ascii := ascii_of_nat 32.

Fixpoint string_all (f : ascii → bool) (s : string) : bool :=
  match s with EmptyString => true | String c s' => f c && string_all f s' end.

(** Neither white space nor a character with a meaning in zone files. *)
Definition plain_char (c : ascii) : bool :=
  negb (is_whitespace c || is_semicolon c || is_open c || is_close c).
Definition plain : string → bool := string_all plain_char.

Lemma string_all_app f p q : string_all f (p +:+ q) = string_all f p && string_all f q.
Proof.
  induction p as [|c p IH]; [done|]. rewrite string_app_cons. cbn. by rewrite IH, andb_assoc.
Qed.

Lemma string_all_impl (f g : ascii → bool) s :
  (∀ c, f c = true → g c = true) → string_all f s = true → string_all g s = true.
Proof.
  intros Hi. induction s as [|c s IH]; cbn; [done|].
  rewrite !andb_true_iff. naive_solver.
Qed.

(** ** Lines *)

(** [str::lines], up to a trailing carriage return (white space to the callers). *)
Fixpoint split_nl (s : string) : list string :=
  match s with
  | EmptyString => [""]
  | String c s' =>
      if is_newline c then "" :: split_nl s'
      else match split_nl s' with l :: ls => String c l :: ls | [] => [String c ""] end
  end.
Definition str_lines (s : string) : list string :=
  let ls := split_nl s in
  if bool_decide (last ls = Some "") then removelast ls else ls.

(** [split_once(';').map(|(lhs, _)| lhs).unwrap_or(line)]. *)
Fixpoint before_semicolon (s : string) : string :=
  match s with
  | EmptyString => ""
  | String c s' => if is_semicolon c then "" else String c (before_semicolon s')
  end.

Lemma split_nl_line l rest :
  string_all (λ c, negb (is_newline c)) l = true →
  split_nl (l +:+ String NL rest) = l :: split_nl rest.
Proof.
  induction l as [|c l IH]; intros Hl; [done|]. rewrite string_app_cons. cbn in *.
  apply andb_true_iff in Hl as [Hc Hl]. rewrite (IH Hl). by destruct (is_newline c).
Qed.

Lemma before_semicolon_none s :
  string_all (λ c, negb (is_semicolon c)) s = true → before_semicolon s = s.
Proof.
  induction s as [|c s IH]; cbn; [done|]. intros [Hc Hs]%andb_true_iff.
  rewrite (IH Hs). by destruct (is_semicolon c).
Qed.

(** ** Words *)

(** [trim().split_whitespace()]: the current word and the words after it. *)
Fixpoint words_go (s : string) : string * list string :=
  match s with
  | EmptyString => ("", [])
  | String c s' =>
      let '(w, ws) := words_go s' in
      if is_whitespace c then ("", if String.eqb w "" then ws else w :: ws)
      else (String c w, ws)
  end.
Definition words (s : string) : list string :=
  let '(w, ws) := words_go s in if String.eqb w "" then ws else w :: ws.

Lemma words_go_app w s :
  string_all (λ c, negb (is_whitespace c)) w = true →
  words_go (w +:+ s) = (w +:+ (words_go s).1, (words_go s).2).
Proof.
  induction w as [|c w IH]; intros Hw; [exact (surjective_pairing (words_go s))|].
  rewrite string_app_cons. cbn in *. apply andb_true_iff in Hw as [Hc Hw].
  rewrite (IH Hw). by destruct (is_whitespace c).
Qed.

Lemma words_cons w c s :
  w ≠ "" → string_all (λ c, negb (is_whitespace c)) w = true → is_whitespace c = true →
  words (w +:+ String c s) = w :: words s.
Proof.
  intros Hne Hw Hc. unfold words. rewrite words_go_app by done. cbn [words_go]. rewrite Hc.
  destruct (words_go s) as [w' ws]. cbn [fst snd].
  rewrite string_app_nil_r. by destruct (String.eqb_spec w "").
Qed.

Lemma words_single w :
  w ≠ "" → string_all (λ c, negb (is_whitespace c)) w = true → words w = [w].
Proof.
  intros Hne Hw. unfold words. replace w with (w +:+ "") at 1 by apply string_app_nil_r.
  rewrite words_go_app by done. cbn. rewrite string_app_nil_r.
  by destruct (String.eqb_spec w "").
Qed.

(** ** Numbers *)

Definition digit_of (c : ascii) : option Z :=
  let n := Z.of_nat (nat_of_ascii c) in
  if (48 <=? n) && (n <=? 57) then Some (n - 48) else None.

Fixpoint parse_digits (max acc : Z) (s : string) : option Z :=
  match s with
  | EmptyString => Some acc
  | String c s' =>
      d ← digit_of c;
      let acc' := acc * 10 + d in
      if max <? acc' then None else parse_digits max acc' s'
  end.

(** [str::parse::<uN>()]: an optional plus sign, then digits, without overflow. *)
Definition parse_uint (max : Z) (s : string) : option Z :=
  match s with
  | EmptyString => None
  | String c s' =>
      if (nat_of_ascii c =? 43)%nat
      then if String.eqb s' "" then None else parse_digits max 0 s'
      else parse_digits max 0 s
  end.

(** [format!("{n}")] of an unsigned number. *)
Definition show_uint (n : Z) : string := pretty (Z.to_N n).

Lemma digit_of_char x : (x < 10)%N → digit_of (pretty_N_char x) = Some (Z.of_N x).
Proof.
  intros Hx. destruct x as [|p]; [done|].
  do 4 (destruct p as [p|p|]; try done; try lia).
Qed.

Lemma parse_digits_go max x s :
  Z.of_N x ≤ max →
  parse_digits max 0 (pretty_N_go x s) = parse_digits max (Z.of_N x) s.
Proof.
  revert s. induction (N.lt_wf_0 x) as [x _ IH]; intros s Hm.
  destruct (decide (x = 0)%N) as [->|Hx]; [done|].
  rewrite pretty_N_go_step by lia.
  assert (x = 10 * (x `div` 10) + x `mod` 10)%N as Hdm by (apply N.div_mod; lia).
  assert (x `mod` 10 < 10)%N by (apply N.mod_lt; lia).
  assert (x `div` 10 < x)%N by (apply N.div_lt; lia).
  rewrite IH by lia. cbn [parse_digits].
  rewrite digit_of_char by done. cbn [mbind option_bind].
  replace (Z.of_N (x `div` 10) * 10 + Z.of_N (x `mod` 10)) with (Z.of_N x) by lia.
  by rewrite (proj2 (Z.ltb_ge _ _)) by lia.
Qed.

Definition is_digit (c : ascii) : bool := match digit_of c with Some _ => true | None => false end.

Lemma digits_go x s : string_all is_digit s = true → string_all is_digit (pretty_N_go x s) = true.
Proof.
  revert s. induction (N.lt_wf_0 x) as [x _ IH]; intros s Hs.
  destruct (decide (x = 0)%N) as [->|Hx]; [done|].
  rewrite pretty_N_go_step by lia. apply IH; [apply N.div_lt; lia|]. cbn.
  unfold is_digit at 1. rewrite digit_of_char by (apply N.mod_lt; lia). done.
Qed.

Lemma show_uint_digits n : string_all is_digit (show_uint n) = true.
Proof. unfold show_uint, pretty, pretty_N. case_decide; [done|by apply digits_go]. Qed.

Lemma is_digit_plain c : is_digit c = true → plain_char c = true.
Proof. destruct c as [[] [] [] [] [] [] [] []]; vm_compute; congruence. Qed.

Lemma show_uint_plain n : plain (show_uint n) = true.
Proof. eapply string_all_impl; [apply is_digit_plain|apply show_uint_digits]. Qed.

Lemma pretty_go_nonempty x s : (0 < x)%N ∨ s ≠ "" → pretty_N_go x s ≠ "".
Proof.
  revert s. induction (N.lt_wf_0 x) as [x _ IH]; intros s Hs.
  destruct (decide (x = 0)%N) as [->|Hx]; [by destruct Hs|].
  rewrite pretty_N_go_step by lia. apply IH; [apply N.div_lt; lia|by right].
Qed.

Lemma show_uint_nonempty n : show_uint n ≠ "".
Proof.
  unfold show_uint, pretty, pretty_N. case_decide; [done|]. apply pretty_go_nonempty. lia.
Qed.

(** Printing and parsing a number. *)
Lemma parse_show_uint max n : 0 ≤ n ≤ max → parse_uint max (show_uint n) = Some n.
Proof.
  intros Hn.
  assert (Hd : parse_digits max 0 (show_uint n) = Some n).
  { unfold show_uint, pretty, pretty_N. case_decide as Hz.
    - assert (n = 0) as -> by lia.
      change (parse_digits max 0 "0") with (if max <? 0 then None else Some 0).
      destruct (max <? 0) eqn:E; [|done]. apply Z.ltb_lt in E. lia.
    - rewrite parse_digits_go by lia. cbn. by rewrite Z2N.id by lia. }
  pose proof (show_uint_digits n) as Hall. unfold parse_uint.
  pose proof (show_uint_nonempty n) as Hne.
  destruct (show_uint n) as [|c s]; [done|]. cbn in Hall.
  destruct (nat_of_ascii c =? 43)%nat eqn:E; [|done].
  apply Nat.eqb_eq in E. apply andb_true_iff in Hall as [Hc _].
  unfold is_digit, digit_of in Hc. by rewrite E in Hc.
Qed.
