(* ===== verification/Files.v ===== *)
(** * Writing a file so that a crash cannot spoil it ([recursor/anchor.rs])

    [atomic_write] and the file system under it.  A directory maps paths to files; a
    crash may take the directory back to any state since it was last synced, and leaves
    arbitrary text in a file that was not synced.  Every operation may fail, a failed
    write after any part of the text.  The states [atomic_write] passes through are
    recorded, since a crash may come at any of them. *)
From S2P Require Import Prelude Text.

Module Files.

Record File := { text : string; synced : bool }.
Abbreviation Dir := (gmap string nat).
(** [dir] is the directory as it is, [dirs] are the older ones a crash may bring back. *)
Record FS := { dir : Dir; dirs : list Dir; files : gmap nat File }.

Definition read (fs : FS) (path : string) : option string :=
  i ← dir fs !! path; f ← files fs !! i; Some (text f).

(** ** System calls *)

(** [File::create]: an existing file is truncated, else there is a new empty one. *)
Definition create (path : string) (fs : FS) : nat * FS :=
  let empty := {| text := ""; synced := false |} in
  match dir fs !! path with
  | Some i => (i, {| dir := dir fs; dirs := dirs fs; files := <[i := empty]> (files fs) |})
  | None =>
      let i := fresh (dom (files fs)) in
      (i, {| dir := <[path := i]> (dir fs); dirs := dir fs :: dirs fs; files := <[i := empty]> (files fs) |})
  end.
Definition set_file (i : nat) (f : File) (fs : FS) : FS :=
  {| dir := dir fs; dirs := dirs fs; files := <[i := f]> (files fs) |}.
Definition rename (old new : string) (fs : FS) : FS :=
  match dir fs !! old with
  | Some i => {| dir := <[new := i]> (delete old (dir fs)); dirs := dir fs :: dirs fs; files := files fs |}
  | None => fs
  end.
Definition sync_dir (fs : FS) : FS := {| dir := dir fs; dirs := []; files := files fs |}.

(** Which operations succeed; [io_written]: the text that reached the file when the
    write failed. *)
Record Io := {
  io_mkdir : bool; io_create : bool; io_write : bool; io_written : string; io_sync : bool;
  io_rename : bool; io_sync_dir : bool }.

Definition tmp_sibling (path : string) : string := path +:+ ".tmp".

(** The result, the final state, and the states passed through on the way. *)
Definition atomic_write (io : Io) (path bytes : string) (fs : FS) : result unit * FS * list FS :=
  if negb (io_mkdir io) then (Err "creating parent dir", fs, [])
  else
    let tmp_path := tmp_sibling path in
    if negb (io_create io) then (Err "creating temp file", fs, [])
    else
      let '(f, fs1) := create tmp_path fs in
      if negb (io_write io)
      then (Err "writing temp file", set_file f {| text := io_written io; synced := false |} fs1, [fs1])
      else
        let fs2 := set_file f {| text := bytes; synced := false |} fs1 in
        if negb (io_sync io) then (Err "fsync temp file", fs2, [fs1])
        else
          let fs3 := set_file f {| text := bytes; synced := true |} fs2 in
          if negb (io_rename io) then (Err "rename", fs3, [fs1; fs2])
          else
            let fs4 := rename tmp_path path fs3 in
            (Ok (), if io_sync_dir io then sync_dir fs4 else fs4, [fs1; fs2; fs3; fs4]).

(** ** Crashes *)

(** What may be found after a crash. *)
Record Crash (fs fs' : FS) : Prop := {
  cr_dir : dir fs' = dir fs ∨ dir fs' ∈ dirs fs;
  cr_dirs : dirs fs' = [];
  cr_files : ∀ i f, files fs !! i = Some f → is_Some (files fs' !! i) ∧ (synced f = true → files fs' !! i = Some f) }.
(** The directories a crash may leave. *)
Definition possible (fs : FS) : list Dir := dir fs :: dirs fs.
(** In every directory that may be found, each name has a file, the one of [path] is
    synced, and no name but the temporary one leads to a file that is under the
    temporary name there or now. *)
Definition safe (path : string) (fs : FS) : Prop :=
  ∀ D q i, D ∈ possible fs → D !! q = Some i →
    ∃ f, files fs !! i = Some f ∧ (q = path → synced f = true) ∧
      (q ≠ tmp_sibling path → D !! tmp_sibling path ≠ Some i ∧ dir fs !! tmp_sibling path ≠ Some i).
(** The texts that may be found under [path] after a crash; [None]: no file. *)
Definition survives (path : string) (fs : FS) (o : option string) : Prop :=
  ∃ D, D ∈ possible fs ∧ o = (i ← D !! path; f ← files fs !! i; Some (text f)).

Lemma tmp_sibling_ne path : path ≠ tmp_sibling path.
Proof.
  unfold tmp_sibling. induction path as [|c s IH]; cbn; [done|]. intros E. by injection E as ?%IH.
Qed.
Lemma crash_safe path fs fs' :
  safe path fs → Crash fs fs' → safe path fs' ∧ survives path fs (read fs' path).
Proof.
  intros S [Cd Cs Cf].
  assert (Hin : dir fs' ∈ possible fs) by (destruct Cd as [-> |]; [left|by right]). split.
  - intros D q i HD E. assert (D = dir fs') as ->.
    { unfold possible in HD. rewrite Cs in HD. by apply list_elem_of_singleton in HD. }
    destruct (S _ _ _ Hin E) as (f & F & Sy & T). destruct (Cf _ _ F) as [[f' F'] Fs]. exists f'. split_and!; [done| |].
    + intros Hq. specialize (Sy Hq). specialize (Fs Sy). congruence.
    + intros Hq. split; by apply T.
  - exists (dir fs'). split; [done|]. unfold read. destruct (dir fs' !! path) as [i|] eqn:E; [|done]. cbn.
    destruct (S _ _ _ Hin E) as (f & F & Sy & _). destruct (Cf _ _ F) as [_ Fs]. by rewrite F, (Fs (Sy eq_refl)).
Qed.
Lemma survives_now path fs : survives path fs (read fs path).
Proof. exists (dir fs). by split; [left|]. Qed.

Section Write.
Context (path : string).
Local Abbreviation tmp := (tmp_sibling path).

(** Nothing that may be found under [path] changes, now or after a crash, and no other
    file does, the temporary one apart. *)
Record calm (fs fs' : FS) : Prop := {
  ca_safe : safe path fs';
  ca_read : ∀ q, q ≠ tmp → read fs' q = read fs q;
  ca_survives : ∀ o, survives path fs' o → survives path fs o }.
Lemma calm_refl fs : safe path fs → calm fs fs.
Proof. by split. Qed.
Lemma calm_trans fs1 fs2 fs3 : calm fs1 fs2 → calm fs2 fs3 → calm fs1 fs3.
Proof.
  intros [_ R1 V1] [S2 R2 V2]. split; [done| |by eauto]. intros q Hq. by rewrite R2, R1.
Qed.
Lemma set_temp_calm f x fs : dir fs !! tmp = Some f → safe path fs → calm fs (set_file f x fs).
Proof.
  intros T S. assert (Ne : ∀ D q i, D ∈ possible fs → q ≠ tmp → D !! q = Some i → <[f := x]> (files fs) !! i = files fs !! i).
  { intros D q i HD Hq E. rewrite lookup_insert_ne; [done|]. intros <-. destruct (S _ _ _ HD E) as (_ & _ & _ & N).
    by destruct (N Hq) as [_ []]. }
  pose proof (tmp_sibling_ne path) as Np. split.
  - intros D q i HD E. destruct (S _ _ _ HD E) as (g & G & Sy & N). cbn. destruct (decide (q = tmp)) as [-> |Hq].
    + destruct (decide (i = f)) as [-> |Nf]; [exists x; rewrite lookup_insert_eq|exists g; rewrite lookup_insert_ne by done]; by split_and!.
    + rewrite (Ne D q) by done. by exists g.
  - intros q Hq. unfold read. cbn. destruct (dir fs !! q) as [i|] eqn:E; [|done]. cbn. rewrite (Ne (dir fs) q); [done|left|done|done].
  - intros o (D & HD & ->). exists D. split; [done|]. cbn. destruct (D !! path) as [i|] eqn:E; [|done]. cbn. by rewrite (Ne D path).
Qed.
Lemma create_calm fs f fs1 : create tmp fs = (f, fs1) → safe path fs → dir fs1 !! tmp = Some f ∧ calm fs fs1.
Proof.
  unfold create. intros Ec S. destruct (dir fs !! tmp) as [i|] eqn:T; injection Ec as <- <-.
  { split; [done|]. by apply (set_temp_calm i). }
  set (i := fresh (dom (files fs))). set (D1 := <[tmp := i]> (dir fs)).
  assert (Fi : files fs !! i = None) by (apply not_elem_of_dom, is_fresh).
  assert (N : ∀ D q j, D ∈ possible fs → D !! q = Some j → j ≠ i).
  { intros D q j HD E ->. destruct (S _ _ _ HD E) as (x & X & _). congruence. }
  pose proof (tmp_sibling_ne path) as Np. assert (Hd : dir fs ∈ possible fs) by left.
  assert (Et : D1 !! tmp = Some i) by apply lookup_insert_eq.
  assert (E1 : ∀ q, q ≠ tmp → D1 !! q = dir fs !! q) by (intros q Hq; by apply lookup_insert_ne).
  assert (Old : ∀ D q j, D ∈ possible fs → D !! q = Some j → <[i := {| text := ""; synced := false |}]> (files fs) !! j = files fs !! j).
  { intros D q j HD E. apply lookup_insert_ne. intros Ej. by apply (N D q j). }
  split; [exact Et|]. split.
  - intros D q j HD E. cbn [dir files]. change (<[tmp := i]> (dir fs)) with D1. rewrite Et. apply elem_of_cons in HD as [-> |HD].
    + change (D1 !! q = Some j) in E. destruct (decide (q = tmp)) as [-> |Hq].
      * rewrite Et in E. injection E as <-. eexists. split; [apply lookup_insert_eq|]. by split.
      * rewrite E1 in E by done. pose proof (N _ _ _ Hd E). rewrite (Old (dir fs) q) by done.
        destruct (S _ _ _ Hd E) as (g & G & Sy & _). exists g. split_and!; [done..|]. intros _. change (dir _) with D1. rewrite Et.
        split; congruence.
    + pose proof (N _ _ _ HD E). rewrite (Old D q) by done. destruct (S _ _ _ HD E) as (g & G & Sy & X). exists g. split_and!; [done..|].
      intros Hq. split; [by apply X|congruence].
  - intros q Hq. unfold read. cbn. change (<[tmp := i]> (dir fs)) with D1. rewrite E1 by done. destruct (dir fs !! q) as [j|] eqn:E; [|done]. cbn.
    by rewrite (Old (dir fs) q).
  - intros o (D & [-> |HD]%elem_of_cons & ->); cbn.
    + exists (dir fs). split; [done|]. change (<[tmp := i]> (dir fs)) with D1. rewrite E1 by done.
      destruct (dir fs !! path) as [j|] eqn:E; [|done]. cbn. by rewrite (Old (dir fs) path).
    + exists D. split; [done|]. destruct (D !! path) as [j|] eqn:E; [|done]. cbn. by rewrite (Old D path).
Qed.
(** The rename puts the new text in place, in one step. *)
Lemma rename_switches f bytes fs :
  dir fs !! tmp = Some f → safe path fs → files fs !! f = Some {| text := bytes; synced := true |} →
  let fs' := rename tmp path fs in
  safe path fs' ∧ read fs' path = Some bytes ∧ (∀ q, q ≠ path → q ≠ tmp → read fs' q = read fs q) ∧
  ∀ o, survives path fs' o → o = Some bytes ∨ survives path fs o.
Proof.
  intros T S F fs'. pose proof (tmp_sibling_ne path) as Np. unfold fs', rename. rewrite T.
  set (D1 := <[path := f]> (delete tmp (dir fs))).
  assert (Et : D1 !! tmp = None) by (unfold D1; rewrite lookup_insert_ne by done; apply lookup_delete_eq).
  split_and!.
  - intros D q i HD E. cbn [dir files]. rewrite Et. apply elem_of_cons in HD as [-> |HD].
    + change (D1 !! q = Some i) in E. change (dir _) with D1. rewrite Et. destruct (decide (q = path)) as [-> |Hq].
      * unfold D1 in E. rewrite lookup_insert_eq in E. injection E as <-. by eexists.
      * assert (dir fs !! q = Some i) as E'.
        { unfold D1 in E. rewrite lookup_insert_ne in E by done. by apply lookup_delete_Some in E as [_ ?]. }
        destruct (S (dir fs) q i) as (g & G & _); [left|done|]. by exists g.
    + destruct (S _ _ _ HD E) as (g & G & Sy & X). exists g. split_and!; [done..|]. intros Hq. by split; [apply X|].
  - unfold read. cbn. unfold D1. by rewrite lookup_insert_eq; cbn; rewrite F.
  - intros q Hq Hq'. unfold read. cbn. unfold D1. by rewrite lookup_insert_ne, lookup_delete_ne.
  - intros o (D & [-> |HD]%elem_of_cons & ->); cbn.
    + left. unfold D1. by rewrite lookup_insert_eq; cbn; rewrite F.
    + right. by exists D.
Qed.
Lemma sync_dir_calm fs : safe path fs → calm fs (sync_dir fs).
Proof.
  intros S. assert (P : ∀ D, D ∈ possible (sync_dir fs) → D ∈ possible fs)
    by (intros D ->%list_elem_of_singleton; left).
  split; [|done|].
  - intros D q i HD%P E. by apply S.
  - intros o (D & HD%P & ->). by exists D.
Qed.

(** Since [fs] nothing but [bytes] was added to what may be found under [path]. *)
Definition within (bytes : string) (fs s : FS) : Prop :=
  safe path s ∧ ∀ o, survives path s o → o = Some bytes ∨ survives path fs o.
Lemma calm_within bytes fs s : calm fs s → within bytes fs s.
Proof. intros [S _ V]. split; [done|]. intros o Ho. right. by apply V. Qed.
Lemma within_crash bytes fs s c :
  within bytes fs s → Crash s c → safe path c ∧ (read c path = Some bytes ∨ survives path fs (read c path)).
Proof. intros [S V] C. destruct (crash_safe _ _ _ S C) as [Sc Hc]. split; [done|]. by apply V. Qed.

Ltac all_within := cbn [app]; repeat apply Forall_cons_2; try apply Forall_nil_2; auto using calm_within.
(** What [atomic_write] does, step by step. *)
Lemma atomic_write_steps io bytes fs r fs' mid :
  safe path fs → atomic_write io path bytes fs = (r, fs', mid) →
  Forall (within bytes fs) (fs :: mid ++ [fs']) ∧
  match r with
  | Err _ => calm fs fs'
  | Ok _ => read fs' path = Some bytes ∧ (∀ q, q ≠ path → q ≠ tmp → read fs' q = read fs q) ∧
              (io_sync_dir io = true → dirs fs' = [])
  end.
Proof.
  intros S. pose proof (calm_within bytes _ _ (calm_refl fs S)) as W0. unfold atomic_write.
  destruct (io_mkdir io); cbn [negb]; [|intros [= <- <- <-]; split; [all_within|by apply calm_refl]].
  destruct (io_create io); cbn [negb]; [|intros [= <- <- <-]; split; [all_within|by apply calm_refl]].
  destruct (create tmp fs) as [f fs1] eqn:Ec. apply create_calm in Ec as [T C1]; [|done].
  assert (Put : ∀ x s, calm fs s → dir s !! tmp = Some f → calm fs (set_file f x s)).
  { intros x s Cs Ts. eapply calm_trans; [exact Cs|]. apply set_temp_calm; [done|by eapply ca_safe]. }
  pose proof (Put {| text := bytes; synced := false |} fs1 C1 T) as C2.
  pose proof (Put {| text := bytes; synced := true |} _ C2 T) as C3.
  pose proof (Put {| text := io_written io; synced := false |} fs1 C1 T) as Cw.
  destruct (io_write io); cbn [negb]; [|intros [= <- <- <-]; split; [all_within|done]].
  destruct (io_sync io); cbn [negb]; [|intros [= <- <- <-]; split; [all_within|done]].
  destruct (io_rename io); cbn [negb]; [|intros [= <- <- <-]; split; [all_within|done]].
  set (fs3 := set_file f {| text := bytes; synced := true |} _) in *.
  destruct (rename_switches f bytes fs3) as (S4 & R4 & O4 & V4); [done|by eapply ca_safe|apply lookup_insert_eq|].
  set (fs4 := rename tmp path fs3) in *.
  assert (W4 : within bytes fs fs4).
  { split; [done|]. intros o [?|Ho]%V4; [by left|]. right. by apply (ca_survives _ _ C3). }
  assert (W5 : within bytes fs (sync_dir fs4)).
  { destruct (sync_dir_calm fs4 S4) as [S5 _ V5]. split; [done|]. intros o Ho%V5. by apply W4. }
  intros [= <- <- <-]. split; [|split_and!].
  - all_within. by destruct (io_sync_dir io).
  - by destruct (io_sync_dir io).
  - intros q Hq Hq'. rewrite <- (ca_read _ _ C3 q Hq'), <- O4 by done. by destruct (io_sync_dir io).
  - by intros ->.
Qed.
End Write.

(** ** Two files *)

(** Names that do not get in each other's way. *)
Definition apart (p q : string) : Prop := p ≠ q ∧ p ≠ tmp_sibling q ∧ q ≠ tmp_sibling p ∧ tmp_sibling p ≠ tmp_sibling q.
(** Nothing that may be found under [q] changes. *)
Record still (q : string) (fs fs' : FS) : Prop := {
  st_safe : safe q fs';
  st_read : read fs' q = read fs q;
  st_survives : ∀ o, survives q fs' o → survives q fs o }.

Section Two.
Context (p q : string) (Ap : apart p q).
Lemma still_refl fs : safe q fs → still q fs fs.
Proof. by split. Qed.
Lemma still_trans fs1 fs2 fs3 : still q fs1 fs2 → still q fs2 fs3 → still q fs1 fs3.
Proof. intros [_ R1 V1] [S2 R2 V2]. split; [done|congruence|by eauto]. Qed.

(** When the directories that may be found agree on [q], and so do the files there. *)
Lemma still_intro fs fs' :
  safe q fs' → (∀ D', D' ∈ possible fs' → ∃ D, D ∈ possible fs ∧ D' !! q = D !! q) → dir fs' !! q = dir fs !! q →
  (∀ D i, D ∈ possible fs → D !! q = Some i → files fs' !! i = files fs !! i) → still q fs fs'.
Proof.
  intros S Hd Ec Hf. split; [done| |].
  - unfold read. rewrite Ec. destruct (dir fs !! q) as [i|] eqn:E; [|done]. cbn. rewrite (Hf (dir fs) i); [done|left|done].
  - intros o (D' & HD' & ->). destruct (Hd _ HD') as (D & HD & ->). exists D. split; [done|].
    destruct (D !! q) as [i|] eqn:E; [|done]. cbn. by rewrite (Hf D i).
Qed.
Lemma set_temp_still f x fs :
  dir fs !! tmp_sibling p = Some f → safe p fs → safe q fs → still q fs (set_file f x fs).
Proof.
  intros T Sp Sq. destruct Ap as (N1 & N2 & N3 & N4).
  assert (Ne : ∀ D n i, D ∈ possible fs → n ≠ tmp_sibling p → D !! n = Some i → i ≠ f).
  { intros D n i HD Hn E ->. destruct (Sp _ _ _ HD E) as (_ & _ & _ & X). by destruct (X Hn) as [_ []]. }
  apply still_intro; [|by eauto|done|].
  - intros D n i HD E. destruct (Sq _ _ _ HD E) as (g & G & Sy & X). cbn. destruct (decide (i = f)) as [-> |Nf].
    + exists x. rewrite lookup_insert_eq. split_and!; [done| |done]. intros ->. by destruct (Ne D q f).
    + exists g. by rewrite lookup_insert_ne.
  - intros D i HD E. cbn. rewrite lookup_insert_ne; [done|]. intros <-. by apply (Ne D q f).
Qed.
Lemma create_still fs f fs1 : create (tmp_sibling p) fs = (f, fs1) → safe p fs → safe q fs → still q fs fs1.
Proof.
  unfold create. intros Ec Sp Sq. destruct (dir fs !! tmp_sibling p) as [i|] eqn:T; injection Ec as <- <-.
  { by apply (set_temp_still i). }
  destruct Ap as (N1 & N2 & N3 & N4).
  set (i := fresh (dom (files fs))). set (D1 := <[tmp_sibling p := i]> (dir fs)).
  assert (Fi : files fs !! i = None) by (apply not_elem_of_dom, is_fresh).
  assert (N : ∀ D n j, D ∈ possible fs → D !! n = Some j → j ≠ i).
  { intros D n j HD E ->. destruct (Sq _ _ _ HD E) as (x & X & _). congruence. }
  assert (Hd : dir fs ∈ possible fs) by left.
  assert (E1 : ∀ n, n ≠ tmp_sibling p → D1 !! n = dir fs !! n) by (intros n Hn; by apply lookup_insert_ne).
  apply still_intro.
  - intros D n j HD E. cbn [dir files]. change (<[tmp_sibling p := i]> (dir fs)) with D1. rewrite (E1 (tmp_sibling q)) by done.
    apply elem_of_cons in HD as [-> |HD].
    + change (D1 !! n = Some j) in E. change (dir _) with D1 at 1. rewrite (E1 (tmp_sibling q)) by done.
      destruct (decide (n = tmp_sibling p)) as [-> |Hn].
      * unfold D1 in E. rewrite lookup_insert_eq in E. injection E as <-. eexists. split; [apply lookup_insert_eq|].
        split; [intros X; by symmetry in X|]. intros _. split; intros X; by destruct (N (dir fs) (tmp_sibling q) i).
      * rewrite E1 in E by done. rewrite lookup_insert_ne by (intros ?; by apply (N (dir fs) n j)). by apply Sq.
    + rewrite lookup_insert_ne by (intros ?; by apply (N D n j)). by apply Sq.
  - intros D [-> |HD]%elem_of_cons; [|by exists D]. exists (dir fs). split; [done|]. by apply E1.
  - by apply E1.
  - intros D j HD E. cbn. rewrite lookup_insert_ne; [done|]. intros ?. by apply (N D q j).
Qed.
Lemma rename_still f fs :
  dir fs !! tmp_sibling p = Some f → safe p fs → safe q fs → still q fs (rename (tmp_sibling p) p fs).
Proof.
  intros T Sp Sq. destruct Ap as (N1 & N2 & N3 & N4). unfold rename. rewrite T.
  set (D1 := <[p := f]> (delete (tmp_sibling p) (dir fs))).
  assert (E1 : ∀ n, n ≠ p → n ≠ tmp_sibling p → D1 !! n = dir fs !! n).
  { intros n Hn Hn'. unfold D1. by rewrite lookup_insert_ne, lookup_delete_ne. }
  assert (Hd : dir fs ∈ possible fs) by left.
  apply still_intro; [| |by apply E1|done].
  - intros D n i HD E. cbn [dir files]. rewrite (E1 (tmp_sibling q)) by done. apply elem_of_cons in HD as [-> |HD]; [|by apply Sq].
    change (D1 !! n = Some i) in E. change (dir _) with D1 at 1. rewrite (E1 (tmp_sibling q)) by done.
    destruct (decide (n = p)) as [-> |Hn].
    + unfold D1 in E. rewrite lookup_insert_eq in E. injection E as <-. destruct (Sq _ _ _ Hd T) as (g & G & _).
      exists g. split; [done|]. split; [done|]. intros _.
      assert (dir fs !! tmp_sibling q ≠ Some f); [|done]. intros X. destruct (Sp _ _ _ Hd X) as (_ & _ & _ & Y).
      destruct Y as [[] _]; [by apply not_eq_sym|done].
    + assert (dir fs !! n = Some i) as E'.
      { unfold D1 in E. rewrite lookup_insert_ne in E by done. by apply lookup_delete_Some in E as [_ ?]. }
      by apply Sq.
  - intros D [-> |HD]%elem_of_cons; [|by exists D]. exists (dir fs). split; [done|]. by apply E1.
Qed.
Lemma sync_dir_still fs : safe q fs → still q fs (sync_dir fs).
Proof.
  intros S. destruct (sync_dir_calm q fs S) as [S' _ V]. by split.
Qed.
Lemma atomic_write_still io bytes fs r fs' mid :
  safe p fs → safe q fs → atomic_write io p bytes fs = (r, fs', mid) → Forall (still q fs) (mid ++ [fs']).
Proof.
  intros Sp Sq. unfold atomic_write.
  assert (S0 : still q fs fs) by by apply still_refl.
  destruct (io_mkdir io); cbn [negb]; [|intros [= <- <- <-]; by apply Forall_singleton].
  destruct (io_create io); cbn [negb]; [|intros [= <- <- <-]; by apply Forall_singleton].
  destruct (create (tmp_sibling p) fs) as [f fs1] eqn:Ec. pose proof (create_still _ _ _ Ec Sp Sq) as S1.
  apply create_calm in Ec as [T C1]; [|done].
  assert (Put : ∀ x s, safe p s → dir s !! tmp_sibling p = Some f → still q fs s → safe p (set_file f x s) ∧ still q fs (set_file f x s)).
  { intros x s Ss Ts Hs. split; [eapply ca_safe, set_temp_calm; done|]. eapply still_trans; [exact Hs|].
    apply set_temp_still; [done|done|by eapply st_safe]. }
  destruct (Put {| text := bytes; synced := false |} fs1) as [P2 S2]; [by eapply ca_safe|done..|].
  destruct (Put {| text := bytes; synced := true |} (set_file f {| text := bytes; synced := false |} fs1)) as [P3 S3]; [done..|].
  destruct (Put {| text := io_written io; synced := false |} fs1) as [_ Sw]; [by eapply ca_safe|done..|].
  assert (S4 : still q fs (rename (tmp_sibling p) p (set_file f {| text := bytes; synced := true |} (set_file f {| text := bytes; synced := false |} fs1)))).
  { eapply still_trans; [exact S3|]. apply (rename_still f); [done|done|by eapply st_safe]. }
  pose proof (still_trans _ _ _ S4 (sync_dir_still _ (st_safe _ _ _ S4))) as S5.
  repeat (match goal with |- context [if negb ?b then _ else _] => destruct b; cbn [negb] end);
    intros [= <- <- <-]; cbn [app]; repeat apply Forall_cons_2; try apply Forall_nil_2; try done. by destruct (io_sync_dir io).
Qed.
End Two.

(** C20. A crash cannot spoil a file written by [atomic_write].  Whatever operations
    fail: the result tells whether the new text is in place, else the old one still
    is, and no other file changes, the temporary one apart.  If the machine crashes at
    any moment, the file then holds the new text or what it could have held after a
    crash before the call, never anything else, and can be written again as
    safely.  Once the call and the sync of the directory have succeeded, a crash
    leaves the new text. *)
Theorem atomic_write_crash_safe io path bytes fs r fs' mid :
  safe path fs → atomic_write io path bytes fs = (r, fs', mid) →
  read fs' path = match r with Ok _ => Some bytes | Err _ => read fs path end ∧
  (∀ q, q ≠ path → q ≠ tmp_sibling path → read fs' q = read fs q) ∧
  (∀ s c, s ∈ fs :: mid ++ [fs'] → Crash s c →
     safe path c ∧ (read c path = Some bytes ∨ survives path fs (read c path))) ∧
  (∀ c, r = Ok () → io_sync_dir io = true → Crash fs' c → read c path = Some bytes).
Proof.
  intros S E. apply atomic_write_steps in E as [W R]; [|done]. rewrite Forall_forall in W. split_and!.
  - destruct r; [apply R|apply R, tmp_sibling_ne].
  - intros q Hq Ht. destruct r; [by apply R|by apply R].
  - intros s c Hs. apply within_crash. by apply W.
  - intros c -> Hd C. destruct R as (Rd & _ & D). destruct (W fs') as [S' _]; [right; apply elem_of_app; right; left|].
    destruct (crash_safe _ _ _ S' C) as [_ (D' & HD & ->)]. unfold possible in HD. rewrite (D Hd) in HD.
    apply list_elem_of_singleton in HD as ->. exact Rd.
Qed.
End Files.

(** ** Examples *)
Module FilesExamples.
Import Files.

Definition ex_fs : FS := {| dir := {["key" := 0%nat]}; dirs := []; files := {[0%nat := {| text := "old"; synced := true |}]} |}.
Definition ex_io (rename_ok : bool) : Io :=
  {| io_mkdir := true; io_create := true; io_write := true; io_written := ""; io_sync := true; io_rename := rename_ok; io_sync_dir := false |}.
Definition ex_files : gmap nat File :=
  <[0%nat := {| text := "old"; synced := true |}]> {[1%nat := {| text := "new"; synced := true |}]}.
Definition ex_tmp_dir : Dir := {["key" := 0%nat; "key.tmp" := 1%nat]}.
(** The rename succeeds but is not synced; the crash takes it back. *)
Definition ex_written : FS := {| dir := {["key" := 1%nat]}; dirs := [ex_tmp_dir; {["key" := 0%nat]}]; files := ex_files |}.
Definition ex_after : FS := {| dir := {["key" := 0%nat]}; dirs := []; files := ex_files |}.
Lemma ex_safe : safe "key" ex_fs.
Proof.
  intros D q i ->%list_elem_of_singleton E. cbn in E. apply lookup_singleton_Some in E as [<- <-].
  eexists. by split_and!.
Qed.
Lemma atomic_write_crash_safe_witness :
  read ex_written "key" = Some "new" ∧ read ex_after "key" = Some "old" ∧
  (read ex_after "key" = Some "new" ∨ survives "key" ex_fs (read ex_after "key")) ∧
  read (atomic_write (ex_io false) "key" "new" ex_fs).1.2 "key" = Some "old".
Proof.
  destruct (atomic_write_crash_safe (ex_io true) "key" "new" ex_fs (Ok ()) ex_written
    (atomic_write (ex_io true) "key" "new" ex_fs).2 ex_safe) as (R & _ & C & _); [vm_compute; reflexivity|].
  split; [exact R|]. split; [vm_compute; reflexivity|]. split; [|vm_compute; reflexivity].
  apply (C ex_written ex_after).
  - right. apply elem_of_app. right. left.
  - split; [right; right; left|done|]. intros i f E. by split.
Defined.
End FilesExamples.
