(* ===== verification/LocalZones.v ===== *)
(** * Questions answered without recursion

    [recursor/local_zones.rs] (RFC 6303 empty zones), [recursor/ipv4only.rs]
    (RFC 8880), [recursor/ddr.rs] (RFC 9462) and [recursor/normalize.rs]. *)
From Stdlib Require Import Ascii Sorted.
From S2P Require Import Prelude Hickory Net Reference Text Dns64.

(** ** Empty zones *)
Module LocalZones.
Section LocalZones.
Context `{NameOps}.

Definition PRIVATE_IPV4_ARPA : list string :=
  ["10.in-addr.arpa."; "16.172.in-addr.arpa."; "17.172.in-addr.arpa."; "18.172.in-addr.arpa.";
   "19.172.in-addr.arpa."; "20.172.in-addr.arpa."; "21.172.in-addr.arpa.";
   "22.172.in-addr.arpa."; "23.172.in-addr.arpa."; "24.172.in-addr.arpa.";
   "25.172.in-addr.arpa."; "26.172.in-addr.arpa."; "27.172.in-addr.arpa.";
   "28.172.in-addr.arpa."; "29.172.in-addr.arpa."; "30.172.in-addr.arpa.";
   "31.172.in-addr.arpa."; "168.192.in-addr.arpa."; "254.169.in-addr.arpa.";
   "0.in-addr.arpa."; "127.in-addr.arpa."; "2.0.192.in-addr.arpa.";
   "100.51.198.in-addr.arpa."; "113.0.203.in-addr.arpa."; "255.255.255.255.in-addr.arpa."].
Definition PRIVATE_IPV6_ARPA : list string :=
  ["d.f.ip6.arpa."; "c.f.ip6.arpa."; "8.e.f.ip6.arpa."; "9.e.f.ip6.arpa."; "a.e.f.ip6.arpa.";
   "b.e.f.ip6.arpa."; "8.b.d.0.1.0.0.2.ip6.arpa."].
Definition SPECIAL_USE_TLDS : list string := ["home.arpa."].

(** One iteration of the loop over the zones. *)
Definition in_zone (s z : string) : bool :=
  if String.eqb s z then true
  else if (String.length z <? String.length s)%nat && ends_with s z then
    let cut := (String.length s - String.length z)%nat in
    (0 <? cut)%nat && bool_decide (String.get (cut - 1) s = Some "."%char)
  else false.

Definition is_private_reverse (qname : Name) : bool :=
  let s := to_ascii (to_lowercase qname) in
  existsb (in_zone s) (PRIVATE_IPV4_ARPA ++ PRIVATE_IPV6_ARPA ++ SPECIAL_USE_TLDS).

Lemma in_zone_spec s z : in_zone s z = true ↔ s = z ∨ ∃ p, s = p +:+ "." +:+ z.
Proof.
  unfold in_zone. destruct (String.eqb_spec s z) as [->|Hne]; [tauto|].
  split.
  - intros Hc. right. destruct (_ && ends_with s z) eqn:E; [|done].
    apply andb_true_iff in E as [Hl%Nat.ltb_lt [p ->]%ends_with_spec].
    rewrite string_length_app in *.
    apply andb_true_iff in Hc as [_ Hc%bool_decide_eq_true].
    replace (String.length p + String.length z - String.length z - 1)%nat
      with (String.length p - 1)%nat in Hc by lia.
    destruct (string_drop_split (String.length p - 1) p) as (p' & Hp & Hl'); [lia|].
    assert (Hone : String.length (string_drop (String.length p - 1) p) = 1%nat).
    { pose proof (f_equal String.length Hp) as Hlen. rewrite string_length_app in Hlen. lia. }
    destruct (string_drop (String.length p - 1) p) as [|c [|]]; try done.
    exists p'. rewrite Hp in Hc |- *.
    rewrite string_app_assoc in *. change (String c "" +:+ z) with (String c z) in *.
    rewrite string_length_app in Hc. cbn in Hc.
    replace (String.length p' + 1 - 1)%nat with (String.length p') in Hc by lia.
    rewrite string_get_app in Hc. injection Hc as ->. done.
  - intros [?|[p ->]]; [done|]. rewrite string_length_app.
    change (String.length ("." +:+ z)) with (S (String.length z)).
    rewrite (proj2 (Nat.ltb_lt _ _)) by lia.
    rewrite (proj2 (ends_with_spec _ z)).
    2:{ exists (p +:+ "."). by rewrite string_app_assoc. }
    cbn [andb]. rewrite (proj2 (Nat.ltb_lt _ _)) by lia. apply bool_decide_eq_true.
    replace (_ - 1)%nat with (String.length p) by lia. apply string_get_app.
Qed.

(** The byte-indexed suffix test is exactly the zone test: a name is answered
    locally when its lower-case text is one of the listed zones or ends in a
    zone preceded by a label separator; a name that merely ends in the same
    letters is not. *)
Theorem is_private_reverse_iff qname :
  is_private_reverse qname = true ↔
  ∃ z, z ∈ PRIVATE_IPV4_ARPA ++ PRIVATE_IPV6_ARPA ++ SPECIAL_USE_TLDS ∧
    (to_ascii (to_lowercase qname) = z ∨ ∃ p, to_ascii (to_lowercase qname) = p +:+ "." +:+ z).
Proof.
  unfold is_private_reverse. rewrite existsb_exists.
  setoid_rewrite in_zone_spec. by setoid_rewrite list_elem_of_In.
Qed.
End LocalZones.
End LocalZones.

(** ** RFC 8880 *)
Module Ipv4Only.
Import Dns64.
Section Ipv4Only.
Context `{NameOps, !Hickory}.

Definition LOCAL_TTL : Z := 3600.
Definition A_170 : Ipv4Addr := [192; 0; 0; 170].
Definition A_171 : Ipv4Addr := [192; 0; 0; 171].
Definition PTR_NAMES : list string :=
  ["170.0.0.192.in-addr.arpa."; "171.0.0.192.in-addr.arpa."].

Definition is_local_question (qname : Name) (qtype : RecordType) : bool :=
  let s := to_ascii (to_lowercase qname) in
  match qtype with
  | RT_A | RT_AAAA => String.eqb s "ipv4only.arpa."
  | RT_PTR => existsb (λ n, String.eqb s n) PTR_NAMES
  | _ => false
  end.

(** [rec.dns_class = DNSClass::IN; resp.add_answer(rec)]. *)
Definition push_in (qname : Name) (ttl : Z) (d : RData) (resp : Message) : Message :=
  add_answer (set_r_class DC_IN (record_from_rdata qname ttl d)) resp.

(** [None] where the code panics: no question, or an impossible prefix. *)
Definition synth_response (original_query : Message) (dns64_policy : option Dns64Policy)
  (dns64_enabled : bool) : option Message :=
  q ← head (queries original_query);
  let qname := q_name q in
  let resp := response_shell original_query RC_NoError in
  match query_type q with
  | RT_A => Some (foldl (λ resp v4, push_in qname LOCAL_TTL (RD_A v4) resp) resp [A_170; A_171])
  | RT_AAAA =>
      match dns64_enabled, dns64_policy with
      | true, Some policy =>
          foldl (λ resp v4, resp ← resp; v6 ← embed_v4 (prefix policy) v4;
                            Some (push_in qname LOCAL_TTL (RD_AAAA v6) resp))
            (Some resp) [A_170; A_171]
      | _, _ => Some resp
      end
  | RT_PTR =>
      target ← from_ascii "ipv4only.arpa.";
      Some (push_in qname LOCAL_TTL (RD_PTR target) resp)
  | _ => Some resp
  end.

Context `{!HickoryLaws, IpNets, !IpNetLaws}.

(** RFC 8880: an AAAA probe for [ipv4only.arpa] on a DNS64 listener is
    answered with exactly two records, one for each well-known address, from
    which the client recovers that address by stripping the NAT64 prefix; without
    DNS64 it gets the empty answer that tells it no synthesiser is in the path. *)
Theorem ipv4only_probe q policy enabled qry :
  head (queries qry) = Some q → query_type q = RT_AAAA →
  is_v6_addr (net6_addr (prefix policy)) →
  valid_prefix_length (net6_prefix_len (prefix policy)) = true →
  ∃ resp, synth_response qry (Some policy) enabled = Some resp ∧
    id (metadata resp) = id (metadata qry) ∧ queries resp = queries qry ∧
    response_code (metadata resp) = RC_NoError ∧ authentic_data (metadata resp) = false ∧
    if enabled
    then ∃ a b, map r_data (answers resp) = [RD_AAAA a; RD_AAAA b] ∧
           extract_v4 (prefix policy) a = Some A_170 ∧ extract_v4 (prefix policy) b = Some A_171 ∧
           Forall (λ r, r_name r = q_name q ∧ r_class r = DC_IN) (answers resp)
    else answers resp = [].
Proof.
  intros Hq Ht Hp Hv. unfold synth_response. rewrite Hq. cbn [mbind option_bind]. rewrite Ht.
  destruct enabled.
  2:{ eexists. split; [done|]. by rewrite response_shell_spec. }
  assert (is_v4_addr A_170 ∧ is_v4_addr A_171) as [Ha Hb]
    by (split; split; try done; repeat constructor; done).
  destruct (embed_v4_v6 _ _ Hp Ha Hv) as (a & Ea & _), (embed_v4_v6 _ _ Hp Hb Hv) as (b & Eb & _).
  cbn [foldl]. rewrite Ea. cbn. rewrite Eb. cbn. eexists. split; [done|].
  unfold push_in. rewrite !record_from_rdata_spec, response_shell_spec. cbn.
  split_and!; try done. exists a, b. split_and!; [done| | |by repeat constructor].
  - exact (extract_embed _ _ _ Hp Ha Hv Ea).
  - exact (extract_embed _ _ _ Hp Hb Hv Eb).
Qed.
End Ipv4Only.
End Ipv4Only.

(** ** RFC 9462 *)
Module Ddr.
Section Ddr.
Context `{NameOps, !Hickory}.

Definition DDR_TTL : Z := 7200.
Definition RESOLVER_ARPA : string := "_dns.resolver.arpa.".
Definition is_ddr_question (qname : Name) : bool :=
  String.eqb (to_ascii (to_lowercase qname)) RESOLVER_ARPA.

Definition is_global_scope (ip : IpAddr) : bool :=
  match ip with
  | V4 v4 =>
      negb (v4_is_private v4) && negb (v4_is_loopback v4) && negb (v4_is_link_local v4)
      && negb (v4_is_unspecified v4) && negb (v4_is_broadcast v4) && negb (v4_is_documentation v4)
  | V6 v6 =>
      if v6_is_loopback v6 || v6_is_unspecified v6 then false
      else match segments v6 with
           | top :: _ => negb (Z.land top 0xfe00 =? 0xfc00) && negb (Z.land top 0xffc0 =? 0xfe80)
           | [] => false
           end
  end.

Definition DOH_PATH : string := "/dns-query{?dns}".

Fixpoint split_global_hints (addrs : list IpAddr) : list Ipv4Addr * list Ipv6Addr :=
  match addrs with
  | [] => ([], [])
  | ip :: rest =>
      let '(v4, v6) := split_global_hints rest in
      if negb (is_global_scope ip) then (v4, v6)
      else match ip with V4 a => (a :: v4, v6) | V6 a => (v4, a :: v6) end
  end.

Definition hint_params (v4 : list Ipv4Addr) (v6 : list Ipv6Addr)
  : list (SvcParamKey * SvcParamValue) :=
  (if bool_decide (v4 = []) then [] else [(SK_Ipv4Hint, SV_Ipv4Hint v4)]) ++
  (if bool_decide (v6 = []) then [] else [(SK_Ipv6Hint, SV_Ipv6Hint v6)]).

Definition build_ddr_records (resolver_name : Name) (dot_addrs doh_addrs : list IpAddr)
  : list SVCB :=
  let '(v4, v6) := split_global_hints dot_addrs in
  let dot :=
    if bool_decide (v4 = []) && bool_decide (v6 = []) then []
    else [{| svc_priority := 1; target_name := resolver_name;
             svc_params := [(SK_Alpn, SV_Alpn ["dot"]); (SK_Port, SV_Port 853)]
                           ++ hint_params v4 v6 |}] in
  let '(v4, v6) := split_global_hints doh_addrs in
  let doh :=
    if bool_decide (v4 = []) && bool_decide (v6 = []) then []
    else [{| svc_priority := 2; target_name := resolver_name;
             svc_params := [(SK_Alpn, SV_Alpn ["h2"])] ++ hint_params v4 v6
                           ++ [(SK_Unknown 7, SV_Unknown (bytes_of_string DOH_PATH))] |}] in
  dot ++ doh.

Definition synth_response (original_query : Message) (svcbs : list SVCB) : option Message :=
  q ← head (queries original_query);
  let resp := Dns64.response_shell original_query RC_NoError in
  if bool_decide (query_type q = RT_SVCB)
  then Some (foldl (λ resp svcb,
         add_answer (set_r_class DC_IN (record_from_rdata (q_name q) DDR_TTL (RD_SVCB svcb))) resp)
         resp svcbs)
  else Some resp.

(** ** The scope test *)

(** The special-purpose networks the test excludes. *)
Definition NON_GLOBAL : list IpNet :=
  [{| net_ip := V4 [10; 0; 0; 0]; net_prefix_len := 8 |};
   {| net_ip := V4 [172; 16; 0; 0]; net_prefix_len := 12 |};
   {| net_ip := V4 [192; 168; 0; 0]; net_prefix_len := 16 |};
   {| net_ip := V4 [127; 0; 0; 0]; net_prefix_len := 8 |};
   {| net_ip := V4 [169; 254; 0; 0]; net_prefix_len := 16 |};
   {| net_ip := V4 [0; 0; 0; 0]; net_prefix_len := 32 |};
   {| net_ip := V4 [255; 255; 255; 255]; net_prefix_len := 32 |};
   {| net_ip := V4 [192; 0; 2; 0]; net_prefix_len := 24 |};
   {| net_ip := V4 [198; 51; 100; 0]; net_prefix_len := 24 |};
   {| net_ip := V4 [203; 0; 113; 0]; net_prefix_len := 24 |};
   {| net_ip := V6 [0;0;0;0;0;0;0;0;0;0;0;0;0;0;0;1]; net_prefix_len := 128 |};
   {| net_ip := V6 [0;0;0;0;0;0;0;0;0;0;0;0;0;0;0;0]; net_prefix_len := 128 |};
   {| net_ip := V6 [252;0;0;0;0;0;0;0;0;0;0;0;0;0;0;0]; net_prefix_len := 7 |};
   {| net_ip := V6 [254;128;0;0;0;0;0;0;0;0;0;0;0;0;0;0]; net_prefix_len := 10 |}].

Context `{IpNets, !IpNetLaws}.

Definition in_nets (nets : list IpNet) (ip : IpAddr) : bool :=
  existsb (λ n, ipnet_contains n ip) nets.

Lemma contains_v4 b len a :
  is_v4_addr a → is_v4_addr b → 0 ≤ len ≤ 32 →
  ipnet_contains {| net_ip := V4 b; net_prefix_len := len |} (V4 a) = ref_same_prefix 32 len b a.
Proof.
  intros Ha Hb Hl. apply eq_bool_prop_intro. rewrite !Is_true_true.
  rewrite (ipnet_contains_v4 _ a b) by done. symmetry. apply Z.eqb_eq.
Qed.

Lemma contains_v6 b len a :
  is_v6_addr a → is_v6_addr b → 0 ≤ len ≤ 128 →
  ipnet_contains {| net_ip := V6 b; net_prefix_len := len |} (V6 a) = ref_same_prefix 128 len b a.
Proof.
  intros Ha Hb Hl. apply eq_bool_prop_intro. rewrite !Is_true_true.
  rewrite (ipnet_contains_v6 _ a b) by done. symmetry. apply Z.eqb_eq.
Qed.

Ltac addr_bytes := split; [reflexivity|repeat constructor; done].

(** The prefix test on octets, for the lengths in the list. *)
Lemma v4_prefix_cases b1 b2 b3 b4 w x y z :
  is_byte b2 → is_byte b3 → is_byte b4 → is_byte x → is_byte y → is_byte z →
  let cmp len := ref_same_prefix 32 len [b1; b2; b3; b4] [w; x; y; z] in
  (cmp 8 = true ↔ w = b1) ∧ (cmp 16 = true ↔ w = b1 ∧ x = b2) ∧
  (cmp 24 = true ↔ w = b1 ∧ x = b2 ∧ y = b3) ∧
  (cmp 32 = true ↔ w = b1 ∧ x = b2 ∧ y = b3 ∧ z = b4) ∧
  (b2 = 16 → cmp 12 = true ↔ w = b1 ∧ 16 ≤ x ≤ 31).
Proof.
  unfold is_byte. intros. cbn zeta. unfold ref_same_prefix, octets_value. cbn [foldl].
  change (2 ^ (32 - 8)) with 16777216. change (2 ^ (32 - 16)) with 65536.
  change (2 ^ (32 - 24)) with 256. change (2 ^ (32 - 32)) with 1.
  change (2 ^ (32 - 12)) with 1048576. rewrite !Z.eqb_eq.
  Z.to_euclidean_division_equations. split_and!; lia.
Qed.

Lemma scope_v4 a : is_v4_addr a → in_nets NON_GLOBAL (V4 a) = negb (is_global_scope (V4 a)).
Proof.
  intros Ha. unfold in_nets, NON_GLOBAL. cbn [existsb].
  rewrite !(ipnet_contains_family {| net_ip := V6 _; net_prefix_len := _ |} (V4 a)) by done.
  rewrite !contains_v4 by (done || lia || addr_bytes).
  destruct (is_v4_addr_inv a Ha) as (w & x & y & z & -> & Hw & Hx & Hy & Hz).
  apply eq_bool_prop_intro. cbn [is_global_scope v4_is_private v4_is_loopback v4_is_link_local
    v4_is_documentation]. unfold v4_is_unspecified, v4_is_broadcast.
  rewrite !Is_true_true. repeat rewrite ?orb_true_iff, ?andb_true_iff, ?negb_true_iff, ?andb_false_iff,
    ?orb_false_iff, ?Z.eqb_eq, ?Z.eqb_neq, ?Z.leb_le, ?negb_false_iff, ?bool_decide_eq_true.
  repeat match goal with
  | |- context [ref_same_prefix 32 ?l [?b1; ?b2; ?b3; ?b4] ?a = true] =>
      let Hc := fresh in
      pose proof (v4_prefix_cases b1 b2 b3 b4 w x y z ltac:(done) ltac:(done) ltac:(done) Hx Hy Hz) as Hc;
      cbn zeta in Hc; first [rewrite (proj1 Hc)|rewrite (proj1 (proj2 Hc))
       |rewrite (proj1 (proj2 (proj2 Hc)))|rewrite (proj1 (proj2 (proj2 (proj2 Hc))))
       |rewrite (proj2 (proj2 (proj2 (proj2 Hc))) eq_refl)]; clear Hc
  end.
  assert (Hl : ∀ b, [w; x; y; z] = [b; b; b; b] ↔ w = b ∧ x = b ∧ y = b ∧ z = b) by naive_solver.
  assert (Hf : false = true ↔ False) by done. rewrite !Hl, !Hf. tauto.
Qed.

Lemma v6_prefix_cases hi lo rest b1 b2 brest :
  is_v6_addr (hi :: lo :: rest) → is_v6_addr (b1 :: b2 :: brest) → octets_value brest = 0 →
  let cmp len := ref_same_prefix 128 len (b1 :: b2 :: brest) (hi :: lo :: rest) in
  (b1 = 252 → b2 = 0 → cmp 7 = true ↔ hi = 252 ∨ hi = 253) ∧
  (b1 = 254 → b2 = 128 → cmp 10 = true ↔ (hi = 254 ∧ 128 ≤ lo) ∧ lo < 192).
Proof.
  intros [Hl1 Hb1] [Hl2 Hb2] Hz. cbn zeta. unfold ref_same_prefix. rewrite !Z.eqb_eq.
  rewrite !Forall_cons in Hb1, Hb2. destruct Hb1 as (Hh & Hlo & Hr), Hb2 as (_ & _ & Hbr).
  cbn in Hl1, Hl2. pose proof (octets_value_bound rest Hr) as Hv.
  pose proof (same_prefix_v6 7 b1 b2 brest hi lo rest ltac:(lia) ltac:(lia)) as H7.
  pose proof (same_prefix_v6 10 b1 b2 brest hi lo rest ltac:(lia) ltac:(lia)) as H10.
  unfold same_prefix in H7, H10. rewrite H7, H10, Hz. clear H7 H10.
  replace (length rest) with 14%nat in Hv by lia. unfold is_byte in *.
  change (256 ^ Z.of_nat 14) with (2 ^ 112) in Hv. generalize dependent (octets_value rest).
  change (128 - 7) with 121. change (128 - 10) with 118.
  change (2 ^ 121) with (512 * 2 ^ 112). change (2 ^ 118) with (64 * 2 ^ 112).
  change (2 ^ 112) with 5192296858534827628530496329220096. intros v Hv. clear - Hh Hlo Hv.
  split; intros -> ->; Z.to_euclidean_division_equations; lia.
Qed.

Lemma v6_full a b :
  is_v6_addr a → is_v6_addr b → ref_same_prefix 128 128 b a = bool_decide (a = b).
Proof.
  intros [Hl1 Hb1] [Hl2 Hb2]. apply eq_bool_prop_intro. unfold ref_same_prefix.
  rewrite !Is_true_true, Z.eqb_eq, bool_decide_eq_true. change (2 ^ (128 - 128)) with 1.
  rewrite !Z.div_1_r. split; [|congruence]. intros He. symmetry. apply octets_value_inj; congruence.
Qed.

Lemma scope_v6 a : is_v6_addr a → in_nets NON_GLOBAL (V6 a) = negb (is_global_scope (V6 a)).
Proof.
  intros Ha. unfold in_nets, NON_GLOBAL. cbn [existsb].
  rewrite !(ipnet_contains_family {| net_ip := V4 _; net_prefix_len := _ |} (V6 a)) by done.
  rewrite !contains_v6 by (done || lia || addr_bytes).
  rewrite !v6_full by (done || addr_bytes).
  destruct (is_v6_addr_inv a Ha) as (hi & lo & rest & -> & Hh & Hl & Hr & Hrb).
  destruct (v6_prefix_cases hi lo rest 252 0 (replicate 14 0) Ha ltac:(addr_bytes) eq_refl) as [H7 _].
  destruct (v6_prefix_cases hi lo rest 254 128 (replicate 14 0) Ha ltac:(addr_bytes) eq_refl) as [_ H10].
  specialize (H7 eq_refl eq_refl). specialize (H10 eq_refl eq_refl). cbn [replicate] in H7, H10.
  destruct (segment_masks hi lo Hh Hl) as [Hm7 Hm10].
  unfold is_global_scope, segments. cbn [pair_octets]. rewrite Hm7, Hm10.
  unfold v6_is_loopback, v6_is_unspecified. cbn [orb].
  apply eq_bool_prop_intro. rewrite !Is_true_true.
  destruct (bool_decide (_ = [0;0;0;0;0;0;0;0;0;0;0;0;0;0;0;1])); [tauto|].
  destruct (bool_decide (_ = _)); [tauto|]. cbn [orb].
  repeat rewrite ?orb_true_iff, ?andb_true_iff, ?negb_true_iff, ?andb_false_iff, ?negb_false_iff,
    ?Z.eqb_eq, ?Z.leb_le, ?Z.ltb_lt. rewrite H7, H10.
  assert (Hf : false = true ↔ False) by done. rewrite Hf. tauto.
Qed.

Lemma scope_spec ip : is_ip_addr ip → is_global_scope ip = negb (in_nets NON_GLOBAL ip).
Proof.
  destruct ip; cbn [is_ip_addr]; intros Ha; [rewrite scope_v4|rewrite scope_v6]; try done;
    by rewrite negb_involutive.
Qed.
(** ** The advertised records *)

Definition key_code (k : SvcParamKey) : Z :=
  match k with SK_Alpn => 1 | SK_Port => 3 | SK_Ipv4Hint => 4 | SK_Ipv6Hint => 6 | SK_Unknown n => n end.
Definition value_hints (v : SvcParamValue) : list IpAddr :=
  match v with SV_Ipv4Hint l => map V4 l | SV_Ipv6Hint l => map V6 l | _ => [] end.
Definition hints (r : SVCB) : list IpAddr := concat (map (λ p, value_hints p.2) (svc_params r)).

Lemma split_global_hints_spec addrs ip :
  ip ∈ map V4 (split_global_hints addrs).1 ++ map V6 (split_global_hints addrs).2 ↔
  ip ∈ addrs ∧ is_global_scope ip = true.
Proof.
  induction addrs as [|x addrs IH]; cbn [split_global_hints]; [cbn; set_solver|].
  destruct (split_global_hints addrs) as [v4 v6]. cbn [fst snd] in IH.
  destruct (is_global_scope x) eqn:E; cbn [negb].
  - destruct x; cbn [fst snd map]; rewrite ?elem_of_app, ?elem_of_cons in *; naive_solver.
  - cbn [fst snd]. rewrite IH, elem_of_cons. split; [tauto|]. intros [[->|?] ?]; [congruence|tauto].
Qed.

Lemma hint_params_hints v4 v6 :
  concat (map (λ p : SvcParamKey * SvcParamValue, value_hints p.2) (hint_params v4 v6))
  = map V4 v4 ++ map V6 v6.
Proof. by destruct v4, v6; cbn; rewrite ?app_nil_r. Qed.

Lemma split_global_hints_empty addrs :
  bool_decide ((split_global_hints addrs).1 = []) && bool_decide ((split_global_hints addrs).2 = [])
  = negb (existsb is_global_scope addrs).
Proof.
  induction addrs as [|x addrs IH]; cbn [split_global_hints existsb]; [done|].
  destruct (split_global_hints addrs) as [v4 v6]. cbn [fst snd] in IH.
  destruct (is_global_scope x); cbn [negb orb]; [by destruct x, v4, v6|done].
Qed.

Ltac sorted_params := repeat (constructor; try done).

(** DDR advertises DoT (priority 1) and DoH (priority 2) each exactly when
    its listeners have an address outside the special-purpose networks; every
    address hint is such a listener address of that transport, and the parameter
    keys of each record are strictly ascending as RFC 9460 requires. *)
Theorem ddr_records_sound name dot_addrs doh_addrs :
  Forall is_ip_addr dot_addrs → Forall is_ip_addr doh_addrs →
  let rs := build_ddr_records name dot_addrs doh_addrs in
  map svc_priority rs =
    (if existsb is_global_scope dot_addrs then [1] else []) ++
    (if existsb is_global_scope doh_addrs then [2] else []) ∧
  ∀ r, r ∈ rs → target_name r = name ∧
    StronglySorted Z.lt (map (λ p, key_code p.1) (svc_params r)) ∧
    ∀ ip, ip ∈ hints r ↔
      ip ∈ (if svc_priority r =? 1 then dot_addrs else doh_addrs) ∧ in_nets NON_GLOBAL ip = false.
Proof.
  intros Hdot Hdoh. cbn zeta. unfold build_ddr_records.
  assert (Hs : ∀ addrs ip, Forall is_ip_addr addrs →
    ip ∈ map V4 (split_global_hints addrs).1 ++ map V6 (split_global_hints addrs).2 ↔
    ip ∈ addrs ∧ in_nets NON_GLOBAL ip = false).
  { intros addrs ip Ha. rewrite split_global_hints_spec. rewrite Forall_forall in Ha.
    split; intros [Hin Hg]; (split; [done|]); specialize (Ha ip Hin);
      rewrite scope_spec in * by done; by destruct (in_nets NON_GLOBAL ip). }
  pose proof (split_global_hints_empty dot_addrs) as E1.
  pose proof (split_global_hints_empty doh_addrs) as E2.
  pose proof (λ ip, Hs dot_addrs ip Hdot) as Hs1. pose proof (λ ip, Hs doh_addrs ip Hdoh) as Hs2.
  destruct (split_global_hints dot_addrs) as [v4 v6], (split_global_hints doh_addrs) as [w4 w6].
  cbn [fst snd] in *. rewrite E1, E2. split.
  { destruct (existsb _ dot_addrs), (existsb _ doh_addrs); done. }
  intros r Hr. apply elem_of_app in Hr as [Hr|Hr]; case_match; try (by apply elem_of_nil in Hr);
    apply list_elem_of_singleton in Hr as ->; cbn [target_name svc_params svc_priority Z.eqb];
    (split; [done|]); (split; [by destruct v4, v6, w4, w6; sorted_params|]); intros ip.
  - rewrite <- Hs1, <- (hint_params_hints v4 v6). unfold hints. cbn. done.
  - rewrite <- Hs2, <- (hint_params_hints w4 w6). unfold hints. cbn.
    rewrite map_app, concat_app. cbn. by rewrite app_nil_r.
Qed.
End Ddr.
End Ddr.

(** ** Owner names in responses *)
Module Normalize.
Section Normalize.
Context `{NameOps}.

Definition lowercase_response_names (msg : Message) : Message :=
  let msg := set_queries (map (λ q, set_q_name (to_lowercase (q_name q)) q) (queries msg)) msg in
  let msg := set_answers (map (λ r, set_r_name (to_lowercase (r_name r)) r) (answers msg)) msg in
  let msg := set_authorities (map (λ r, set_r_name (to_lowercase (r_name r)) r) (authorities msg)) msg in
  set_additionals (map (λ r, set_r_name (to_lowercase (r_name r)) r) (additionals msg)) msg.

(** Two records (questions) that differ only in the case of the owner name. *)
Definition same_record (r r' : DnsRecord) : Prop :=
  name_eqb (r_name r) (r_name r') = true ∧
  r_class r = r_class r' ∧ r_ttl r = r_ttl r' ∧ r_data r = r_data r'.
Definition same_query (q q' : Query) : Prop :=
  name_eqb (q_name q) (q_name q') = true ∧
  query_type q = query_type q' ∧ query_class q = query_class q'.
Definition same_message (m m' : Message) : Prop :=
  metadata m = metadata m' ∧ edns m = edns m' ∧
  Forall2 same_query (queries m) (queries m') ∧ Forall2 same_record (answers m) (answers m') ∧
  Forall2 same_record (authorities m) (authorities m') ∧
  Forall2 same_record (additionals m) (additionals m').

Lemma lower_records `{!NameLaws} rs rs' :
  Forall2 same_record rs rs' →
  map (λ r, set_r_name (to_lowercase (r_name r)) r) rs
  = map (λ r, set_r_name (to_lowercase (r_name r)) r) rs'.
Proof.
  induction 1 as [|r r' rs rs' (Hn & Hc & Ht & Hd) _ IH]; cbn [map]; [done|].
  apply name_eqb_spec in Hn. f_equal; [|done]. unfold set_r_name. by rewrite Hn, Hc, Ht, Hd.
Qed.

Lemma lower_queries `{!NameLaws} qs qs' :
  Forall2 same_query qs qs' →
  map (λ q, set_q_name (to_lowercase (q_name q)) q) qs
  = map (λ q, set_q_name (to_lowercase (q_name q)) q) qs'.
Proof.
  induction 1 as [|q q' qs qs' (Hn & Ht & Hc) _ IH]; cbn [map]; [done|].
  apply name_eqb_spec in Hn. f_equal; [|done]. unfold set_q_name. by rewrite Hn, Ht, Hc.
Qed.

(** Case is forgotten before a response is cached or served: two upstream
    responses that differ only in the spelling of owner and question names (as
    two 0x20-randomised queries produce) become the same message, and only owner
    names change. *)
Theorem normalize_forgets_case `{!NameLaws} m m' :
  same_message m m' →
  lowercase_response_names m = lowercase_response_names m' ∧
  same_message m (lowercase_response_names m).
Proof.
  intros (Hm & He & Hq & Ha & Hau & Had). split.
  - unfold lowercase_response_names. unfold set_additionals, set_authorities, set_answers, set_queries.
    cbn [metadata queries answers authorities additionals edns].
    rewrite Hm, He, (lower_records _ _ Ha), (lower_records _ _ Hau), (lower_records _ _ Had).
    by rewrite (lower_queries _ _ Hq).
  - assert (Hr : ∀ rs, Forall2 same_record rs (map (λ r, set_r_name (to_lowercase (r_name r)) r) rs)).
    { induction rs; constructor; [|done]. split; [|done]. cbn. apply name_eqb_spec.
      by rewrite to_lowercase_idemp. }
    assert (Hqs : ∀ qs, Forall2 same_query qs (map (λ q, set_q_name (to_lowercase (q_name q)) q) qs)).
    { induction qs; constructor; [|done]. split; [|done]. cbn. apply name_eqb_spec.
      by rewrite to_lowercase_idemp. }
    by split_and!.
Qed.
End Normalize.
End Normalize.

(** ** Examples *)

Lemma ipv4only_probe_witness :
  ∃ resp, Ipv4Only.synth_response
            (add_query (query_query (rn "ipv4only.arpa.") RT_AAAA) (message_new 9 MT_Query OC_Query))
            (Some Dns64.wkp_policy) true = Some resp ∧ length (answers resp) = 2%nat.
Proof.
  destruct (Ipv4Only.ipv4only_probe (query_query (rn "ipv4only.arpa.") RT_AAAA) Dns64.wkp_policy true
    (add_query (query_query (rn "ipv4only.arpa.") RT_AAAA) (message_new 9 MT_Query OC_Query)))
    as (resp & Hr & _ & _ & _ & _ & a & b & Hd & _).
  - reflexivity.
  - reflexivity.
  - split; [reflexivity|]. repeat constructor; done.
  - reflexivity.
  - exists resp. split; [exact Hr|]. by rewrite <- (length_map r_data), Hd.
Defined.

Lemma ddr_records_sound_witness :
  map svc_priority (Ddr.build_ddr_records (rn "dns.example.") [V4 [10; 0; 0; 1]; V4 [8; 8; 8; 8]]
    [V4 [192; 168; 1; 1]]) = [1].
Proof.
  apply (Ddr.ddr_records_sound (rn "dns.example.") [V4 [10; 0; 0; 1]; V4 [8; 8; 8; 8]]
    [V4 [192; 168; 1; 1]]); repeat constructor; done.
Defined.

Lemma normalize_forgets_case_witness :
  let q n := {| q_name := rn n; query_type := RT_A; query_class := DC_IN |} in
  Normalize.lowercase_response_names (add_query (q "wWw.ExamPle.") (message_response 1 OC_Query))
  = Normalize.lowercase_response_names (add_query (q "www.example.") (message_response 1 OC_Query)).
Proof.
  cbn zeta. apply Normalize.normalize_forgets_case. repeat split; repeat constructor.
Defined.
