(* ===== verification/Anchor.v ===== *)
(** * Trust anchors: RFC 5011 rollover and the anchor file

    [recursor/anchor.rs] and the trust-anchor part of [recursor/dnssec.rs].  The
    state file and the anchor file are values of an explicit disk; base64 and
    [serde_json] are parameters with their round-trip laws; network and disk
    failures are inputs of [tick]. *)
From stdpp Require Import pretty.
From Stdlib Require Import Ascii.
From S2P Require Import Prelude Hickory Reference Text.

(** [base64]'s standard engine.  Its output is plain text: no white space,
    comment or parenthesis characters. *)
Class Base64 := {
  b64_encode : list Z → string;
  b64_decode : string → option (list Z);
  b64_decode_encode b : b64_decode (b64_encode b) = Some b;
  b64_plain b : plain (b64_encode b) = true;
  b64_nonempty b : b ≠ [] → b64_encode b ≠ "";
}.

Module Anchor.
Section Anchor.
Context `{NameOps, !Hickory, !Base64}.

(** ** Managed keys *)

Inductive KeyStatus : Type :=
| Active
| PendingAdd (added_at : Z)
| Revoked (revoked_at : Z).

Record ManagedKey := {
  zone : string; key_tag : Z; algorithm : Z; flags : Z; public_key : string;
  status : KeyStatus }.
Record StateFile := { version : Z; last_refresh : Z; state_keys : list ManagedKey }.

Definition set_status (s : KeyStatus) (k : ManagedKey) : ManagedKey :=
  {| zone := zone k; key_tag := key_tag k; algorithm := algorithm k; flags := flags k;
     public_key := public_key k; status := s |}.
Definition set_flags (f : Z) (k : ManagedKey) : ManagedKey :=
  {| zone := zone k; key_tag := key_tag k; algorithm := algorithm k; flags := f;
     public_key := public_key k; status := status k |}.

Definition DEFAULT_HOLD_DOWN : Z := 30 * 24 * 3600.
Definition DEFAULT_ANCHOR_TTL : Z := 172800.

(** The DNSKEY a flags field, an algorithm and key bytes denote. *)
Definition dnskey_of (fl alg : Z) (pk : list Z) : DNSKEY :=
  {| zone_key := negb (Z.land fl 0x0100 =? 0); secure_entry_point := negb (Z.land fl 0x0001 =? 0);
     revoke := negb (Z.land fl 0x0080 =? 0); key_algorithm := alg; public_bytes := pk |}.

Definition to_dnskey (k : ManagedKey) : result DNSKEY :=
  pk ← ok_or "base64 in stored public key" (b64_decode (public_key k));
  Ok (dnskey_of (flags k) (algorithm k) pk).

Definition observed_flags (k : DNSKEY) : Z :=
  Z.lor (Z.lor (if zone_key k then 0x0100 else 0) (if secure_entry_point k then 0x0001 else 0))
    (if revoke k then 0x0080 else 0).

Definition from_observed (z : string) (k : DNSKEY) (s : KeyStatus) : ManagedKey :=
  {| zone := z; key_tag := default 0 (calculate_key_tag k); algorithm := key_algorithm k;
     flags := observed_flags k; public_key := b64_encode (public_bytes k); status := s |}.

Definition is_active (k : ManagedKey) : bool :=
  match status k with Active => true | _ => false end.

(** ** One refresh *)

Record RefreshDiff := {
  added_pending : list Z; promoted : list Z; revoked : list Z;
  dropped_pending : list Z; pruned_revoked : list Z }.
Definition diff_default : RefreshDiff :=
  {| added_pending := []; promoted := []; revoked := []; dropped_pending := []; pruned_revoked := [] |}.
Definition diff_is_empty (d : RefreshDiff) : bool :=
  match added_pending d, promoted d, revoked d, dropped_pending d, pruned_revoked d with
  | [], [], [], [], [] => true
  | _, _, _, _, _ => false
  end.
Definition push_added (t : Z) (d : RefreshDiff) : RefreshDiff :=
  {| added_pending := added_pending d ++ [t]; promoted := promoted d; revoked := revoked d;
     dropped_pending := dropped_pending d; pruned_revoked := pruned_revoked d |}.
Definition push_promoted (t : Z) (d : RefreshDiff) : RefreshDiff :=
  {| added_pending := added_pending d; promoted := promoted d ++ [t]; revoked := revoked d;
     dropped_pending := dropped_pending d; pruned_revoked := pruned_revoked d |}.
Definition push_revoked (t : Z) (d : RefreshDiff) : RefreshDiff :=
  {| added_pending := added_pending d; promoted := promoted d; revoked := revoked d ++ [t];
     dropped_pending := dropped_pending d; pruned_revoked := pruned_revoked d |}.
Definition push_dropped (t : Z) (d : RefreshDiff) : RefreshDiff :=
  {| added_pending := added_pending d; promoted := promoted d; revoked := revoked d;
     dropped_pending := dropped_pending d ++ [t]; pruned_revoked := pruned_revoked d |}.
Definition push_pruned (t : Z) (d : RefreshDiff) : RefreshDiff :=
  {| added_pending := added_pending d; promoted := promoted d; revoked := revoked d;
     dropped_pending := dropped_pending d; pruned_revoked := pruned_revoked d ++ [t] |}.

(** What identifies a key across refreshes: zone, algorithm and key bytes. *)
Definition key_id (z : string) (alg : Z) (pk : list Z) : string * Z * list Z := (z, alg, pk).
Definition entry_id (e : ManagedKey) : string * Z * list Z :=
  key_id (zone e) (algorithm e) (default [] (b64_decode (public_key e))).
Definition observed_id (o : string * DNSKEY) : string * Z * list Z :=
  key_id o.1 (key_algorithm o.2) (public_bytes o.2).

(** [observed_idx.iter().position(..)], with the key found there. *)
Definition observed_match (observed : list (string * DNSKEY)) (e : ManagedKey)
  : option (nat * (string * DNSKEY)) :=
  list_find (λ o, observed_id o = entry_id e) observed.

Record Loop := { next : list ManagedKey; diff : RefreshDiff; matched : list bool }.
Definition keep (e : ManagedKey) (l : Loop) : Loop :=
  {| next := next l ++ [e]; diff := diff l; matched := matched l |}.
Definition note (f : RefreshDiff → RefreshDiff) (l : Loop) : Loop :=
  {| next := next l; diff := f (diff l); matched := matched l |}.
Definition mark (idx : nat) (l : Loop) : Loop :=
  {| next := next l; diff := diff l; matched := <[idx := true]> (matched l) |}.

(** The body of the loop over the known keys. *)
Definition refresh_entry (observed : list (string * DNSKEY)) (now_unix hold_down : Z)
  (l : Loop) (entry : ManagedKey) : Loop :=
  match status entry, observed_match observed entry with
  | PendingAdd added_at, Some (idx, (_, observed_key)) =>
      let l := mark idx l in
      if revoke observed_key then note (push_dropped (key_tag entry)) l
      else if bool_decide (hold_down ≤ saturating_sub now_unix added_at) then
        keep (set_status Active entry) (note (push_promoted (key_tag entry)) l)
      else keep entry l
  | PendingAdd _, None => note (push_dropped (key_tag entry)) l
  | Active, Some (idx, (_, observed_key)) =>
      let l := mark idx l in
      if revoke observed_key then
        keep (set_flags (Z.lor (flags entry) 0x0080) (set_status (Revoked now_unix) entry))
          (note (push_revoked (key_tag entry)) l)
      else keep entry l
  | Active, None => keep entry l
  | Revoked _, Some (idx, _) => keep entry (mark idx l)
  | Revoked _, None => note (push_pruned (key_tag entry)) l
  end.

(** The body of the loop over the observed keys. *)
Definition refresh_observed (now_unix : Z) (l : Loop) (io : nat * (string * DNSKEY)) : Loop :=
  let '(i, (z, key)) := io in
  if default false (matched l !! i) || revoke key then l
  else if negb (secure_entry_point key) then l
  else
    let mk := from_observed z key (PendingAdd now_unix) in
    keep mk (note (push_added (key_tag mk)) l).

Definition apply_refresh (state : list ManagedKey) (observed : list (string * DNSKEY))
  (now_unix hold_down : Z) : list ManagedKey * RefreshDiff :=
  let l := {| next := []; diff := diff_default; matched := replicate (length observed) false |} in
  let l := foldl (refresh_entry observed now_unix hold_down) l state in
  let l := foldl (refresh_observed now_unix) l (imap (λ i o, (i, o)) observed) in
  (next l, diff l).

(** ** What a refresh computes *)

(** The fate of a known key. *)
Definition entry_next (observed : list (string * DNSKEY)) (now_unix hold_down : Z)
  (e : ManagedKey) : option ManagedKey :=
  match status e, observed_match observed e with
  | PendingAdd added_at, Some (_, (_, k)) =>
      if revoke k then None
      else if bool_decide (hold_down ≤ saturating_sub now_unix added_at)
           then Some (set_status Active e) else Some e
  | PendingAdd _, None => None
  | Active, Some (_, (_, k)) =>
      if revoke k then Some (set_flags (Z.lor (flags e) 0x0080) (set_status (Revoked now_unix) e))
      else Some e
  | Active, None => Some e
  | Revoked _, Some _ => Some e
  | Revoked _, None => None
  end.

(** The known key that an observed one belongs to. *)
Definition known (state : list ManagedKey) (observed : list (string * DNSKEY)) (i : nat) : Prop :=
  ∃ e o, e ∈ state ∧ observed_match observed e = Some (i, o).

Lemma refresh_entry_spec observed now hd l e :
  next (refresh_entry observed now hd l e) =
    next l ++ option_list (entry_next observed now hd e) ∧
  matched (refresh_entry observed now hd l e) =
    match observed_match observed e with
    | Some (i, _) => <[i := true]> (matched l)
    | None => matched l
    end.
Proof.
  unfold refresh_entry, entry_next.
  destruct (status e), (observed_match observed e) as [[i [z k]]|]; cbn;
    repeat case_match; cbn; rewrite ?app_nil_r; done.
Qed.

Lemma foldl_refresh_entry observed now hd state l :
  let l' := foldl (refresh_entry observed now hd) l state in
  next l' = next l ++ omap (entry_next observed now hd) state ∧
  length (matched l') = length (matched l) ∧
  ∀ i, matched l' !! i = Some true ↔
    matched l !! i = Some true ∨ (i < length (matched l))%nat ∧ known state observed i.
Proof.
  cbn zeta. revert l. induction state as [|e state IH]; intros l; cbn [foldl omap list_omap].
  { rewrite app_nil_r. split_and!; [done|done|]. intros i. split; [by left|].
    intros [?|(_ & ? & ? & Hin & _)]; [done|]. by apply elem_of_nil in Hin. }
  destruct (refresh_entry_spec observed now hd l e) as [Hn Hm].
  destruct (IH (refresh_entry observed now hd l e)) as (Hn' & Hl' & Hm'). split_and!.
  - change (omap _ (e :: state)) with
      (match entry_next observed now hd e with
       | Some x => x :: omap (entry_next observed now hd) state
       | None => omap (entry_next observed now hd) state end).
    rewrite Hn', Hn, <- app_assoc. by destruct (entry_next observed now hd e).
  - rewrite Hl', Hm. repeat case_match; by rewrite ?length_insert.
  - intros i. rewrite Hm', Hm. clear Hn Hn' Hm' Hl' IH Hm. unfold known.
    destruct (observed_match observed e) as [[j o]|] eqn:E.
    + rewrite length_insert, list_lookup_insert_Some. setoid_rewrite elem_of_cons.
      destruct (decide (i = j)) as [->|Hne]; [|naive_solver].
      split; [naive_solver|]. intros [Hi|(Hi & _)]; left; [|naive_solver].
      left. split_and!; try done. by eapply lookup_lt_Some.
    + setoid_rewrite elem_of_cons. naive_solver.
Qed.

Definition new_entry (m : list bool) (now_unix : Z) (io : nat * (string * DNSKEY))
  : option ManagedKey :=
  if default false (m !! io.1) || revoke io.2.2 then None
  else if negb (secure_entry_point io.2.2) then None
  else Some (from_observed io.2.1 io.2.2 (PendingAdd now_unix)).

Lemma foldl_refresh_observed now ios l :
  next (foldl (refresh_observed now) l ios) = next l ++ omap (new_entry (matched l) now) ios.
Proof.
  revert l. induction ios as [|[i [z k]] ios IH]; intros l; cbn [foldl].
  { by rewrite app_nil_r. }
  rewrite IH. change (omap ?f (?x :: ios)) with
    (match f x with Some y => y :: omap f ios | None => omap f ios end).
  unfold refresh_observed, new_entry at 2. cbn [fst snd].
  repeat case_match; cbn; rewrite <- ?app_assoc; done.
Qed.

(** The keys after a refresh: the surviving known keys, and every observed,
    unrevoked KSK that is not one of them. *)
Lemma apply_refresh_elem state observed now hd e' :
  e' ∈ (apply_refresh state observed now hd).1 ↔
  (∃ e, e ∈ state ∧ entry_next observed now hd e = Some e') ∨
  (∃ i z k, observed !! i = Some (z, k) ∧ ¬ known state observed i ∧ revoke k = false ∧
     secure_entry_point k = true ∧ e' = from_observed z k (PendingAdd now)).
Proof.
  unfold apply_refresh. cbn [fst].
  destruct (foldl_refresh_entry observed now hd state
    {| next := []; diff := diff_default; matched := replicate (length observed) false |})
    as (Hn & Hl & Hm).
  rewrite foldl_refresh_observed, Hn. cbn [next app]. rewrite elem_of_app, !list_elem_of_omap.
  apply or_iff_compat_l. cbn [matched] in *. rewrite length_replicate in Hm.
  assert (Hk : ∀ i, (i < length observed)%nat →
    default false (matched (foldl (refresh_entry observed now hd)
      {| next := []; diff := diff_default; matched := replicate (length observed) false |} state) !! i)
    = true ↔ known state observed i).
  { intros i Hi. specialize (Hm i). rewrite length_replicate in Hl.
    destruct (lookup_lt_is_Some_2 (matched (foldl (refresh_entry observed now hd)
      {| next := []; diff := diff_default; matched := replicate (length observed) false |} state)) i)
      as [b Hb]; [lia|]. rewrite Hb in *. cbn. split.
    - intros ->. destruct (proj1 Hm eq_refl) as [Hr|[_ ?]]; [|done].
      by apply lookup_replicate in Hr as [? _].
    - intros Hk. assert (Some b = Some true) as [= ->] by (apply Hm; auto). done. }
  split.
  - intros ((i & z & k) & Hin & Hx). apply elem_of_lookup_imap in Hin as (j & o & [= <- <-] & Ho).
    unfold new_entry in Hx. cbn in Hx. exists i, z, k.
    specialize (Hk i (lookup_lt_Some _ _ _ Ho)).
    destruct (default false _); [done|]. destruct (revoke k); [done|]. cbn in Hx.
    destruct (secure_entry_point k); [|done]. injection Hx as <-.
    split_and!; try done. intros Hkn. by apply Hk in Hkn.
  - intros (i & z & k & Ho & Hnk & Hr & Hs & ->). exists (i, (z, k)). split.
    + apply elem_of_lookup_imap. eauto.
    + unfold new_entry. cbn. specialize (Hk i (lookup_lt_Some _ _ _ Ho)).
      destruct (default false _); [by destruct Hnk; apply Hk|]. by rewrite Hr, Hs.
Qed.

(** ** Sequences of refreshes *)

Record Refresh := { rf_time : Z; rf_observed : list (string * DNSKEY) }.

(** The managed keys after a history of validated refreshes, latest first. *)
Fixpoint run (hold_down : Z) (init : list ManagedKey) (h : list Refresh) : list ManagedKey :=
  match h with
  | [] => init
  | r :: h' => (apply_refresh (run hold_down init h') (rf_observed r) (rf_time r) hold_down).1
  end.

(** The key was published, unrevoked, in that refresh. *)
Definition seen (kid : string * Z * list Z) (r : Refresh) : Prop :=
  ∃ o, o ∈ rf_observed r ∧ observed_id o = kid ∧ revoke o.2 = false.

Lemma observed_match_Some observed e i z k :
  observed_match observed e = Some (i, (z, k)) →
  (z, k) ∈ observed ∧ observed_id (z, k) = entry_id e.
Proof.
  unfold observed_match. intros (Hi & He & _)%list_find_Some.
  split; [by eapply list_elem_of_lookup_2|done].
Qed.

Lemma observed_match_None observed e o :
  observed_match observed e = None → o ∈ observed → observed_id o ≠ entry_id e.
Proof. unfold observed_match. rewrite list_find_None, Forall_forall. eauto. Qed.

Lemma entry_id_from_observed z k st : entry_id (from_observed z k st) = observed_id (z, k).
Proof. unfold entry_id, observed_id, key_id. cbn. by rewrite b64_decode_encode. Qed.

(** A pending key has been seen in every refresh since the one that added it. *)
Lemma pending_run hd init h e a :
  Forall (λ e, ∀ a, status e ≠ PendingAdd a) init →
  e ∈ run hd init h → status e = PendingAdd a →
  ∃ recent r0 older, h = recent ++ r0 :: older ∧ rf_time r0 = a ∧
    Forall (seen (entry_id e)) (recent ++ [r0]).
Proof.
  intros Hinit. revert e a. induction h as [|r h IH]; intros e a He Hs; cbn [run] in He.
  { rewrite Forall_forall in Hinit. exfalso. exact (Hinit e He a Hs). }
  apply apply_refresh_elem in He as [(e0 & He0 & Hn)|(i & z & k & Ho & _ & Hr & _ & ->)].
  - unfold entry_next in Hn.
    destruct (status e0) as [|a0|] eqn:Hs0, (observed_match _ e0) as [[j [z k]]|] eqn:Hm;
      try discriminate Hn; repeat (case_match; try discriminate Hn); injection Hn as <-;
      try (cbn in Hs; congruence).
    assert (a0 = a) as -> by congruence.
    destruct (IH e0 a He0 Hs0) as (recent & r0 & older & -> & Ht & Hf).
    exists (r :: recent), r0, older. split_and!; [done|done|]. constructor; [|done].
    apply observed_match_Some in Hm as [? ?]. exists (z, k). split_and!; try done.
  - cbn in Hs. injection Hs as <-. exists [], r, h. split_and!; try done.
    repeat constructor. exists (z, k). rewrite entry_id_from_observed.
    split_and!; try done. by eapply list_elem_of_lookup_2.
Qed.

(** The key was published, unrevoked, by two refreshes at least the hold-down apart and
    by all of those in between. *)
Definition held_down (hd : Z) (kid : string * Z * list Z) (h : list Refresh) : Prop :=
  ∃ newer r1 between r0 older, h = newer ++ r1 :: between ++ r0 :: older ∧
    hd ≤ rf_time r1 - rf_time r0 ∧ Forall (seen kid) (r1 :: between ++ [r0]).
Lemma active_run hd init h e :
  0 < hd → Forall (λ e, ∀ a, status e ≠ PendingAdd a) init →
  e ∈ run hd init h → status e = Active →
  (∃ e0, e0 ∈ init ∧ status e0 = Active ∧ entry_id e0 = entry_id e) ∨ held_down hd (entry_id e) h.
Proof.
  intros Hhd Hinit. revert e. induction h as [|r h IH]; intros e He Hs; cbn [run] in He; [by eauto|].
  apply apply_refresh_elem in He as [(e0 & He0 & Hn)|(i & z & k & _ & _ & _ & _ & ->)]; [|done].
  unfold entry_next in Hn.
  destruct (status e0) as [|a0|] eqn:Hs0, (observed_match _ e0) as [[j [z k]]|] eqn:Hm;
    try discriminate Hn; repeat (case_match; try discriminate Hn); injection Hn as <-;
    try (cbn in Hs; congruence).
  - destruct (IH e0 He0 Hs0) as [?|(newer & r1 & mid & r0 & older & -> & ? & ?)]; [by left|right].
    by exists (r :: newer), r1, mid, r0, older.
  - destruct (IH e0 He0 Hs0) as [?|(newer & r1 & mid & r0 & older & -> & ? & ?)]; [by left|right].
    by exists (r :: newer), r1, mid, r0, older.
  - right. destruct (pending_run hd init h e0 a0 Hinit He0 Hs0) as (recent & r0 & older & -> & Ht & Hf).
    exists [], r, recent, r0, older. apply observed_match_Some in Hm as [Hin Hid].
    split_and!; [done| |].
    + rewrite bool_decide_eq_true in *. unfold saturating_sub in *. lia.
    + constructor; [|done]. by exists (z, k).
Qed.

(** C5. RFC 5011: starting from a set without pending keys, whatever DNSKEY sets
    are observed afterwards, a key is Active only if it was Active at the start,
    or two refreshes at least the hold-down apart both published it unrevoked and
    so did every refresh in between. *)
Theorem hold_down_enforced hd init h e :
  0 < hd → Forall (λ e, ∀ a, status e ≠ PendingAdd a) init →
  e ∈ run hd init h → status e = Active →
  (∃ e0, e0 ∈ init ∧ status e0 = Active ∧ entry_id e0 = entry_id e) ∨
  (∃ newer r1 between r0 older, h = newer ++ r1 :: between ++ r0 :: older ∧
     hd ≤ rf_time r1 - rf_time r0 ∧ Forall (seen (entry_id e)) (r1 :: between ++ [r0])).
Proof. apply active_run. Qed.

(** An Active key leaves the trust set only by revocation: a refresh keeps it
    unchanged unless the observed copy carries the REVOKE bit, in which case it
    becomes Revoked with that time; absence from the observed set, however long,
    never removes it, and a Revoked key never becomes Active in a refresh. *)
Theorem active_until_revoked state observed now hd e :
  e ∈ state →
  let next := (apply_refresh state observed now hd).1 in
  (status e = Active → e ∈ next ∨
     (∃ o, o ∈ observed ∧ observed_id o = entry_id e ∧ revoke o.2 = true) ∧
     ∃ e', e' ∈ next ∧ entry_id e' = entry_id e ∧ status e' = Revoked now) ∧
  (∀ t e', status e = Revoked t → entry_next observed now hd e = Some e' → e' = e) ∧
  ((∀ o, o ∈ observed → observed_id o ≠ entry_id e) → status e = Active → e ∈ next).
Proof.
  intros He. cbn zeta. split_and!.
  - intros Hs. rewrite apply_refresh_elem. setoid_rewrite apply_refresh_elem.
    destruct (observed_match observed e) as [[j [z k]]|] eqn:Hm.
    + destruct (revoke k) eqn:Hr.
      * right. destruct (observed_match_Some _ _ _ _ _ Hm). split; [by exists (z, k)|].
        exists (set_flags (Z.lor (flags e) 0x0080) (set_status (Revoked now) e)).
        split_and!; try done. left. exists e. split; [done|]. unfold entry_next. by rewrite Hs, Hm, Hr.
      * left. left. exists e. split; [done|]. unfold entry_next. by rewrite Hs, Hm, Hr.
    + left. left. exists e. split; [done|]. unfold entry_next. by rewrite Hs, Hm.
  - intros t e' Hs. unfold entry_next. rewrite Hs. case_match; [|done]. by intros [= <-].
  - intros Ho Hs. rewrite apply_refresh_elem. left. exists e. split; [done|]. unfold entry_next.
    destruct (observed_match observed e) as [[j [z k]]|] eqn:Hm; rewrite Hs; [|done].
    apply observed_match_Some in Hm as [Hin Hid]. by destruct (Ho (z, k)).
Qed.

(** ** The anchor file *)

(** [TrustAnchors]: the keys in use, with their owners. *)
Record TrustAnchors := { anchor_keys : list (Name * DNSKEY) }.

Definition from_managed_key (k : ManagedKey) : result (Name * DNSKEY) :=
  dnskey ← to_dnskey k;
  name ← ok_or "bad zone name" (from_ascii (zone k));
  Ok (name, dnskey).

Definition result_all {A} : list (result A) → result (list A) :=
  foldr (λ x acc, a ← x; l ← acc; Ok (a :: l)) (Ok []).

Definition from_managed_keys (keys : list ManagedKey) : result TrustAnchors :=
  out ← result_all (map from_managed_key (filter (λ k, is_active k = true) keys));
  Ok {| anchor_keys := out |}.

Definition dnskeys_for (owner : Name) (a : TrustAnchors) : list DNSKEY :=
  map snd (filter (λ p, name_eqb (to_lowercase p.1) (to_lowercase owner) = true) (anchor_keys a)).

Fixpoint flatten (depth : nat) (s : string) : string :=
  match s with
  | EmptyString => ""
  | String c s' =>
      if is_open c then flatten (S depth) s'
      else if is_close c then flatten (Nat.pred depth) s'
      else if is_newline c && (0 <? depth)%nat then String SP (flatten depth s')
      else String c (flatten depth s')
  end.

Definition str_eq_ignore_case (s t : string) : bool :=
  bool_decide (map to_ascii_lowercase (bytes_of_string s) = map to_ascii_lowercase (bytes_of_string t)).

(** The [while cursor < rest.len()] loop: what follows the DNSKEY token. *)
Fixpoint skip_to_dnskey (rest : list string) : list string :=
  match rest with
  | [] => []
  | t :: rest' => if str_eq_ignore_case t "DNSKEY" then rest' else skip_to_dnskey rest'
  end.

Fixpoint strip_whitespace (s : string) : string :=
  match s with
  | EmptyString => ""
  | String c s' => if is_whitespace c then strip_whitespace s' else String c (strip_whitespace s')
  end.
Definition base64_decode (s : string) : option (list Z) := b64_decode (strip_whitespace s).

(** One iteration over the lines; [None] is [continue]. *)
Definition parse_line (raw_line : string) : result (option (Name * DNSKEY)) :=
  match words (before_semicolon raw_line) with
  | [] => Ok None
  | name_str :: rest =>
      match skip_to_dnskey rest with
      | f :: p :: a :: b :: bs =>
          fl ← ok_or "bad DNSKEY flags" (parse_uint 65535 f);
          _ ← ok_or "bad DNSKEY protocol" (parse_uint 255 p);
          alg ← ok_or "bad DNSKEY algorithm" (parse_uint 255 a);
          pk ← ok_or "invalid base64 in DNSKEY public key"
                 (base64_decode (foldr String.append "" (b :: bs)));
          name ← ok_or "bad trust-anchor owner name" (from_ascii name_str);
          Ok (Some (name, dnskey_of fl alg pk))
      | _ => Ok None
      end
  end.

Definition parse_presentation_format (raw : string) : result TrustAnchors :=
  ks ← result_all (map parse_line (str_lines (flatten 0 raw)));
  Ok {| anchor_keys := omap (λ o, o) ks |}.

Definition anchor_header : list string :=
  ["; automated trust-anchor file managed by dnsd";
   "; format: presentation; consume with `dig +trust-anchor` or any RFC 1035 parser"].

Definition anchor_line (default_ttl : Z) (k : ManagedKey) : string :=
  let fl := Z.land (flags k) (Z.lnot 0x0080) in
  zone k +:+ String TAB (show_uint default_ttl +:+ String TAB ("IN" +:+ String TAB ("DNSKEY" +:+
    String TAB (show_uint fl +:+ String SP ("3" +:+ String SP (show_uint (algorithm k) +:+
    String SP (public_key k))))))).

Definition push_line (l out : string) : string := l +:+ String NL out.

Definition render_anchor_file (active : list ManagedKey) (default_ttl : Z) : string :=
  foldr push_line "" (anchor_header ++
    map (anchor_line default_ttl) (filter (λ k, is_active k = true) active)).

(** ** Writing and reading the anchor file *)

Lemma flatten_no_parens s :
  string_all (λ c, negb (is_open c || is_close c)) s = true → flatten 0 s = s.
Proof.
  induction s as [|c s IH]; cbn [string_all flatten]; [done|].
  intros [Hc Hs]%andb_true_iff. apply negb_true_iff, orb_false_iff in Hc as [-> ->].
  by rewrite andb_false_r, IH.
Qed.

Lemma split_nl_push ls :
  Forall (λ l, string_all (λ c, negb (is_newline c)) l = true) ls →
  split_nl (foldr push_line "" ls) = ls ++ [""].
Proof.
  induction 1 as [|l ls Hl _ IH]; [done|]. cbn [foldr app]. unfold push_line at 1.
  by rewrite split_nl_line, IH.
Qed.

Lemma str_lines_push ls :
  Forall (λ l, string_all (λ c, negb (is_newline c)) l = true) ls →
  str_lines (foldr push_line "" ls) = ls.
Proof.
  intros Hl. unfold str_lines. rewrite split_nl_push by done. rewrite last_snoc.
  rewrite bool_decide_eq_true_2 by done. apply removelast_last.
Qed.

Lemma strip_whitespace_plain s : plain s = true → strip_whitespace s = s.
Proof.
  unfold plain. induction s as [|c s IH]; cbn; [done|]. intros [Hc Hs]%andb_true_iff.
  unfold plain_char in Hc. destruct (is_whitespace c); [done|]. by rewrite IH.
Qed.

Lemma plain_no_ws s : plain s = true → string_all (λ c, negb (is_whitespace c)) s = true.
Proof.
  apply string_all_impl. intros c. unfold plain_char. by destruct (is_whitespace c).
Qed.

(** A managed key whose text fields survive the file format. *)
Record printable (k : ManagedKey) : Prop := {
  pr_zone : plain (zone k) = true; pr_zone_ne : zone k ≠ "";
  pr_pk : plain (public_key k) = true; pr_pk_ne : public_key k ≠ "";
  pr_flags : 0 ≤ flags k ≤ 65535; pr_not_revoked : Z.land (flags k) 0x0080 = 0;
  pr_alg : 0 ≤ algorithm k ≤ 255;
}.

(** A managed key with plain text fields and numbers of the right width. *)
Record textual (k : ManagedKey) : Prop := {
  tx_zone : plain (zone k) = true; tx_zone_ne : zone k ≠ ""; tx_pk : plain (public_key k) = true;
  tx_flags : 0 ≤ flags k ≤ 65535; tx_alg : 0 ≤ algorithm k ≤ 255;
}.
Lemma printable_textual k : printable k → textual k.
Proof. by intros []. Qed.

(** The characters of a line: every one satisfies [f] when plain characters, tab
    and space do. *)
Lemma anchor_line_all f ttl k :
  textual k → (∀ c, plain_char c = true → f c = true) → f TAB = true → f SP = true →
  string_all f (anchor_line ttl k) = true.
Proof.
  intros [Hz _ Hp _ _] Hf Ht Hs. unfold anchor_line.
  assert (Htab : ∀ s, string_all f (String TAB s) = string_all f s) by (intros s; cbn [string_all]; by rewrite Ht).
  assert (Hsp : ∀ s, string_all f (String SP s) = string_all f s) by (intros s; cbn [string_all]; by rewrite Hs).
  repeat (rewrite string_all_app || rewrite Htab || rewrite Hsp).
  assert (Hpl : ∀ s, plain s = true → string_all f s = true)
    by (intros s; apply string_all_impl; done).
  rewrite !(Hpl (show_uint _)) by apply show_uint_plain. rewrite (Hpl (zone k)), (Hpl (public_key k)) by done.
  by rewrite (Hpl "IN"), (Hpl "DNSKEY"), (Hpl "3").
Qed.

Lemma words_textual_line ttl k :
  textual k →
  words (anchor_line ttl k) =
  [zone k; show_uint ttl; "IN"; "DNSKEY"; show_uint (Z.land (flags k) (Z.lnot 0x0080)); "3"; show_uint (algorithm k)] ++
  (if decide (public_key k = "") then [] else [public_key k]).
Proof.
  intros [Hz Hzn Hp Hf Ha]. unfold anchor_line.
  repeat (rewrite words_cons; [|
    first [done|apply show_uint_nonempty]|
    first [apply plain_no_ws, show_uint_plain|by apply plain_no_ws|done]|done]; cbn [app]; f_equal).
  case_decide as E; [by rewrite E|]. rewrite words_single by (done || by apply plain_no_ws). done.
Qed.
Lemma land_not_revoke n : Z.land n 0x0080 = 0 → Z.land n (Z.lnot 0x0080) = n.
Proof.
  intros Hr. apply Z.bits_inj'. intros i Hi. rewrite Z.land_spec, Z.lnot_spec by done.
  assert (Hb : Z.testbit (Z.land n 0x0080) i = false) by (rewrite Hr; apply Z.bits_0).
  rewrite Z.land_spec in Hb. by destruct (Z.testbit n i), (Z.testbit 0x0080 i).
Qed.

Lemma digit_not_dnskey n : str_eq_ignore_case (show_uint n) "DNSKEY" = false.
Proof.
  pose proof (show_uint_digits n) as Hd. pose proof (show_uint_nonempty n) as Hne.
  destruct (show_uint n) as [|c s]; [done|]. cbn in Hd. apply andb_true_iff in Hd as [Hd _].
  apply bool_decide_eq_false. intros Heq. cbn in Heq. injection Heq as Hc _. revert Hc Hd. clear.
  destruct c as [[] [] [] [] [] [] [] []]; vm_compute; congruence.
Qed.

(** What the parser makes of the line of a key. *)
Lemma parse_textual_line ttl k :
  textual k →
  parse_line (anchor_line ttl k) =
  if decide (public_key k = "") then Ok None
  else pk ← ok_or "invalid base64 in DNSKEY public key" (b64_decode (public_key k));
       name ← ok_or "bad trust-anchor owner name" (from_ascii (zone k));
       Ok (Some (name, dnskey_of (Z.land (flags k) (Z.lnot 0x0080)) (algorithm k) pk)).
Proof.
  intros Hk. unfold parse_line.
  rewrite before_semicolon_none.
  2:{ apply anchor_line_all; try done. intros c. unfold plain_char.
      destruct (is_semicolon c); [|done]. by rewrite orb_true_r. }
  rewrite words_textual_line by done. cbn [skip_to_dnskey app].
  rewrite digit_not_dnskey. change (str_eq_ignore_case "IN" "DNSKEY") with false.
  change (str_eq_ignore_case "DNSKEY" "DNSKEY") with true. cbn iota.
  case_decide as E; [done|]. destruct Hk as [Hz Hzn Hp Hf Ha].
  assert (0 ≤ Z.land (flags k) (Z.lnot 0x0080) ≤ 65535).
  { split; [apply Z.land_nonneg; left; lia|].
    etransitivity; [|apply Hf]. apply Z.ldiff_le; [lia|]. apply Z.bits_inj'. intros i Hi.
    rewrite Z.ldiff_spec, Z.land_spec, Z.bits_0. destruct (Z.testbit (flags k) i); cbn [negb andb]; by rewrite ?andb_false_r. }
  rewrite !parse_show_uint by lia. cbn [ok_or mbind result_bind foldr].
  rewrite string_app_nil_r. unfold base64_decode. rewrite strip_whitespace_plain by done.
  change (parse_uint 255 "3") with (Some 3). done.
Qed.
Lemma parse_anchor_line ttl k p :
  printable k → from_managed_key k = Ok p → parse_line (anchor_line ttl k) = Ok (Some p).
Proof.
  intros Hpr Hk. rewrite parse_textual_line by by apply printable_textual.
  destruct Hpr as [Hz Hzn Hp Hpn Hf Hr Ha]. rewrite decide_False, land_not_revoke by done.
  unfold from_managed_key, to_dnskey in Hk.
  destruct (b64_decode (public_key k)); [|done]. cbn in *.
  destruct (from_ascii (zone k)); [|done]. cbn in *. by injection Hk as <-.
Qed.

Lemma result_all_Ok {A} (l : list (result A)) out :
  result_all l = Ok out ↔ l = map Ok out.
Proof.
  revert out. induction l as [|x l IH]; intros out; cbn.
  { destruct out; naive_solver. }
  destruct x as [a|e]; cbn; [|destruct out; naive_solver].
  destruct (result_all l) as [l'|e]; cbn.
  - destruct (IH l') as [Hl _]. rewrite (Hl eq_refl).
    split; [by intros [= <-]|]. destruct out as [|o out]; [done|]. intros [= <- Hm].
    do 2 f_equal. revert Hm. clear. revert out.
    induction l' as [|y l' IH]; intros [|o' out]; cbn; try done. intros [= <- Hm]. f_equal. auto.
  - split; [done|]. destruct out as [|o out]; [done|]. intros [= <- ->].
    discriminate (proj2 (IH out) eq_refl).
Qed.

Lemma anchor_file_lines ttl ks :
  Forall textual ks →
  Forall (λ l, string_all (λ c, negb (is_newline c)) l = true)
    (anchor_header ++ map (anchor_line ttl) ks).
Proof.
  intros Hpr. apply Forall_app; split; [by repeat constructor|]. apply Forall_map.
  eapply Forall_impl; [exact Hpr|]. intros k Hpk. apply anchor_line_all; try done.
  intros c. destruct c as [[] [] [] [] [] [] [] []]; vm_compute; congruence.
Qed.

Lemma anchor_file_chars ttl ks :
  Forall textual ks →
  string_all (λ c, negb (is_open c || is_close c))
    (foldr push_line "" (anchor_header ++ map (anchor_line ttl) ks)) = true.
Proof.
  intros Hpr.
  assert (Hl : Forall (λ l, string_all (λ c, negb (is_open c || is_close c)) l = true)
    (anchor_header ++ map (anchor_line ttl) ks)).
  { apply Forall_app; split; [by repeat constructor|]. apply Forall_map.
    eapply Forall_impl; [exact Hpr|]. intros k Hpk. apply anchor_line_all; try done.
    intros c. destruct c as [[] [] [] [] [] [] [] []]; vm_compute; congruence. }
  induction Hl as [|l ls Hl _ IH]; [done|]. cbn [foldr]. unfold push_line at 1.
  rewrite string_all_app, Hl. exact IH.
Qed.

Lemma omap_id_Some {A} (l : list A) : omap (λ o : option A, o) (map Some l) = l.
Proof. induction l as [|x l IH]; [done|]. cbn. by f_equal. Qed.

(** What can be read back from an anchor file stands there as an Active key. *)
Lemma parse_rendered keys ttl anchors p :
  Forall (λ k, is_active k = true → textual k) keys →
  parse_presentation_format (render_anchor_file keys ttl) = Ok anchors → p ∈ anchor_keys anchors →
  ∃ k pk, k ∈ keys ∧ is_active k = true ∧ b64_decode (public_key k) = Some pk ∧ from_ascii (zone k) = Some p.1 ∧
    key_algorithm p.2 = algorithm k ∧ public_bytes p.2 = pk.
Proof.
  intros Hk Hm Hp. unfold parse_presentation_format, render_anchor_file in Hm.
  assert (Htx : Forall textual (filter (λ k, is_active k = true) keys)).
  { apply Forall_forall. intros k [Ha Hin]%list_elem_of_filter. rewrite Forall_forall in Hk. eauto. }
  assert (Hin : ∀ k, k ∈ filter (λ k, is_active k = true) keys → k ∈ keys ∧ is_active k = true)
    by (by intros k [? ?]%list_elem_of_filter).
  generalize dependent (filter (λ k, is_active k = true) keys). clear Hk. intros ks Hm Htx Hin.
  rewrite flatten_no_parens, str_lines_push in Hm by (by apply anchor_file_chars || by apply anchor_file_lines).
  apply result_bind_Ok in Hm as (out & Hout%result_all_Ok & [= <-]). cbn in Hp.
  apply list_elem_of_omap in Hp as (o & Ho & ->).
  assert (Hl : Ok (Some p) ∈ map parse_line (anchor_header ++ map (anchor_line ttl) ks)).
  { rewrite Hout. by apply (list_elem_of_fmap_2 Ok). }
  apply list_elem_of_fmap in Hl as (l & El & [Hh|Hl]%elem_of_app).
  { exfalso. revert El. by repeat (apply elem_of_cons in Hh as [-> |Hh]; [done|]); apply elem_of_nil in Hh. }
  apply list_elem_of_fmap in Hl as (k & -> & Hkin). destruct (Hin _ Hkin). rewrite Forall_forall in Htx.
  rewrite parse_textual_line in El by auto. case_decide; [done|].
  destruct (b64_decode (public_key k)) as [pk|] eqn:B; [|done]. cbn in El.
  destruct (from_ascii (zone k)) as [n|] eqn:Z; [|done]. cbn in El. injection El as ->. by exists k, pk.
Qed.

(** C29. The anchor file written by the refresh task reads back, through the
    parser the validator uses at start-up, as exactly the trust anchors the task
    published: same owners, keys and order, and nothing for keys that are not
    Active. *)
Theorem anchor_file_roundtrip keys ttl anchors :
  Forall (λ k, is_active k = true → printable k) keys →
  from_managed_keys keys = Ok anchors →
  parse_presentation_format (render_anchor_file keys ttl) = Ok anchors.
Proof.
  intros Hk Hm. unfold from_managed_keys in Hm. apply result_bind_Ok in Hm as (out & Hout & [= <-]).
  apply result_all_Ok in Hout. unfold parse_presentation_format, render_anchor_file.
  assert (Hpr : Forall printable (filter (λ k, is_active k = true) keys)).
  { apply Forall_forall. intros k [Ha Hin]%list_elem_of_filter. rewrite Forall_forall in Hk. eauto. }
  generalize dependent (filter (λ k, is_active k = true) keys). clear Hk. intros ks Hout Hpr.
  assert (Htx : Forall textual ks) by (eapply Forall_impl; [exact Hpr|apply printable_textual]).
  rewrite flatten_no_parens by (by apply anchor_file_chars).
  rewrite str_lines_push by (by apply anchor_file_lines).
  rewrite map_app, map_map.
  replace (map (λ k, parse_line (anchor_line ttl k)) ks) with (map (λ p, Ok (Some p)) out).
  2:{ clear keys Htx. revert out Hout. induction Hpr as [|k ks Hpk _ IH]; intros [|p out]; cbn; try done.
      intros [= Hp Hrest]. rewrite (parse_anchor_line ttl k p) by done. by rewrite <- (IH out Hrest). }
  rewrite (proj2 (result_all_Ok _ (None :: None :: map Some out))).
  - cbn. by rewrite (omap_id_Some out).
  - cbn. rewrite map_map. done.
Qed.

(** ** Signature verification *)

Definition verify_rrset (rrset : list DnsRecord) (sig : RRSIG) (key : DNSKEY) : bool :=
  match rrset with
  | [] => false
  | r :: _ => verify_rrsig key (r_name r) (r_class r) sig rrset
  end.

Definition edns_dnssec : Edns :=
  {| max_payload := 1232; edns_version := 0; dnssec_ok := true; edns_options := [] |}.

Definition build_dnskey_query (txid : Z) (z : Name) : result (list Z) :=
  let msg := message_new txid MT_Query OC_Query in
  let msg := set_rd false msg in
  let msg := add_query (set_query_class DC_IN (query_query z RT_DNSKEY)) msg in
  let msg := set_edns edns_dnssec msg in
  ok_or "encode DNSKEY query" (to_vec msg).

(** The DNSKEY records at the selected owner, their keys, and the last RRSIG over
    them. *)
Fixpoint extract_dnskey_answers (at_zone : Name → bool) (rs : list DnsRecord)
  (records : list DnsRecord) (keys : list DNSKEY) (sig : option RRSIG)
  : list DnsRecord * list DNSKEY * option RRSIG :=
  match rs with
  | [] => (records, keys, sig)
  | r :: rs' =>
      if negb (at_zone (r_name r)) then extract_dnskey_answers at_zone rs' records keys sig
      else match r_data r with
           | RD_DNSKEY k => extract_dnskey_answers at_zone rs' (records ++ [r]) (keys ++ [k]) sig
           | RD_RRSIG s =>
               if bool_decide (type_covered s = RT_DNSKEY)
               then extract_dnskey_answers at_zone rs' records keys (Some s)
               else extract_dnskey_answers at_zone rs' records keys sig
           | _ => extract_dnskey_answers at_zone rs' records keys sig
           end
  end.
Definition extract_dnskey_response (resp : Message)
  : list DnsRecord * list DNSKEY * option RRSIG :=
  extract_dnskey_answers (λ n, name_eqb n root) (answers resp) [] [] None.

Definition dnskey_data (r : DnsRecord) : option DNSKEY :=
  match r_data r with RD_DNSKEY k => Some k | _ => None end.

(** The keys are those of the records, and the records are at the zone. *)
Lemma extract_dnskey_answers_spec at_zone rs records keys sig records' keys' sig' :
  extract_dnskey_answers at_zone rs records keys sig = (records', keys', sig') →
  keys = omap dnskey_data records → Forall (λ r, at_zone (r_name r) = true) records →
  keys' = omap dnskey_data records' ∧ Forall (λ r, at_zone (r_name r) = true) records'.
Proof.
  revert records keys sig. induction rs as [|r rs IH]; intros records keys sig; cbn.
  { by intros [= <- <- <-]. }
  destruct (at_zone (r_name r)) eqn:E; cbn [negb]; [|apply IH].
  destruct (r_data r) eqn:Ed; try apply IH; [|case_bool_decide; apply IH].
  intros Hx Hk Hf. eapply IH; [exact Hx| |apply Forall_app; split; [done|by repeat constructor]].
  rewrite omap_app, Hk. cbn. unfold dnskey_data at 3. by rewrite Ed.
Qed.
End Anchor.

(** ** The refresh task *)

(** [serde_json] on the state file. *)
Class Serde := {
  to_json : StateFile → string;
  from_json : string → option StateFile;
  from_to_json s : from_json (to_json s) = Some s;
}.

(** The two files the task owns. *)
Record Disk := { state_text : option string; anchor_text : option string }.

(** What the world answers during one tick: the root hints ([None]: the lock is
    poisoned), the transaction id, the upstream exchange, the two clock readings,
    and whether each file operation succeeds. *)
Record RefreshEnv := {
  env_roots : option (list IpAddr); env_txid : Z;
  env_query : list IpAddr → list Z → result (list Z);
  env_now : Z; env_now' : Z;
  env_read_ok : bool; env_save_state_ok : bool; env_save_anchor_ok : bool }.

Section Refresh.
Context `{NameOps} {HK : Hickory} `{!Base64, !Serde}.

Definition load_state (read_ok : bool) (d : Disk) : result (option StateFile) :=
  if negb read_ok then Err "reading state file"
  else match state_text d with
       | None => Ok None
       | Some raw =>
           parsed ← ok_or "parsing state file" (from_json raw);
           if negb (version parsed =? 1) then Err "unsupported state file version"
           else Ok (Some parsed)
       end.

(** [atomic_write]: the file holds the old text or the new one. *)
Definition save_state (write_ok : bool) (st : StateFile) (d : Disk) : result unit * Disk :=
  if write_ok then (Ok (), {| state_text := Some (to_json st); anchor_text := anchor_text d |})
  else (Err "writing state file", d).
Definition save_anchor_file (write_ok : bool) (keys : list ManagedKey) (ttl : Z) (d : Disk)
  : result unit * Disk :=
  if write_ok
  then (Ok (), {| state_text := state_text d; anchor_text := Some (render_anchor_file keys ttl) |})
  else (Err "writing anchor file", d).

Definition EMBEDDED_ROOT_KSKS : string :=
  foldr push_line "" (map (λ k, "." +:+ String TAB ("IN" +:+ String TAB ("DNSKEY" +:+
      String TAB ("257 3 8 " +:+ k))))
    ["AwEAAaz/tAm8yTn4Mfeh5eyI96WSVexTBAvkMgJzkKTOiW1vkIbzxeF3+/4RgWOq7HrxRixHlFlExOLAJr5emL" +:+
     "vN7SWXgnLh4+B5xQlNVz8Og8kvArMtNROxVQuCaSnIDdD5LKyWbRd2n9WGe2R8PzgCmr3EgVLrjyBxWezF0jLH" +:+
     "wVN8efS3rCj/EWgvIWgb9tarpVUDK/b58Da+sqqls3eNbuv7pr+eoZG+SrDK6nWeL3c6H5Apxz7LjVc1uTIdsI" +:+
     "XxuOLYA4/ilBmSVIzuDWfdRUfhHdY6+cn8HFRm+2hM8AnXGXws9555KrUB5qihylGa8subX2Nn6UwNR1AkUTV7" +:+
     "4bU=";
     "AwEAAa96jeuknZlaeSrvyAJj6ZHv28hhOKkx3rLGXVaC6rXTsDc449/cidltpkyGwCJNnOAlFNKF2jBosZBU5e" +:+
     "eHspaQWOmOElZsjICMQMC3aeHbGiShvZsx4wMYSjH8e7Vrhbu6irwCzVBApESjbUdpWWmEnhathWu1jo+siFUi" +:+
     "RAAxm9qyJNg/wOZqqzL/dL/q8PkcRU5oUKEpUge71M3ej2/7CPqpdVwuMoTvoB+ZOT4YeGyxMvHmbrxlFzGOHO" +:+
     "ijtzN+u1TQNatX2XBuzZNQ1K+s2CXkPIZo7s6JgZyvaBevYtxPvYLw4z9mR7K2vaF18UYH9Z9GNUUeayffKC73" +:+
     "PYc="]).

Definition bootstrap_self_managed (now : Z) (state_ok anchor_ok : bool) (d : Disk)
  : result TrustAnchors * Disk :=
  match parse_presentation_format EMBEDDED_ROOT_KSKS with
  | Err e => (Err e, d)
  | Ok anchors =>
      let managed := map (λ p, from_observed (to_ascii p.1) p.2 Active) (anchor_keys anchors) in
      let '(r, d) := save_anchor_file anchor_ok managed DEFAULT_ANCHOR_TTL d in
      match r with
      | Err e => (Err e, d)
      | Ok _ =>
          let '(r, d) := save_state state_ok
            {| version := 1; last_refresh := now; state_keys := managed |} d in
          match r with Err e => (Err e, d) | Ok _ => (Ok anchors, d) end
      end
  end.

(** The part of [tick] that only reads: the verified keys. *)
Definition fetch_observed (env : RefreshEnv) (a : TrustAnchors) : result (list (string * DNSKEY)) :=
  root_ips ← ok_or "root hints lock poisoned" (env_roots env);
  if bool_decide (root_ips = []) then Err "no root-hint NS IPs available"
  else
    wire ← build_dnskey_query (env_txid env) root;
    bytes ← env_query env root_ips wire;
    resp ← ok_or "parsing . DNSKEY response" (from_bytes bytes);
    let '(records, keys, sig) := extract_dnskey_response resp in
    sig ← ok_or "no RRSIG on root DNSKEY response" sig;
    if existsb (λ p, verify_rrset records sig p.2) (anchor_keys a)
    then Ok (map (λ k, (".", k)) keys)
    else Err "DNSKEY RRSIG does not validate against any active trust anchor".

(** The managed keys before the refresh: the state file's, else the anchors'. *)
Definition prior_keys (env : RefreshEnv) (a : TrustAnchors) (d : Disk) : result (list ManagedKey) :=
  st ← load_state (env_read_ok env) d;
  Ok match st with
     | Some s => state_keys s
     | None => map (λ p, from_observed (to_ascii p.1) p.2 Active) (anchor_keys a)
     end.

Definition tick (env : RefreshEnv) (hold_down : Z) (a : TrustAnchors) (d : Disk)
  : result RefreshDiff * TrustAnchors * Disk :=
  match fetch_observed env a with
  | Err e => (Err e, a, d)
  | Ok observed =>
      match prior_keys env a d with
      | Err e => (Err e, a, d)
      | Ok prior =>
          let '(next, diff) := apply_refresh prior observed (env_now env) hold_down in
          let '(r, d) := save_state (env_save_state_ok env)
            {| version := 1; last_refresh := env_now' env; state_keys := next |} d in
          match r with
          | Err e => (Err e, a, d)
          | Ok _ =>
              let '(r, d) := save_anchor_file (env_save_anchor_ok env) next DEFAULT_ANCHOR_TTL d in
              match r with
              | Err e => (Err e, a, d)
              | Ok _ =>
                  match from_managed_keys next with
                  | Err e => (Err e, a, d)
                  | Ok new_anchors => (Ok diff, new_anchors, d)
                  end
              end
          end
      end
  end.

(** The response a tick acts on carries a signature by a key already trusted. *)
Definition signed_by_trusted (env : RefreshEnv) (a : TrustAnchors) : Prop :=
  ∃ ips wire bytes resp records keys sig n k,
    env_roots env = Some ips ∧ build_dnskey_query (env_txid env) root = Ok wire ∧
    env_query env ips wire = Ok bytes ∧ from_bytes bytes = Some resp ∧
    extract_dnskey_response resp = (records, keys, Some sig) ∧
    (n, k) ∈ anchor_keys a ∧ verify_rrset records sig k = true.

Lemma fetch_observed_signed env a obs : fetch_observed env a = Ok obs → signed_by_trusted env a.
Proof.
  unfold fetch_observed. intros (ips & Hips%ok_or_Ok & Hr)%result_bind_Ok.
  case_bool_decide; [done|].
  apply result_bind_Ok in Hr as (wire & Hw & (bytes & Hb & (resp & Hresp%ok_or_Ok & Hr)%result_bind_Ok)%result_bind_Ok).
  destruct (extract_dnskey_response resp) as [[records keys] sig] eqn:E.
  apply result_bind_Ok in Hr as (s & Hs%ok_or_Ok & Hr). subst sig.
  destruct (existsb _ _) eqn:Hex; [|done]. apply existsb_exists in Hex as ([n k] & Hin & Hv).
  exists ips, wire, bytes, resp, records, keys, s, n, k. split_and!; try done.
  by apply list_elem_of_In.
Qed.

(** The keys a refresh computes from those known before. *)
Definition refreshed (env : RefreshEnv) (hd : Z) (a : TrustAnchors) (d : Disk) (next : list ManagedKey) : Prop :=
  ∃ prior observed, prior_keys env a d = Ok prior ∧ fetch_observed env a = Ok observed ∧
    next = (apply_refresh prior observed (env_now env) hd).1.
Definition state_holds (d : Disk) (keys : list ManagedKey) : Prop :=
  ∃ st, load_state true d = Ok (Some st) ∧ state_keys st = keys.
Lemma state_holds_written v now keys t :
  v = 1 → state_holds {| state_text := Some (to_json {| version := v; last_refresh := now; state_keys := keys |}); anchor_text := t |} keys.
Proof. intros ->. eexists. unfold load_state. cbn. rewrite from_to_json. cbn. by split. Qed.

(** C6. A tick changes the trust anchors or either file only when the fetched
    root DNSKEY set verifies under a key that is already trusted.  When it
    succeeds, the published anchors, the anchor file and the state file all
    describe the same keys, those [apply_refresh] computes from the keys known
    before.  When it fails, the anchors in force are as they were, and so are the files, or
    the state file holds the new keys already, with the anchor file old or new. *)
Theorem tick_authenticated env hd a d r a' d' :
  tick env hd a d = (r, a', d') →
  ((a', d') ≠ (a, d) → signed_by_trusted env a) ∧
  match r with
  | Ok _ => ∃ next, refreshed env hd a d next ∧ from_managed_keys next = Ok a' ∧
      anchor_text d' = Some (render_anchor_file next DEFAULT_ANCHOR_TTL) ∧ state_holds d' next
  | Err _ => a' = a ∧ (d' = d ∨ ∃ next, refreshed env hd a d next ∧ state_holds d' next ∧
      (anchor_text d' = anchor_text d ∨ anchor_text d' = Some (render_anchor_file next DEFAULT_ANCHOR_TTL)))
  end.
Proof.
  unfold tick, save_state, save_anchor_file. destruct (fetch_observed env a) as [observed|e] eqn:Ho.
  2:{ intros [= <- <- <-]. by split; [|split; [|left]]. }
  pose proof (fetch_observed_signed _ _ _ Ho) as Hsig.
  destruct (prior_keys env a d) as [prior|e] eqn:Hp.
  2:{ intros [= <- <- <-]. by split; [|split; [|left]]. }
  destruct (apply_refresh prior observed (env_now env) hd) as [nx df] eqn:Ha.
  assert (Rf : refreshed env hd a d nx) by (exists prior, observed; by rewrite Ha).
  intros Ht. split; [done|]. destruct (env_save_state_ok env); [|injection Ht as <- <- <-; by split; [|left]].
  destruct (env_save_anchor_ok env).
  - destruct (from_managed_keys nx) as [na|e] eqn:Hn; injection Ht as <- <- <-.
    + exists nx. split_and!; [done..|by apply state_holds_written].
    + split; [done|]. right. exists nx. split_and!; [done|by apply state_holds_written|by right].
  - injection Ht as <- <- <-. split; [done|]. right. exists nx. split_and!; [done|by apply state_holds_written|by left].
Qed.
End Refresh.
End Anchor.

(** ** Examples *)

(** Stand-ins for the codecs: the bits of stdpp's encoding, as text. *)
Fixpoint pos_text (p : positive) : string :=
  match p with xH => "A" | xO p => String "0" (pos_text p) | xI p => String "1" (pos_text p) end.
Fixpoint text_pos (s : string) : option positive :=
  match s with
  | String "0" s' => xO <$> text_pos s'
  | String "1" s' => xI <$> text_pos s'
  | String "A" "" => Some xH
  | _ => None
  end%char.

Lemma text_pos_text p : text_pos (pos_text p) = Some p.
Proof. induction p as [p IH|p IH|]; cbn; rewrite ?IH; done. Qed.

#[export] Instance RefBase64 : Base64.
Proof.
  refine {| b64_encode b := pos_text (encode b); b64_decode s := text_pos s ≫= decode |}.
  - intros b. rewrite text_pos_text. cbn. apply decode_encode.
  - intros b. induction (encode b) as [p IH|p IH|]; cbn; done.
  - intros b _. by destruct (encode b).
Defined.

Definition status_code (s : Anchor.KeyStatus) : Z * Z :=
  match s with Anchor.Active => (0, 0) | Anchor.PendingAdd t => (1, t) | Anchor.Revoked t => (2, t) end.
Definition status_decode (c : Z * Z) : Anchor.KeyStatus :=
  match c with (0, _) => Anchor.Active | (1, t) => Anchor.PendingAdd t | (_, t) => Anchor.Revoked t end.
Definition mk_code (k : Anchor.ManagedKey) : string * Z * Z * Z * string * (Z * Z) :=
  (Anchor.zone k, Anchor.key_tag k, Anchor.algorithm k, Anchor.flags k, Anchor.public_key k,
   status_code (Anchor.status k)).
Definition mk_decode (c : string * Z * Z * Z * string * (Z * Z)) : Anchor.ManagedKey :=
  let '(z, t, a, f, p, s) := c in
  {| Anchor.zone := z; Anchor.key_tag := t; Anchor.algorithm := a; Anchor.flags := f;
     Anchor.public_key := p; Anchor.status := status_decode s |}.

#[export] Instance RefSerde : Anchor.Serde.
Proof.
  refine {| Anchor.to_json s := pos_text (encode (Anchor.version s, Anchor.last_refresh s,
              map mk_code (Anchor.state_keys s)));
            Anchor.from_json t :=
              p ← text_pos t;
              ' (v, l, ks) ← decode (A := Z * Z * list (string * Z * Z * Z * string * (Z * Z))) p;
              Some {| Anchor.version := v; Anchor.last_refresh := l;
                      Anchor.state_keys := map mk_decode ks |} |}.
  intros [v l ks]. rewrite text_pos_text. cbn. rewrite decode_encode. cbn. do 2 f_equal.
  rewrite map_map. rewrite <- (map_id ks) at 2. apply map_ext. intros [z t a f p st].
  unfold mk_decode, mk_code. cbn. by destruct st.
Defined.

Definition ex_ksk (b : Z) : DNSKEY :=
  {| zone_key := true; secure_entry_point := true; revoke := false; key_algorithm := 8;
     public_bytes := [b] |}.
Definition ex_old : Anchor.ManagedKey := Anchor.from_observed "." (ex_ksk 1) Anchor.Active.
Definition ex_new : Anchor.ManagedKey := Anchor.from_observed "." (ex_ksk 2) Anchor.Active.
Definition ex_history : list Anchor.Refresh :=
  [{| Anchor.rf_time := 2592100; Anchor.rf_observed := [(".", ex_ksk 1); (".", ex_ksk 2)] |};
   {| Anchor.rf_time := 100; Anchor.rf_observed := [(".", ex_ksk 1); (".", ex_ksk 2)] |}].

Lemma hold_down_enforced_witness :
  (∃ e0, e0 ∈ [ex_old] ∧ Anchor.status e0 = Anchor.Active ∧ Anchor.entry_id e0 = Anchor.entry_id ex_new) ∨
  (∃ newer r1 between r0 older, ex_history = newer ++ r1 :: between ++ r0 :: older ∧
     Anchor.DEFAULT_HOLD_DOWN ≤ Anchor.rf_time r1 - Anchor.rf_time r0 ∧
     Forall (Anchor.seen (Anchor.entry_id ex_new)) (r1 :: between ++ [r0])).
Proof.
  apply (Anchor.hold_down_enforced Anchor.DEFAULT_HOLD_DOWN [ex_old] ex_history ex_new).
  - reflexivity.
  - repeat constructor; discriminate.
  - replace (Anchor.run Anchor.DEFAULT_HOLD_DOWN [ex_old] ex_history) with [ex_old; ex_new]
      by (vm_compute; reflexivity).
    right. left.
  - reflexivity.
Defined.

Lemma active_until_revoked_witness :
  ex_old ∈ (Anchor.apply_refresh [ex_old] [] 100 Anchor.DEFAULT_HOLD_DOWN).1.
Proof.
  apply (Anchor.active_until_revoked [ex_old] [] 100 Anchor.DEFAULT_HOLD_DOWN ex_old).
  - left.
  - intros o Ho. by apply elem_of_nil in Ho.
  - reflexivity.
Defined.

Lemma anchor_file_roundtrip_witness :
  Anchor.parse_presentation_format (Anchor.render_anchor_file [ex_old] 172800)
  = Ok {| Anchor.anchor_keys := [(root, ex_ksk 1)] |}.
Proof.
  apply Anchor.anchor_file_roundtrip.
  - repeat constructor; vm_compute; congruence.
  - vm_compute. reflexivity.
Defined.

(** A root whose answer publishes the two keys, signed by the first. *)
Definition ex_sig : RRSIG :=
  {| type_covered := RT_DNSKEY; sig_algorithm := 8; sig_num_labels := 0; sig_expiration := 200;
     sig_inception := 50; sig_key_tag := 1; signer_name := root; signature := [1] |}.
Definition ex_dnskey_response : Message :=
  add_answers (map (record_from_rdata root 172800)
    [RD_DNSKEY (ex_ksk 1); RD_DNSKEY (ex_ksk 2); RD_RRSIG ex_sig]) (message_response 7 OC_Query).
Definition ex_hickory : Hickory :=
  {| from_bytes _ := Some ex_dnskey_response; to_vec := ref_to_vec; message_new := message_new;
     record_from_rdata := record_from_rdata; query_query := query_query; record_type := record_type;
     verify_rrsig := verify_rrsig; ds_covers := ds_covers; calculate_key_tag := calculate_key_tag;
     nsec3_hash := nsec3_hash; record_type_cmp := record_type_cmp; class_cmp := class_cmp;
     base32hex_decode := base32hex_decode |}.
Definition ex_env : Anchor.RefreshEnv :=
  {| Anchor.env_roots := Some [V4 [198; 41; 0; 4]]; Anchor.env_txid := 7;
     Anchor.env_query := λ _ wire, Ok wire; Anchor.env_now := 100; Anchor.env_now' := 100;
     Anchor.env_read_ok := true; Anchor.env_save_state_ok := true;
     Anchor.env_save_anchor_ok := true |}.
Definition ex_anchors : Anchor.TrustAnchors := {| Anchor.anchor_keys := [(root, ex_ksk 1)] |}.
Definition ex_disk : Anchor.Disk := {| Anchor.state_text := None; Anchor.anchor_text := None |}.
Definition ex_tick := Anchor.tick (HK := ex_hickory) ex_env Anchor.DEFAULT_HOLD_DOWN ex_anchors ex_disk.

Lemma tick_authenticated_witness :
  is_ok ex_tick.1.1 = true ∧ Anchor.signed_by_trusted (HK := ex_hickory) ex_env ex_anchors.
Proof.
  split; [vm_compute; reflexivity|].
  refine (proj1 (Anchor.tick_authenticated (HK := ex_hickory) ex_env Anchor.DEFAULT_HOLD_DOWN
    ex_anchors ex_disk ex_tick.1.1 ex_tick.1.2 ex_tick.2 _) _).
  - unfold ex_tick. by destruct (Anchor.tick _ _ _ _) as [[? ?] ?].
  - assert (X : bool_decide (is_Some (Anchor.state_text ex_tick.2)) = true) by (vm_compute; reflexivity).
    intros E. apply (f_equal snd) in E. change (ex_tick.2 = ex_disk) in E. rewrite E in X. discriminate X.
Defined.
