(* ===== verification/Dnssec.v ===== *)
(** * Response validation ([recursor/dnssec.rs], without I/O)

    The AD-bit policy, RRSIG windows, the choice of trusted keys, the validation
    of answers against a chain of keys and the NSEC and NSEC3 denial proofs.
    [BTreeMap]s are lists kept in key order.  The clock is a function of the
    number of readings made so far. *)
From S2P Require Import Prelude Hickory Reference Text TtlCaches Anchor.

(** ** Ordered groups *)
Section BTree.
Context {K V : Type} (cmp : K → K → comparison).

(** [map.entry(k).or_default().push(v)]. *)
Fixpoint bt_push (k : K) (v : V) (m : list (K * list V)) : list (K * list V) :=
  match m with
  | [] => [(k, [v])]
  | (k', vs) :: m' =>
      match cmp k k' with
      | Lt => (k, [v]) :: m
      | Eq => (k', vs ++ [v]) :: m'
      | Gt => (k', vs) :: bt_push k v m'
      end
  end.
Definition bt_get (k : K) (m : list (K * list V)) : option (list V) :=
  snd <$> find (λ kv, match cmp k kv.1 with Eq => true | _ => false end) m.

(** Pushing keeps every group and its members, and the new value is in one. *)
Lemma bt_push_elem k v m k' vs :
  (k', vs) ∈ bt_push k v m →
  (∀ x, x ∈ vs → x = v ∨ ∃ vs', (k', vs') ∈ m ∧ x ∈ vs') ∧
  (v ∈ vs → (k', vs) ∈ m ∨ k' = k ∨ cmp k k' = Eq).
Proof.
  induction m as [|[k0 vs0] m IH]; cbn [bt_push].
  { rewrite list_elem_of_singleton. intros [= -> ->]. split; [set_solver|auto]. }
  destruct (cmp k k0) eqn:E.
  - rewrite elem_of_cons. intros [[= -> ->]|Hin].
    + split; [|auto]. intros x [Hx| ->%list_elem_of_singleton]%elem_of_app; [|by left].
      right. exists vs0. split; [left|done].
    + split; [intros x Hx; right; exists vs; split; [by right|done]|left; by right].
  - rewrite elem_of_cons. intros [[= -> ->]|Hin].
    + split; [set_solver|auto].
    + split; [intros x Hx; right; eauto|auto].
  - rewrite elem_of_cons. intros [[= -> ->]|Hin].
    + split; [intros x Hx; right; exists vs0; split; [left|done]|left; left].
    + destruct (IH Hin) as [Ha Hb]. split.
      * intros x Hx. destruct (Ha x Hx) as [?|(vs' & ? & ?)]; [by left|right].
        exists vs'. split; [by right|done].
      * intros Hv. destruct (Hb Hv) as [?|?]; [left; by right|by right].
Qed.

Lemma bt_push_new k v m : ∃ k' vs, (k', vs) ∈ bt_push k v m ∧ v ∈ vs.
Proof.
  induction m as [|[k0 vs0] m (k' & vs & Hin & Hv)]; cbn [bt_push].
  - exists k, [v]. split; left.
  - destruct (cmp k k0).
    + exists k0, (vs0 ++ [v]). split; [left|set_solver].
    + exists k, [v]. split; left.
    + exists k', vs. split; [by right|done].
Qed.

Lemma bt_push_old k v m k' vs x :
  (k', vs) ∈ m → x ∈ vs → ∃ vs', (k', vs') ∈ bt_push k v m ∧ x ∈ vs'.
Proof.
  induction m as [|[k0 vs0] m IH]; cbn [bt_push]; [by intros ?%elem_of_nil|].
  rewrite elem_of_cons. intros [[= -> ->]|Hin] Hx; destruct (cmp k k0).
  - exists (vs0 ++ [v]). split; [left|set_solver].
  - exists vs0. split; [right; left|done].
  - exists vs0. split; [left|done].
  - exists vs. split; [by right|done].
  - exists vs. split; [by right; right|done].
  - destruct (IH Hin Hx) as (vs' & ? & ?). exists vs'. split; [by right|done].
Qed.
End BTree.

Module Dnssec.
Import Anchor.

Inductive DnssecPolicy : Type := PassThrough | Strip | Validate.
Inductive ValidationStatus : Type := Secure | Insecure | Bogus (reason : string).
Inductive DenialOutcome : Type := DenialSecure | DenialInsecure | DenialBogus (reason : string).

Section Dnssec.
Context `{NameOps} {HK : Hickory}.

(** ** The AD bit *)

Definition apply_to_response (p : DnssecPolicy) (resp : Message) : Message :=
  match p with
  | PassThrough => resp
  | Strip => set_ad false resp
  | Validate => set_ad false resp
  end.

Definition apply_validation (resp : Message) (st : ValidationStatus) : Message :=
  match st with
  | Secure => set_ad true resp
  | Insecure | Bogus _ => set_ad false resp
  end.

(** ** Signature windows *)

Definition CLOCK_SKEW : Z := 300.

(** [unix] is the full count of seconds; the code truncates it to 32 bits, and
    its 32-bit sums wrap. *)
Definition check_rrsig_validity (unix : Z) (sig : RRSIG) : result unit :=
  let now := wrap32 unix in
  let inception := sig_inception sig in
  let expiration := sig_expiration sig in
  if expiration <? inception then Err "RRSIG expiration precedes inception"
  else
    let skew := wrap32 CLOCK_SKEW in
    if wrap32 (now + skew) <? inception then Err "RRSIG inception is > clock+skew"
    else if wrap32 (expiration + skew) <? now then Err "RRSIG expired"
    else Ok ().

(** ** Trusted keys *)

Definition Chain : Type := list (Name * list DNSKEY).

(** One iteration of [closest_trusted_keys]. *)
Definition closer (zone_lower : Name) (best : option (Name * list DNSKEY))
  (entry : Name * list DNSKEY) : option (Name * list DNSKEY) :=
  if name_eqb (to_lowercase entry.1) zone_lower || zone_of entry.1 zone_lower then
    match best with
    | None => Some entry
    | Some b => if (num_labels b.1 <? num_labels entry.1)%nat then Some entry else best
    end
  else best.
Definition closest_trusted_keys (chain : Chain) (z : Name) : list DNSKEY :=
  match foldl (closer (to_lowercase z)) None chain with
  | Some (_, keys) => keys
  | None => []
  end.

(** ** Answers *)

Definition GroupKey : Type := Name * RecordType * DNSClass.
Definition group_cmp (a b : GroupKey) : comparison :=
  match name_cmp a.1.1 b.1.1 with
  | Eq => match record_type_cmp a.1.2 b.1.2 with Eq => class_cmp a.2 b.2 | c => c end
  | c => c
  end.
Definition group_key (r : DnsRecord) : GroupKey := (r_name r, record_type r, r_class r).

(** The RRsets of a section and the RRSIG records beside them. *)
Definition group_step (acc : list (GroupKey * list DnsRecord) * list (RRSIG * DnsRecord))
  (r : DnsRecord) : list (GroupKey * list DnsRecord) * list (RRSIG * DnsRecord) :=
  match r_data r with
  | RD_RRSIG s => (acc.1, acc.2 ++ [(s, r)])
  | _ => (bt_push group_cmp (group_key r) r acc.1, acc.2)
  end.
Definition group_answers (rs : list DnsRecord)
  : list (GroupKey * list DnsRecord) * list (RRSIG * DnsRecord) :=
  foldl group_step ([], []) rs.

(** [validate_response]: validation against the anchors alone. *)
Fixpoint validate_groups (groups : list (GroupKey * list DnsRecord)) (sigs : list RRSIG)
  (anchors : TrustAnchors) (overall : ValidationStatus) (saw_secure : bool) : ValidationStatus :=
  match groups with
  | [] => if saw_secure then Secure else overall
  | (k, rrset) :: groups' =>
      match find (λ s, bool_decide (type_covered s = k.1.2)) sigs with
      | None => validate_groups groups' sigs anchors Insecure saw_secure
      | Some sig =>
          match dnskeys_for (signer_name sig) anchors with
          | [] => validate_groups groups' sigs anchors Insecure saw_secure
          | candidates =>
              if existsb (verify_rrset rrset sig) candidates
              then validate_groups groups' sigs anchors overall true
              else Bogus "signature did not verify under signer"
          end
      end
  end.
Definition validate_response (resp : Message) (anchors : TrustAnchors) : ValidationStatus :=
  let '(groups, sigs) := group_answers (answers resp) in
  match groups with
  | [] => Insecure
  | _ => validate_groups groups (map fst sigs) anchors Secure false
  end.

(** ** Denial of existence *)

Definition canonical_lt (a b : Name) : bool :=
  match name_cmp (to_lowercase a) (to_lowercase b) with Lt => true | _ => false end.

(** The inner [while] of [closest_encloser]: one label fewer each time. *)
Fixpoint encloser_walk (fuel : nat) (anc cand_lower best : Name) : Name :=
  match fuel with
  | O => best
  | S fuel' =>
      if Nat.eqb (num_labels anc) 0 then best
      else if zone_of anc cand_lower || name_eqb anc cand_lower then
        if (num_labels best <? num_labels anc)%nat then anc else best
      else encloser_walk fuel' (trim_to anc (num_labels anc - 1)) cand_lower best
  end.
Definition closest_encloser (qname : Name) (candidates : list Name) : Name :=
  foldl (λ best cand, encloser_walk (S (num_labels qname)) qname (to_lowercase cand) best)
    root candidates.

Definition prepend_wildcard (owner : Name) : option Name :=
  star ← from_ascii "*";
  n ← append_domain star owner;
  Some (to_lowercase n).
Definition synthetic_wildcard : Name → option Name := prepend_wildcard.

Fixpoint bytes_compare (a b : list Z) : comparison :=
  match a, b with
  | [], [] => Eq
  | [], _ => Lt
  | _, [] => Gt
  | x :: a', y :: b' => match Z.compare x y with Eq => bytes_compare a' b' | c => c end
  end.

Definition hash_in_range (target owner_hash next_hash : list Z) : bool :=
  match bytes_compare owner_hash target, bytes_compare target next_hash with
  | Lt, Lt => true
  | _, _ =>
      match bytes_compare owner_hash next_hash with
      | Gt => match bytes_compare owner_hash target with Lt => true | _ => false end
              || match bytes_compare target next_hash with Lt => true | _ => false end
      | _ => false
      end
  end.

(** [str::to_ascii_uppercase]; the decoder rejects everything else that is not in
    the alphabet. *)
Definition to_ascii_uppercase (b : Z) : Z := if is_ascii_lower b then b - 32 else b.
Definition base32_hex_decode (label : list Z) : option (list Z) :=
  base32hex_decode (map to_ascii_uppercase label).

Definition nsec_of (rs : list DnsRecord) : option NSEC :=
  match rs with {| r_data := RD_NSEC n |} :: _ => Some n | _ => None end.
Definition nsec3_of (rs : list DnsRecord) : option NSEC3 :=
  match rs with {| r_data := RD_NSEC3 n |} :: _ => Some n | _ => None end.

Definition has_type (t : RecordType) (ts : list RecordType) : bool :=
  existsb (λ t', bool_decide (t' = t)) ts.

(** The NODATA loop: the first NSEC at the query name decides. *)
Fixpoint nsec_nodata (sets : list (Name * list DnsRecord)) (qname_lower : Name)
  (qtype : RecordType) : option DenialOutcome :=
  match sets with
  | [] => None
  | (owner, records) :: sets' =>
      if negb (name_eqb (to_lowercase owner) qname_lower) then nsec_nodata sets' qname_lower qtype
      else match nsec_of records with
           | None => nsec_nodata sets' qname_lower qtype
           | Some nsec =>
               if negb (has_type qtype (nsec_types nsec)) then Some DenialSecure
               else Some (DenialBogus "NODATA claimed but NSEC shows type present")
           end
  end.

(** One NSEC's contribution to an NXDOMAIN proof: the two flags. *)
Definition nsec_cover (qname_lower : Name) (qtype : RecordType) (flags : bool * bool)
  (set : Name * list DnsRecord) : bool * bool :=
  let '(saw_name_cover, saw_wildcard_cover) := flags in
  let owner := set.1 in
  match nsec_of set.2 with
  | None => flags
  | Some nsec =>
      let next := next_domain_name nsec in
      let saw_name_cover :=
        saw_name_cover || (canonical_lt owner qname_lower && canonical_lt qname_lower next) in
      let encloser := closest_encloser qname_lower [owner; next] in
      match synthetic_wildcard encloser with
      | None => (saw_name_cover, saw_wildcard_cover)
      | Some wildcard =>
          let saw_wildcard_cover :=
            saw_wildcard_cover || (canonical_lt owner wildcard && canonical_lt wildcard next) in
          let saw_wildcard_cover :=
            saw_wildcard_cover || (name_eqb (to_lowercase owner) wildcard
                                   && negb (has_type qtype (nsec_types nsec))) in
          (saw_name_cover, saw_wildcard_cover)
      end
  end.

Definition prove_denial_nsec (sets : list (Name * list DnsRecord)) (qname : Name)
  (qtype : RecordType) (rcode : ResponseCode) : DenialOutcome :=
  let qname_lower := to_lowercase qname in
  match (if bool_decide (rcode = RC_NoError) then nsec_nodata sets qname_lower qtype else None) with
  | Some out => out
  | None =>
      if bool_decide (rcode = RC_NXDomain) then
        let '(name_cover, wildcard_cover) :=
          foldl (nsec_cover qname_lower qtype) (false, false) sets in
        if name_cover && wildcard_cover then DenialSecure
        else DenialBogus "NSEC NXDOMAIN proof incomplete"
      else DenialInsecure
  end.

(** *** NSEC3 *)

(** [(owner_hash, next_hash, types, opt_out)]. *)
Definition Interval : Type := list Z * list Z * list RecordType * bool.
Definition iv_owner (i : Interval) : list Z := i.1.1.1.
Definition iv_next (i : Interval) : list Z := i.1.1.2.
Definition iv_types (i : Interval) : list RecordType := i.1.2.

Definition nsec3_interval (set : Name * list DnsRecord) : option Interval :=
  nsec3 ← nsec3_of set.2;
  leftmost ← head (labels set.1);
  owner_hash ← base32_hex_decode leftmost;
  Some (owner_hash, next_hashed_owner_name nsec3, nsec3_types nsec3, opt_out nsec3).

(** The loop that looks for the closest encloser among the ancestors of qname. *)
Fixpoint nsec3_encloser (fuel : nat) (hash_of : Name → option (list Z))
  (intervals : list Interval) (current : Name) : option Name :=
  match fuel with
  | O => None
  | S fuel' =>
      if Nat.eqb (num_labels current) 0 then None
      else
        let current := trim_to current (num_labels current - 1) in
        match hash_of current with
        | None => None
        | Some h =>
            if existsb (λ i, bool_decide (iv_owner i = h)) intervals then Some current
            else if is_root current then None
            else nsec3_encloser fuel' hash_of intervals current
        end
  end.

Definition nsec3_nxdomain (hash_of : Name → option (list Z)) (intervals : list Interval)
  (qname : Name) : DenialOutcome :=
  match nsec3_encloser (S (num_labels qname)) hash_of intervals qname with
  | None => DenialBogus "NSEC3 NXDOMAIN: no closest-encloser found"
  | Some encloser =>
      let nc_labels := S (num_labels encloser) in
      if (num_labels qname <? nc_labels)%nat then
        DenialBogus "NSEC3 NXDOMAIN: same as closest encloser"
      else
        let next_closer := trim_to qname nc_labels in
        match hash_of next_closer with
        | None => DenialInsecure
        | Some nc_hash =>
            if negb (existsb (λ i, hash_in_range nc_hash (iv_owner i) (iv_next i)) intervals) then
              DenialBogus "NSEC3 NXDOMAIN: no NSEC3 covers next-closer"
            else
              match prepend_wildcard encloser with
              | None => DenialInsecure
              | Some wildcard =>
                  match hash_of wildcard with
                  | None => DenialInsecure
                  | Some wc_hash =>
                      if negb (existsb (λ i, hash_in_range wc_hash (iv_owner i) (iv_next i)
                                             || bool_decide (iv_owner i = wc_hash)) intervals)
                      then DenialBogus "NSEC3 NXDOMAIN: no NSEC3 covers wildcard"
                      else DenialSecure
                  end
              end
        end
  end.

Definition nsec3_nodata (intervals : list Interval) (target : list Z) (qtype : RecordType)
  : DenialOutcome :=
  match find (λ i, bool_decide (iv_owner i = target)) intervals with
  | Some i => if negb (has_type qtype (iv_types i)) then DenialSecure
              else DenialBogus "NSEC3 NODATA claim contradicted by type bitmap"
  | None => DenialInsecure
  end.

Definition prove_denial_nsec3 (sets : list (Name * list DnsRecord)) (qname : Name)
  (qtype : RecordType) (rcode : ResponseCode) : DenialOutcome :=
  match head (omap (λ set, nsec3_of set.2) sets) with
  | None => DenialInsecure
  | Some params =>
      match nsec3_hash_algorithm params with
      | HA_Other _ => DenialBogus "unsupported NSEC3 hash algo"
      | HA_SHA1 =>
          let intervals := omap nsec3_interval sets in
          let hash_of name := nsec3_hash (salt params) name (iterations params) in
          if bool_decide (rcode = RC_NoError) then
            match hash_of qname with
            | None => DenialInsecure
            | Some target => nsec3_nodata intervals target qtype
            end
          else if bool_decide (rcode = RC_NXDomain) then nsec3_nxdomain hash_of intervals qname
          else DenialInsecure
      end
  end.

(** *** The authority section *)

Record Denial := {
  nsec_sets : list (Name * list DnsRecord); nsec3_sets : list (Name * list DnsRecord);
  nsec_rrsigs : list (Name * list RRSIG); nsec3_rrsigs : list (Name * list RRSIG) }.

Definition denial_step (d : Denial) (r : DnsRecord) : Denial :=
  match r_data r with
  | RD_NSEC _ =>
      {| nsec_sets := bt_push name_cmp (r_name r) r (nsec_sets d); nsec3_sets := nsec3_sets d;
         nsec_rrsigs := nsec_rrsigs d; nsec3_rrsigs := nsec3_rrsigs d |}
  | RD_NSEC3 _ =>
      {| nsec_sets := nsec_sets d; nsec3_sets := bt_push name_cmp (r_name r) r (nsec3_sets d);
         nsec_rrsigs := nsec_rrsigs d; nsec3_rrsigs := nsec3_rrsigs d |}
  | RD_RRSIG s =>
      match type_covered s with
      | RT_NSEC =>
          {| nsec_sets := nsec_sets d; nsec3_sets := nsec3_sets d;
             nsec_rrsigs := bt_push name_cmp (r_name r) s (nsec_rrsigs d);
             nsec3_rrsigs := nsec3_rrsigs d |}
      | RT_NSEC3 =>
          {| nsec_sets := nsec_sets d; nsec3_sets := nsec3_sets d;
             nsec_rrsigs := nsec_rrsigs d;
             nsec3_rrsigs := bt_push name_cmp (r_name r) s (nsec3_rrsigs d) |}
      | _ => d
      end
  | _ => d
  end.
Definition collect_denial (rs : list DnsRecord) : Denial :=
  foldl denial_step {| nsec_sets := []; nsec3_sets := []; nsec_rrsigs := []; nsec3_rrsigs := [] |} rs.

(** Loop over the sets; the clock is read once per set.  [rrset[0]] cannot fail:
    a set is created with its first record. *)
Fixpoint verify_authority_rrsets (clk : nat → Z) (sets : list (Name * list DnsRecord))
  (rrsigs_by_owner : list (Name * list RRSIG)) (chain : Chain) : result unit :=
  match sets with
  | [] => Ok ()
  | (owner, rrset) :: sets' =>
      let sigs := default [] (bt_get name_cmp owner rrsigs_by_owner) in
      let rtype := record_type <$> head rrset in
      sig ← ok_or "denial RRset has no RRSIG"
              (find (λ s, bool_decide (Some (type_covered s) = rtype)) sigs);
      _ ← check_rrsig_validity (clk 0%nat) sig;
      match closest_trusted_keys chain (signer_name sig) with
      | [] => Err "no trusted keys to verify denial"
      | keys =>
          if existsb (verify_rrset rrset sig) keys
          then verify_authority_rrsets (λ i, clk (S i)) sets' rrsigs_by_owner chain
          else Err "denial RRSIG did not verify"
      end
  end.

Definition validate_denial (clk : nat → Z) (resp : Message) (chain : Chain) (qname : Name)
  (qtype : RecordType) : DenialOutcome :=
  let d := collect_denial (authorities resp) in
  match nsec_sets d, nsec3_sets d with
  | [], [] => DenialInsecure
  | _, _ =>
      match verify_authority_rrsets clk (nsec_sets d) (nsec_rrsigs d) chain with
      | Err e => DenialBogus e
      | Ok _ =>
          match verify_authority_rrsets (λ i, clk (length (nsec_sets d) + i)%nat)
                  (nsec3_sets d) (nsec3_rrsigs d) chain with
          | Err e => DenialBogus e
          | Ok _ =>
              match nsec3_sets d with
              | _ :: _ => prove_denial_nsec3 (nsec3_sets d) qname qtype (response_code (metadata resp))
              | [] => prove_denial_nsec (nsec_sets d) qname qtype (response_code (metadata resp))
              end
          end
      end
  end.

(** *** Answers against a chain *)

(** One iteration over the RRsets: a status to return, or go on. *)
Definition check_group (now : Z) (sigs : list (RRSIG * DnsRecord)) (chain : Chain)
  (g : GroupKey * list DnsRecord) : option ValidationStatus :=
  let '((name, rtype, _), rrset) := g in
  let name_lc := to_lowercase name in
  match find (λ p, bool_decide (type_covered p.1 = rtype)
                   && name_eqb (to_lowercase (r_name p.2)) name_lc) sigs with
  | None => Some Insecure
  | Some (sig, _) =>
      match check_rrsig_validity now sig with
      | Err e => Some (Bogus e)
      | Ok _ =>
          match closest_trusted_keys chain (signer_name sig) with
          | [] => Some Insecure
          | keys => if existsb (verify_rrset rrset sig) keys then None
                    else Some (Bogus "answer RRSIG did not verify")
          end
      end
  end.
Fixpoint check_groups (clk : nat → Z) (sigs : list (RRSIG * DnsRecord)) (chain : Chain)
  (groups : list (GroupKey * list DnsRecord)) : ValidationStatus :=
  match groups with
  | [] => Secure
  | g :: groups' =>
      match check_group (clk 0%nat) sigs chain g with
      | Some st => st
      | None => check_groups (λ i, clk (S i)) sigs chain groups'
      end
  end.

Definition denial_status (o : DenialOutcome) : ValidationStatus :=
  match o with
  | DenialSecure => Secure | DenialInsecure => Insecure | DenialBogus m => Bogus m
  end.

Definition validate_answer_against_chain (clk : nat → Z) (resp : Message) (chain : Chain)
  (qname : Name) (qtype : RecordType) : ValidationStatus :=
  let '(groups, sigs) := group_answers (answers resp) in
  match groups with
  | [] => denial_status (validate_denial clk resp chain qname qtype)
  | _ => check_groups clk sigs chain groups
  end.
End Dnssec.

Section Facts.
Context `{NameOps} {HK : Hickory} `{!NameLaws, !HickoryLaws}.

(** ** Windows *)

Lemma wrap32_small n : 0 ≤ n ≤ u32_max → wrap32 n = n.
Proof. unfold wrap32, u32_max. intros. apply Z.mod_small. lia. Qed.

(** Until 2106 minus the skew, and for signatures that expire before then, a
    signature is in its window exactly when inception precedes expiration and the
    clock lies between them, five minutes of skew allowed at both ends. *)
Theorem check_rrsig_validity_window unix sig :
  0 ≤ unix ≤ u32_max - CLOCK_SKEW →
  is_u32 (sig_inception sig) → 0 ≤ sig_expiration sig ≤ u32_max - CLOCK_SKEW →
  is_ok (check_rrsig_validity unix sig) = true ↔
  sig_inception sig ≤ sig_expiration sig ∧
  sig_inception sig - CLOCK_SKEW ≤ unix ≤ sig_expiration sig + CLOCK_SKEW.
Proof.
  unfold check_rrsig_validity, is_u32, CLOCK_SKEW. intros Hu Hi He.
  rewrite (wrap32_small unix), (wrap32_small 300) by (unfold u32_max in *; lia).
  rewrite !wrap32_small by (unfold u32_max in *; lia).
  destruct (Z.ltb_spec (sig_expiration sig) (sig_inception sig)); cbn; [split; [done|lia]|].
  destruct (Z.ltb_spec (unix + 300) (sig_inception sig)); cbn; [split; [done|lia]|].
  destruct (Z.ltb_spec (sig_expiration sig + 300) unix); cbn; [split; [done|lia]|].
  split; [lia|done].
Qed.

(** ** Hash intervals *)

(** Equal-length strings of bytes compare as the numbers they write. *)
Definition bytes_value (l : list Z) : Z := foldl (λ acc b, acc * 256 + b) 0 l.

Lemma bytes_value_acc l acc :
  foldl (λ acc b, acc * 256 + b) acc l = acc * 256 ^ Z.of_nat (length l) + bytes_value l.
Proof.
  unfold bytes_value. revert acc. induction l as [|b l IH]; intros acc; cbn [foldl length].
  - cbn. lia.
  - rewrite IH, (IH (0 * 256 + b)). rewrite Nat2Z.inj_succ, Z.pow_succ_r by lia. lia.
Qed.

Lemma bytes_value_cons b l : bytes_value (b :: l) = b * 256 ^ Z.of_nat (length l) + bytes_value l.
Proof. unfold bytes_value at 1. cbn [foldl]. rewrite bytes_value_acc. lia. Qed.

Lemma bytes_value_bound l : Forall is_byte l → 0 ≤ bytes_value l < 256 ^ Z.of_nat (length l).
Proof.
  induction 1 as [|b l Hb _ IH]; [done|]. rewrite bytes_value_cons. unfold is_byte in Hb.
  cbn [length]. rewrite Nat2Z.inj_succ, Z.pow_succ_r by lia. nia.
Qed.

Lemma bytes_compare_value a b :
  length a = length b → Forall is_byte a → Forall is_byte b →
  bytes_compare a b = Z.compare (bytes_value a) (bytes_value b).
Proof.
  revert b. induction a as [|x a IH]; intros [|y b] Hl Ha Hb; try done. cbn in Hl.
  apply Forall_cons in Ha as [Hx Ha], Hb as [Hy Hb]. cbn [bytes_compare].
  rewrite !bytes_value_cons. injection Hl as Hl. rewrite Hl.
  pose proof (bytes_value_bound a Ha) as Ba. pose proof (bytes_value_bound b Hb) as Bb. rewrite Hl in Ba.
  destruct (Z.compare_spec x y) as [->|Hlt|Hgt].
  - rewrite (IH b Hl Ha Hb). by rewrite Zcompare_plus_compat.
  - symmetry. apply Z.compare_lt_iff. nia.
  - symmetry. apply Z.compare_gt_iff. nia.
Qed.

(** On 20-octet hashes the interval test is the open interval of the hash
    circle: going up from the owner's hash modulo 2^160, the target comes
    strictly before the next hash. *)
Theorem hash_in_range_cyclic t o n :
  length t = 20%nat → length o = 20%nat → length n = 20%nat →
  Forall is_byte t → Forall is_byte o → Forall is_byte n →
  hash_in_range t o n = true ↔
  0 < (bytes_value t - bytes_value o) mod 2 ^ 160 < (bytes_value n - bytes_value o) mod 2 ^ 160.
Proof.
  intros Lt Lo Ln Ht Ho Hn. unfold hash_in_range.
  rewrite !bytes_compare_value by congruence.
  pose proof (bytes_value_bound t Ht) as Bt. pose proof (bytes_value_bound o Ho) as Bo.
  pose proof (bytes_value_bound n Hn) as Bn. rewrite Lt in Bt. rewrite Lo in Bo. rewrite Ln in Bn.
  change (256 ^ Z.of_nat 20) with (2 ^ 160) in *. revert Bt Bo Bn.
  generalize (bytes_value t) (bytes_value o) (bytes_value n). clear. intros t o n Bt Bo Bn.
  assert (Hmod : ∀ x, 0 ≤ x < 2 ^ 160 →
    (x - o) mod 2 ^ 160 = if o <=? x then x - o else x - o + 2 ^ 160).
  { intros x Hx. destruct (Z.leb_spec o x); [apply Z.mod_small; lia|].
    rewrite <- (Z.mod_add _ 1) by done. rewrite Z.mul_1_l. apply Z.mod_small; lia. }
  rewrite !Hmod by done.
  destruct (Z.compare_spec o t), (Z.compare_spec t n), (Z.compare_spec o n), (Z.leb_spec o t),
    (Z.leb_spec o n); cbn; split; intros; try done; lia.
Qed.

(** ** Groups *)

(** Every member of a group has the group's owner (up to case), type and class. *)
Definition group_ok (rs : list DnsRecord) (g : GroupKey * list DnsRecord) : Prop :=
  ∀ r, r ∈ g.2 → r ∈ rs ∧ to_lowercase (r_name r) = to_lowercase g.1.1.1 ∧
    record_type r = g.1.1.2 ∧ r_class r = g.1.2.

Lemma group_cmp_eq a b :
  group_cmp a b = Eq → to_lowercase a.1.1 = to_lowercase b.1.1 ∧ a.1.2 = b.1.2 ∧ a.2 = b.2.
Proof.
  unfold group_cmp. destruct (name_cmp _ _) eqn:E1; try done.
  destruct (record_type_cmp _ _) eqn:E2; try done. intros E3.
  split_and!; [by apply name_cmp_eq|by apply record_type_cmp_eq|by apply class_cmp_eq].
Qed.

Lemma bt_push_group_ok rs r m :
  r ∈ rs → (∀ g, g ∈ m → group_ok rs g) →
  ∀ g, g ∈ bt_push group_cmp (group_key r) r m → group_ok rs g.
Proof.
  intros Hr Hm. induction m as [|[k vs] m IH]; cbn [bt_push].
  - intros g ->%list_elem_of_singleton x ->%list_elem_of_singleton. done.
  - assert (Hm' : ∀ g, g ∈ m → group_ok rs g) by (intros g Hg; apply Hm; by right).
    assert (Hk : group_ok rs (k, vs)) by (apply Hm; left).
    destruct (group_cmp (group_key r) k) eqn:E; intros g; rewrite elem_of_cons; intros [->|Hg].
    + intros x [Hx| ->%list_elem_of_singleton]%elem_of_app; [by apply Hk|].
      apply group_cmp_eq in E as (E1 & E2 & E3). done.
    + by apply Hm'.
    + intros x ->%list_elem_of_singleton. done.
    + by apply Hm.
    + done.
    + by apply IH.
Qed.

#[local] Instance is_rrsig_dec r : Decision (∃ s, r_data r = RD_RRSIG s).
Proof. destruct (r_data r); try (by right; intros [? ?]). left. eauto. Defined.

Lemma group_answers_spec rs :
  (∀ g, g ∈ (group_answers rs).1 → group_ok rs g) ∧
  (∀ p, p ∈ (group_answers rs).2 → p.2 ∈ rs ∧ r_data p.2 = RD_RRSIG p.1) ∧
  (∀ r, r ∈ rs → (∀ s, r_data r ≠ RD_RRSIG s) → ∃ g, g ∈ (group_answers rs).1 ∧ r ∈ g.2).
Proof.
  unfold group_answers.
  induction rs as [|r rs IH] using rev_ind.
  { split_and!; cbn; [by intros ? ?%elem_of_nil..]. }
  rewrite foldl_snoc. destruct IH as (IH1 & IH2 & IH3).
  set (acc := foldl group_step ([], []) rs) in *.
  assert (Hw : ∀ g, g ∈ acc.1 → group_ok (rs ++ [r]) g).
  { intros g Hg x Hx. destruct (IH1 g Hg x Hx). split; [set_solver|done]. }
  assert (Hs : ∀ p, p ∈ acc.2 → p.2 ∈ rs ++ [r] ∧ r_data p.2 = RD_RRSIG p.1).
  { intros p Hp. destruct (IH2 p Hp). split; [set_solver|done]. }
  assert (Hpush : (∀ s, r_data r ≠ RD_RRSIG s) → group_step acc r
    = (bt_push group_cmp (group_key r) r acc.1, acc.2)).
  { intros Hns. unfold group_step. destruct (r_data r) as [| | | | | | | | |sg| | |]; try done. by destruct (Hns sg). }
  destruct (decide (∃ s, r_data r = RD_RRSIG s)) as [[sg Hsg]|Hns].
  - unfold group_step. rewrite Hsg. cbn [fst snd]. split_and!; [done| |].
    + intros p [Hp| ->%list_elem_of_singleton]%elem_of_app; [by apply Hs|]. split; [set_solver|done].
    + intros x [Hx| ->%list_elem_of_singleton]%elem_of_app Hx'; [by apply IH3|]. by destruct (Hx' sg).
  - rewrite Hpush by naive_solver. cbn [fst snd]. split_and!; [|done|].
    + apply bt_push_group_ok; [set_solver|done].
    + intros x [Hx| ->%list_elem_of_singleton]%elem_of_app Hx'.
      * destruct (IH3 x Hx Hx') as ([k vs] & Hg & Hxg).
        destruct (bt_push_old group_cmp (group_key r) r _ _ _ _ Hg Hxg) as (vs' & ? & ?). by exists (k, vs').
      * destruct (bt_push_new group_cmp (group_key r) r acc.1) as (k & vs & ? & ?). by exists (k, vs).
Qed.

Lemma group_answers_rrsigs rs :
  (∀ r, r ∈ rs → ∃ s, r_data r = RD_RRSIG s) → (group_answers rs).1 = [].
Proof.
  unfold group_answers. induction rs as [|r rs IH] using rev_ind; [done|]. intros Hall.
  rewrite foldl_snoc. unfold group_step. destruct (Hall r) as [s ->]; [set_solver|].
  apply IH. intros x Hx. apply Hall. set_solver.
Qed.

(** ** Keys *)

(** [n] is the zone of [z] or one of its ancestors. *)
Definition at_or_above (n z : Name) : Prop :=
  to_lowercase n = to_lowercase z ∨ zone_of n (to_lowercase z) = true.

Lemma closest_trusted_keys_elem chain z k :
  k ∈ closest_trusted_keys chain z →
  ∃ n ks, (n, ks) ∈ chain ∧ at_or_above n z ∧ k ∈ ks.
Proof.
  unfold closest_trusted_keys.
  assert (Hgen : ∀ best, (∀ b, best = Some b → b ∈ chain ∧ at_or_above b.1 z) →
    ∀ l, (∀ e, e ∈ l → e ∈ chain) →
    ∀ b, foldl (closer (to_lowercase z)) best l = Some b → b ∈ chain ∧ at_or_above b.1 z).
  { intros best Hb l. revert best Hb. induction l as [|e l IH]; intros best Hb Hl b; cbn [foldl]; [apply Hb|].
    apply IH; [|intros e' He'; apply Hl; by right].
    intros b'. unfold closer. destruct (_ || _) eqn:E; [|apply Hb].
    assert (He : e ∈ chain ∧ at_or_above e.1 z).
    { split; [apply Hl; left|]. apply orb_true_iff in E as [E|E]; [left|by right].
      apply name_eqb_spec in E. by rewrite !to_lowercase_idemp in E. }
    destruct best as [b0|]; [|by intros [= <-]]. case_match; [by intros [= <-]|].
    intros [= <-]. by apply Hb. }
  destruct (foldl _ None chain) as [[n ks]|] eqn:E; [|by intros ?%elem_of_nil].
  intros Hk. destruct (Hgen None ltac:(done) chain ltac:(done) _ E) as [? ?]. by exists n, ks.
Qed.

(** A Secure answer section: every record other than a signature belongs to an
    RRset, all of it from that section and of one owner, type and class, that is
    covered by an in-window signature of the section with that owner and type,
    made by a key the chain holds for the signer's zone or an ancestor of it. *)
Lemma answer_secure_elem clk resp chain qname qtype r :
  validate_answer_against_chain clk resp chain qname qtype = Secure →
  r ∈ answers resp → (∀ s, r_data r ≠ RD_RRSIG s) →
  ∃ rrset sig sig_rec i n ks k,
    r ∈ rrset ∧ (∀ x, x ∈ rrset → x ∈ answers resp ∧
      to_lowercase (r_name x) = to_lowercase (r_name r) ∧ record_type x = record_type r ∧
      r_class x = r_class r) ∧
    sig_rec ∈ answers resp ∧ r_data sig_rec = RD_RRSIG sig ∧
    to_lowercase (r_name sig_rec) = to_lowercase (r_name r) ∧ type_covered sig = record_type r ∧
    check_rrsig_validity (clk i) sig = Ok () ∧
    (n, ks) ∈ chain ∧ at_or_above n (signer_name sig) ∧ k ∈ ks ∧ verify_rrset rrset sig k = true.
Proof.
  unfold validate_answer_against_chain. intros Hv Hr Hns.
  destruct (group_answers_spec (answers resp)) as (Hg & Hs & Hc).
  destruct (Hc r Hr Hns) as (g & Hgin & Hrg).
  destruct (group_answers (answers resp)) as [groups sigs]. cbn [fst snd] in *.
  assert (Hck : check_groups clk sigs chain groups = Secure) by (by destruct groups).
  clear Hv Hc. revert clk Hck. induction groups as [|g' groups IH]; [by apply elem_of_nil in Hgin|].
  intros clk. cbn [check_groups]. destruct (check_group (clk 0%nat) sigs chain g') as [st|] eqn:E.
  { intros ->. exfalso. revert E. destruct g' as [[[nm rt] cl] rrset]. cbn. repeat case_match; done. }
  apply elem_of_cons in Hgin as [->|Hgin].
  2: { intros Hck. edestruct (IH ltac:(set_solver) Hgin (λ i, clk (S i)) Hck) as (rrset & sig & sr & i & rest).
       by exists rrset, sig, sr, (S i). }
  intros _.
  destruct g' as [[[nm rt] cl] rrset]. unfold check_group in E.
  destruct (find _ sigs) as [[sig sig_rec]|] eqn:Ef; [|done].
  destruct (check_rrsig_validity (clk 0%nat) sig) as [[]|] eqn:Ev; [|done].
  destruct (closest_trusted_keys chain (signer_name sig)) as [|k0 ks0] eqn:Ek; [done|].
  cbn beta iota in E. rewrite <- Ek in E. destruct (existsb _ _) eqn:Ex; [|done].
  apply existsb_exists in Ex as (k & Hk%list_elem_of_In & Hver).
  apply closest_trusted_keys_elem in Hk as (n & ks & Hin & Hab & Hk).
  apply find_some in Ef as [Hsin Hmatch]. apply list_elem_of_In in Hsin.
  apply andb_true_iff in Hmatch as [Ht%bool_decide_eq_true Hn%name_eqb_lower_eq]. cbn in Ht, Hn.
  destruct (Hs _ Hsin) as [Hsr Hsd]. pose proof (Hg ((nm, rt, cl), rrset) ltac:(left)) as Hok.
  destruct (Hok r Hrg) as (_ & Hrn & Hrt & Hrc). cbn in *.
  exists rrset, sig, sig_rec, 0%nat, n, ks, k. split_and!; try done; try congruence.
  intros x Hx. destruct (Hok x Hx) as (? & ? & ? & ?). cbn in *. split_and!; congruence.
Qed.

(** ** Denial *)

(** An RRset with a signature, in its window at a reading of the clock, by a chain key of
    the signer's zone or an ancestor. *)
Definition signed_set (clk : nat → Z) (chain : Chain) (rrset : list DnsRecord) : Prop :=
  ∃ sig i n ks k, check_rrsig_validity (clk i) sig = Ok () ∧ (n, ks) ∈ chain ∧
    at_or_above n (signer_name sig) ∧ k ∈ ks ∧ verify_rrset rrset sig k = true.
Lemma signed_set_shift clk j chain rrset : signed_set (λ i, clk (j + i)%nat) chain rrset → signed_set clk chain rrset.
Proof. intros (sig & i & n & ks & k & S). by exists sig, (j + i)%nat, n, ks, k. Qed.

Lemma verify_authority_sound clk sets sigs chain :
  verify_authority_rrsets clk sets sigs chain = Ok () → ∀ g, g ∈ sets → signed_set clk chain g.2.
Proof.
  revert clk. induction sets as [|[o rrset] sets IH]; intros clk; cbn [verify_authority_rrsets].
  { by intros _ g ?%elem_of_nil. }
  intros (sig & _ & Hr)%result_bind_Ok. apply result_bind_Ok in Hr as ([] & Hv & Hr).
  destruct (closest_trusted_keys chain (signer_name sig)) as [|k0 ks0] eqn:Ek; [done|].
  cbn beta iota in Hr. rewrite <- Ek in Hr. destruct (existsb _ _) eqn:Ex; [|done].
  intros g [->|Hg]%elem_of_cons; [|by eapply (signed_set_shift clk 1), IH].
  apply existsb_exists in Ex as (k & Hk%list_elem_of_In & Hver).
  apply closest_trusted_keys_elem in Hk as (n & ks & Hin & Hab & Hk).
  by exists sig, 0%nat, n, ks, k.
Qed.

(** The fuel of the two ancestor walks is enough: more changes nothing. *)
Lemma encloser_walk_fuel f f' anc cand best :
  (num_labels anc < f)%nat → (num_labels anc < f')%nat →
  encloser_walk f anc cand best = encloser_walk f' anc cand best.
Proof.
  revert f' anc. induction f as [|f IH]; intros [|f'] anc Hf Hf'; try lia. cbn [encloser_walk].
  destruct (Nat.eqb_spec (num_labels anc) 0) as [|Hz]; [done|]. case_match; [done|].
  pose proof (num_labels_trim anc (num_labels anc - 1)). apply IH; lia.
Qed.

Lemma nsec3_encloser_fuel f f' hash_of ivs cur :
  (num_labels cur < f)%nat → (num_labels cur < f')%nat →
  nsec3_encloser f hash_of ivs cur = nsec3_encloser f' hash_of ivs cur.
Proof.
  revert f' cur. induction f as [|f IH]; intros [|f'] cur Hf Hf'; try lia. cbn [nsec3_encloser].
  destruct (Nat.eqb_spec (num_labels cur) 0) as [|Hz]; [done|]. cbn zeta. repeat (case_match; [done|]).
  pose proof (num_labels_trim cur (num_labels cur - 1)). case_match; [|done].
  case_match; [done|]. case_match; [done|]. apply IH; lia.
Qed.

(** The NSEC proofs (RFC 4035 section 5.4). *)
Definition nsec_proof (sets : list (Name * list DnsRecord)) (qname : Name) (qtype : RecordType)
  (rcode : ResponseCode) : Prop :=
  let q := to_lowercase qname in
  (rcode = RC_NoError ∧ ∃ o rs n, (o, rs) ∈ sets ∧ nsec_of rs = Some n ∧
     to_lowercase o = q ∧ qtype ∉ nsec_types n) ∨
  (rcode = RC_NXDomain ∧
   (∃ o rs n, (o, rs) ∈ sets ∧ nsec_of rs = Some n ∧
      canonical_lt o q = true ∧ canonical_lt q (next_domain_name n) = true) ∧
   (∃ o rs n w, (o, rs) ∈ sets ∧ nsec_of rs = Some n ∧
      prepend_wildcard (closest_encloser q [o; next_domain_name n]) = Some w ∧
      (canonical_lt o w = true ∧ canonical_lt w (next_domain_name n) = true ∨
       name_eqb (to_lowercase o) w = true ∧ qtype ∉ nsec_types n))).

Lemma has_type_false t ts : has_type t ts = false ↔ t ∉ ts.
Proof.
  unfold has_type. rewrite <- not_true_iff_false, existsb_exists.
  split; [intros Hn Hin; apply Hn; exists t; split; [by apply list_elem_of_In|by apply bool_decide_eq_true]|].
  intros Hn (t' & Hin%list_elem_of_In & ->%bool_decide_eq_true). done.
Qed.

Lemma nsec_nodata_sound sets q qtype :
  nsec_nodata sets q qtype = Some DenialSecure →
  ∃ o rs n, (o, rs) ∈ sets ∧ nsec_of rs = Some n ∧ name_eqb (to_lowercase o) q = true ∧
    qtype ∉ nsec_types n.
Proof.
  induction sets as [|[o rs] sets IH]; cbn [nsec_nodata]; [done|].
  destruct (name_eqb (to_lowercase o) q) eqn:E; cbn [negb].
  - destruct (nsec_of rs) as [n|] eqn:En.
    + destruct (has_type qtype (nsec_types n)) eqn:Eh; [done|]. intros _.
      exists o, rs, n. split_and!; [left|done|done|by apply has_type_false].
    + intros (o' & rs' & n & ? & ?)%IH. exists o', rs', n. split; [by right|done].
  - intros (o' & rs' & n & ? & ?)%IH. exists o', rs', n. split; [by right|done].
Qed.

Lemma nsec_covers_sound q qtype sets :
  let f := foldl (nsec_cover q qtype) (false, false) sets in
  (f.1 = true → ∃ o rs n, (o, rs) ∈ sets ∧ nsec_of rs = Some n ∧
     canonical_lt o q = true ∧ canonical_lt q (next_domain_name n) = true) ∧
  (f.2 = true → ∃ o rs n w, (o, rs) ∈ sets ∧ nsec_of rs = Some n ∧
     prepend_wildcard (closest_encloser q [o; next_domain_name n]) = Some w ∧
     (canonical_lt o w = true ∧ canonical_lt w (next_domain_name n) = true ∨
      name_eqb (to_lowercase o) w = true ∧ qtype ∉ nsec_types n)).
Proof.
  cbn zeta. induction sets as [|[o rs] sets [IH1 IH2]] using rev_ind; [done|].
  rewrite foldl_snoc. destruct (foldl _ _ sets) as [a b]. cbn [fst snd] in IH1, IH2.
  assert (W1 : a = true → ∃ o0 rs0 n, (o0, rs0) ∈ sets ++ [(o, rs)] ∧ nsec_of rs0 = Some n ∧
     canonical_lt o0 q = true ∧ canonical_lt q (next_domain_name n) = true).
  { intros Ha. destruct (IH1 Ha) as (o0 & rs0 & n & ? & ?). exists o0, rs0, n. split; [set_solver|done]. }
  assert (W2 : b = true → ∃ o0 rs0 n w, (o0, rs0) ∈ sets ++ [(o, rs)] ∧ nsec_of rs0 = Some n ∧
     prepend_wildcard (closest_encloser q [o0; next_domain_name n]) = Some w ∧
     (canonical_lt o0 w = true ∧ canonical_lt w (next_domain_name n) = true ∨
      name_eqb (to_lowercase o0) w = true ∧ qtype ∉ nsec_types n)).
  { intros Hb. destruct (IH2 Hb) as (o0 & rs0 & n & w & ? & ?). exists o0, rs0, n, w. split; [set_solver|done]. }
  unfold nsec_cover. cbn [fst snd]. destruct (nsec_of rs) as [n|] eqn:En; [|done].
  assert (Hin : (o, rs) ∈ sets ++ [(o, rs)]) by set_solver.
  assert (W1' : a || canonical_lt o q && canonical_lt q (next_domain_name n) = true →
     ∃ o0 rs0 n, (o0, rs0) ∈ sets ++ [(o, rs)] ∧ nsec_of rs0 = Some n ∧
     canonical_lt o0 q = true ∧ canonical_lt q (next_domain_name n) = true).
  { intros [Ha|[? ?]%andb_true_iff]%orb_true_iff; [by apply W1|]. by exists o, rs, n. }
  change synthetic_wildcard with prepend_wildcard.
  destruct (prepend_wildcard _) as [w|] eqn:Ew; cbn [fst snd]; split; try done.
  intros [[Hb|[? ?]%andb_true_iff]%orb_true_iff|[? Ht]%andb_true_iff]%orb_true_iff;
    [by apply W2|exists o, rs, n, w; split_and!; auto|].
  apply negb_true_iff, has_type_false in Ht. exists o, rs, n, w. split_and!; auto.
Qed.

(** The NSEC3 proofs (RFC 5155 section 8): an exact match without the type, or a
    matched ancestor whose next-closer name and wildcard fall into gaps. *)
Definition nsec3_proof (sets : list (Name * list DnsRecord)) (qname : Name) (qtype : RecordType)
  (rcode : ResponseCode) : Prop :=
  let ivs := omap nsec3_interval sets in
  ∃ params, params ∈ omap (λ set, nsec3_of set.2) sets ∧ nsec3_hash_algorithm params = HA_SHA1 ∧
  let hash_of n := nsec3_hash (salt params) n (iterations params) in
  (rcode = RC_NoError ∧ ∃ i, i ∈ ivs ∧ hash_of qname = Some (iv_owner i) ∧ qtype ∉ iv_types i) ∨
  (rcode = RC_NXDomain ∧ ∃ encloser wildcard i h i' h' i'',
     i'' ∈ ivs ∧ hash_of encloser = Some (iv_owner i'') ∧
     (num_labels encloser < num_labels qname)%nat ∧
     i ∈ ivs ∧ hash_of (trim_to qname (S (num_labels encloser))) = Some h ∧
     hash_in_range h (iv_owner i) (iv_next i) = true ∧
     prepend_wildcard encloser = Some wildcard ∧ i' ∈ ivs ∧ hash_of wildcard = Some h' ∧
     (hash_in_range h' (iv_owner i') (iv_next i') = true ∨ iv_owner i' = h')).

Lemma nsec3_encloser_sound fuel hash_of ivs cur e :
  nsec3_encloser fuel hash_of ivs cur = Some e →
  ∃ i, i ∈ ivs ∧ hash_of e = Some (iv_owner i).
Proof.
  revert cur. induction fuel as [|fuel IH]; intros cur; cbn [nsec3_encloser]; [done|].
  destruct (Nat.eqb _ _); [done|]. cbn zeta.
  destruct (hash_of (trim_to cur (num_labels cur - 1))) as [h|] eqn:Eh; [|done].
  destruct (existsb _ ivs) eqn:Ex.
  - intros [= <-]. apply existsb_exists in Ex as (i & Hi%list_elem_of_In & He%bool_decide_eq_true).
    exists i. by rewrite Eh, He.
  - destruct (is_root _); [done|apply IH].
Qed.

Lemma nsec3_nxdomain_sound hash_of ivs qname :
  nsec3_nxdomain hash_of ivs qname = DenialSecure →
  ∃ encloser wildcard i h i' h' i'',
     i'' ∈ ivs ∧ hash_of encloser = Some (iv_owner i'') ∧
     (num_labels encloser < num_labels qname)%nat ∧
     i ∈ ivs ∧ hash_of (trim_to qname (S (num_labels encloser))) = Some h ∧
     hash_in_range h (iv_owner i) (iv_next i) = true ∧
     prepend_wildcard encloser = Some wildcard ∧ i' ∈ ivs ∧ hash_of wildcard = Some h' ∧
     (hash_in_range h' (iv_owner i') (iv_next i') = true ∨ iv_owner i' = h').
Proof.
  unfold nsec3_nxdomain. destruct (nsec3_encloser _ _ _ _) as [e|] eqn:Ee; [|done].
  destruct (_ <? _)%nat eqn:El; [done|]. destruct (hash_of (trim_to _ _)) as [h|] eqn:Eh; [|done].
  destruct (existsb _ ivs) eqn:Ex; [|done]. cbn [negb].
  destruct (prepend_wildcard e) as [w|] eqn:Ew; [|done].
  destruct (hash_of w) as [h'|] eqn:Eh'; [|done].
  destruct (existsb (λ i, _ || _) ivs) eqn:Ex'; [|done]. intros _.
  apply nsec3_encloser_sound in Ee as (i'' & ? & ?). apply Nat.ltb_ge in El.
  apply existsb_exists in Ex as (i & ?%list_elem_of_In & ?).
  apply existsb_exists in Ex' as (i' & ?%list_elem_of_In & Hor).
  rewrite orb_true_iff, bool_decide_eq_true in Hor.
  exists e, w, i, h, i', h', i''. split_and!; done || lia.
Qed.

(** The negative answer [resp] proves that [qname] has no [qtype]: every NSEC and NSEC3
    RRset of its authority section is signed under the chain, and they show it. *)
Definition denied (clk : nat → Z) (chain : Chain) (resp : Message) (qname : Name) (qtype : RecordType) : Prop :=
  let d := collect_denial (authorities resp) in
  (∀ g, g ∈ nsec_sets d ++ nsec3_sets d → signed_set clk chain g.2) ∧
  (nsec3_sets d = [] → nsec_proof (nsec_sets d) qname qtype (response_code (metadata resp))) ∧
  (nsec3_sets d ≠ [] → nsec3_proof (nsec3_sets d) qname qtype (response_code (metadata resp))).
Lemma validate_denial_sound clk resp chain qname qtype :
  validate_denial clk resp chain qname qtype = DenialSecure → denied clk chain resp qname qtype.
Proof.
  unfold validate_denial, denied. cbn zeta. set (d := collect_denial (authorities resp)). intros Hd.
  assert (Hd' : match verify_authority_rrsets clk (nsec_sets d) (nsec_rrsigs d) chain with
    | Err e => DenialBogus e
    | Ok _ => match verify_authority_rrsets (λ i, clk (length (nsec_sets d) + i)%nat)
                (nsec3_sets d) (nsec3_rrsigs d) chain with
      | Err e => DenialBogus e
      | Ok _ => match nsec3_sets d with
         | _ :: _ => prove_denial_nsec3 (nsec3_sets d) qname qtype (response_code (metadata resp))
         | [] => prove_denial_nsec (nsec_sets d) qname qtype (response_code (metadata resp))
         end end end = DenialSecure)
    by (destruct (nsec_sets d), (nsec3_sets d); done).
  clear Hd. rename Hd' into Hd.
  destruct (verify_authority_rrsets clk _ _ _) as [[]|] eqn:E1; [|done].
  destruct (verify_authority_rrsets _ (nsec3_sets d) _ _) as [[]|] eqn:E2; [|done].
  split_and!.
  - intros g [Hg|Hg]%elem_of_app; [exact (verify_authority_sound _ _ _ _ E1 g Hg)
                                  |exact (signed_set_shift _ _ _ _ (verify_authority_sound _ _ _ _ E2 g Hg))].
  - intros Hn3. rewrite Hn3 in Hd. unfold prove_denial_nsec in Hd.
    destruct (if bool_decide _ then _ else _) as [out|] eqn:En.
    + subst out. case_bool_decide as Hrc; [|done]. left. split; [done|].
      apply nsec_nodata_sound in En as (o & rs & n & ? & ? & Hn%name_eqb_lower_eq & ?). by exists o, rs, n.
    + case_bool_decide as Hrc; [|done]. right. split; [done|].
      pose proof (nsec_covers_sound (to_lowercase qname) qtype (nsec_sets d)) as [W1 W2].
      destruct (foldl _ _ _) as [a b]. cbn in *. destruct a, b; try done. auto.
  - intros Hn3. assert (Hd' : prove_denial_nsec3 (nsec3_sets d) qname qtype
        (response_code (metadata resp)) = DenialSecure) by (by destruct (nsec3_sets d)).
    clear Hd. unfold prove_denial_nsec3 in Hd'.
    destruct (head (omap _ _)) as [params|] eqn:Eh; [|done].
    destruct (nsec3_hash_algorithm params) eqn:Ea; [|done].
    exists params. split_and!; [by apply head_Some_elem_of|done|].
    case_bool_decide as Hrc.
    + left. split; [done|]. destruct (nsec3_hash _ qname _) as [t|] eqn:Et; [|done].
      unfold nsec3_nodata in Hd'. destruct (find _ _) as [i|] eqn:Ef; [|done].
      apply find_some in Ef as [Hi%list_elem_of_In <-%bool_decide_eq_true].
      destruct (has_type _ _) eqn:Ety; [done|]. apply has_type_false in Ety. by exists i.
    + case_bool_decide as Hrc'; [|done]. right. split; [done|]. by apply nsec3_nxdomain_sound in Hd'.
Qed.

(** C7. A negative answer is called Secure only if every NSEC and NSEC3 RRset of
    the authority section has a signature under the chain that was in its window when
    the clock was read, and the sets prove the
    denial: the exact name lacks the type (NODATA), or the name and the wildcard
    at its closest encloser both fall into gaps (NXDOMAIN). *)
Theorem denial_secure_sound clk resp chain qname qtype :
  validate_denial clk resp chain qname qtype = DenialSecure →
  let d := collect_denial (authorities resp) in
  (∀ g, g ∈ nsec_sets d ++ nsec3_sets d → signed_set clk chain g.2) ∧
  (nsec3_sets d = [] → nsec_proof (nsec_sets d) qname qtype (response_code (metadata resp))) ∧
  (nsec3_sets d ≠ [] → nsec3_proof (nsec3_sets d) qname qtype (response_code (metadata resp))).
Proof. apply validate_denial_sound. Qed.
End Facts.
End Dnssec.

(** ** Examples *)
Module DnssecExamples.
Import Anchor Dnssec.

Definition ex_sig (inception expiration : Z) : RRSIG :=
  {| type_covered := RT_NSEC; sig_algorithm := 8; sig_num_labels := 1; sig_expiration := expiration;
     sig_inception := inception; sig_key_tag := 1; signer_name := root; signature := [1] |}.

Lemma check_rrsig_validity_window_witness :
  is_ok (check_rrsig_validity 2250 (ex_sig 1000 2000)) = true.
Proof.
  apply (check_rrsig_validity_window 2250 (ex_sig 1000 2000)); vm_compute; intuition congruence.
Defined.

(** Near the end of the 32-bit range the sum wraps and a current signature is
    called expired. *)
Lemma rrsig_window_wraps :
  sig_inception (ex_sig 4294960000 4294967290) ≤ 4294966900 ≤ sig_expiration (ex_sig 4294960000 4294967290) ∧
  check_rrsig_validity 4294966900 (ex_sig 4294960000 4294967290) = Err "RRSIG expired".
Proof. cbn. split; [lia|]. vm_compute. reflexivity. Qed.

(** An NSEC3 chain of a single record covers every other hash, but the test says
    that it covers nothing. *)
Lemma single_nsec3_covers_nothing t o : hash_in_range t o o = false.
Proof.
  unfold hash_in_range.
  assert (Hr : ∀ l, bytes_compare l l = Eq).
  { induction l as [|x l IH]; [done|]. cbn. by rewrite Z.compare_refl. }
  rewrite Hr. destruct (bytes_compare o t) eqn:E1, (bytes_compare t o) eqn:E2; try done.
  exfalso. revert t E1 E2. induction o as [|x o IH]; intros [|y t]; cbn; try (intros; discriminate).
  rewrite (Z.compare_antisym x y). destruct (Z.compare_spec x y) as [->|Hlt|Hgt]; cbn; try (intros; discriminate).
  apply IH.
Qed.

Definition h20 (b : Z) : list Z := b :: replicate 19 0.
Lemma hash_in_range_cyclic_witness : hash_in_range (h20 5) (h20 200) (h20 10) = true.
Proof.
  apply (hash_in_range_cyclic (h20 5) (h20 200) (h20 10)); try reflexivity;
    repeat constructor; vm_compute; congruence.
Defined.

(** [b.example.] does not exist between [a.example.] and [z.example.]; the
    wildcard lies between the apex and [a.example.]. *)
Definition ex_nsec (owner next : string) : DnsRecord :=
  record_from_rdata (rn owner) 300 (RD_NSEC {| next_domain_name := rn next; nsec_types := [RT_A] |}).
Definition ex_nsec_sig (owner : string) : DnsRecord :=
  record_from_rdata (rn owner) 300 (RD_RRSIG (ex_sig 1000 2000)).
Definition ex_denial : Message :=
  set_rcode RC_NXDomain
    (add_authorities [ex_nsec "a.example." "z.example."; ex_nsec_sig "a.example.";
                      ex_nsec "example." "a.example."; ex_nsec_sig "example."]
       (message_response 7 OC_Query)).
Definition ex_chain : Chain :=
  [(root, [{| zone_key := true; secure_entry_point := true; revoke := false; key_algorithm := 8;
              public_bytes := [1] |}])].

Lemma denial_secure_sound_witness :
  nsec_proof (nsec_sets (collect_denial (authorities ex_denial))) (rn "b.example.") RT_A RC_NXDomain.
Proof.
  apply (denial_secure_sound (λ _, 1500) ex_denial ex_chain (rn "b.example.") RT_A);
    vm_compute; reflexivity.
Defined.
End DnssecExamples.
