(* ===== verification/Validator.v ===== *)
(** * Chain validation ([Validator] of [recursor/dnssec.rs])

    The validator's state is its key cache and the number of times it has asked
    the outside world: every upstream exchange, clock reading, random id and
    deadline is answered by a [World] as a function of that number.  The
    concurrent prefetch runs in two phases, as [join_all] polls it: all cache
    look-ups in order, then the fetches. *)
From S2P Require Import Prelude Hickory Reference Text TtlCaches Anchor Dnssec.

Module Validator.
Import Anchor Dnssec.

(** [iterative::ChainStep] and [WalkChain]. *)
Record ChainStep `{NameOps} := {
  cs_zone : Name; cs_ds : list DnsRecord; cs_ds_rrsig : list RRSIG; cs_ns_ips : list IpAddr }.
Record WalkChain `{NameOps} := { steps : list ChainStep }.

Record World := {
  up : nat → list IpAddr → list Z → result (list Z);
  instant : nat → Z; unix : nat → Z; rnd : nat → Z; timed_out : nat → bool }.

Section Validator.
Context `{NameOps} {HK : Hickory} `{!MapIter} (w : World).

Record St := { cache : DnskeyCache.DnskeyCache; tick : nat }.
Definition bump (n : nat) (st : St) : St := {| cache := cache st; tick := tick st + n |}.

(** ** The cache, with its clock readings *)

Definition get_positive (z : Name) (st : St) : option (list DNSKEY) * St :=
  (DnskeyCache.get_positive (instant w (tick st)) z (cache st), bump 1 st).
Definition has_negative (z : Name) (st : St) : bool * St :=
  (DnskeyCache.has_negative (instant w (tick st)) z (cache st), bump 1 st).
Definition put_positive (z : Name) (ks : list DNSKEY) (ttl : Z) (st : St) : St :=
  {| cache := DnskeyCache.put_positive (instant w (tick st)) (instant w (S (tick st))) z ks ttl
                (cache st);
     tick := tick st + 2 |}.
Definition put_negative (z : Name) (st : St) : St :=
  {| cache := DnskeyCache.put_negative (instant w (tick st)) (instant w (S (tick st))) z (cache st);
     tick := tick st + 2 |}.
Definition invalidate_positive (z : Name) (st : St) : St :=
  {| cache := DnskeyCache.invalidate_positive z (cache st); tick := tick st |}.

(** [Duration::from_secs(records.iter().map(ttl).min().unwrap_or(60))]. *)
Definition min_ttl (records : list DnsRecord) : Z :=
  from_secs (match records with
             | [] => as_secs DnskeyCache.MIN_POSITIVE_TTL
             | r :: rs => foldr (λ r acc, Z.min (r_ttl r) acc) (r_ttl r) rs
             end).

(** ** Fetching *)

Definition Fetch : Type := list DnsRecord * list DNSKEY * option RRSIG.

(** The loop over the name servers: the first that answers decides. *)
Fixpoint fetch_loop (z : Name) (wire : list Z) (ns_ips : list IpAddr) (st : St)
  : result Fetch * St :=
  match ns_ips with
  | [] => (Err "all NSes failed", st)
  | ip :: ns_ips' =>
      match up w (tick st) [ip] wire with
      | Err _ => fetch_loop z wire ns_ips' (bump 1 st)
      | Ok bytes =>
          match from_bytes bytes with
          | None => (Err "parsing DNSKEY response", bump 1 st)
          | Some resp =>
              let zone_lower := to_lowercase z in
              (Ok (extract_dnskey_answers (λ n, name_eqb (to_lowercase n) zone_lower)
                     (answers resp) [] [] None), bump 1 st)
          end
      end
  end.
Definition fetch_dnskey_rrset (z : Name) (ns_ips : list IpAddr) (st : St) : result Fetch * St :=
  match ns_ips with
  | [] => (Err "no NS addresses to query", st)
  | _ =>
      match build_dnskey_query (rnd w (tick st)) z with
      | Err e => (Err e, bump 1 st)
      | Ok wire => fetch_loop z wire ns_ips (bump 1 st)
      end
  end.

Definition build_ds_query (txid : Z) (z : Name) : result (list Z) :=
  let msg := message_new txid MT_Query OC_Query in
  let msg := set_rd false msg in
  let msg := add_query (set_query_class DC_IN (query_query z RT_DS)) msg in
  let msg := set_edns edns_dnssec msg in
  ok_or "encode DS query" (to_vec msg).

(** The records of one DS response, added to those found so far. *)
Definition collect_ds (z : Name) (acc : list DnsRecord * option RRSIG) (r : DnsRecord)
  : list DnsRecord * option RRSIG :=
  if negb (name_eqb (to_lowercase (r_name r)) z) then acc
  else match r_data r with
       | RD_DS _ => (acc.1 ++ [r], acc.2)
       | RD_RRSIG s => if bool_decide (type_covered s = RT_DS) then (acc.1, Some s) else acc
       | _ => acc
       end.
Fixpoint fetch_ds_loop (z : Name) (wire : list Z) (root_ips : list IpAddr)
  (acc : list DnsRecord * option RRSIG) (st : St) : (list DnsRecord * option RRSIG) * St :=
  match root_ips with
  | [] => (acc, st)
  | ip :: root_ips' =>
      match up w (tick st) [ip] wire with
      | Err _ => fetch_ds_loop z wire root_ips' acc (bump 1 st)
      | Ok bytes =>
          match from_bytes bytes with
          | None => fetch_ds_loop z wire root_ips' acc (bump 1 st)
          | Some msg =>
              let acc := foldl (collect_ds z) acc (answers msg ++ authorities msg) in
              match acc with
              | (_ :: _, Some _) => (acc, bump 1 st)
              | _ => fetch_ds_loop z wire root_ips' acc (bump 1 st)
              end
          end
      end
  end.

(** ** Checks on key sets *)

Definition ds_data (r : DnsRecord) : option DS :=
  match r_data r with RD_DS d => Some d | _ => None end.

(** At least one key hashes to one of the DS records. *)
Definition ds_match (z : Name) (ds : list DnsRecord) (ks : list DNSKEY) : bool :=
  existsb (λ k, existsb (λ d, default false (ds_covers d z k)) (omap ds_data ds)) ks.

Definition any_verifies (ks : list DNSKEY) (rrset : list DnsRecord) (sig : RRSIG) : bool :=
  existsb (verify_rrset rrset sig) ks.

(** [chain_keys.retain(|(n, _)| n != zone); chain_keys.push((zone, keys))]. *)
Definition replace_entry (z : Name) (ks : list DNSKEY) (chain : Chain) : Chain :=
  filter (λ p, name_eqb p.1 z = false) chain ++ [(z, ks)].

(** ** The root *)

Definition splice_in_zone_dnskey (chain : Chain) (z : Name) (ns_ips : list IpAddr) (st : St)
  : result Chain * St :=
  let zone_key := to_lowercase z in
  let '(hit, st) := get_positive zone_key st in
  match hit with
  | Some cached_keys => (Ok (replace_entry z cached_keys chain), st)
  | None =>
      let '(r, st) := fetch_dnskey_rrset z ns_ips st in
      match r with
      | Err e => (Err e, st)
      | Ok (records, ks, sig) =>
          match sig with
          | None => (Err "DNSKEY RRset came without an RRSIG", st)
          | Some sig =>
              match check_rrsig_validity (unix w (tick st)) sig with
              | Err e => (Err e, bump 1 st)
              | Ok _ =>
                  let st := bump 1 st in
                  let existing := default [] (snd <$> find (λ p, name_eqb p.1 z) chain) in
                  if negb (any_verifies existing records sig)
                  then (Err "DNSKEY RRSIG did not verify under any existing trusted key", st)
                  else (Ok (replace_entry z ks chain), put_positive zone_key ks (min_ttl records) st)
              end
          end
      end
  end.

(** ** Missing intermediate zones *)

(** The [while] loop that lists the ancestors to fetch, deepest first. *)
Fixpoint ancestors_to_fetch (fuel : nat) (chain : Chain) (cursor : Name) : result (list Name) :=
  match fuel with
  | O => Err "out of fuel"
  | S fuel' =>
      if existsb (λ p, name_eqb (to_lowercase p.1) cursor) chain then Ok []
      else if is_root cursor then Err "root not present in chain_keys"
      else rest ← ancestors_to_fetch fuel' chain (base_name cursor); Ok (cursor :: rest)
  end.

(** The loop reaches the root before its fuel is gone. *)
Lemma ancestors_to_fetch_fuel `{!NameLaws} fuel chain cursor :
  is_fqdn cursor = true → (length (labels cursor) < fuel)%nat →
  ancestors_to_fetch fuel chain cursor ≠ Err "out of fuel".
Proof.
  revert cursor. induction fuel as [|fuel IH]; intros cursor F L; cbn; [lia|].
  case_match; [done|]. destruct (is_root cursor) eqn:R; [done|].
  assert (labels cursor ≠ []) as N by (intros N; by rewrite (proj2 (is_root_spec _) (fqdn_root _ F N)) in R).
  specialize (IH (base_name cursor) (base_name_fqdn _ F)). rewrite base_name_labels in IH.
  destruct (labels cursor); [done|]. specialize (IH ltac:(cbn in *; lia)).
  by destruct (ancestors_to_fetch fuel chain (base_name cursor)).
Qed.

(** One zone of the [for] loop. *)
Definition bootstrap_zone (root_ips : list IpAddr) (z : Name) (chain : Chain) (st : St)
  : result Chain * St :=
  let '(hit, st) := get_positive (to_lowercase z) st in
  match hit with
  | Some cached_keys => (Ok (replace_entry z cached_keys chain), st)
  | None =>
      match closest_trusted_keys chain z with
      | [] => (Err "no trusted parent", st)
      | parent_keys =>
          match build_ds_query (rnd w (tick st)) z with
          | Err e => (Err e, bump 1 st)
          | Ok ds_wire =>
              let '((ds_records, ds_rrsig), st) :=
                fetch_ds_loop z ds_wire root_ips ([], None) (bump 1 st) in
              match ds_records, ds_rrsig with
              | [], _ => (Err "no DS records returned", st)
              | _, None => (Err "DS RRset came without an RRSIG", st)
              | _, Some ds_rrsig =>
                  match check_rrsig_validity (unix w (tick st)) ds_rrsig with
                  | Err e => (Err e, bump 1 st)
                  | Ok _ =>
                      let st := bump 1 st in
                      if negb (any_verifies parent_keys ds_records ds_rrsig)
                      then (Err "DS RRSIG did not verify under parent keys", st)
                      else
                        let '(r, st) := fetch_dnskey_rrset z root_ips st in
                        match r with
                        | Err e => (Err e, st)
                        | Ok (_, _, None) => (Err "DNSKEY RRset came without an RRSIG", st)
                        | Ok (dnskey_records, dnskeys, Some dnskey_rrsig) =>
                            match check_rrsig_validity (unix w (tick st)) dnskey_rrsig with
                            | Err e => (Err e, bump 1 st)
                            | Ok _ =>
                                let st := bump 1 st in
                                if negb (any_verifies dnskeys dnskey_records dnskey_rrsig)
                                then (Err "DNSKEY RRset is not self-signed", st)
                                else if negb (ds_match z ds_records dnskeys)
                                then (Err "no DNSKEY matches any bootstrapped DS", st)
                                else (Ok (replace_entry z dnskeys chain),
                                      put_positive (to_lowercase z) dnskeys
                                        (min_ttl dnskey_records) st)
                            end
                        end
                  end
              end
          end
      end
  end.
Fixpoint bootstrap_zones (root_ips : list IpAddr) (zs : list Name) (chain : Chain) (st : St)
  : result unit * Chain * St :=
  match zs with
  | [] => (Ok (), chain, st)
  | z :: zs' =>
      let '(r, st) := bootstrap_zone root_ips z chain st in
      match r with
      | Err e => (Err e, chain, st)
      | Ok chain => bootstrap_zones root_ips zs' chain st
      end
  end.
Definition bootstrap_intermediate_zone (chain : Chain) (target : Name) (root_ips : list IpAddr)
  (st : St) : result unit * Chain * St :=
  let target_lower := to_lowercase target in
  match ancestors_to_fetch (S (length (labels target_lower))) chain target_lower with
  | Err e => (Err e, chain, st)
  | Ok to_fetch => bootstrap_zones root_ips (rev to_fetch) chain st
  end.

(** ** Prefetch *)

Inductive StepDnskeyState : Type :=
| SCached (ks : list DNSKEY)
| SInsecure
| SFetched (r : result Fetch).

(** The synchronous part: [None] when the step must be fetched. *)
Definition prefetch_lookup (step : ChainStep) (st : St) : option StepDnskeyState * St :=
  let zone_lower := to_lowercase (cs_zone step) in
  let '(hit, st) := get_positive zone_lower st in
  let '(out, st) :=
    match hit with
    | Some cached_keys =>
        if ds_match (cs_zone step) (cs_ds step) cached_keys then (Some (SCached cached_keys), st)
        else (None, invalidate_positive zone_lower st)
    | None => (None, st)
    end in
  match out with
  | Some s => (Some s, st)
  | None =>
      let '(neg, st) := has_negative zone_lower st in
      (if neg then Some SInsecure else None, st)
  end.

(** The fetch under its five-second deadline. *)
Definition prefetch_fetch (step : ChainStep) (st : St) : StepDnskeyState * St :=
  let zone_lower := to_lowercase (cs_zone step) in
  let late := timed_out w (tick st) in
  let '(r, st) := fetch_dnskey_rrset (cs_zone step) (cs_ns_ips step) (bump 1 st) in
  if late then (SFetched (Err "DNSKEY fetch timed out"), put_negative zone_lower st)
  else match r with
       | Ok f => (SFetched (Ok f), st)
       | Err e => (SFetched (Err e), put_negative zone_lower st)
       end.

Fixpoint prefetch_lookups (ss : list ChainStep) (st : St)
  : list (ChainStep * option StepDnskeyState) * St :=
  match ss with
  | [] => ([], st)
  | step :: ss' =>
      let '(o, st) := prefetch_lookup step st in
      let '(os, st) := prefetch_lookups ss' st in
      ((step, o) :: os, st)
  end.
Fixpoint prefetch_fetches (ps : list (ChainStep * option StepDnskeyState)) (st : St)
  : list (ChainStep * StepDnskeyState) * St :=
  match ps with
  | [] => ([], st)
  | (step, o) :: ps' =>
      let '(s, st) := match o with Some s => (s, st) | None => prefetch_fetch step st end in
      let '(ss, st) := prefetch_fetches ps' st in
      ((step, s) :: ss, st)
  end.
Definition prefetch_step_dnskeys (walk : WalkChain) (st : St)
  : list (ChainStep * StepDnskeyState) * St :=
  let '(ps, st) := prefetch_lookups (steps walk) st in
  prefetch_fetches ps st.

(** ** The walk *)

(** One delegation step.  [inl] returns from [validate_walk] (the status
    [Insecure] also where the code records [insecure_from] and leaves the loop);
    [inr] goes on with the extended chain, the zone counted as validated. *)
Definition validate_step (root_ips : list IpAddr) (step : ChainStep) (pre : StepDnskeyState)
  (chain : Chain) (st : St) : (ValidationStatus + Chain) * St :=
  let covering := find (λ s, bool_decide (type_covered s = RT_DS)) (cs_ds_rrsig step) in
  let '(boot, chain, st) :=
    match covering with
    | Some rrsig =>
        if negb (existsb (λ p, name_eqb p.1 (signer_name rrsig)) chain)
        then bootstrap_intermediate_zone chain (signer_name rrsig) root_ips st
        else (Ok (), chain, st)
    | None => (Ok (), chain, st)
    end in
  match boot with
  | Err _ => (inl Insecure, st)
  | Ok _ =>
      match closest_trusted_keys chain (cs_zone step) with
      | [] => (inl Insecure, st)
      | parent_keys =>
          match cs_ds step with
          | [] => (inl Insecure, st)
          | _ =>
              match covering with
              | None => (inl (Bogus "DS came without an RRSIG"), st)
              | Some ds_rrsig =>
                  match check_rrsig_validity (unix w (tick st)) ds_rrsig with
                  | Err e => (inl (Bogus e), bump 1 st)
                  | Ok _ =>
                      let st := bump 1 st in
                      if negb (any_verifies parent_keys (cs_ds step) ds_rrsig)
                      then (inl (Bogus "DS RRSIG did not verify under parent keys"), st)
                      else
                        match pre with
                        | SCached cached_keys => (inr (chain ++ [(cs_zone step, cached_keys)]), st)
                        | SInsecure => (inl Insecure, st)
                        | SFetched (Err _) => (inl Insecure, st)
                        | SFetched (Ok (dnskey_records, dnskeys, dnskey_rrsig)) =>
                            match dnskeys, dnskey_rrsig with
                            | [], _ => (inl (Bogus "no DNSKEY records returned"), st)
                            | _, None => (inl (Bogus "DNSKEY RRset unsigned"), st)
                            | _, Some dnskey_rrsig =>
                                match check_rrsig_validity (unix w (tick st)) dnskey_rrsig with
                                | Err e => (inl (Bogus e), bump 1 st)
                                | Ok _ =>
                                    let st := bump 1 st in
                                    if negb (any_verifies dnskeys dnskey_records dnskey_rrsig)
                                    then (inl (Bogus "DNSKEY RRset is not self-signed"), st)
                                    else if negb (ds_match (cs_zone step) (cs_ds step) dnskeys)
                                    then (inl (Bogus "no DNSKEY matches any DS from parent"), st)
                                    else (inr (chain ++ [(cs_zone step, dnskeys)]),
                                          put_positive (to_lowercase (cs_zone step)) dnskeys
                                            (min_ttl dnskey_records) st)
                                end
                            end
                        end
                  end
              end
          end
      end
  end.

Fixpoint validate_steps (root_ips : list IpAddr) (ss : list (ChainStep * StepDnskeyState))
  (chain : Chain) (validated_zones : list Name) (st : St)
  : (ValidationStatus + Chain) * list Name * St :=
  match ss with
  | [] => (inr chain, validated_zones, st)
  | (step, pre) :: ss' =>
      let '(r, st) := validate_step root_ips step pre chain st in
      match r with
      | inl status => (inl status, validated_zones, st)
      | inr chain => validate_steps root_ips ss' chain (validated_zones ++ [cs_zone step]) st
      end
  end.

(** The signers of the answer and authority signatures that the chain lacks. *)
Definition needed_signer (chain : Chain) (needed : list Name) (r : DnsRecord) : list Name :=
  match r_data r with
  | RD_RRSIG s =>
      if negb (existsb (λ p, name_eqb p.1 (signer_name s)) chain)
         && negb (existsb (λ n, name_eqb n (signer_name s)) needed)
      then needed ++ [signer_name s] else needed
  | _ => needed
  end.
Fixpoint bootstrap_signers (root_ips : list IpAddr) (needed : list Name) (chain : Chain) (st : St)
  : result Chain * St :=
  match needed with
  | [] => (Ok chain, st)
  | signer :: needed' =>
      let '(r, chain, st) := bootstrap_intermediate_zone chain signer root_ips st in
      match r with
      | Err e => (Err e, st)
      | Ok _ => bootstrap_signers root_ips needed' chain st
      end
  end.

(** Seeding with the anchors, grouped by owner. *)
Fixpoint seed_push (name : Name) (key : DNSKEY) (chain : Chain) : Chain :=
  match chain with
  | [] => [(name, [key])]
  | (n, ks) :: chain' =>
      if name_eqb n name then (n, ks ++ [key]) :: chain' else (n, ks) :: seed_push name key chain'
  end.
Definition seed (anchors : TrustAnchors) : Chain :=
  foldl (λ chain p, seed_push p.1 p.2 chain) [] (anchor_keys anchors).

Definition validate_walk (anchors : TrustAnchors) (root_ips : list IpAddr) (walk : WalkChain)
  (answer : Message) (validated_zones : list Name) (st : St) : ValidationStatus * list Name * St :=
  match seed anchors with
  | [] => (Insecure, validated_zones, st)
  | chain =>
      let '(r, st) := splice_in_zone_dnskey chain root root_ips st in
      match r with
      | Err e => (Bogus e, validated_zones, st)
      | Ok chain =>
          let '(prefetched, st) := prefetch_step_dnskeys walk st in
          let '(r, validated_zones, st) := validate_steps root_ips prefetched chain validated_zones st in
          match r with
          | inl status => (status, validated_zones, st)
          | inr chain =>
              let needed := foldl (needed_signer chain) [] (answers answer ++ authorities answer) in
              let '(r, st) := bootstrap_signers root_ips needed chain st in
              match r with
              | Err _ => (Insecure, validated_zones, st)
              | Ok chain =>
                  let '(qname, qtype) :=
                    match head (queries answer) with
                    | Some q => (q_name q, query_type q)
                    | None => (root, RT_A)
                    end in
                  (validate_answer_against_chain (λ i, unix w (tick st + i)%nat) answer chain
                     qname qtype, validated_zones, st)
              end
          end
      end
  end.
End Validator.

(** ** The chain of trust *)
(** The readings of the clock from the [t0]th on. *)
Definition since (w : World) (t0 : nat) (z : Z) : Prop := ∃ n, (t0 ≤ n)%nat ∧ z = unix w n.

Section Trust.
Context `{NameOps} {HK : Hickory} `{!NameLaws, !HickoryLaws, !MapIter} (w : World) (A : TrustAnchors).
(** The times at which the signatures on keys were checked, and those on the answer. *)
Context (T N : Z → Prop).

(** [ks] are the keys of the DNSKEY records [records], all owned by [z]. *)
Definition keys_of_zone (z : Name) (records : list DnsRecord) (ks : list DNSKEY) : Prop :=
  ks = omap dnskey_data records ∧
  Forall (λ r, to_lowercase (r_name r) = to_lowercase z) records.

(** A key of [ks] has the digest of a DS record among [ds]. *)
Definition hashed_by (z : Name) (ds : list DnsRecord) (ks : list DNSKEY) : Prop :=
  ∃ r d k, r ∈ ds ∧ r_data r = RD_DS d ∧ k ∈ ks ∧ ds_covers d z k = Some true.

(** Key sets that lead back to the anchors: a set made of anchor keys; the DNSKEY
    RRset of a zone signed by a key already vouched for that zone; and the
    self-signed DNSKEY RRset of a zone one of whose keys hashes to a DS record
    signed by a vouched key of the zone's ancestor.  Every signature was in its window at
    one of the times [T]. *)
Inductive Vouched : Name → list DNSKEY → Prop :=
| V_anchor n ks :
    ks ≠ [] → (∀ k, k ∈ ks → ∃ n', (n', k) ∈ anchor_keys A ∧ to_lowercase n' = to_lowercase n) →
    Vouched n ks
| V_zone n old k records ks sig now :
    Vouched n old → k ∈ old → keys_of_zone n records ks → T now →
    check_rrsig_validity now sig = Ok () → verify_rrset records sig k = true → Vouched n ks
| V_delegation parent pks pk z ds ds_sig now records ks sig now' :
    Vouched parent pks → at_or_above parent z → pk ∈ pks → T now →
    check_rrsig_validity now ds_sig = Ok () → verify_rrset ds ds_sig pk = true →
    keys_of_zone z records ks → T now' → check_rrsig_validity now' sig = Ok () →
    (∃ k, k ∈ ks ∧ verify_rrset records sig k = true) → hashed_by z ds ks → Vouched z ks
| V_case n n' ks : to_lowercase n = to_lowercase n' → Vouched n ks → Vouched n' ks.

Definition chain_ok (chain : Chain) : Prop := ∀ n ks, (n, ks) ∈ chain → Vouched n ks.
Definition cache_ok (c : DnskeyCache.DnskeyCache) : Prop :=
  map_Forall (λ z e, Vouched z (DnskeyCache.keys e)) (DnskeyCache.positive c).
(** [t0]: the number of readings made before the times [T] and [N] begin. *)
Context (t0 : nat).
Definition st_ok (st : St) : Prop := cache_ok (cache st) ∧ (t0 ≤ tick st)%nat.
Lemma st_ok_bump n st : st_ok st → st_ok (bump n st).
Proof. intros [C L]. split; [done|]. cbn. lia. Qed.
Context (HT : ∀ n, (t0 ≤ n)%nat → T (unix w n)) (HN : ∀ n, (t0 ≤ n)%nat → N (unix w n)).
Lemma clock_ok st : st_ok st → T (unix w (tick st)).
Proof. intros [_ L]. by apply HT. Qed.
Lemma clock_bump_ok n st : st_ok st → T (unix w (tick (bump n st))).
Proof. intros S. by apply clock_ok, st_ok_bump. Qed.

Lemma get_positive_ok z st : st_ok st →
  st_ok (get_positive w z st).2 ∧
  ∀ ks, (get_positive w z st).1 = Some ks → Vouched z ks.
Proof.
  intros Hok. split; [by apply (st_ok_bump 1)|]. destruct Hok as [Hok _]. intros ks. cbn. unfold DnskeyCache.get_positive.
  destruct (DnskeyCache.positive _ !! _) as [e|] eqn:E; [|done]. case_bool_decide; [|done].
  intros [= <-]. apply (V_case (to_lowercase z)); [apply to_lowercase_idemp|]. exact (Hok _ _ E).
Qed.

Lemma put_positive_ok z ks ttl st : st_ok st → Vouched z ks → st_ok (put_positive w z ks ttl st).
Proof.
  intros [Hok Hl] Hv. split; [|cbn; lia]. apply put_capped_Forall; [|done]. cbn.
  apply (V_case z); [by rewrite to_lowercase_idemp|done].
Qed.

Lemma put_negative_ok z st : st_ok st → st_ok (put_negative w z st).
Proof. intros [Hok Hl]. split; [done|cbn; lia]. Qed.

Lemma invalidate_positive_ok z st : st_ok st → st_ok (invalidate_positive z st).
Proof. intros [Hok Hl]. split; [by apply map_Forall_delete|done]. Qed.

Lemma fetch_loop_ok z wire ips st r st' :
  fetch_loop w z wire ips st = (r, st') →
  (st_ok st → st_ok st') ∧ ∀ records ks sig, r = Ok (records, ks, sig) → keys_of_zone z records ks.
Proof.
  revert st. induction ips as [|ip ips IH]; intros st; cbn [fetch_loop].
  { intros [= <- <-]. by split. }
  destruct (up _ _ _ _).
  2: { intros [S K]%(IH (bump 1 st)). split; [|done]. intros Hs. by apply S, st_ok_bump. }
  destruct (from_bytes _); intros [= <- <-]; (split; [apply st_ok_bump|]); [|done]. intros records ks sig [= Hx].
  apply extract_dnskey_answers_spec in Hx as [-> Hf]; [|done|done]. split; [done|].
  eapply Forall_impl; [exact Hf|]. cbn. intros r Hr. by apply name_eqb_lower_eq in Hr.
Qed.

Lemma fetch_dnskey_rrset_ok z ips st r st' :
  fetch_dnskey_rrset w z ips st = (r, st') →
  (st_ok st → st_ok st') ∧ ∀ records ks sig, r = Ok (records, ks, sig) → keys_of_zone z records ks.
Proof.
  unfold fetch_dnskey_rrset. destruct ips as [|ip ips]; [by intros [= <- <-]|].
  destruct (build_dnskey_query _ _); [|intros [= <- <-]; by split; [apply st_ok_bump|]].
  intros [S K]%fetch_loop_ok. split; [|done]. intros Hs. by apply S, st_ok_bump.
Qed.

Lemma fetch_ds_loop_st z wire ips acc st : st_ok st → st_ok (fetch_ds_loop w z wire ips acc st).2.
Proof.
  revert acc st. induction ips as [|ip ips IH]; intros acc st Hok; cbn [fetch_ds_loop]; [done|].
  repeat (case_match; try by apply st_ok_bump); by apply IH, st_ok_bump.
Qed.

Lemma replace_entry_ok z ks chain : chain_ok chain → Vouched z ks → chain_ok (replace_entry z ks chain).
Proof.
  intros Hc Hv n ks' [Hin|Hin]%elem_of_app.
  - apply list_elem_of_filter in Hin as [_ Hin]. by apply Hc.
  - apply list_elem_of_singleton in Hin as [= -> ->]. done.
Qed.

Lemma chain_snoc_ok z ks chain : chain_ok chain → Vouched z ks → chain_ok (chain ++ [(z, ks)]).
Proof.
  intros Hc Hv n ks' [Hin|Hin]%elem_of_app; [by apply Hc|].
  apply list_elem_of_singleton in Hin as [= -> ->]. done.
Qed.

Lemma any_verifies_elem ks rrset sig :
  any_verifies ks rrset sig = true ↔ ∃ k, k ∈ ks ∧ verify_rrset rrset sig k = true.
Proof.
  unfold any_verifies. rewrite existsb_exists. by setoid_rewrite list_elem_of_In.
Qed.

Lemma ds_match_hashed z ds ks : ds_match z ds ks = true → hashed_by z ds ks.
Proof.
  unfold ds_match. intros (k & Hk%list_elem_of_In & (d & Hd%list_elem_of_In & Hc)%existsb_exists)%existsb_exists.
  apply list_elem_of_omap in Hd as (r & Hr & Hd). unfold ds_data in Hd.
  exists r, d, k. destruct (r_data r), (ds_covers d z k); naive_solver.
Qed.

(** The delegation rule, as the checks establish it. *)
Lemma vouched_by_delegation chain z ds ds_sig now records ks sig now' :
  chain_ok chain → any_verifies (closest_trusted_keys chain z) ds ds_sig = true →
  T now → check_rrsig_validity now ds_sig = Ok () → keys_of_zone z records ks →
  T now' → check_rrsig_validity now' sig = Ok () → any_verifies ks records sig = true →
  ds_match z ds ks = true → Vouched z ks.
Proof.
  intros Hc (pk & Hpk & Hv)%any_verifies_elem ? ? ? ? ? Hself%any_verifies_elem Hds%ds_match_hashed.
  apply closest_trusted_keys_elem in Hpk as (n & pks & Hin & Hab & Hpk).
  by eapply (V_delegation n pks pk z ds ds_sig now records ks sig now'); try done; apply Hc.
Qed.

Lemma splice_ok chain z ips st :
  chain_ok chain → st_ok st →
  let '(r, st') := splice_in_zone_dnskey w chain z ips st in
  st_ok st' ∧ ∀ chain', r = Ok chain' → chain_ok chain'.
Proof.
  intros Hc Hs. unfold splice_in_zone_dnskey.
  destruct (get_positive_ok (to_lowercase z) st Hs) as [Hs1 Hhit].
  destruct (get_positive w (to_lowercase z) st) as [hit st1]. cbn [fst snd] in *.
  destruct hit as [cached|].
  { split; [done|]. intros ? [= <-]. apply replace_entry_ok; [done|].
    apply (V_case (to_lowercase z)); [apply to_lowercase_idemp|]. by apply Hhit. }
  destruct (fetch_dnskey_rrset w z ips st1) as [r st2] eqn:Ef.
  apply fetch_dnskey_rrset_ok in Ef as [Hs2 Hk]. specialize (Hs2 Hs1).
  destruct r as [[[records ks] sig]|e]; [|done]. destruct sig as [sig|]; [|done].
  pose proof (st_ok_bump 1 _ Hs2) as Hs3.
  destruct (check_rrsig_validity _ sig) as [[]|] eqn:Ev; [|done].
  destruct (any_verifies _ records sig) eqn:Ex; cbn [negb]; [|done].
  apply any_verifies_elem in Ex as (k & Hkin & Hver).
  assert (Hv : Vouched z ks).
  { destruct (find _ chain) as [[n old]|] eqn:Efd; cbn in Hkin; [|by apply elem_of_nil in Hkin].
    apply find_some in Efd as [Hin%list_elem_of_In Hn%name_eqb_spec].
    eapply (V_zone z old k records ks sig); try done; [|by eapply Hk|by apply (clock_ok st2)].
    apply (V_case n); [done|]. by apply Hc. }
  split; [|intros ? [= <-]; by apply replace_entry_ok].
  apply put_positive_ok; [done|]. apply (V_case z); [by rewrite to_lowercase_idemp|done].
Qed.

Lemma bootstrap_zone_ok ips z chain st :
  chain_ok chain → st_ok st →
  let '(r, st') := bootstrap_zone w ips z chain st in
  st_ok st' ∧ ∀ chain', r = Ok chain' → chain_ok chain'.
Proof.
  intros Hc Hs. unfold bootstrap_zone.
  destruct (get_positive_ok (to_lowercase z) st Hs) as [Hs1 Hhit].
  destruct (get_positive w (to_lowercase z) st) as [hit st1]. cbn [fst snd] in *.
  destruct hit as [cached|].
  { split; [done|]. intros ? [= <-]. apply replace_entry_ok; [done|].
    apply (V_case (to_lowercase z)); [apply to_lowercase_idemp|]. by apply Hhit. }
  destruct (closest_trusted_keys chain z) as [|pk0 pks0] eqn:Ek; [done|]. rewrite <- Ek.
  pose proof (st_ok_bump 1 _ Hs1) as Hs1'. destruct (build_ds_query _ z); [|done].
  pose proof (fetch_ds_loop_st z a ips ([], None) (bump 1 st1) Hs1') as Hs2.
  destruct (fetch_ds_loop _ _ _ _ _ _) as [[ds ds_sig] st2]. cbn [snd] in Hs2.
  destruct ds as [|d ds], ds_sig as [ds_sig|]; try done. pose proof (st_ok_bump 1 _ Hs2) as Hs2'.
  destruct (check_rrsig_validity _ ds_sig) as [[]|] eqn:Ev; [|done].
  destruct (any_verifies (closest_trusted_keys chain z) _ _) eqn:Ex; cbn [negb]; [|done].
  destruct (fetch_dnskey_rrset w z ips _) as [r st3] eqn:Ef.
  apply fetch_dnskey_rrset_ok in Ef as [Hs3 Hk]. specialize (Hs3 Hs2').
  destruct r as [[[records ks] [sig|]]|e]; try done. pose proof (st_ok_bump 1 _ Hs3) as Hs3'.
  destruct (check_rrsig_validity _ sig) as [[]|] eqn:Ev'; [|done].
  destruct (any_verifies ks records sig) eqn:Ex'; cbn [negb]; [|done].
  destruct (ds_match z (d :: ds) ks) eqn:Ed; cbn [negb]; [|done].
  assert (Hv : Vouched z ks).
  { eapply vouched_by_delegation; try done; [by apply (clock_ok st2)|by eapply Hk|by apply (clock_ok st3)]. }
  split; [|intros ? [= <-]; by apply replace_entry_ok].
  apply put_positive_ok; [done|]. apply (V_case z); [by rewrite to_lowercase_idemp|done].
Qed.

Lemma bootstrap_intermediate_ok chain target ips st :
  chain_ok chain → st_ok st →
  let '(_, chain', st') := bootstrap_intermediate_zone w chain target ips st in
  chain_ok chain' ∧ st_ok st'.
Proof.
  intros Hc Hs. unfold bootstrap_intermediate_zone.
  destruct (ancestors_to_fetch _ _ _) as [zs|e]; [|done]. generalize (rev zs). clear zs. intros zs.
  revert chain st Hc Hs. induction zs as [|z zs IH]; intros chain st Hc Hs; cbn [bootstrap_zones]; [done|].
  pose proof (bootstrap_zone_ok ips z chain st Hc Hs) as Hb.
  destruct (bootstrap_zone _ _ _ _ _) as [[chain'|e] st']; destruct Hb as [Hs' Hc'].
  - apply IH; [by apply Hc'|done].
  - done.
Qed.

(** What a prefetched state carries. *)
Definition pre_ok (p : ChainStep * StepDnskeyState) : Prop :=
  match p.2 with
  | SCached ks => ks ≠ [] ∧ Vouched (cs_zone p.1) ks
  | SInsecure => True
  | SFetched (Ok (records, ks, _)) => keys_of_zone (cs_zone p.1) records ks
  | SFetched (Err _) => True
  end.

Lemma prefetch_lookup_ok step st :
  st_ok st → let '(o, st') := prefetch_lookup w step st in
  st_ok st' ∧ ∀ s, o = Some s → pre_ok (step, s).
Proof.
  intros Hs. unfold prefetch_lookup.
  destruct (get_positive_ok (to_lowercase (cs_zone step)) st Hs) as [Hs1 Hhit].
  destruct (get_positive w _ st) as [hit st1]. cbn [fst snd] in *.
  destruct hit as [ks|]; [destruct (ds_match _ _ _) eqn:Em|]; cbn [has_negative].
  - split; [done|]. intros ? [= <-]. split.
    + apply ds_match_hashed in Em as (? & ? & k & _ & _ & Hk & _). intros ->. by apply elem_of_nil in Hk.
    + apply (V_case (to_lowercase (cs_zone step))); [apply to_lowercase_idemp|by apply Hhit].
  - split; [by apply (st_ok_bump 1), invalidate_positive_ok|]. case_match; by intros ? [= <-].
  - split; [by apply (st_ok_bump 1)|]. case_match; by intros ? [= <-].
Qed.

Lemma prefetch_fetch_ok step st :
  st_ok st → let '(s, st') := prefetch_fetch w step st in st_ok st' ∧ pre_ok (step, s).
Proof.
  intros Hs. unfold prefetch_fetch.
  destruct (fetch_dnskey_rrset w _ _ _) as [r st1] eqn:Ef.
  apply fetch_dnskey_rrset_ok in Ef as [Hs1 Hk]. specialize (Hs1 (st_ok_bump 1 _ Hs)).
  pose proof (put_negative_ok (to_lowercase (cs_zone step)) _ Hs1) as Hs2.
  destruct (timed_out w (tick st)); [done|].
  destruct r as [[[records ks] sig]|e]; [|done]. split; [done|]. by eapply Hk.
Qed.

Lemma prefetch_ok walk st :
  st_ok st → let '(ps, st') := prefetch_step_dnskeys w walk st in
  st_ok st' ∧ Forall pre_ok ps.
Proof.
  intros Hs. unfold prefetch_step_dnskeys.
  assert (Hp1 : ∀ ss st, st_ok st → let '(ps, st') := prefetch_lookups w ss st in
    st_ok st' ∧ Forall (λ p, ∀ s, p.2 = Some s → pre_ok (p.1, s)) ps).
  { clear st Hs. induction ss as [|step ss IH]; intros st Hs; cbn [prefetch_lookups]; [done|].
    pose proof (prefetch_lookup_ok step st Hs) as Hl. destruct (prefetch_lookup w step st) as [o st1].
    destruct Hl as [Hs1 Ho]. specialize (IH st1 Hs1). destruct (prefetch_lookups w ss st1) as [os st2].
    destruct IH as [Hs2 Hos]. split; [done|]. by constructor. }
  specialize (Hp1 (steps walk) st Hs). destruct (prefetch_lookups w (steps walk) st) as [ps st1].
  destruct Hp1 as [Hs1 Hps]. clear Hs. revert st1 Hs1.
  induction Hps as [|[step o] ps Hp _ IH]; intros st1 Hs1; cbn [prefetch_fetches]; [done|].
  assert (Hx : let '(s, st2) := match o with Some s => (s, st1) | None => prefetch_fetch w step st1 end in
    st_ok st2 ∧ pre_ok (step, s)).
  { destruct o as [s|]; [split; [done|by apply Hp]|by apply prefetch_fetch_ok]. }
  destruct (match o with Some _ => _ | None => _ end) as [s st2]. destruct Hx as [Hs2 Hpre].
  specialize (IH st2 Hs2). destruct (prefetch_fetches w ps st2) as [ss st3].
  destruct IH as [? ?]. split; [done|]. by constructor.
Qed.

Lemma validate_step_ok ips step pre chain st :
  chain_ok chain → st_ok st → pre_ok (step, pre) →
  let '(r, st') := validate_step w ips step pre chain st in
  st_ok st' ∧ match r with
              | inl status => status ≠ Secure
              | inr chain' => chain_ok chain' ∧ ∃ ks, ks ≠ [] ∧ Vouched (cs_zone step) ks
              end.
Proof.
  intros Hc Hs Hp. unfold validate_step.
  set (covering := find _ (cs_ds_rrsig step)).
  assert (Hb : let '(boot, chain', st') :=
    match covering with
    | Some rrsig =>
        if negb (existsb (λ p, name_eqb p.1 (signer_name rrsig)) chain)
        then bootstrap_intermediate_zone w chain (signer_name rrsig) ips st
        else (Ok (), chain, st)
    | None => (Ok (), chain, st)
    end in chain_ok chain' ∧ st_ok st').
  { destruct covering as [rrsig|]; [|done]. destruct (negb _); [|done]. by apply bootstrap_intermediate_ok. }
  destruct (match covering with Some _ => _ | None => _ end) as [[boot chain1] st1].
  clear chain st Hc Hs. destruct Hb as [Hc Hs]. destruct boot as [|e]; [|done].
  destruct (closest_trusted_keys chain1 (cs_zone step)) as [|pk0 pks0] eqn:Ek; [done|]. rewrite <- Ek.
  destruct (cs_ds step) as [|d ds] eqn:Eds; [done|]. destruct covering as [ds_sig|]; [|done].
  pose proof (st_ok_bump 1 _ Hs) as Hs2. pose proof (st_ok_bump 1 _ Hs2) as Hs3.
  destruct (check_rrsig_validity _ ds_sig) as [[]|] eqn:Ev; [|done].
  destruct (any_verifies (closest_trusted_keys chain1 _) _ _) eqn:Ex; cbn [negb]; [|done].
  destruct pre as [cached| |[[[records ks] sig]|e]]; try done.
  { destruct Hp as [Hne Hp]. split; [done|]. split; [by apply chain_snoc_ok|]. by exists cached. }
  destruct ks as [|k0 ks0] eqn:Eks; [done|]. rewrite <- Eks in *. destruct sig as [sig|]; [|done].
  destruct (check_rrsig_validity _ sig) as [[]|] eqn:Ev'; [|done].
  destruct (any_verifies ks records sig) eqn:Ex'; cbn [negb]; [|done].
  destruct (ds_match (cs_zone step) (d :: ds) ks) eqn:Ed; cbn [negb]; [|done].
  assert (Hz : keys_of_zone (cs_zone step) records ks) by exact Hp.
  assert (Hv : Vouched (cs_zone step) ks)
    by (eapply vouched_by_delegation; try done; [by apply (clock_ok st1)|by apply (clock_ok (bump 1 st1))]).
  split; [|split; [by apply chain_snoc_ok|by exists ks; subst]].
  apply put_positive_ok; [done|]. apply (V_case (cs_zone step)); [by rewrite to_lowercase_idemp|done].
Qed.

Lemma validate_steps_ok ips ss chain vz st :
  chain_ok chain → st_ok st → Forall pre_ok ss →
  let '(r, vz', st') := validate_steps w ips ss chain vz st in
  st_ok st' ∧ (∀ z, z ∈ vz' → z ∈ vz ∨ ∃ ks, ks ≠ [] ∧ Vouched z ks) ∧
  match r with inl status => status ≠ Secure | inr chain' => chain_ok chain' end.
Proof.
  intros Hc Hs Hp. revert chain vz st Hc Hs.
  induction Hp as [|[step pre] ss Hp _ IH]; intros chain vz st Hc Hs; cbn [validate_steps]; [auto|].
  pose proof (validate_step_ok ips step pre chain st Hc Hs Hp) as Hv.
  destruct (validate_step _ _ _ _ _ _) as [[status|chain'] st1]; destruct Hv as [Hs1 Hr]; [auto|].
  destruct Hr as [Hc' Hz]. specialize (IH chain' (vz ++ [cs_zone step]) st1 Hc' Hs1).
  destruct (validate_steps _ _ _ _ _ _) as [[r vz'] st']. destruct IH as (? & Hvz & ?).
  split_and!; [done| |done]. intros z Hin. destruct (Hvz z Hin) as [Hin'|?]; [|by right].
  apply elem_of_app in Hin' as [?| ->%list_elem_of_singleton]; [by left|by right].
Qed.

(** [B]: the anchors now in force, among those of [A]. *)
Lemma seed_ok B : anchor_keys B ⊆ anchor_keys A → chain_ok (seed B).
Proof.
  intros Sub.
  unfold seed.
  set (good := λ n ks, ks ≠ [] ∧ ∀ k, k ∈ ks → ∃ n', (n', k) ∈ anchor_keys A ∧ to_lowercase n' = to_lowercase n).
  assert (Hgen : ∀ l chain, (∀ p, p ∈ l → p ∈ anchor_keys A) → (∀ n ks, (n, ks) ∈ chain → good n ks) →
    ∀ n ks, (n, ks) ∈ foldl (λ chain p, seed_push p.1 p.2 chain) chain l → good n ks).
  { induction l as [|[m km] l IH]; intros chain Hl Hc; cbn [foldl]; [done|].
    apply IH; [set_solver|]. assert (Hm : (m, km) ∈ anchor_keys A) by (apply Hl; left).
    clear IH Hl. cbn [fst snd]. induction chain as [|[n0 ks0] chain IHc]; cbn [seed_push].
    - intros n ks [= -> ->]%list_elem_of_singleton. split; [done|]. intros k ->%list_elem_of_singleton. eauto.
    - destruct (name_eqb n0 m) eqn:E.
      + apply name_eqb_spec in E. intros n ks [[= -> ->]|Hin]%elem_of_cons; [|apply Hc; by right].
        split; [by destruct ks0|]. intros k [Hk| ->%list_elem_of_singleton]%elem_of_app; [|exists m; by rewrite E].
        by apply (Hc n0 ks0); [left|].
      + intros n ks [[= -> ->]|Hin]%elem_of_cons; [apply Hc; left|].
        apply IHc; [|done]. intros n' ks' Hin'. apply Hc. by right. }
  intros n ks Hin. destruct (Hgen (anchor_keys B) [] Sub ltac:(by intros ? ? ?%elem_of_nil) n ks Hin). by apply V_anchor.
Qed.

Lemma bootstrap_signers_ok ips needed chain st :
  chain_ok chain → st_ok st →
  let '(r, st') := bootstrap_signers w ips needed chain st in
  st_ok st' ∧ ∀ chain', r = Ok chain' → chain_ok chain'.
Proof.
  revert chain st. induction needed as [|z needed IH]; intros chain st Hc Hs; cbn [bootstrap_signers].
  { split; [done|]. by intros ? [= <-]. }
  pose proof (bootstrap_intermediate_ok chain z ips st Hc Hs) as Hb.
  destruct (bootstrap_intermediate_zone _ _ _ _ _) as [[r chain'] st']. destruct Hb as [Hc' Hs'].
  destruct r; [|done]. by apply IH.
Qed.

Ltac early := intros [= <- <- <-]; (split; [done|]); (split; [by auto|]); congruence.

(** What Secure says of an answer: each of its records is in an RRset with a signature,
    in its window at one of the times [N], by a key of a set that leads back to the anchors, of the
    signer's zone or an ancestor.  If it has none, the denial is proved under such
    keys at such times, and of the very question that the message carries. *)
Definition trusted_answer (answer : Message) : Prop :=
  (∀ r, r ∈ answers answer → (∀ s, r_data r ≠ RD_RRSIG s) →
    ∃ rrset sig now n ks k, r ∈ rrset ∧
      (∀ x, x ∈ rrset → x ∈ answers answer ∧ to_lowercase (r_name x) = to_lowercase (r_name r) ∧
         record_type x = record_type r) ∧
      type_covered sig = record_type r ∧ N now ∧ check_rrsig_validity now sig = Ok () ∧
      Vouched n ks ∧ at_or_above n (signer_name sig) ∧ k ∈ ks ∧ verify_rrset rrset sig k = true) ∧
  ((∀ r, r ∈ answers answer → ∃ s, r_data r = RD_RRSIG s) →
    ∃ clk chain, (∀ i, N (clk i)) ∧ chain_ok chain ∧
      ∀ q, head (queries answer) = Some q → denied clk chain answer (q_name q) (query_type q)).

Lemma validate_walk_ok B root_ips walk answer vz st status vz' st' :
  anchor_keys B ⊆ anchor_keys A → st_ok st → validate_walk w B root_ips walk answer vz st = (status, vz', st') →
  st_ok st' ∧ (∀ z, z ∈ vz' → z ∈ vz ∨ ∃ ks, ks ≠ [] ∧ Vouched z ks) ∧
  (status = Secure → trusted_answer answer).
Proof.
  intros Sub Hs. unfold validate_walk. pose proof (seed_ok B Sub) as Hseed.
  destruct (seed B) as [|e0 c0]; [early|].
  pose proof (splice_ok (e0 :: c0) root root_ips st Hseed Hs) as Hsp.
  destruct (splice_in_zone_dnskey _ _ _ _ _) as [[chain|e] st1]; destruct Hsp as [Hs1 Hc1];
    [|early]. specialize (Hc1 _ eq_refl).
  pose proof (prefetch_ok walk st1 Hs1) as Hp.
  destruct (prefetch_step_dnskeys _ _ _) as [ps st2]. destruct Hp as [Hs2 Hps].
  pose proof (validate_steps_ok root_ips ps chain vz st2 Hc1 Hs2 Hps) as Hv.
  destruct (validate_steps _ _ _ _ _ _) as [[r vz1] st3]. destruct Hv as (Hs3 & Hvz & Hr).
  destruct r as [status0|chain3]; [early|].
  pose proof (bootstrap_signers_ok root_ips (foldl (needed_signer chain3) []
    (answers answer ++ authorities answer)) chain3 st3 Hr Hs3) as Hb.
  destruct (bootstrap_signers _ _ _ _ _) as [[chain4|e] st4]; destruct Hb as [Hs4 Hc4];
    [|early]. specialize (Hc4 _ eq_refl).
  destruct (match head (queries answer) with Some _ => _ | None => _ end) as [qname qtype] eqn:Hq.
  intros [= <- <- <-]. assert (Hn : ∀ i, N (unix w (tick st4 + i)%nat)) by (intros i; apply HN; destruct Hs4; lia). split_and!; try done. intros Hsec. split.
  - intros r Hin Hns.
    destruct (answer_secure_elem _ _ _ _ _ r Hsec Hin Hns)
      as (rrset & sig & sr & i & n & ks & k & Hrr & Hx & _ & _ & _ & Ht & Hw & Hch & Hab & Hk & Hver).
    exists rrset, sig, (unix w (tick st4 + i)%nat), n, ks, k. split_and!; try done; [|by apply Hc4].
    intros x Hxin. destruct (Hx x Hxin) as (? & ? & ? & _). done.
  - intros Hall. unfold validate_answer_against_chain in Hsec.
    pose proof (group_answers_rrsigs (answers answer) Hall) as Hg.
    destruct (group_answers (answers answer)) as [groups sigs]. cbn in Hg. subst groups.
    exists (λ i, unix w (tick st4 + i)%nat), chain4. split_and!; [done..|]. intros q Eq. rewrite Eq in Hq. injection Hq as <- <-.
    apply validate_denial_sound. by destruct (validate_denial _ _ _ _ _).
Qed.
End Trust.

Section Theorems.
Context `{NameOps} {HK : Hickory} `{!NameLaws, !HickoryLaws, !MapIter}.

Lemma Vouched_mono A (T T' : Z → Prop) n ks : (∀ z, T z → T' z) → Vouched A T n ks → Vouched A T' n ks.
Proof.
  intros M. induction 1 as [n ks|n old k records ks sig now _ IH|p pks pk z ds ds_sig now records ks sig now' _ IH|n n' ks E _ IH].
  - by apply V_anchor.
  - eapply (V_zone _ _ n old k records ks sig now); try done. by apply M.
  - eapply (V_delegation _ _ p pks pk z ds ds_sig now records ks sig now'); try done; by apply M.
  - by eapply V_case.
Qed.

(** C1. Chain of trust.  Say the signatures behind every cached key set were in their windows
    at the times [past] and lead back to the anchors.  Then after any walk this holds again, with the
    readings the validator takes of the clock from the start of this walk on added to those
    times, whatever the name servers answered; every zone reported as validated has a
    non-empty key set of that kind; and an answer is called Secure only if each
    of its records is in an RRset with a signature that was in its window at a reading of
    this walk, by a key of such a set, of the signer's zone or an ancestor; a negative answer
    only if the denial of the name and type in its question is proved by sets
    signed in that way. *)
Theorem secure_chain_of_trust w A past root_ips walk answer vz st status vz' st' :
  let now z := ∃ n, (tick st ≤ n)%nat ∧ z = unix w n in
  let times z := past z ∨ now z in
  cache_ok A past (cache st) → validate_walk w A root_ips walk answer vz st = (status, vz', st') →
  cache_ok A times (cache st') ∧ (∀ z, z ∈ vz' → z ∈ vz ∨ ∃ ks, ks ≠ [] ∧ Vouched A times z ks) ∧
  (status = Secure → trusted_answer A times now answer).
Proof.
  intros now times C E. apply (validate_walk_ok w A times now (tick st)) in E as ((C' & _) & Z & S); try done.
  - intros n L. right. by exists n.
  - intros n L. by exists n.
  - split; [|done]. intros z e Hz. eapply Vouched_mono; [|exact (C z e Hz)]. by left.
Qed.
End Theorems.
End Validator.

(** ** Examples *)
Module ValidatorExamples.
Import Anchor Dnssec Validator.

Definition ex_key (b : Z) : DNSKEY :=
  {| zone_key := true; secure_entry_point := true; revoke := false; key_algorithm := 8;
     public_bytes := [b] |}.
(** A signature over type [t] by the key whose byte is [b], for the zone [z]. *)
Definition ex_sig (t : RecordType) (z : Name) (b : Z) : RRSIG :=
  {| type_covered := t; sig_algorithm := 8; sig_num_labels := 1; sig_expiration := 2000;
     sig_inception := 1000; sig_key_tag := b; signer_name := z; signature := [b] |}.
Definition ex_dnskeys (z : Name) (ks : list Z) (signer : Z) : Message :=
  add_answers (map (λ b, record_from_rdata z 3600 (RD_DNSKEY (ex_key b))) ks
               ++ [record_from_rdata z 3600 (RD_RRSIG (ex_sig RT_DNSKEY z signer))])
    (message_response 7 OC_Query).

(** The root publishes keys 1 and 2 signed by 1; [com] publishes the given keys
    under the given signature.  A response is a header whose third byte says which
    of the two it is. *)
Definition ex_wire (which : Z) : list Z := [0; 7; which; 0; 0; 0; 0; 0; 0; 0; 0; 0].
Definition ex_hickory (com_keys : list Z) (com_signer : Z) : Hickory :=
  {| from_bytes b :=
       if bool_decide (b = ex_wire 1) then Some (ex_dnskeys root [1; 2] 1)
       else if bool_decide (b = ex_wire 2) then Some (ex_dnskeys (rn "com.") com_keys com_signer)
       else None;
     to_vec := ref_to_vec; message_new := message_new;
     record_from_rdata := record_from_rdata; query_query := query_query; record_type := record_type;
     verify_rrsig := verify_rrsig; ds_covers := ds_covers; calculate_key_tag := calculate_key_tag;
     nsec3_hash := nsec3_hash; record_type_cmp := record_type_cmp; class_cmp := class_cmp;
     base32hex_decode := base32hex_decode |}.

Lemma ex_hickory_laws ks s : @HickoryLaws _ (ex_hickory ks s).
Proof.
  split; try done.
  - exact (record_type_cmp_eq (HickoryLaws := RefHickoryLaws)).
  - exact (class_cmp_eq (HickoryLaws := RefHickoryLaws)).
  - intros b m. cbv beta iota delta [from_bytes ex_hickory].
    case_bool_decide as Hb; [|case_bool_decide as Hb2; [|done]]; subst b;
      intros Hm; injection Hm as <-; (split; [cbn; lia|]); (eexists _, _, _; split; [reflexivity|]);
      unfold ex_dnskeys; rewrite add_answers_eq; reflexivity.
  - exact (to_vec_length (HickoryLaws := RefHickoryLaws)).
  - exact (to_vec_header (HickoryLaws := RefHickoryLaws)).
Qed.

Definition ex_root_ip : IpAddr := V4 [198; 41; 0; 4].
Definition ex_world : World :=
  {| up := λ _ ips _, Ok (if bool_decide (ips = [ex_root_ip]) then ex_wire 1 else ex_wire 2);
     instant := λ n, Z.of_nat n; unix := λ _, 1500; rnd := λ _, 7; timed_out := λ _, false |}.
Definition ex_anchors : TrustAnchors := {| anchor_keys := [(root, ex_key 1)] |}.
Definition ex_walk : WalkChain :=
  {| steps := [{| cs_zone := rn "com.";
       cs_ds := [record_from_rdata (rn "com.") 3600
                   (RD_DS {| ds_key_tag := 3; ds_algorithm := 8; ds_digest_type := 2; ds_digest := [3] |})];
       cs_ds_rrsig := [ex_sig RT_DS root 2]; cs_ns_ips := [V4 [192; 5; 6; 30]] |}] |}.
Definition ex_a : DnsRecord := record_from_rdata (rn "www.com.") 300 (RD_A [192; 0; 2; 1]).
Definition ex_answer (signer : Z) : Message :=
  add_query (query_query (rn "www.com.") RT_A)
    (add_answers [ex_a; record_from_rdata (rn "www.com.") 300 (RD_RRSIG (ex_sig RT_A (rn "com.") signer))]
       (message_response 7 OC_Query)).
Definition ex_st : St := {| cache := DnskeyCache.new; tick := 0 |}.
Definition ex_run (ks : list Z) (com_signer signer : Z) : ValidationStatus * list Name * St :=
  validate_walk (HK := ex_hickory ks com_signer) ex_world ex_anchors [ex_root_ip] ex_walk
    (ex_answer signer) [] ex_st.

(** The [com] keys 3 (hashed by the DS) and 4, signed by 3; the answer signed by 4. *)
Lemma secure_chain_of_trust_witness :
  let times z := False ∨ ∃ n, (tick ex_st ≤ n)%nat ∧ z = unix ex_world n in
  (ex_run [3; 4] 3 4).1.1 = Secure ∧
  (∃ ks, ks ≠ [] ∧ Vouched (HK := ex_hickory [3; 4] 3) ex_anchors times (rn "com.") ks) ∧
  ∃ rrset sig n ks k, ex_a ∈ rrset ∧ check_rrsig_validity 1500 sig = Ok () ∧
    Vouched (HK := ex_hickory [3; 4] 3) ex_anchors times n ks ∧ at_or_above n (signer_name sig) ∧ k ∈ ks ∧
    verify_rrset rrset sig k = true.
Proof.
  intros times. assert (Hsec : (ex_run [3; 4] 3 4).1.1 = Secure) by (vm_compute; reflexivity).
  split; [exact Hsec|].
  pose proof (ex_hickory_laws [3; 4] 3) as Hlaws.
  destruct (secure_chain_of_trust (HK := ex_hickory [3; 4] 3) ex_world ex_anchors (λ _, False) [ex_root_ip] ex_walk
    (ex_answer 4) [] ex_st (ex_run [3; 4] 3 4).1.1 (ex_run [3; 4] 3 4).1.2 (ex_run [3; 4] 3 4).2)
    as (_ & Hz & Hx).
  - apply map_Forall_empty.
  - unfold ex_run. by destruct (validate_walk _ _ _ _ _ _ _) as [[? ?] ?].
  - split.
    { destruct (Hz (rn "com.")) as [Hz'|Hz']; [vm_compute; left|by apply elem_of_nil in Hz'|exact Hz']. }
    destruct (Hx Hsec) as [Hr _]. destruct (Hr ex_a) as (rrset & sig & now & n & ks & k & ? & _ & _ & (m & _ & ->) & ? & ? & ? & ? & ?).
    + left.
    + discriminate.
    + by exists rrset, sig, n, ks, k.
Defined.

(** The DS names key 3 only, but the [com] key set that arrives is signed by the
    unrelated key 9 it also contains, and so is the answer: the self-signature and
    the DS match are each satisfied by some key of the set, not by the same one,
    and the answer is called Secure. *)
Lemma key_set_without_ds_signature_accepted : (ex_run [3; 9] 9 9).1.1 = Secure.
Proof. vm_compute. reflexivity. Qed.

(** Nothing relates the signer to the owner: an RRset under [org] whose signature
    names [com] as the signer, made by a [com] key, is called Secure. *)
Definition ex_foreign_answer : Message :=
  let owner := rn "www.org." in
  add_query (query_query owner RT_A)
    (add_answers [record_from_rdata owner 300 (RD_A [192; 0; 2; 66]);
                  record_from_rdata owner 300 (RD_RRSIG (ex_sig RT_A (rn "com.") 4))]
       (message_response 7 OC_Query)).
Lemma foreign_signer_accepted :
  (validate_walk (HK := ex_hickory [3; 4] 3) ex_world ex_anchors [ex_root_ip] ex_walk
     ex_foreign_answer [] ex_st).1.1 = Secure.
Proof. vm_compute. reflexivity. Qed.

(** A key set in which no key matches the DS, or whose signature no key of the set
    made, is refused. *)
Lemma key_set_refused :
  (ex_run [9] 9 9).1.1 = Bogus "no DNSKEY matches any DS from parent" ∧
  (ex_run [3; 9] 7 9).1.1 = Bogus "DNSKEY RRset is not self-signed".
Proof. vm_compute. done. Qed.
End ValidatorExamples.
