(* ===== verification/Iterative.v ===== *)
(** * Iterative resolution ([recursor/iterative.rs])

    The delegation walk from the roots (or a cached delegation) to an answer.
    The resolver's state is the response cache, the delegation cache, the root
    hints, a count of the readings taken of the outside world and a count of the
    queries put on the wire; an [IWorld] gives the readings: upstream exchanges,
    clock readings, random ids, the shuffle of the server list, which of the
    queries in flight finishes first, and whether a deadline has passed.  Sub-walks for name-server addresses run one at a time,
    in the order in which they finish. *)
From S2P Require Import Prelude Hickory Reference Text Cache TtlCaches LocalZones Anchor Dnssec Validator.

Module Iterative.
Import Validator.

Definition DEFAULT_MAX_DEPTH : Z := 32.
Definition DEFAULT_MAX_QUERIES : Z := 384.
Definition DEFAULT_MAX_CNAME : Z := 8.
Definition MAX_NS_ATTEMPTS : nat := 4.
Definition NS_PARALLEL : nat := 2.
Definition DELEGATION_CACHE_TTL_CAP : Z := from_secs 3600.

(** ** Budgets *)
Record Budget := { depth_remaining : Z; queries_remaining : Z; cname_remaining : Z }.
Definition budget_new (depth queries cname : Z) : Budget :=
  {| depth_remaining := depth; queries_remaining := queries; cname_remaining := cname |}.
Definition budget_referral (b : Budget) : result Budget :=
  if depth_remaining b =? 0 then Err "referral depth exceeded"
  else Ok {| depth_remaining := depth_remaining b - 1; queries_remaining := queries_remaining b;
             cname_remaining := cname_remaining b |}.
Definition budget_query (b : Budget) : result Budget :=
  if queries_remaining b =? 0 then Err "upstream query budget exceeded"
  else Ok {| depth_remaining := depth_remaining b; queries_remaining := queries_remaining b - 1;
             cname_remaining := cname_remaining b |}.
Definition budget_cname (b : Budget) : result Budget :=
  if cname_remaining b =? 0 then Err "CNAME chain depth exceeded"
  else Ok {| depth_remaining := depth_remaining b; queries_remaining := queries_remaining b;
             cname_remaining := cname_remaining b - 1 |}.
Definition can_substep (b : Budget) : bool :=
  (0 <? depth_remaining b) && (0 <? queries_remaining b).

(** ** Address lists *)
Fixpoint octets_le (a b : list Z) : bool :=
  match a, b with
  | [], _ => true
  | _ :: _, [] => false
  | x :: a', y :: b' => (x <? y) || ((x =? y) && octets_le a' b')
  end.
Definition ip_le (a b : IpAddr) : bool :=
  match a, b with
  | V4 x, V4 y => octets_le x y
  | V4 _, V6 _ => true
  | V6 _, V4 _ => false
  | V6 x, V6 y => octets_le x y
  end.
Fixpoint ip_insert (a : IpAddr) (l : list IpAddr) : list IpAddr :=
  match l with
  | [] => [a]
  | b :: l' => if ip_le a b then a :: l else b :: ip_insert a l'
  end.
Definition ip_sort (l : list IpAddr) : list IpAddr := foldr ip_insert [] l.
(** [Vec::dedup]: runs of equal elements. *)
Fixpoint ip_dedup (l : list IpAddr) : list IpAddr :=
  match l with
  | a :: (b :: _) as l' => if bool_decide (a = b) then ip_dedup l' else a :: ip_dedup l'
  | l => l
  end.

Section Pure.
Context `{NameOps} {HK : Hickory}.

(** ** Responses *)

Definition Glue : Type := gmap Name (list IpAddr).
Inductive Classification : Type :=
| CAnswer | CNxDomain | CEmpty | CCname (target : Name)
| CReferral (zone : Name) (ns_records : list DnsRecord) (glue : Glue)
| CServFail.

Definition glue_step (glue : Glue) (add : DnsRecord) : Glue :=
  let owner := to_lowercase (r_name add) in
  match r_data add with
  | RD_A v4 => <[owner := default [] (glue !! owner) ++ [V4 v4]]> glue
  | RD_AAAA v6 => <[owner := default [] (glue !! owner) ++ [V6 v6]]> glue
  | _ => glue
  end.
Definition glue_of (additionals : list DnsRecord) : Glue := foldl glue_step ∅ additionals.

(** The first CNAME at the query name. *)
Fixpoint cname_at (lower_qname : Name) (rs : list DnsRecord) : option Name :=
  match rs with
  | [] => None
  | ans :: rs' =>
      if name_eqb (to_lowercase (r_name ans)) lower_qname
         && bool_decide (record_type ans = RT_CNAME)
      then match r_data ans with
           | RD_CNAME target => Some (to_lowercase target)
           | _ => cname_at lower_qname rs'
           end
      else cname_at lower_qname rs'
  end.

Definition is_ns (r : DnsRecord) : bool := bool_decide (record_type r = RT_NS).

Definition classify (resp : Message) (qname : Name) (qtype : RecordType) : Classification :=
  match response_code (metadata resp) with
  | RC_NXDomain => CNxDomain
  | RC_ServFail | RC_Refused => CServFail
  | _ =>
      let lower_qname := to_lowercase qname in
      match (if bool_decide (qtype = RT_CNAME) then None else cname_at lower_qname (answers resp)) with
      | Some target => CCname target
      | None =>
          if existsb (λ ans, name_eqb (to_lowercase (r_name ans)) lower_qname
                             && bool_decide (record_type ans = qtype)) (answers resp)
          then CAnswer
          else match answers resp with
          | _ :: _ => CAnswer
          | [] =>
              match List.filter is_ns (authorities resp) with
              | r :: rs => CReferral (to_lowercase (r_name r)) (r :: rs) (glue_of (additionals resp))
              | [] => CEmpty
              end
          end
      end
  end.

Definition ds_step (child_lower : Name) (acc : list DnsRecord * list RRSIG) (r : DnsRecord)
  : list DnsRecord * list RRSIG :=
  if negb (name_eqb (to_lowercase (r_name r)) child_lower) then acc
  else match r_data r with
       | RD_DS _ => (acc.1 ++ [r], acc.2)
       | RD_RRSIG s => if bool_decide (type_covered s = RT_DS) then (acc.1, acc.2 ++ [s]) else acc
       | _ => acc
       end.
Definition extract_ds_and_rrsig (resp : Message) (child_zone : Name)
  : list DnsRecord * list RRSIG :=
  foldl (ds_step (to_lowercase child_zone)) ([], []) (authorities resp).

Definition build_query (txid : Z) (qname : Name) (qtype : RecordType) (qclass : DNSClass)
  (dnssec_ok : bool) : result (list Z) :=
  let msg := message_new txid MT_Query OC_Query in
  let msg := set_rd false msg in
  let msg := add_query (set_query_class qclass (query_query qname qtype)) msg in
  let msg := set_edns {| max_payload := 1232; edns_version := 0; dnssec_ok := dnssec_ok;
                         edns_options := [] |} msg in
  ok_or "encode iterative query" (to_vec msg).

(** Glue as a cacheable answer, with a five-minute TTL. *)
Definition synthetic_record (name : Name) (rtype : RecordType) (ip : IpAddr) : option DnsRecord :=
  match rtype, ip with
  | RT_A, V4 v4 => Some (record_from_rdata name 300 (RD_A v4))
  | RT_AAAA, V6 v6 => Some (record_from_rdata name 300 (RD_AAAA v6))
  | _, _ => None
  end.
Definition build_synthetic_answer (name : Name) (rtype : RecordType) (ips : list IpAddr)
  : option (Message * list Z) :=
  let msg := message_new 0 MT_Response OC_Query in
  let msg := set_rcode RC_NoError msg in
  let msg := add_query (set_query_class DC_IN (query_query name rtype)) msg in
  match omap (synthetic_record name rtype) ips with
  | [] => None
  | rs => let msg := add_answers rs msg in bytes ← to_vec msg; Some (msg, bytes)
  end.

(** The response's answer records of each family. *)
Definition a_of (r : DnsRecord) : option IpAddr :=
  match r_data r with RD_A v4 => Some (V4 v4) | _ => None end.
Definition aaaa_of (r : DnsRecord) : option IpAddr :=
  match r_data r with RD_AAAA v6 => Some (V6 v6) | _ => None end.
Definition ns_target (r : DnsRecord) : option Name :=
  match r_data r with RD_NS n => Some n | _ => None end.
End Pure.

(** ** State and world *)

Record CachedDelegation `{NameOps} := { cd_step : ChainStep; cd_expiry : Z }.
Record Config := {
  dnssec_ok : bool; ipv6_upstream : bool; max_depth : Z; max_queries : Z; max_cname : Z }.
Record ISt `{NameOps} := {
  rcache : DnsCache.DnsCache; delegations : gmap Name CachedDelegation; roots : list IpAddr;
  itick : nat; sent : nat }.
Record IWorld := {
  iup : nat → list IpAddr → list Z → result (list Z);
  iinstant : nat → Z; irnd : nat → Z;
  shuffle : nat → list IpAddr → list IpAddr; pick : nat → nat; late : nat → bool }.

(** The [max_cname] a resolver is built with. *)
Definition clamp_max_cname (max_cname : Z) : Z := Z.min (Z.max max_cname 1) (DEFAULT_MAX_CNAME * 2).

Section Walk.
Context `{NameOps} {HK : Hickory} `{!Moka} (cfg : Config) (w : IWorld).

Definition itock (st : ISt) : ISt :=
  {| rcache := rcache st; delegations := delegations st; roots := roots st;
     itick := S (itick st); sent := sent st |}.
Definition set_rcache (c : DnsCache.DnsCache) (st : ISt) : ISt :=
  {| rcache := c; delegations := delegations st; roots := roots st;
     itick := S (itick st); sent := sent st |}.

Definition cache_get (k : CacheKey) (st : ISt) : option (list Z) * ISt :=
  let '(o, c) := DnsCache.get (iinstant w (itick st)) k (rcache st) in (o, set_rcache c st).
Definition cache_put (k : CacheKey) (msg : Message) (bytes : list Z) (st : ISt) : ISt :=
  set_rcache (DnsCache.put (iinstant w (itick st)) k msg bytes (rcache st)) st.

(** The start of an exchange [upstream.query(&[ip], &wire)], counted, and its outcome. *)
Definition fire (st : ISt) : ISt :=
  {| rcache := rcache st; delegations := delegations st; roots := roots st;
     itick := itick st; sent := S (sent st) |}.
Definition ask (ip : IpAddr) (wire : list Z) (st : ISt) : result (list Z) * ISt :=
  (iup w (itick st) [ip] wire, itock st).

(** ** The delegation cache *)

Definition delegation_get (z : Name) (st : ISt) : option ChainStep * ISt :=
  (match delegations st !! to_lowercase z with
   | Some c => if bool_decide (iinstant w (itick st) < cd_expiry c) then Some (cd_step c) else None
   | None => None
   end, itock st).

Definition min_ds_ttl (ds : list DnsRecord) : Z :=
  match ds with [] => 0 | r :: rs => foldr (λ r acc, Z.min (r_ttl r) acc) (r_ttl r) rs end.

Definition delegation_insert (step : ChainStep) (st : ISt) : ISt :=
  let ttl := min_ds_ttl (cs_ds step) in
  if ttl =? 0 then st
  else
    {| rcache := rcache st;
       delegations := <[to_lowercase (cs_zone step) :=
         {| cd_step := step;
            cd_expiry := iinstant w (itick st) + Z.min (from_secs ttl) DELEGATION_CACHE_TTL_CAP |}]>
         (delegations st);
       roots := roots st; itick := S (itick st); sent := sent st |}.

Definition cache_validated_delegations (chain : WalkChain) (validated_zones : list Name) (st : ISt)
  : ISt :=
  if negb (dnssec_ok cfg) || bool_decide (validated_zones = []) then st
  else foldl (λ st step, if existsb (λ z, name_eqb z (cs_zone step)) validated_zones
                         then delegation_insert step st else st) st (steps chain).

(** The ancestors of a name below the root, deepest first. *)
Fixpoint ancestors (fuel : nat) (z : Name) : list Name :=
  match fuel with
  | O => []
  | S fuel' => if (1 <=? num_labels z)%nat then z :: ancestors fuel' (base_name z) else []
  end.
(** The longest run of fresh cached steps from the shallowest ancestor on. *)
Fixpoint delegation_prefix (zs : list Name) (st : ISt) : list ChainStep * ISt :=
  match zs with
  | [] => ([], st)
  | z :: zs' =>
      let '(o, st) := delegation_get z st in
      match o with
      | None => ([], st)
      | Some step => let '(rest, st) := delegation_prefix zs' st in (step :: rest, st)
      end
  end.
Definition cached_delegation_start (qname : Name) (chain : WalkChain) (st : ISt)
  : option (Name * list IpAddr) * WalkChain * ISt :=
  let zs := rev (ancestors (S (length (labels qname))) (base_name qname)) in
  let '(prefix, st) := delegation_prefix zs st in
  match last prefix with
  | None => (None, chain, st)
  | Some l =>
      match cs_ns_ips l with
      | [] => (None, chain, st)
      | ips => (Some (cs_zone l, ips), {| steps := prefix |}, st)
      end
  end.

(** ** Cached server addresses *)

Definition cached_ips (sel : DnsRecord → option IpAddr) (k : CacheKey) (st : ISt)
  : list IpAddr * ISt :=
  let '(o, st) := cache_get k st in
  (match o ≫= from_bytes with Some msg => omap sel (answers msg) | None => [] end, st).
Definition cached_ns_ips (name : Name) (st : ISt) : list IpAddr * ISt :=
  let '(v4s, st) := cached_ips a_of (cache_key name RT_A DC_IN) st in
  if ipv6_upstream cfg then
    let '(v6s, st) := cached_ips aaaa_of (cache_key name RT_AAAA DC_IN) st in (v4s ++ v6s, st)
  else (v4s, st).

Fixpoint cached_ns_ips_all (targets : list Name) (st : ISt) : list IpAddr * ISt :=
  match targets with
  | [] => ([], st)
  | t :: ts =>
      let '(ips, st) := cached_ns_ips t st in
      let '(rest, st) := cached_ns_ips_all ts st in (ips ++ rest, st)
  end.

(** The loop up the tree. *)
Fixpoint closest_cached_loop (fuel : nat) (z : Name) (qclass : DNSClass) (st : ISt)
  : option (Name * list IpAddr) * ISt :=
  match fuel with
  | O => (None, st)
  | S fuel' =>
      let '(o, st) := cache_get (cache_key z RT_NS qclass) st in
      let '(ips, st) :=
        match o ≫= from_bytes with
        | Some msg => cached_ns_ips_all (omap ns_target (answers msg)) st
        | None => ([], st)
        end in
      match ip_dedup (ip_sort ips) with
      | _ :: _ as ips => (Some (z, ips), st)
      | [] => if is_root z then (None, st) else closest_cached_loop fuel' (base_name z) qclass st
      end
  end.
Definition closest_cached_zone (qname : Name) (qclass : DNSClass) (st : ISt)
  : option (Name * list IpAddr) * ISt :=
  let z := if (0 <? num_labels qname)%nat then base_name qname else qname in
  closest_cached_loop (S (length (labels z))) z qclass st.

(** ** Caching what a referral carries *)

Definition cache_glue_entry (name : Name) (ips : list IpAddr) (st : ISt) : ISt :=
  let put rtype st :=
    match build_synthetic_answer name rtype ips with
    | Some (msg, bytes) => cache_put (cache_key name rtype DC_IN) msg bytes st
    | None => st
    end in
  let st := if existsb is_ipv4 ips then put RT_A st else st in
  if existsb is_ipv6 ips then put RT_AAAA st else st.
Definition cache_glue (glue : Glue) (st : ISt) : ISt :=
  foldl (λ st e, cache_glue_entry e.1 e.2 st) st (map_to_list glue).

Definition cache_zone_ns (z : Name) (ns_records : list DnsRecord) (st : ISt) : ISt :=
  match List.filter (λ r, is_ns r && name_eqb (r_name r) z) ns_records with
  | [] => st
  | owners_match =>
      let msg := message_new 0 MT_Response OC_Query in
      let msg := set_rcode RC_NoError msg in
      let msg := add_query (set_query_class DC_IN (query_query z RT_NS)) msg in
      let msg := add_answers owners_match msg in
      match to_vec msg with
      | None => st
      | Some bytes => cache_put (cache_key z RT_NS DC_IN) msg bytes st
      end
  end.

(** ** Asking a server set *)

(** Remove the element at index [i]. *)
Definition take_nth (i : nat) (l : list IpAddr) : option (IpAddr * list IpAddr) :=
  x ← l !! i; Some (x, take i l ++ drop (S i) l).

(** [while let Some((ip, res)) = in_flight.next().await]. *)
Fixpoint race (fuel : nat) (wire : list Z) (iter in_flight : list IpAddr) (b : Budget) (st : ISt)
  : result Message * Budget * ISt :=
  match fuel with
  | O => (Err "no NS responded", b, st)
  | S fuel' =>
      match take_nth (pick w (itick st) mod length in_flight) in_flight with
      | None => (Err "no NS responded", b, st)
      | Some (ip, in_flight) =>
          let '(res, st) := ask ip wire st in
          match res_ok res ≫= from_bytes with
          | Some m => (Ok m, b, st)
          | None =>
              match iter with
              | [] => race fuel' wire [] in_flight b st
              | next_ip :: iter =>
                  match budget_query b with
                  | Err e => (Err e, b, st)
                  | Ok b => race fuel' wire iter (in_flight ++ [next_ip]) b (fire st)
                  end
              end
          end
      end
  end.

(** The queries started before the race: one budget unit each. *)
Fixpoint launch (n : nat) (iter in_flight : list IpAddr) (b : Budget) (st : ISt)
  : result (list IpAddr * list IpAddr) * Budget * ISt :=
  match n, iter with
  | S n', ip :: iter' =>
      match budget_query b with
      | Err e => (Err e, b, st)
      | Ok b => launch n' iter' (in_flight ++ [ip]) b (fire st)
      end
  | _, _ => (Ok (iter, in_flight), b, st)
  end.

Definition query_ns_set (ns_ips : list IpAddr) (qname : Name) (qtype : RecordType)
  (qclass : DNSClass) (b : Budget) (st : ISt) : result Message * Budget * ISt :=
  let order := take MAX_NS_ATTEMPTS (shuffle w (itick st) ns_ips) in
  match build_query (irnd w (itick st)) qname qtype qclass (dnssec_ok cfg) with
  | Err e => (Err e, b, itock st)
  | Ok wire =>
      let '(r, b, st) := launch NS_PARALLEL order [] b (itock st) in
      match r with
      | Err e => (Err e, b, st)
      | Ok (iter, in_flight) => race (S (length order)) wire iter in_flight b st
      end
  end.

(** ** Server addresses of a referral *)

(** A walk for the address of a name server, under the deadline of the referral:
    [None] when it is cut off. *)
Definition SubWalk : Type := Name → DNSClass → ISt → option (result Message) * ISt.

Record FirstPass := { fp_ips : list IpAddr; fp_needs : list Name }.

(** The first pass over the NS records: glue, then the cache, then the queue. *)
Fixpoint first_pass (ns_records : list DnsRecord) (glue : Glue) (b : Budget) (acc : FirstPass)
  (st : ISt) : FirstPass * ISt :=
  match ns_records with
  | [] => (acc, st)
  | ns :: rest =>
      match ns_target ns with
      | None => first_pass rest glue b acc st
      | Some target =>
          let target_name := to_lowercase target in
          match glue !! target_name with
          | Some glued =>
              let ips := List.filter (λ ip, ipv6_upstream cfg || negb (is_ipv6 ip)) glued in
              first_pass rest glue b {| fp_ips := fp_ips acc ++ ips; fp_needs := fp_needs acc |} st
          | None =>
              let '(cached, st) := cached_ns_ips target_name st in
              match cached with
              | _ :: _ =>
                  first_pass rest glue b
                    {| fp_ips := fp_ips acc ++ cached; fp_needs := fp_needs acc |} st
              | [] =>
                  if negb (can_substep b) then first_pass rest glue b acc st
                  else first_pass rest glue b
                         {| fp_ips := fp_ips acc; fp_needs := fp_needs acc ++ [target_name] |} st
              end
          end
      end
  end.

Definition take_nth_name (i : nat) (l : list Name) : option (Name * list Name) :=
  x ← l !! i; Some (x, take i l ++ drop (S i) l).

(** The pipeline of sub-walks, at most [NS_PARALLEL] in flight; the two readings
    of the deadline are taken at the same instant. *)
Fixpoint drain (fuel : nat) (sub : SubWalk) (qclass : DNSClass) (pending in_flight : list Name)
  (ips : list IpAddr) (st : ISt) : list IpAddr * ISt :=
  match fuel with
  | O => (ips, st)
  | S fuel' =>
      match take_nth_name (pick w (itick st) mod length in_flight) in_flight with
      | None => (ips, st)
      | Some (target, in_flight) =>
          let '(res, st) := sub target qclass (itock st) in
          let ips := match res with
                     | Some (Ok resp) => ips ++ omap a_of (answers resp)
                     | _ => ips
                     end in
          let passed := late w (itick st) in
          let st := itock st in
          let '(pending, in_flight) :=
            match passed, pending with
            | false, next :: pending => (pending, in_flight ++ [next])
            | _, _ => (pending, in_flight)
            end in
          if bool_decide (ips ≠ []) && passed then (ips, st)
          else drain fuel' sub qclass pending in_flight ips st
      end
  end.

Definition resolve_ns_ips (sub : SubWalk) (ns_records : list DnsRecord) (glue : Glue)
  (qclass : DNSClass) (b : Budget) (st : ISt) : list IpAddr * ISt :=
  let '(fp, st) := first_pass ns_records glue b {| fp_ips := []; fp_needs := [] |} st in
  match fp_needs fp with
  | [] => (ip_dedup (ip_sort (fp_ips fp)), st)
  | needs =>
      let '(ips, st) := drain (length needs) sub qclass (drop NS_PARALLEL needs)
                          (take NS_PARALLEL needs) (fp_ips fp) st in
      (ip_dedup (ip_sort ips), st)
  end.

(** ** The walk *)

(** Where a walk starts: a cached delegation or the root. *)
Definition walk_start (qname : Name) (qclass : DNSClass) (chain : WalkChain) (st : ISt)
  : Name * list IpAddr * WalkChain * ISt :=
  if dnssec_ok cfg then
    let '(o, chain, st) := cached_delegation_start qname chain st in
    match o with
    | Some (z, ips) => (z, ips, chain, st)
    | None => (root, roots st, chain, st)
    end
  else
    let '(o, st) := closest_cached_zone qname qclass st in
    match o with
    | Some (z, ips) => (z, ips, chain, st)
    | None => (root, roots st, chain, st)
    end.

Definition push_step (step : ChainStep) (chain : WalkChain) : WalkChain :=
  {| steps := steps chain ++ [step] |}.

(** The referral guard: more labels than the current zone, or the root. *)
Definition non_progressive (new_zone current_zone : Name) : bool :=
  (num_labels new_zone <=? num_labels current_zone)%nat && negb (name_eqb new_zone root).

(** The [loop] of [walk].  A CNAME starts the walk of its target in the same
    budget; [sub] is what resolves a glueless name server. *)
Fixpoint walk_loop (fuel : nat) (sub : SubWalk) (qname : Name) (qtype : RecordType)
  (qclass : DNSClass) (current_zone : Name) (ns_ips : list IpAddr) (b : Budget)
  (chain : WalkChain) (st : ISt) : result Message * Budget * WalkChain * ISt :=
  match fuel with
  | O => (Err "out of fuel", b, chain, st)
  | S fuel' =>
      let '(r, b, st) := query_ns_set ns_ips qname qtype qclass b st in
      match r with
      | Err e => (Err e, b, chain, st)
      | Ok resp =>
          match classify resp qname qtype with
          | CAnswer | CNxDomain | CEmpty => (Ok resp, b, chain, st)
          | CServFail => (Err "upstream returned SERVFAIL", b, chain, st)
          | CCname target =>
              match budget_cname b with
              | Err e => (Err e, b, chain, st)
              | Ok b =>
                  match budget_referral b with
                  | Err e => (Err e, b, chain, st)
                  | Ok b =>
                      let '(z, ips, sub_chain, st) := walk_start target qclass {| steps := [] |} st in
                      let '(r, b, _, st) :=
                        walk_loop fuel' sub target qtype qclass z ips b sub_chain st in
                      match r with
                      | Err e => (Err e, b, chain, st)
                      | Ok cname_resp =>
                          let merged := add_answers (answers cname_resp) resp in
                          (Ok (set_rcode (response_code (metadata cname_resp)) merged), b, chain, st)
                      end
                  end
              end
          | CReferral new_zone ns_records glue =>
              if non_progressive new_zone current_zone
              then (Err "non-progressive referral", b, chain, st)
              else
                let st := cache_glue glue st in
                let st := cache_zone_ns new_zone ns_records st in
                let '(ds, ds_rrsig) := extract_ds_and_rrsig resp new_zone in
                let '(ips, st) := resolve_ns_ips sub ns_records glue qclass b st in
                match ips with
                | [] => (Err "referral yielded no usable NS addresses", b, chain, st)
                | _ =>
                    let step := {| cs_zone := new_zone; cs_ds := ds; cs_ds_rrsig := ds_rrsig;
                                   cs_ns_ips := ips |} in
                    walk_loop fuel' sub qname qtype qclass new_zone ips b (push_step step chain) st
                end
          end
      end
  end.

Definition walk_with (sub : SubWalk) (qname : Name) (qtype : RecordType) (qclass : DNSClass)
  (b : Budget) (chain : WalkChain) (st : ISt) : result Message * Budget * WalkChain * ISt :=
  match budget_referral b with
  | Err e => (Err e, b, chain, st)
  | Ok b =>
      let '(z, ips, chain, st) := walk_start qname qclass chain st in
      walk_loop (S (Z.to_nat (queries_remaining b))) sub qname qtype qclass z ips b chain st
  end.

(** Sub-walks nested [n] deep; deeper ones have met their deadline. *)
Fixpoint subwalk (n : nat) (target : Name) (qclass : DNSClass) (st : ISt)
  : option (result Message) * ISt :=
  match n with
  | O => (None, st)
  | S n' =>
      let cut := late w (itick st) in
      let '(r, _, _, st) :=
        walk_with (subwalk n') target RT_A qclass (budget_new 8 24 4) {| steps := [] |} (itock st) in
      (if cut then None else Some r, st)
  end.

Definition walk (nesting : nat) : Name → RecordType → DNSClass → Budget → WalkChain → ISt →
    result Message * Budget * WalkChain * ISt :=
  walk_with (subwalk nesting).

(** ** Resolution *)

Definition synthesize_local_nxdomain (client_query : Message) (q : Query) (st : ISt)
  : result (list Z * WalkChain) * ISt :=
  let response := message_response (id (metadata client_query)) OC_Query in
  let response := set_rd (recursion_desired (metadata client_query)) response in
  let response := set_ra true response in
  let response := set_aa true response in
  let response := set_rcode RC_NXDomain response in
  let response := add_queries (queries client_query) response in
  let response := Normalize.lowercase_response_names response in
  match to_vec response with
  | None => (Err "encode local-zone NXDOMAIN", st)
  | Some bytes =>
      (Ok (bytes, {| steps := [] |}),
       cache_put (cache_key (q_name q) (query_type q) (query_class q)) response bytes st)
  end.

Definition stitch (client_query answer : Message) : Message :=
  let response := message_response (id (metadata client_query)) OC_Query in
  let response := set_rd (recursion_desired (metadata client_query)) response in
  let response := set_ra true response in
  let response := set_rcode (response_code (metadata answer)) response in
  let response := add_queries (queries client_query) response in
  let response := add_answers (answers answer) response in
  let response := add_authorities (authorities answer) response in
  Normalize.lowercase_response_names response.

Definition resolve_with_chain (nesting : nat) (client_query : Message) (st : ISt)
  : result (list Z * WalkChain) * ISt :=
  match head (queries client_query) with
  | None => (Err "iterative resolve needs a question", st)
  | Some q =>
      if LocalZones.is_private_reverse (q_name q) then synthesize_local_nxdomain client_query q st
      else
        let b := budget_new (max_depth cfg) (max_queries cfg) (max_cname cfg) in
        let '(r, _, chain, st) :=
          walk nesting (q_name q) (query_type q) (query_class q) b {| steps := [] |} st in
        match r with
        | Err e => (Err e, st)
        | Ok answer =>
            let response := stitch client_query answer in
            match to_vec response with
            | None => (Err "encode iterative response", st)
            | Some bytes =>
                let st :=
                  if negb (dnssec_ok cfg)
                  then cache_put (cache_key (q_name q) (query_type q) (query_class q)) response bytes st
                  else st in
                (Ok (bytes, chain), st)
            end
        end
  end.

(** ** Root priming *)

Definition set_roots (rs : list IpAddr) (st : ISt) : ISt :=
  {| rcache := rcache st; delegations := delegations st; roots := rs;
     itick := itick st; sent := sent st |}.

(** [None]: the priming query timed out.  Writing the hints file cannot fail the
    priming. *)
Definition prime (st : ISt) : result unit * ISt :=
  match (match find is_ipv4 (roots st) with Some ip => Some ip | None => head (roots st) end) with
  | None => (Err "no hardcoded roots available for priming", st)
  | Some seed =>
      match build_query (irnd w (itick st)) root RT_NS DC_IN false with
      | Err e => (Err e, itock st)
      | Ok wire =>
          let cut := late w (itick st) in
          let '(r, st) := ask seed wire (fire (itock st)) in
          match (if cut then Err "priming query timed out" else r) with
          | Err e => (Err e, st)
          | Ok resp_bytes =>
              match from_bytes resp_bytes with
              | None => (Err "parse priming response", st)
              | Some resp =>
                  match map to_lowercase (omap ns_target (List.filter is_ns (answers resp))) with
                  | [] => (Err "priming response had no NS records in the answer section", st)
                  | ns_targets =>
                      let glue := glue_of (additionals resp) in
                      let st := cache_glue glue st in
                      let st := cache_put (cache_key root RT_NS DC_IN) resp resp_bytes st in
                      let new_roots := List.filter (λ ip, ipv6_upstream cfg || negb (is_ipv6 ip))
                        (concat (map (λ n, default [] (glue !! n)) ns_targets)) in
                      match new_roots with
                      | [] => (Err "priming response had no usable glue", st)
                      | _ => (Ok (), set_roots new_roots st)
                      end
                  end
              end
          end
      end
  end.

(** ** What the steps of a walk leave alone

    A walk touches neither the delegation cache nor the roots, and what it adds to
    the response cache are messages assembled here, whose AD bit is that of a new
    message ([frame]); the count of readings only grows.  Cache traffic leaves the count of queries as it is, too. *)
Definition plain (m : Message) : Prop :=
  ∃ i t o, authentic_data (metadata m) = authentic_data (metadata (message_new i t o)).
Definition keeps (c c' : DnsCache.DnsCache) : Prop :=
  ∀ k e, DnsCache.inner c' !! k = Some e →
    DnsCache.inner c !! k = Some e ∨ ∃ m, plain m ∧ to_vec m = Some (e_bytes e).
Definition frame (st st' : ISt) : Prop :=
  (delegations st' = delegations st ∧ roots st' = roots st ∧ keeps (rcache st) (rcache st')) ∧ (itick st ≤ itick st')%nat.
Definition quiet (st st' : ISt) : Prop := frame st st' ∧ sent st' = sent st.
Definition spends (n : nat) (st st' : ISt) : Prop :=
  frame st st' ∧ (sent st ≤ sent st' ≤ sent st + n)%nat.

Lemma keeps_refl c : keeps c c.
Proof. by left. Qed.
Lemma keeps_trans c1 c2 c3 : keeps c1 c2 → keeps c2 c3 → keeps c1 c3.
Proof. intros K1 K2 k e [E|?]%K2; [by apply K1|by right]. Qed.
Lemma keeps_get i k c : keeps c (DnsCache.get i k c).2.
Proof.
  unfold DnsCache.get. repeat case_match; [|apply keeps_refl..]. intros k' e' E. unfold DnsCache.set_inner in E. cbn in E. by apply lookup_delete_Some in E as [_ ?]; left.
Qed.
Lemma keeps_put i k m b c : plain m → to_vec m = Some b → keeps c (DnsCache.put i k m b c).
Proof.
  intros P T. unfold DnsCache.put. case_match; [apply keeps_refl|]. intros k' e' E. cbn in E.
  eapply lookup_weaken in E; [|apply moka_evict_subset].
  apply lookup_insert_Some in E as [[_ <-]|[_ E]]; [right; by exists m|by left].
Qed.
#[local] Instance frame_preorder : PreOrder frame.
Proof.
  split; [intros st; split_and!; try done; apply keeps_refl|].
  intros st1 st2 st3 [(D1 & R1 & K1) T1] [(D2 & R2 & K2) T2]. split_and!; [congruence..|by eapply keeps_trans|lia].
Qed.
#[local] Instance quiet_preorder : PreOrder quiet.
Proof.
  split; [by intros st; split|]. intros st1 st2 st3 [F1 S1] [F2 S2]. split; [by etrans|congruence].
Qed.
Lemma quiet_frame st st' : quiet st st' → frame st st'.
Proof. by intros []. Qed.
Lemma quiet_refl st : quiet st st.
Proof. done. Qed.
#[local] Hint Resolve quiet_refl : core.
Lemma quiet_spends n st st' : quiet st st' → spends n st st'.
Proof. intros [F S]. split; [done|lia]. Qed.
Lemma spends_trans n m st1 st2 st3 :
  spends n st1 st2 → spends m st2 st3 → spends (n + m) st1 st3.
Proof. intros [F1 ?] [F2 ?]. split; [by etrans|lia]. Qed.
Lemma spends_mono n m st st' : (n ≤ m)%nat → spends n st st' → spends m st st'.
Proof. intros ? [F ?]. split; [done|lia]. Qed.

Lemma quiet_itock st : quiet st (itock st).
Proof. split; [|done]. split_and!; try done; [apply keeps_refl|cbn; lia]. Qed.
#[local] Hint Resolve quiet_itock : core.
Lemma frame_fire st : frame st (fire st).
Proof. split_and!; try done. apply keeps_refl. Qed.
Lemma quiet_cache_get k st : quiet st (cache_get k st).2.
Proof.
  unfold cache_get. pose proof (keeps_get (iinstant w (itick st)) k (rcache st)) as K.
  destruct (DnsCache.get _ _ _). split; [|done]. split; [done|cbn; lia].
Qed.
Lemma quiet_cache_put k m bytes st : plain m → to_vec m = Some bytes → quiet st (cache_put k m bytes st).
Proof. intros. split; [|done]. split_and!; try done; [by apply keeps_put|cbn; lia]. Qed.
Lemma quiet_delegation_get z st : quiet st (delegation_get z st).2.
Proof. apply quiet_itock. Qed.

Lemma quiet_delegation_prefix zs st : quiet st (delegation_prefix zs st).2.
Proof.
  revert st; induction zs as [|z zs IH]; intros st; cbn; [done|].
  case_match; [|apply quiet_itock].
  destruct (delegation_prefix zs _) as [rest st'] eqn:E. cbn.
  change st' with (rest, st').2. rewrite <- E. etrans; [apply (quiet_itock st)|apply IH].
Qed.
Lemma quiet_cached_delegation_start qname chain st :
  quiet st (cached_delegation_start qname chain st).2.
Proof.
  unfold cached_delegation_start.
  pose proof (quiet_delegation_prefix (rev (ancestors (S (length (labels qname))) (base_name qname))) st) as Q.
  destruct (delegation_prefix _ st) as [prefix st']; cbn in Q.
  destruct (last prefix) as [l|]; [|done]. by destruct (cs_ns_ips l).
Qed.

Lemma quiet_cached_ips sel k st : quiet st (cached_ips sel k st).2.
Proof.
  unfold cached_ips. pose proof (quiet_cache_get k st). by destruct (cache_get k st).
Qed.
Lemma quiet_cached_ns_ips name st : quiet st (cached_ns_ips name st).2.
Proof.
  unfold cached_ns_ips.
  pose proof (quiet_cached_ips a_of (cache_key name RT_A DC_IN) st) as Q.
  destruct (cached_ips _ _ st) as [v4s st1]; cbn in Q. destruct (ipv6_upstream cfg); [|done].
  pose proof (quiet_cached_ips aaaa_of (cache_key name RT_AAAA DC_IN) st1) as Q'.
  destruct (cached_ips _ _ st1) as [v6s st2]; cbn in *. by etrans.
Qed.
Lemma quiet_cached_ns_ips_all ts st : quiet st (cached_ns_ips_all ts st).2.
Proof.
  revert st; induction ts as [|t ts IH]; intros st; cbn; [done|].
  pose proof (quiet_cached_ns_ips t st) as Q. destruct (cached_ns_ips t st) as [ips st1].
  specialize (IH st1). destruct (cached_ns_ips_all ts st1). cbn in *. by etrans.
Qed.
Lemma quiet_closest_cached_loop fuel z c st : quiet st (closest_cached_loop fuel z c st).2.
Proof.
  revert z st; induction fuel as [|fuel IH]; intros z st; cbn; [done|].
  pose proof (quiet_cache_get (cache_key z RT_NS c) st) as Q.
  destruct (cache_get _ st) as [o st1]; cbn in Q.
  assert (∃ ips st2, (match o ≫= from_bytes with
        | Some msg => cached_ns_ips_all (omap ns_target (answers msg)) st1
        | None => ([], st1) end) = (ips, st2) ∧ quiet st st2) as (ips & st2 & -> & Q2).
  { destruct (o ≫= from_bytes) as [m|]; [|by eexists _, _].
    pose proof (quiet_cached_ns_ips_all (omap ns_target (answers m)) st1) as Q'.
    destruct (cached_ns_ips_all _ st1) as [ips st2]. eexists _, _; split; [done|]. by etrans. }
  destruct (ip_dedup (ip_sort ips)); [|done]. destruct (is_root z); [done|]. by etrans.
Qed.
Lemma quiet_walk_start qname c chain st : quiet st (walk_start qname c chain st).2.
Proof.
  unfold walk_start. destruct (Iterative.dnssec_ok cfg).
  - pose proof (quiet_cached_delegation_start qname chain st) as Q.
    by destruct (cached_delegation_start qname chain st) as [[[[z ips]|] ch] st'].
  - pose proof (quiet_closest_cached_loop (S (length (labels
      (if (0 <? num_labels qname)%nat then base_name qname else qname))))
      (if (0 <? num_labels qname)%nat then base_name qname else qname) c st) as Q.
    unfold closest_cached_zone.
    by destruct (closest_cached_loop _ _ c st) as [[[z ips]|] st'].
Qed.
Lemma plain_answers rs m : plain m → plain (add_answers rs m).
Proof. rewrite add_answers_eq. done. Qed.
Lemma build_synthetic_plain name t ips m b :
  build_synthetic_answer name t ips = Some (m, b) → plain m ∧ to_vec m = Some b.
Proof.
  unfold build_synthetic_answer. destruct (omap _ ips) as [|r rs]; [done|].
  intros (bytes & T & [= <- <-])%bind_Some. split; [|done]. apply plain_answers. by eexists _, _, _.
Qed.
Lemma quiet_cache_glue glue st : quiet st (cache_glue glue st).
Proof.
  unfold cache_glue. generalize (map_to_list glue). intros l; revert st.
  induction l as [|e l IH]; intros st; cbn; [done|].
  trans (cache_glue_entry e.1 e.2 st); [|apply IH].
  assert (Put : ∀ t st, quiet st (match build_synthetic_answer e.1 t e.2 with
    | Some (msg, bytes) => cache_put (cache_key e.1 t DC_IN) msg bytes st | None => st end)).
  { intros t st'. destruct (build_synthetic_answer e.1 t e.2) as [[m b]|] eqn:B; [|done].
    by apply build_synthetic_plain in B as [? ?]; apply quiet_cache_put. }
  unfold cache_glue_entry. destruct (existsb is_ipv4 e.2), (existsb is_ipv6 e.2); try apply Put; try done.
  etrans; apply Put.
Qed.
Lemma quiet_cache_zone_ns z ns st : quiet st (cache_zone_ns z ns st).
Proof.
  unfold cache_zone_ns. case_match; [done|]. destruct (to_vec _) eqn:T; [|done].
  apply quiet_cache_put; [|done]. apply plain_answers. by eexists _, _, _.
Qed.

(** ** Queries are paid for

    Between two points of a walk, one unit of the query budget has gone for each
    query put on the wire. *)
Definition paid (b : Budget) (st : ISt) (b' : Budget) (st' : ISt) : Prop :=
  frame st st' ∧ depth_remaining b' = depth_remaining b ∧ cname_remaining b' = cname_remaining b ∧
  Z.of_nat (sent st') + queries_remaining b' = Z.of_nat (sent st) + queries_remaining b ∧
  (sent st ≤ sent st')%nat ∧ (0 ≤ queries_remaining b → 0 ≤ queries_remaining b').

Lemma paid_refl b st st' : quiet st st' → paid b st b st'.
Proof. intros [F S]. split_and!; try done; lia. Qed.
Lemma paid_trans b1 st1 b2 st2 b3 st3 :
  paid b1 st1 b2 st2 → paid b2 st2 b3 st3 → paid b1 st1 b3 st3.
Proof. intros (F1 & P1) (F2 & P2). split; [by etrans|]. repeat split; try tauto; lia. Qed.
Lemma paid_query b b' st : budget_query b = Ok b' → paid b st b' (fire st).
Proof.
  unfold budget_query, paid. case_match eqn:E; [done|]. intros [= <-]. cbn.
  apply Z.eqb_neq in E. split; [apply frame_fire|]. repeat split; lia.
Qed.

Lemma launch_paid n iter fl b st r b' st' :
  launch n iter fl b st = (r, b', st') →
  paid b st b' st' ∧
  match r with
  | Ok (iter', fl') => (length fl' = length fl + (sent st' - sent st))%nat ∧
                       iter ++ fl ≡ₚ iter' ++ fl'
  | Err e => e = "upstream query budget exceeded"%string
  end.
Proof.
  revert iter fl b st; induction n as [|n IH]; intros [|ip iter] fl b st; cbn.
  1-3: intros [= <- <- <-]; split; [by apply paid_refl|]; split; [lia|done].
  unfold budget_query at 1. destruct (queries_remaining b =? 0) eqn:E.
  - intros [= <- <- <-]. split; [by apply paid_refl|done].
  - intros L. apply IH in L as [P L]. split.
    { eapply paid_trans; [apply paid_query|exact P]. unfold budget_query. by rewrite E. }
    destruct r as [[iter' fl']|]; [|done]. destruct L as [L Hp]. split.
    { rewrite length_app in L. cbn in L. unfold paid in P. cbn in P. lia. }
    rewrite <- Hp. solve_Permutation.
Qed.

(** A reply of the outside world to one of the queries of a server set, received not
    before the reading [t0]. *)
Definition reply_since (t0 : nat) (m : Message) : Prop :=
  ∃ t ip wire bytes, (t0 ≤ t)%nat ∧ iup w t [ip] wire = Ok bytes ∧ from_bytes bytes = Some m.
Lemma reply_since_le t t' m : (t ≤ t')%nat → reply_since t' m → reply_since t m.
Proof. intros L (n & ip & wire & bytes & L' & X). exists n, ip, wire, bytes. split; [lia|done]. Qed.
Definition upstream_reply (m : Message) : Prop :=
  ∃ t ip wire bytes, iup w t [ip] wire = Ok bytes ∧ from_bytes bytes = Some m.
Lemma reply_since_any t m : reply_since t m → upstream_reply m.
Proof. intros (n & ip & wire & bytes & _ & X). by exists n, ip, wire, bytes. Qed.

Lemma race_paid fuel wire iter fl b st r b' st' :
  race fuel wire iter fl b st = (r, b', st') →
  paid b st b' st' ∧
  match r with Ok m => reply_since (itick st) m ∧ fl ≠ [] | Err e => e ≠ "out of fuel"%string end.
Proof.
  revert iter fl b st; induction fuel as [|fuel IH]; intros iter fl b st; cbn.
  { intros [= <- <- <-]. split; [by apply paid_refl|done]. }
  destruct (take_nth _ fl) as [[ip fl']|] eqn:T; cbn.
  2: { intros [= <- <- <-]. split; [by apply paid_refl|done]. }
  assert (fl ≠ []) as Hne by (intros ->; by destruct (_ mod _)%nat in T).
  destruct (res_ok (iup w (itick st) [ip] wire) ≫= from_bytes) as [m|] eqn:R.
  { intros [= <- <- <-]. split; [by apply paid_refl|]. split; [|done].
    apply bind_Some in R as (bytes & U%res_ok_Some & F). by exists (itick st), ip, wire, bytes. }
  assert (Later : ∀ fl1 : list IpAddr, match r with Ok m => reply_since (itick (itock st)) m ∧ fl1 ≠ [] | Err e => e ≠ "out of fuel"%string end →
    match r with Ok m => reply_since (itick st) m ∧ fl ≠ [] | Err e => e ≠ "out of fuel"%string end).
  { intros fl1. destruct r; [|done]. intros [U _]. split; [|done]. eapply reply_since_le; [|exact U]. cbn. lia. }
  destruct iter as [|next iter].
  - intros L. apply IH in L as [P L]. split; [|by eapply Later].
    eapply paid_trans; [|exact P]. by apply paid_refl.
  - destruct (budget_query b) as [b1|e] eqn:B.
    + intros L. apply IH in L as [P L]. split; [|by eapply Later].
      eapply paid_trans; [by apply (paid_refl b st (itock st))|]. eapply paid_trans; [by apply (paid_query b b1 (itock st))|exact P].
    + intros [= <- <- <-]. split; [by apply paid_refl|].
      unfold budget_query in B. case_match; naive_solver.
Qed.

(** A race is over after at most one round per server. *)
Lemma take_nth_length i l x l' : take_nth i l = Some (x, l') → length l = S (length l').
Proof.
  unfold take_nth. intros (y & Hy & E)%bind_Some; simplify_eq. apply lookup_lt_Some in Hy.
  rewrite length_app, length_take, length_drop. lia.
Qed.
Lemma race_fuel f1 f2 wire iter fl b st :
  (length iter + length fl < f1)%nat → (length iter + length fl < f2)%nat →
  race f1 wire iter fl b st = race f2 wire iter fl b st.
Proof.
  revert f2 iter fl b st; induction f1 as [|f1 IH]; intros [|f2] iter fl b st ? ?; [lia..|]. cbn.
  destruct (take_nth _ fl) as [[ip fl']|] eqn:T; [|done]. apply take_nth_length in T. cbn.
  case_match; [done|]. destruct iter as [|next iter]; [apply IH; cbn in *; lia|].
  case_match; [|done]. apply IH; rewrite length_app; cbn in *; lia.
Qed.

Lemma query_ns_set_paid ips qn qt qc b st r b' st' :
  query_ns_set ips qn qt qc b st = (r, b', st') →
  paid b st b' st' ∧
  match r with
  | Ok m => reply_since (itick st) m ∧ queries_remaining b' < queries_remaining b
  | Err e => e ≠ "out of fuel"%string
  end.
Proof.
  unfold query_ns_set. destruct (build_query _ _ _ _ _) as [wire|e] eqn:B.
  2: { intros [= <- <- <-]. split; [by apply paid_refl|].
       unfold build_query, ok_or in B. case_match; naive_solver. }
  destruct (launch _ _ _ _ _) as [[[[iter fl]|e] b1] st1] eqn:L; apply launch_paid in L as [P1 L].
  - intros R. apply race_paid in R as [P2 R]. split.
    { eapply paid_trans; [|exact P2]. eapply paid_trans; [|exact P1]. by apply paid_refl. }
    destruct r as [m|e]; [|done]. destruct R as [U Hne]. split.
    { eapply reply_since_le; [|exact U]. destruct P1 as [[_ T1] _]. cbn in T1. lia. }
    destruct L as [L _]. destruct fl; [done|]. unfold paid in P1, P2. cbn in *. lia.
  - intros [= <- <- <-]. split; [|by subst].
    eapply paid_trans; [|exact P1]. by apply paid_refl.
Qed.

(** ** The cost of a walk *)

(** Each sub-walk puts at most [c] queries on the wire; each upstream reply has
    at most [k] authority records. *)
Definition sub_cost (c : nat) (sub : SubWalk) : Prop := ∀ t qc st, spends c st (sub t qc st).2.
Definition referral_width (k : nat) : Prop := ∀ m, upstream_reply m → (length (authorities m) ≤ k)%nat.

Lemma first_pass_spec ns glue b acc st fp st' :
  first_pass ns glue b acc st = (fp, st') →
  quiet st st' ∧ (length (fp_needs fp) ≤ length (fp_needs acc) + length ns)%nat.
Proof.
  revert acc st; induction ns as [|r ns IH]; intros acc st; cbn.
  { intros [= <- <-]. split; [done|lia]. }
  destruct (ns_target r) as [target|]; [|intros L; apply IH in L as [? ?]; split; [done|lia]].
  destruct (glue !! _); [intros L; apply IH in L as [? ?]; split; [done|cbn in *; lia]|].
  pose proof (quiet_cached_ns_ips (to_lowercase target) st) as Q.
  destruct (cached_ns_ips _ st) as [cached st1]; cbn in Q.
  destruct cached; [destruct (negb _)|]; intros L; apply IH in L as [Q' ?];
    (split; [by etrans|cbn in *; rewrite ?length_app in *; cbn in *; lia]).
Qed.

Lemma drain_spends c sub fuel qc pend fl ips st :
  sub_cost c sub → spends (fuel * c) st (drain fuel sub qc pend fl ips st).2.
Proof.
  intros C. revert pend fl ips st; induction fuel as [|fuel IH]; intros pend fl ips st; cbn.
  { by apply quiet_spends. }
  destruct (take_nth_name _ fl) as [[t fl']|]; [|by apply quiet_spends].
  pose proof (C t qc (itock st)) as P. destruct (sub t qc (itock st)) as [res st1]; cbn in P.
  assert (spends c st st1) as P1 by (apply (spends_trans 0 c _ (itock st)); [by apply quiet_spends|done]).
  match goal with |- context [let '(_, _) := ?x in _] => destruct x as [pend2 fl2] end.
  case_match; [eapply spends_mono; [|eapply spends_trans; [exact P1|by apply (quiet_spends 0)]]; lia|].
  eapply spends_trans; [exact P1|]. apply (spends_trans 0 _ _ (itock st1)); [by apply quiet_spends|apply IH].
Qed.

Lemma resolve_ns_ips_spends c sub ns glue qc b st :
  sub_cost c sub → spends (length ns * c) st (resolve_ns_ips sub ns glue qc b st).2.
Proof.
  intros C. unfold resolve_ns_ips.
  destruct (first_pass ns glue b _ st) as [fp st1] eqn:F. apply first_pass_spec in F as [Q L].
  cbn in L. destruct (fp_needs fp) as [|x needs] eqn:N; [by apply quiet_spends|].
  pose proof (drain_spends c sub (length (x :: needs)) qc (drop NS_PARALLEL (x :: needs))
    (take NS_PARALLEL (x :: needs)) (fp_ips fp) st1 C) as P.
  destruct (drain _ _ _ _ _ _ st1) as [ips st2]; cbn [snd] in *.
  eapply spends_mono; [|eapply spends_trans; [by apply (quiet_spends 0)|exact P]].
  nia.
Qed.

(** The pipeline of sub-walks has run dry when its fuel has. *)
Lemma drain_empty sub f qc ips st : drain f sub qc [] [] ips st = (ips, st).
Proof. destruct f; cbn; [done|]. by destruct (pick w (itick st)). Qed.
Lemma take_nth_name_length i l x l' : take_nth_name i l = Some (x, l') → length l = S (length l').
Proof.
  unfold take_nth_name. intros (y & Hy & E)%bind_Some; simplify_eq. apply lookup_lt_Some in Hy.
  rewrite length_app, length_take, length_drop. lia.
Qed.
Lemma drain_fuel sub f1 f2 qc pend fl ips st :
  (length pend + length fl ≤ f1)%nat → (length pend + length fl ≤ f2)%nat →
  drain f1 sub qc pend fl ips st = drain f2 sub qc pend fl ips st.
Proof.
  revert f2 pend fl ips st; induction f1 as [|f1 IH]; intros f2 pend fl ips st ? ?.
  { destruct pend, fl; cbn in *; try lia. by rewrite drain_empty. }
  destruct f2 as [|f2].
  { destruct pend, fl; cbn -[drain] in *; try lia. by rewrite drain_empty. }
  cbn. destruct (take_nth_name _ fl) as [[t fl']|] eqn:T; [|done].
  apply take_nth_name_length in T. destruct (sub t qc (itock st)) as [res st1].
  destruct (late w (itick st1)), pend as [|n pend]; cbn; case_match; try done;
    apply IH; rewrite ?length_app; cbn in *; lia.
Qed.

(** At most [n] queries on the wire for each unit of the budget gone. *)
Definition charged (n : nat) (b : Budget) (st : ISt) (b' : Budget) (st' : ISt) : Prop :=
  frame st st' ∧ (sent st ≤ sent st')%nat ∧
  0 ≤ queries_remaining b' ≤ queries_remaining b ∧
  Z.of_nat (sent st') ≤ Z.of_nat (sent st) + (queries_remaining b - queries_remaining b') * Z.of_nat n.

Lemma charged_trans n b1 st1 b2 st2 b3 st3 :
  charged n b1 st1 b2 st2 → charged n b2 st2 b3 st3 → charged n b1 st1 b3 st3.
Proof. intros (F1 & ?) (F2 & ?). split; [by etrans|]. repeat split; try nia. Qed.
Lemma charged_refl n b b' st st' :
  0 ≤ queries_remaining b → queries_remaining b' = queries_remaining b → quiet st st' →
  charged n b st b' st'.
Proof. intros ? B [F S]. split; [done|]. rewrite B, S. repeat split; lia. Qed.
Lemma paid_charged n b st b' st' :
  (1 ≤ n)%nat → 0 ≤ queries_remaining b → paid b st b' st' → charged n b st b' st'.
Proof.
  intros ? ? (F & _ & _ & E & M & P). specialize (P ltac:(done)). split; [done|]. repeat split; try lia. nia.
Qed.
(** The sub-walks of a referral go on the bill of the query that found it. *)
Lemma charged_referral c m b st b' st1 st2 st' :
  0 ≤ queries_remaining b → paid b st b' st1 → queries_remaining b' < queries_remaining b →
  quiet st1 st2 → spends (m * c) st2 st' → charged (1 + m * c) b st b' st'.
Proof.
  intros ? (F1 & _ & _ & E & M & P) ? [F2 Es] [F3 S']. specialize (P ltac:(done)). rewrite Es in S'.
  split; [etrans; [exact F1|by etrans]|]. repeat split; try lia. nia.
Qed.

Lemma budget_cname_queries b b' :
  budget_cname b = Ok b' → queries_remaining b' = queries_remaining b.
Proof. unfold budget_cname. case_match; naive_solver. Qed.
Lemma budget_referral_queries b b' :
  budget_referral b = Ok b' → queries_remaining b' = queries_remaining b.
Proof. unfold budget_referral. case_match; naive_solver. Qed.

Lemma length_filter_le {A} (f : A → bool) (l : list A) :
  (length (List.filter f l) ≤ length l)%nat.
Proof. induction l as [|x l IH]; cbn; [lia|]. destruct (f x); cbn; lia. Qed.

Lemma classify_referral m qn qt z ns glue :
  classify m qn qt = CReferral z ns glue → (length ns ≤ length (authorities m))%nat.
Proof.
  unfold classify. pose proof (length_filter_le is_ns (authorities m)).
  repeat case_match; intros E; simplify_eq; done.
Qed.

(** The state in which the servers of a referral are looked up. *)
Lemma quiet_referral z ns glue st : quiet st (cache_zone_ns z ns (cache_glue glue st)).
Proof. etrans; [apply quiet_cache_glue|apply quiet_cache_zone_ns]. Qed.

(** Induction over the turns of the loop: a transitive relation that holds over
    silent steps, over a query and over a referral with the look-up of its servers
    holds over the whole walk. *)
Section WalkInduction.
Context (R : Budget → ISt → Budget → ISt → Prop) (sub : SubWalk).
Context (R_quiet : ∀ b b' st st', queries_remaining b' = queries_remaining b → quiet st st' → R b st b' st').
Context (R_trans : ∀ b1 st1 b2 st2 b3 st3, R b1 st1 b2 st2 → R b2 st2 b3 st3 → R b1 st1 b3 st3).
Context (R_query : ∀ ips qn qt qc b st r b' st',
  query_ns_set ips qn qt qc b st = (r, b', st') → R b st b' st').
Context (R_referral : ∀ ips qn qt qc b st m b' st' z ns glue,
  query_ns_set ips qn qt qc b st = (Ok m, b', st') → classify m qn qt = CReferral z ns glue →
  R b st b' (resolve_ns_ips sub ns glue qc b' (cache_zone_ns z ns (cache_glue glue st'))).2).

Lemma walk_loop_ind fuel qn qt qc z ips b chain st :
  R b st (walk_loop fuel sub qn qt qc z ips b chain st).1.1.2
    (walk_loop fuel sub qn qt qc z ips b chain st).2.
Proof.
  revert qn z ips b chain st.
  induction fuel as [|fuel IH]; intros qn z ips b chain st; cbn [walk_loop].
  { by apply R_quiet. }
  destruct (query_ns_set ips qn qt qc b st) as [[r b1] st1] eqn:Q.
  pose proof (R_query _ _ _ _ _ _ _ _ _ Q) as P1. destruct r as [resp|e]; [|done].
  destruct (classify resp qn qt) as [| | |target|nz ns glue|] eqn:Cl; try done.
  - destruct (budget_cname b1) as [b2|e] eqn:B2; [|done]. apply budget_cname_queries in B2.
    destruct (budget_referral b2) as [b3|e] eqn:B3; cbn.
    2: { eapply R_trans; [done|]. by apply R_quiet. }
    apply budget_referral_queries in B3.
    pose proof (quiet_walk_start target qc {| steps := [] |} st1) as Qs.
    destruct (walk_start _ _ _ st1) as [[[z' ips'] sc] st2].
    specialize (IH target z' ips' b3 sc st2).
    destruct (walk_loop _ _ target _ _ _ _ _ _ st2) as [[[r b4] ch4] st4]; cbn in *.
    assert (R b st b4 st4) as P4.
    { eapply R_trans; [done|].
      eapply R_trans; [apply (R_quiet b1 b3); [lia|done]|done]. }
    by destruct r.
  - destruct (non_progressive nz z); [done|].
    destruct (extract_ds_and_rrsig resp nz) as [ds sigs].
    pose proof (R_referral _ _ _ _ _ _ _ _ _ _ _ _ Q Cl) as P2.
    destruct (resolve_ns_ips _ _ _ _ _ _) as [[|ip ips2] st2]; [done|].
    eapply R_trans; [exact P2|]. by apply IH.
Qed.

Lemma walk_with_ind qn qt qc b chain st :
  R b st (walk_with sub qn qt qc b chain st).1.1.2 (walk_with sub qn qt qc b chain st).2.
Proof.
  unfold walk_with. destruct (budget_referral b) as [b1|e] eqn:B; [|by apply R_quiet].
  apply budget_referral_queries in B. pose proof (quiet_walk_start qn qc chain st) as Q.
  destruct (walk_start qn qc chain st) as [[[z ips] ch] st1].
  eapply R_trans; [apply (R_quiet b b1); done|]. apply walk_loop_ind.
Qed.
End WalkInduction.

Lemma walk_with_charged c k sub qn qt qc b chain st :
  sub_cost c sub → referral_width k → 0 ≤ queries_remaining b →
  charged (1 + k * c) b st (walk_with sub qn qt qc b chain st).1.1.2
    (walk_with sub qn qt qc b chain st).2.
Proof.
  intros C K. apply (walk_with_ind (λ b st b' st', 0 ≤ queries_remaining b → charged (1 + k * c) b st b' st')).
  - intros. by apply charged_refl.
  - intros b1 st1 b2 st2 b3 st3 P1 P2 Hb. specialize (P1 Hb).
    eapply charged_trans; [exact P1|]. apply P2, P1.
  - intros ips qn' qt' qc' b1 st1 r b' st' [P _]%query_ns_set_paid Hb.
    apply paid_charged; [lia|done..].
  - intros ips qn' qt' qc' b1 st1 m b' st' z ns glue [P [U Lt]]%query_ns_set_paid Cl Hb.
    eapply charged_referral; [done..|apply quiet_referral|].
    eapply spends_mono; [|by apply resolve_ns_ips_spends].
    pose proof (classify_referral _ _ _ _ _ _ Cl). specialize (K _ (reply_since_any _ _ U)). nia.
Qed.

(** What [n] levels of nested sub-walks can cost when a referral lists [k]
    servers: each level has a budget of its own. *)
Fixpoint subwalk_bound (k n : nat) : nat :=
  match n with O => 0 | S n' => 24 * (1 + k * subwalk_bound k n') end.

Lemma subwalk_cost k n : referral_width k → sub_cost (subwalk_bound k n) (subwalk n).
Proof.
  intros K. induction n as [|n IH]; intros t qc st; cbn [subwalk subwalk_bound].
  { by apply quiet_spends. }
  pose proof (walk_with_charged _ _ _ t RT_A qc (budget_new 8 24 4) {| steps := [] |} (itock st)
    IH K ltac:(cbn; lia)) as P.
  destruct (walk_with _ _ _ _ _ _ _) as [[[r b'] ch] st']; cbn [fst snd] in *.
  destruct P as (F & P). cbn [queries_remaining budget_new itock sent] in P. split; [|nia].
  etrans; [apply quiet_frame, quiet_itock|exact F].
Qed.

(** C10. The upstream work of a walk is bounded: a walk with a budget of [q]
    queries, whose glueless name servers are looked up by sub-walks nested at
    most [n] deep and whose replies carry at most [k] authority records, puts at
    most [q * (1 + k * subwalk_bound k n)] queries on the wire, hands back a
    budget that has not grown, and touches neither the delegation cache nor the
    root hints. *)
Theorem walk_query_bound k n qn qt qc b chain st r b' chain' st' :
  referral_width k → 0 ≤ queries_remaining b →
  walk n qn qt qc b chain st = (r, b', chain', st') →
  Z.of_nat (sent st') ≤ Z.of_nat (sent st) + queries_remaining b * Z.of_nat (1 + k * subwalk_bound k n) ∧
  0 ≤ queries_remaining b' ≤ queries_remaining b ∧
  delegations st' = delegations st ∧ roots st' = roots st.
Proof.
  intros K Hb W.
  pose proof (walk_with_charged _ _ _ qn qt qc b chain st (subwalk_cost k n K) K Hb) as P.
  unfold walk in W. rewrite W in P. cbn [fst snd] in P.
  destruct P as ([(? & ? & _) _] & ? & ? & ?). repeat split; try done; nia.
Qed.

(** ** Fuel *)

(** Both walks up the tree end with their fuel. *)
Lemma ancestors_fuel `{!NameLaws} f1 f2 z :
  (length (labels z) < f1)%nat → (length (labels z) < f2)%nat → ancestors f1 z = ancestors f2 z.
Proof.
  revert f2 z. induction f1 as [|f1 IH]; intros [|f2] z L1 L2; [lia..|]. cbn [ancestors].
  destruct (Nat.leb_spec 1 (num_labels z)) as [N|]; [|done].
  pose proof (num_labels_le z). f_equal.
  apply IH; rewrite base_name_labels; destruct (labels z); cbn in *; lia.
Qed.
Lemma closest_cached_loop_fuel `{!NameLaws} f1 f2 z qc st :
  is_fqdn z = true → (length (labels z) < f1)%nat → (length (labels z) < f2)%nat →
  closest_cached_loop f1 z qc st = closest_cached_loop f2 z qc st.
Proof.
  revert f2 z st. induction f1 as [|f1 IH]; intros [|f2] z st F L1 L2; [lia..|].
  cbn [closest_cached_loop]. destruct (cache_get _ st) as [o st1].
  match goal with |- context [let '(_, _) := ?x in _] => destruct x as [ips st2] end.
  destruct (ip_dedup _); [|done]. destruct (is_root z) eqn:R; [done|].
  assert (labels z ≠ []) as N by (intros N; by rewrite (proj2 (is_root_spec _) (fqdn_root _ F N)) in R).
  apply IH; rewrite ?base_name_labels; [by apply base_name_fqdn|..];
    destruct (labels z); cbn in *; try done; lia.
Qed.

(** The walk's own result never is that the fuel ran out. *)
Lemma walk_loop_fuel_ok fuel sub qn qt qc z ips b chain st :
  0 ≤ queries_remaining b < Z.of_nat fuel →
  (walk_loop fuel sub qn qt qc z ips b chain st).1.1.1 ≠ Err "out of fuel".
Proof.
  revert qn z ips b chain st. induction fuel as [|fuel IH]; intros qn z ips b chain st Hb; [lia|].
  cbn [walk_loop]. destruct (query_ns_set ips qn qt qc b st) as [[r b1] st1] eqn:Q.
  apply query_ns_set_paid in Q as [P R]. destruct r as [resp|e]; [|cbn; congruence].
  destruct R as [U Lt]. assert (0 ≤ queries_remaining b1) by (apply P; lia).
  destruct (classify resp qn qt) as [| | |target|nz ns glue|]; try done.
  - destruct (budget_cname b1) as [b2|e] eqn:B2;
      [|cbn; unfold budget_cname in B2; case_match; simplify_eq; congruence].
    destruct (budget_referral b2) as [b3|e] eqn:B3;
      [|cbn; unfold budget_referral in B3; case_match; simplify_eq; congruence].
    apply budget_cname_queries in B2. apply budget_referral_queries in B3.
    destruct (walk_start _ _ _ st1) as [[[z' ips'] sc] st2].
    specialize (IH target z' ips' b3 sc st2 ltac:(lia)).
    destruct (walk_loop _ _ target _ _ _ _ _ _ st2) as [[[[?|?] b4] ch4] st4]; cbn in *; congruence.
  - destruct (non_progressive nz z); [done|].
    destruct (extract_ds_and_rrsig resp nz). destruct (resolve_ns_ips _ _ _ _ _ _) as [[|ip ips2] st2]; [done|].
    apply IH. lia.
Qed.

Lemma walk_loop_fuel f1 f2 sub qn qt qc z ips b chain st :
  0 ≤ queries_remaining b < Z.of_nat f1 → queries_remaining b < Z.of_nat f2 →
  walk_loop f1 sub qn qt qc z ips b chain st = walk_loop f2 sub qn qt qc z ips b chain st.
Proof.
  revert f2 qn z ips b chain st. induction f1 as [|f1 IH]; intros [|f2] qn z ips b chain st Hb Hb2; [lia..|].
  cbn [walk_loop]. destruct (query_ns_set ips qn qt qc b st) as [[r b1] st1] eqn:Q.
  apply query_ns_set_paid in Q as [P R]. destruct r as [resp|e]; [|done].
  destruct R as [U Lt]. assert (0 ≤ queries_remaining b1) by (apply P; lia).
  destruct (classify resp qn qt) as [| | |target|nz ns glue|]; try done.
  - destruct (budget_cname b1) as [b2|e] eqn:B2; [|done].
    destruct (budget_referral b2) as [b3|e] eqn:B3; [|done].
    apply budget_cname_queries in B2. apply budget_referral_queries in B3.
    destruct (walk_start _ _ _ st1) as [[[z' ips'] sc] st2].
    by rewrite (IH f2) by lia.
  - destruct (non_progressive nz z); [done|].
    destruct (extract_ds_and_rrsig resp nz). destruct (resolve_ns_ips _ _ _ _ _ _) as [[|ip ips2] st2]; [done|].
    apply IH; lia.
Qed.

(** C27. The delegation loop ends: every turn of it costs a query, so a fuel
    above the query budget changes nothing, whatever the upstreams answer, and
    the walk's result is never an exhausted fuel. *)
Theorem walk_terminates fuel sub qn qt qc z ips b chain st :
  0 ≤ queries_remaining b < Z.of_nat fuel →
  walk_loop fuel sub qn qt qc z ips b chain st =
    walk_loop (S (Z.to_nat (queries_remaining b))) sub qn qt qc z ips b chain st ∧
  (walk_loop fuel sub qn qt qc z ips b chain st).1.1.1 ≠ Err "out of fuel".
Proof. intros Hb. split; [apply walk_loop_fuel; lia|by apply walk_loop_fuel_ok]. Qed.

(** Every sub-walk, and so every walk, leaves a framed state. *)
Lemma drain_frame sub fuel qc pend fl ips st :
  (∀ t qc st, frame st (sub t qc st).2) → frame st (drain fuel sub qc pend fl ips st).2.
Proof.
  intros C. revert pend fl ips st; induction fuel as [|fuel IH]; intros pend fl ips st; cbn; [done|].
  destruct (take_nth_name _ fl) as [[t fl']|]; [|done].
  pose proof (C t qc (itock st)) as P. destruct (sub t qc (itock st)) as [res st1]; cbn in P.
  match goal with |- context [let '(_, _) := ?x in _] => destruct x as [pend2 fl2] end.
  assert (P1 : frame st st1) by (etrans; [apply quiet_frame, quiet_itock|exact P]).
  case_match; [by etrans; [exact P1|apply quiet_frame, quiet_itock]|]. etrans; [exact P1|]. etrans; [apply quiet_frame, quiet_itock|apply IH].
Qed.
Lemma resolve_ns_ips_frame sub ns glue qc b st :
  (∀ t qc st, frame st (sub t qc st).2) → frame st (resolve_ns_ips sub ns glue qc b st).2.
Proof.
  intros C. unfold resolve_ns_ips.
  destruct (first_pass ns glue b _ st) as [fp st1] eqn:F. apply first_pass_spec in F as [Q _].
  apply quiet_frame in Q. destruct (fp_needs fp) as [|x needs]; [done|].
  pose proof (drain_frame sub (length (x :: needs)) qc (drop NS_PARALLEL (x :: needs))
    (take NS_PARALLEL (x :: needs)) (fp_ips fp) st1 C) as P.
  destruct (drain _ _ _ _ _ _ st1) as [ips st2]; cbn [snd] in *. by etrans.
Qed.
Lemma walk_with_frame sub qn qt qc b chain st :
  (∀ t qc st, frame st (sub t qc st).2) → frame st (walk_with sub qn qt qc b chain st).2.
Proof.
  intros C. apply (walk_with_ind (λ _ st _ st', frame st st')).
  - intros. by apply quiet_frame.
  - intros. by etrans.
  - intros ips qn' qt' qc' b1 st1 r b' st' [P _]%query_ns_set_paid. apply P.
  - intros ips qn' qt' qc' b1 st1 m b' st' z ns glue [P _]%query_ns_set_paid _.
    etrans; [apply P|]. etrans; [apply quiet_frame, quiet_referral|by apply resolve_ns_ips_frame].
Qed.
Lemma subwalk_frame n t qc st : frame st (subwalk n t qc st).2.
Proof.
  revert t qc st. induction n as [|n IH]; intros t qc st; cbn [subwalk]; [done|].
  pose proof (walk_with_frame _ t RT_A qc (budget_new 8 24 4) {| steps := [] |} (itock st) IH) as P.
  etrans; [apply quiet_frame, quiet_itock|]. by destruct (walk_with _ _ _ _ _ _ _) as [[[r b'] ch] st'].
Qed.

(** ** The chain a walk records *)

(** A step of the chain: a delegation found in an upstream reply received not before
    the reading [t0]. *)
Definition step_found (t0 : nat) (s : ChainStep) : Prop :=
  cs_ns_ips s ≠ [] ∧
  ∃ m, reply_since t0 m ∧ extract_ds_and_rrsig m (cs_zone s) = (cs_ds s, cs_ds_rrsig s).
Lemma step_found_since t t' ss : (t ≤ t')%nat → Forall (step_found t') ss → Forall (step_found t) ss.
Proof.
  intros L F. eapply Forall_impl; [exact F|]. intros s [I (m & M & X)].
  split; [done|]. exists m. split; [by eapply reply_since_le|done].
Qed.
(** Each zone has more labels than the one above it, or is the root. *)
Fixpoint descends (z : Name) (ss : list ChainStep) : Prop :=
  match ss with
  | [] => True
  | s :: ss' =>
      ((num_labels z < num_labels (cs_zone s))%nat ∨ name_eqb (cs_zone s) root = true) ∧
      descends (cs_zone s) ss'
  end.

Lemma non_progressive_false nz z :
  non_progressive nz z = false → (num_labels z < num_labels nz)%nat ∨ name_eqb nz root = true.
Proof.
  unfold non_progressive. rewrite andb_false_iff, negb_false_iff, Nat.leb_gt. done.
Qed.

Lemma walk_loop_chain fuel sub qn qt qc z ips b chain st r b' chain' st' :
  walk_loop fuel sub qn qt qc z ips b chain st = (r, b', chain', st') →
  (∀ t qc st, frame st (sub t qc st).2) →
  ∃ ext, steps chain' = steps chain ++ ext ∧ Forall (step_found (itick st)) ext ∧ descends z ext.
Proof.
  intros W C. revert W. revert z ips b chain st. induction fuel as [|fuel IH]; intros z ips b chain st; cbn [walk_loop].
  { intros [= <- <- <- <-]. exists []. by rewrite app_nil_r. }
  destruct (query_ns_set ips qn qt qc b st) as [[r0 b1] st1] eqn:Q.
  apply query_ns_set_paid in Q as [[[_ T] _] R].
  assert (∃ ext, steps chain = steps chain ++ ext ∧ Forall (step_found (itick st)) ext ∧ descends z ext) as Same
    by (exists []; by rewrite app_nil_r).
  destruct r0 as [resp|e]; [|by intros [= <- <- <- <-]]. destruct R as [U _].
  destruct (classify resp qn qt) as [| | |target|nz ns glue|];
    try (by intros [= <- <- <- <-]).
  - destruct (budget_cname b1) as [b2|e]; [|by intros [= <- <- <- <-]].
    destruct (budget_referral b2) as [b3|e]; [|by intros [= <- <- <- <-]].
    destruct (walk_start _ _ _ st1) as [[[z' ips'] sc] st2].
    destruct (walk_loop _ _ target _ _ _ _ _ _ st2) as [[[[?|?] b4] ch4] st4];
      by intros [= <- <- <- <-].
  - destruct (non_progressive nz z) eqn:N; [by intros [= <- <- <- <-]|].
    destruct (extract_ds_and_rrsig resp nz) as [ds sigs] eqn:X.
    pose proof (resolve_ns_ips_frame sub ns glue qc b1 (cache_zone_ns nz ns (cache_glue glue st1)) C) as [_ T2].
    pose proof (quiet_referral nz ns glue st1) as [[_ T1] _].
    destruct (resolve_ns_ips _ _ _ _ _ _) as [[|ip ips2] st2]; [by intros [= <- <- <- <-]|]. cbn in T2.
    intros W. apply IH in W as (ext & E & F & D). cbn [steps push_step] in E.
    eexists (_ :: ext). rewrite E, <- app_assoc. split; [done|]. split.
    + constructor; [split; [done|]; by exists resp|]. eapply step_found_since; [|exact F]. lia.
    + split; [by apply non_progressive_false|done].
Qed.

(** The DS records of a step are owned by its zone. *)
Lemma extract_ds_fold child rs acc :
  (∀ r, r ∈ acc.1 → name_eqb (to_lowercase (r_name r)) child = true ∧ ∃ d, r_data r = RD_DS d) →
  ∀ r, r ∈ (foldl (ds_step child) acc rs).1 →
    name_eqb (to_lowercase (r_name r)) child = true ∧ ∃ d, r_data r = RD_DS d.
Proof.
  revert acc. induction rs as [|x rs IH]; intros acc A; cbn; [done|]. apply IH.
  unfold ds_step. destruct (name_eqb _ child) eqn:N; cbn; [|done].
  destruct (r_data x) eqn:X; try done; [|by case_bool_decide].
  cbn. intros r [Hr|Hr]%elem_of_app; [by apply A|].
  apply list_elem_of_singleton in Hr as ->. eauto.
Qed.
Lemma extract_ds_owner m z ds sigs r `{!NameLaws} :
  extract_ds_and_rrsig m z = (ds, sigs) → r ∈ ds →
  name_eqb (r_name r) z = true ∧ ∃ d, r_data r = RD_DS d.
Proof.
  unfold extract_ds_and_rrsig. intros E R.
  pose proof (extract_ds_fold (to_lowercase z) (authorities m) ([], [])) as X.
  rewrite E in X. specialize (X ltac:(by intros ? ?%not_elem_of_nil) r R).
  by rewrite name_eqb_lower in X.
Qed.

(** ** The delegation cache holds validated links *)

(** A report of the validator: the chain it was given, the zones it vouches for, and
    the reading of the clock at which it came. *)
Record Report := { rp_chain : WalkChain; rp_zones : list Name; rp_tick : nat }.

(** An entry is a step of a reported chain whose zone the report names; it is
    filed under its zone and lives, from one of the readings of that report on, no
    longer than its DS records nor the cap. *)
Definition entry_justified (hist : list Report) (k : Name) (c : CachedDelegation) : Prop :=
  k = to_lowercase (cs_zone (cd_step c)) ∧ cs_ds (cd_step c) ≠ [] ∧
  ∃ e t, e ∈ hist ∧ cd_step c ∈ steps (rp_chain e) ∧
    (∃ z, z ∈ rp_zones e ∧ name_eqb z (cs_zone (cd_step c)) = true) ∧
    (rp_tick e ≤ t < rp_tick e + length (steps (rp_chain e)))%nat ∧
    cd_expiry c ≤ iinstant w t + DELEGATION_CACHE_TTL_CAP ∧
    ∀ r, r ∈ cs_ds (cd_step c) → cd_expiry c ≤ iinstant w t + from_secs (r_ttl r).
Definition delegations_justified (hist : list Report) (st : ISt) : Prop :=
  map_Forall (entry_justified hist) (delegations st).

Lemma entry_justified_mono hist hist' k c :
  hist ⊆ hist' → entry_justified hist k c → entry_justified hist' k c.
Proof. unfold entry_justified. naive_solver. Qed.

Lemma min_ds_ttl_le ds r : r ∈ ds → min_ds_ttl ds ≤ r_ttl r.
Proof.
  destruct ds as [|x ds]; [by intros ?%not_elem_of_nil|]. cbn. intros [->|R]%elem_of_cons.
  - clear. induction ds as [|y ds IH]; cbn; lia.
  - induction ds as [|y ds IH]; [by apply not_elem_of_nil in R|]. cbn.
    apply elem_of_cons in R as [->|R]; [lia|]. specialize (IH R). lia.
Qed.

Lemma delegation_insert_justified hist step st :
  delegations_justified hist st →
  (∃ e, e ∈ hist ∧ step ∈ steps (rp_chain e) ∧
     (∃ z, z ∈ rp_zones e ∧ name_eqb z (cs_zone step) = true) ∧
     (rp_tick e ≤ itick st < rp_tick e + length (steps (rp_chain e)))%nat) →
  delegations_justified hist (delegation_insert step st).
Proof.
  intros J (e & E1 & E2 & E3 & E4). unfold delegation_insert. destruct (min_ds_ttl (cs_ds step) =? 0) eqn:T; [done|].
  apply map_Forall_insert_2; [|done]. repeat split; try done.
  { cbn. intros N. by rewrite N in T. }
  exists e, (itick st). cbn. split_and!; try done; [lia..|]. intros r R. apply min_ds_ttl_le in R.
  pose proof (from_secs_mono _ _ R). lia.
Qed.

Lemma cache_validated_justified hist chain zones st :
  delegations_justified hist st →
  delegations_justified ({| rp_chain := chain; rp_zones := zones; rp_tick := itick st |} :: hist)
    (cache_validated_delegations chain zones st).
Proof.
  intros J. set (e := {| rp_chain := chain; rp_zones := zones; rp_tick := itick st |}).
  assert (J' : delegations_justified (e :: hist) st).
  { intros k c E. eapply entry_justified_mono; [|by apply J]. set_solver. }
  clear J. unfold cache_validated_delegations. case_match; [done|].
  assert (Sub : ∀ s, s ∈ steps chain → s ∈ steps (rp_chain e)) by done. revert Sub.
  assert (rp_tick e ≤ itick st ∧ itick st + length (steps chain) ≤ rp_tick e + length (steps (rp_chain e)))%nat as T
    by (cbn; lia).
  change zones with (rp_zones e). generalize dependent e. intros e. generalize (steps chain). intros l; revert st.
  induction l as [|x l IH]; intros st J' T Sub; cbn in *; [done|].
  assert (Ti : (itick st ≤ itick (delegation_insert x st) ≤ S (itick st))%nat)
    by (unfold delegation_insert; case_match; cbn; lia).
  apply IH; [|case_match; lia|set_solver].
  destruct (existsb _ _) eqn:X; [|done]. apply delegation_insert_justified; [done|].
  apply existsb_exists in X as (z & Z1 & Z2). exists e. split_and!; [left|set_solver| |lia..].
  exists z. split; [by apply list_elem_of_In|done].
Qed.

(** The life of a resolver: client queries, root priming, validator reports. *)
Inductive Reach : list Report → ISt → Prop :=
| Reach_new c rs : Reach [] {| rcache := c; delegations := ∅; roots := rs; itick := 0; sent := 0 |}
| Reach_resolve hist st n q r st' :
    Reach hist st → resolve_with_chain n q st = (r, st') → Reach hist st'
| Reach_prime hist st r st' : Reach hist st → prime st = (r, st') → Reach hist st'
| Reach_report hist st chain zones :
    Reach hist st →
    Reach ({| rp_chain := chain; rp_zones := zones; rp_tick := itick st |} :: hist) (cache_validated_delegations chain zones st).

Lemma plain_queries qs m : plain m → plain (add_queries qs m).
Proof. rewrite add_queries_eq. done. Qed.
Lemma plain_normalised m : plain m → plain (Normalize.lowercase_response_names m).
Proof. done. Qed.
Lemma stitch_plain cq m : plain (stitch cq m).
Proof.
  unfold stitch. apply plain_normalised. rewrite add_authorities_eq, add_answers_eq. apply plain_queries.
  by eexists _, _, _.
Qed.
Lemma quiet_local_nxdomain cq q st : quiet st (synthesize_local_nxdomain cq q st).2.
Proof.
  unfold synthesize_local_nxdomain. destruct (to_vec _) eqn:T; [|done].
  apply quiet_cache_put; [|done]. apply plain_normalised, plain_queries. by eexists _, _, _.
Qed.
Lemma resolve_with_chain_frame n q st : frame st (resolve_with_chain n q st).2.
Proof.
  unfold resolve_with_chain. destruct (head (queries q)) as [q0|]; [|done].
  destruct (LocalZones.is_private_reverse _).
  { apply quiet_frame, quiet_local_nxdomain. }
  pose proof (walk_with_frame _ (q_name q0) (query_type q0) (query_class q0)
    (budget_new (max_depth cfg) (max_queries cfg) (max_cname cfg)) {| steps := [] |} st
    (subwalk_frame n)) as P.
  unfold walk. destruct (walk_with _ _ _ _ _ _ st) as [[[[m|e] b'] ch] st']; [|done].
  destruct (to_vec _) eqn:T; [|done]. destruct (negb _); [|done]. etrans; [exact P|].
  apply quiet_frame, quiet_cache_put; [apply stitch_plain|done].
Qed.
(** Priming leaves the delegation cache alone; what it adds to the response cache is
    plain, but for the reply itself, stored as it came under the root's NS key. *)
Lemma keeps_put_any i k m b c k' e :
  DnsCache.inner (DnsCache.put i k m b c) !! k' = Some e → k' = k ∨ DnsCache.inner c !! k' = Some e.
Proof.
  unfold DnsCache.put. case_match; [by right|]. intros E. cbn in E.
  eapply lookup_weaken in E; [|apply moka_evict_subset].
  apply lookup_insert_Some in E as [[-> _]|[_ E]]; auto.
Qed.
Lemma prime_spec st :
  delegations (prime st).2 = delegations st ∧
  ∀ k e, DnsCache.inner (rcache (prime st).2) !! k = Some e →
    DnsCache.inner (rcache st) !! k = Some e ∨ (∃ m, plain m ∧ to_vec m = Some (e_bytes e)) ∨
    k = cache_key root RT_NS DC_IN.
Proof.
  unfold prime. case_match; [|by auto]. destruct (build_query _ _ _ _ _) as [wire|]; [|by auto]. cbn.
  match goal with |- context [match ?r with Ok _ => _ | Err _ => _ end] => destruct r as [bytes|] end;
    [|by auto].
  destruct (from_bytes bytes) as [resp|]; [|by auto]. destruct (map _ _) as [|t ts]; [by auto|].
  destruct (quiet_cache_glue (glue_of (additionals resp)) (itock (fire (itock st)))) as [[(D & _ & K) _] _].
  assert (X : ∀ i k e, DnsCache.inner (DnsCache.put i (cache_key root RT_NS DC_IN) resp bytes
      (rcache (cache_glue (glue_of (additionals resp)) (itock (fire (itock st)))))) !! k = Some e →
    DnsCache.inner (rcache st) !! k = Some e ∨ (∃ m, plain m ∧ to_vec m = Some (e_bytes e)) ∨
    k = cache_key root RT_NS DC_IN).
  { intros j k e [->|E]%keeps_put_any; [by auto|]. apply K in E as [E|E]; auto. }
  by destruct (List.filter _ _); cbn; (split; [exact D|]); intros k e; apply X.
Qed.

Lemma delegations_reach hist st : Reach hist st → delegations_justified hist st.
Proof.
  induction 1 as [c rs|hist st n q r st' _ IH E|hist st r st' _ IH E|hist st chain zones _ IH].
  - apply map_Forall_empty.
  - unfold delegations_justified. pose proof (resolve_with_chain_frame n q st) as [[D _] _].
    rewrite E in D. cbn in D. by rewrite D.
  - unfold delegations_justified. pose proof (prime_spec st) as [D _].
    rewrite E in D. cbn in D. by rewrite D.
  - by apply cache_validated_justified.
Qed.

(** ** Resuming from the delegation cache *)

Lemma delegation_prefix_spec hist zs st pre st' :
  delegations_justified hist st → delegation_prefix zs st = (pre, st') →
  map (λ s, to_lowercase (cs_zone s)) pre = take (length pre) (map to_lowercase zs) ∧
  ∀ i s, pre !! i = Some s → ∃ c, delegations st !! to_lowercase (cs_zone s) = Some c ∧ cd_step c = s ∧
    iinstant w (itick st + i)%nat < cd_expiry c ∧ entry_justified hist (to_lowercase (cs_zone s)) c.
Proof.
  revert st pre. induction zs as [|z zs IH]; intros st pre J; cbn; [by intros [= <- <-]|].
  destruct (delegations st !! to_lowercase z) as [c|] eqn:D; [|by intros [= <- <-]].
  case_bool_decide as F; [|by intros [= <- <-]].
  destruct (delegation_prefix zs _) as [rest st1] eqn:E. intros [= <- <-].
  apply (IH (itock st)) in E as [M A]; [|done]. specialize (J _ _ D) as Jc. pose proof Jc as [Kc _]. cbn.
  split; [by rewrite <- Kc, M|]. intros [|i] s Es; cbn in Es.
  - simplify_eq. exists c. rewrite Nat.add_0_r, <- Kc. done.
  - apply A in Es as (c' & X). exists c'. by rewrite Nat.add_succ_r.
Qed.

(** C28. The chain a validating walk hands to the validator has no unaccounted
    link.  In any reachable state, its steps are a run of cached ones followed by
    ones found on this walk.  The cached run is the unbroken sequence of the
    query name's ancestors from the top-level domain down; each of its steps is the
    entry then in the cache, unexpired at the very reading of the clock at which the
    walk took it, was in a chain whose report named its zone as validated, has DS
    records, and lives, counted from that report, no longer than those records nor
    the one-hour cap.  Each later step has server addresses, takes its DS records and
    signatures from one upstream reply received during this walk, and is a zone with
    more labels than the one before, or the root. *)
Theorem walk_chain_accounted hist st n qn qt qc b r b' chain' st' :
  Reach hist st → Iterative.dnssec_ok cfg = true →
  walk n qn qt qc b {| steps := [] |} st = (r, b', chain', st') →
  ∃ pre ext, steps chain' = pre ++ ext ∧
    map (λ s, to_lowercase (cs_zone s)) pre =
      take (length pre) (map to_lowercase (rev (ancestors (S (length (labels qn))) (base_name qn)))) ∧
    (∀ i s, pre !! i = Some s → ∃ c, delegations st !! to_lowercase (cs_zone s) = Some c ∧ cd_step c = s ∧
       iinstant w (itick st + i)%nat < cd_expiry c ∧ entry_justified hist (to_lowercase (cs_zone s)) c) ∧
    Forall (step_found (itick st)) ext ∧ descends (default root (cs_zone <$> last pre)) ext.
Proof.
  intros Re%delegations_reach D. unfold walk, walk_with.
  destruct (budget_referral b) as [b1|e]; [|intros [= <- <- <- <-]; by exists [], []].
  unfold walk_start. rewrite D. unfold cached_delegation_start.
  pose proof (quiet_delegation_prefix (rev (ancestors (S (length (labels qn))) (base_name qn))) st) as [[_ T] _].
  destruct (delegation_prefix _ st) as [pre st1] eqn:P. cbn in T.
  apply (delegation_prefix_spec hist) in P as [M A]; [|done].
  destruct (last pre) as [l|] eqn:L; [destruct (cs_ns_ips l) eqn:I|];
    intros W; (apply walk_loop_chain in W as (ext & E & F & G); [|intros; apply subwalk_frame]);
    apply (step_found_since _ _ _ T) in F.
  - by exists [], ext.
  - exists pre, ext. rewrite L. by repeat split.
  - by exists [], ext.
Qed.

(** ** Replies *)

Lemma stitch_spec cq m `{!HickoryLaws} :
  id (metadata (stitch cq m)) = id (metadata cq) ∧
  message_type (metadata (stitch cq m)) = MT_Response ∧
  recursion_desired (metadata (stitch cq m)) = recursion_desired (metadata cq) ∧
  recursion_available (metadata (stitch cq m)) = true ∧
  response_code (metadata (stitch cq m)) = response_code (metadata m) ∧
  queries (stitch cq m) = map (λ q, set_q_name (to_lowercase (q_name q)) q) (queries cq) ∧
  answers (stitch cq m) = map (λ r, set_r_name (to_lowercase (r_name r)) r) (answers m) ∧
  additionals (stitch cq m) = [].
Proof.
  unfold stitch, message_response, Normalize.lowercase_response_names.
  rewrite message_new_spec. msg_simpl. repeat split.
Qed.

(** Whatever [resolve_with_chain] returns encodes a response with the query's TXID
    and RD flag, RA set, the query's questions up to case, no additional records. *)
Lemma resolve_reply `{!HickoryLaws} n cq st bytes chain st' :
  resolve_with_chain n cq st = (Ok (bytes, chain), st') →
  ∃ m, to_vec m = Some bytes ∧ id (metadata m) = id (metadata cq) ∧
    message_type (metadata m) = MT_Response ∧
    recursion_desired (metadata m) = recursion_desired (metadata cq) ∧
    recursion_available (metadata m) = true ∧
    queries m = map (λ q, set_q_name (to_lowercase (q_name q)) q) (queries cq) ∧
    additionals m = [].
Proof.
  unfold resolve_with_chain. destruct (head (queries cq)) as [q|]; [|done].
  destruct (LocalZones.is_private_reverse (q_name q)).
  - unfold synthesize_local_nxdomain. destruct (to_vec _) as [bs|] eqn:T; [|done].
    intros [= <- <- <-]. eexists; split; [exact T|].
    unfold message_response, Normalize.lowercase_response_names.
    rewrite message_new_spec. msg_simpl. repeat split.
  - destruct (walk _ _ _ _ _ _ _) as [[[[m|e] b'] ch] st1]; [|done].
    destruct (to_vec _) as [bs|] eqn:T; [|done]. intros [= <- <- <-].
    exists (stitch cq m). split; [done|]. pose proof (stitch_spec cq m). tauto.
Qed.

(** Its bytes encode a plain message. *)
Lemma resolve_plain n cq st bytes chain st' :
  resolve_with_chain n cq st = (Ok (bytes, chain), st') → ∃ m, plain m ∧ to_vec m = Some bytes.
Proof.
  unfold resolve_with_chain. destruct (head (queries cq)) as [q|]; [|done].
  destruct (LocalZones.is_private_reverse (q_name q)).
  - unfold synthesize_local_nxdomain. destruct (to_vec _) as [bs|] eqn:T; [|done].
    intros [= <- <- <-]. eexists; split; [|exact T]. apply plain_normalised, plain_queries. by eexists _, _, _.
  - destruct (walk _ _ _ _ _ _ _) as [[[[m|e] b'] ch] st1]; [|done].
    destruct (to_vec _) as [bs|] eqn:T; [|done]. intros [= <- <- <-].
    eexists; split; [apply stitch_plain|exact T].
Qed.

(** Queries about private address space stay on the box: for a name under
    one of the locally served zones, [resolve_with_chain] puts nothing on the
    wire; unless the reply cannot be encoded it is an authoritative NXDOMAIN with
    empty sections, and the chain it reports is empty. *)
Theorem private_names_stay_local `{!HickoryLaws} n cq q st r st' :
  head (queries cq) = Some q → LocalZones.is_private_reverse (q_name q) = true →
  resolve_with_chain n cq st = (r, st') →
  quiet st st' ∧
  match r with
  | Ok (bytes, chain) =>
      steps chain = [] ∧
      ∃ m, to_vec m = Some bytes ∧ response_code (metadata m) = RC_NXDomain ∧
        authoritative (metadata m) = true ∧ answers m = [] ∧ authorities m = []
  | Err e => e = "encode local-zone NXDOMAIN"%string
  end.
Proof.
  intros Q P. unfold resolve_with_chain. rewrite Q, P. intros E.
  split; [change st' with (r, st').2; rewrite <- E; apply quiet_local_nxdomain|]. revert E.
  unfold synthesize_local_nxdomain. destruct (to_vec _) as [bytes|] eqn:T; intros [= <- <-]; [|done].
  split; [done|]. eexists; split; [exact T|].
  unfold message_response, Normalize.lowercase_response_names.
  rewrite message_new_spec. msg_simpl. repeat split.
Qed.
End Walk.
End Iterative.

(** ** Examples *)
Module IterativeExamples.
Import Validator Iterative.

#[local] Instance ExMoka : Moka.
Proof. by refine {| moka_evict _ m := m |}. Defined.

Definition ex_rr (n : string) (d : RData) : DnsRecord := record_from_rdata (rn n) 600 d.
(** The root's referral to [com], with a DS, the glue of its server, and an address
    for an unrelated name. *)
Definition ex_referral : Message :=
  set_additionals [ex_rr "a.ns.com." (RD_A [192; 5; 6; 30]); ex_rr "www.bank.org." (RD_A [203; 0; 113; 6])]
    (add_authorities
       [ex_rr "com." (RD_NS (rn "a.ns.com."));
        ex_rr "com." (RD_DS {| ds_key_tag := 3; ds_algorithm := 8; ds_digest_type := 2; ds_digest := [3] |})]
       (message_response 7 OC_Query)).
Definition ex_final : Message :=
  add_answer (ex_rr "www.com." (RD_A [192; 0; 2; 1])) (message_response 7 OC_Query).

(** A reply is a header whose third byte says which of the two it is. *)
Definition ex_wire (which : Z) : list Z := [0; 7; which; 0; 0; 0; 0; 0; 0; 0; 0; 0].
Definition ex_hickory : Hickory :=
  {| from_bytes b :=
       if bool_decide (b = ex_wire 1) then Some ex_referral
       else if bool_decide (b = ex_wire 2) then Some ex_final
       else None;
     to_vec := ref_to_vec; message_new := message_new;
     record_from_rdata := record_from_rdata; query_query := query_query; record_type := record_type;
     verify_rrsig := verify_rrsig; ds_covers := ds_covers; calculate_key_tag := calculate_key_tag;
     nsec3_hash := nsec3_hash; record_type_cmp := record_type_cmp; class_cmp := class_cmp;
     base32hex_decode := base32hex_decode |}.
#[local] Existing Instance ex_hickory | 0.

Lemma walk_hickory_laws : @HickoryLaws _ ex_hickory.
Proof.
  split; try done.
  - exact (record_type_cmp_eq (HickoryLaws := RefHickoryLaws)).
  - exact (class_cmp_eq (HickoryLaws := RefHickoryLaws)).
  - intros b m. cbv beta iota delta [from_bytes ex_hickory].
    case_bool_decide as Hb; [|case_bool_decide as Hb2; [|done]]; subst b;
      intros Hm; injection Hm as <-; (split; [cbn; lia|]); (eexists _, _, _; split; reflexivity).
  - exact (to_vec_length (HickoryLaws := RefHickoryLaws)).
  - exact (to_vec_header (HickoryLaws := RefHickoryLaws)).
Qed.

Definition ex_root_ip : IpAddr := V4 [198; 41; 0; 4].
Definition ex_cfg : Config :=
  {| Iterative.dnssec_ok := true; ipv6_upstream := false; max_depth := DEFAULT_MAX_DEPTH;
     max_queries := DEFAULT_MAX_QUERIES; max_cname := clamp_max_cname 8 |}.
Definition ex_world : IWorld :=
  {| iup := λ _ ips _, Ok (if bool_decide (ips = [ex_root_ip]) then ex_wire 1 else ex_wire 2);
     iinstant := λ n, Z.of_nat n; irnd := λ _, 7; shuffle := λ _ l, rev l; pick := λ n, n;
     late := λ _, false |}.
Definition ex_st : ISt :=
  {| rcache := DnsCache.new 100 0 3600 60 900; delegations := ∅; roots := [ex_root_ip];
     itick := 0; sent := 0 |}.
Definition ex_budget : Budget := budget_new 32 384 8.
Definition ex_walk (st : ISt) : result Message * Budget * WalkChain * ISt :=
  walk ex_cfg ex_world 2 (rn "www.com.") RT_A DC_IN ex_budget {| steps := [] |} st.
Definition ex_query (n : string) : Message :=
  set_rd true (add_query (query_query (rn n) RT_PTR) (message_new 4660 MT_Query OC_Query)).

Lemma ex_width : referral_width ex_world 2.
Proof.
  intros m (t & ip & wire & bytes & _ & F). revert F. cbv beta iota delta [from_bytes ex_hickory].
  case_bool_decide; [intros [= <-]; cbn; lia|]. case_bool_decide; [intros [= <-]; cbn; lia|done].
Qed.

(** Two queries answer the question: one to the root, one to [com]. *)
Lemma walk_query_bound_witness :
  (ex_walk ex_st).1.1.1 = Ok ex_final ∧ sent (ex_walk ex_st).2 = 2%nat ∧
  Z.of_nat (sent (ex_walk ex_st).2) ≤ 0 + 384 * Z.of_nat (1 + 2 * subwalk_bound 2 2).
Proof.
  split; [vm_compute; reflexivity|]. split; [vm_compute; reflexivity|].
  apply (walk_query_bound ex_cfg ex_world 2 2 (rn "www.com.") RT_A DC_IN ex_budget {| steps := [] |}
    ex_st (ex_walk ex_st).1.1.1 (ex_walk ex_st).1.1.2 (ex_walk ex_st).1.2 (ex_walk ex_st).2).
  - exact ex_width.
  - cbn; lia.
  - fold (ex_walk ex_st). by destruct (ex_walk ex_st) as [[[? ?] ?] ?].
Defined.

Lemma walk_terminates_witness :
  let go f := walk_loop ex_cfg ex_world f (subwalk ex_cfg ex_world 2) (rn "www.com.") RT_A DC_IN root
                [ex_root_ip] ex_budget {| steps := [] |} ex_st in
  go 1000%nat = go 385%nat ∧ (go 1000%nat).1.1.1 ≠ Err "out of fuel".
Proof.
  apply (walk_terminates ex_cfg ex_world 1000 (subwalk ex_cfg ex_world 2) (rn "www.com.") RT_A DC_IN
    root [ex_root_ip] ex_budget {| steps := [] |} ex_st). cbn. lia.
Defined.

(** A first walk from the root, its report, and a second walk that resumes at
    [com]. *)
Definition ex_report : Report := {| rp_chain := (ex_walk ex_st).1.2; rp_zones := [rn "com."]; rp_tick := 0 |}.
Definition ex_st2 : ISt := cache_validated_delegations ex_cfg ex_world (rp_chain ex_report) [rn "com."] ex_st.

Lemma walk_chain_accounted_witness :
  map cs_zone (steps (ex_walk ex_st2).1.2) = [rn "com."] ∧ sent (ex_walk ex_st2).2 = 1%nat ∧
  ∃ pre ext, steps (ex_walk ex_st2).1.2 = pre ++ ext ∧
    map (λ s, to_lowercase (cs_zone s)) pre = take (length pre) [rn "com."] ∧
    (∀ i s, pre !! i = Some s → ∃ c, delegations ex_st2 !! to_lowercase (cs_zone s) = Some c ∧ cd_step c = s ∧
       iinstant ex_world (itick ex_st2 + i)%nat < cd_expiry c ∧
       entry_justified ex_world [ex_report] (to_lowercase (cs_zone s)) c) ∧
    Forall (step_found ex_world (itick ex_st2)) ext ∧ descends (default root (cs_zone <$> last pre)) ext.
Proof.
  split; [vm_compute; reflexivity|]. split; [vm_compute; reflexivity|].
  apply (walk_chain_accounted ex_cfg ex_world [ex_report] ex_st2 2 (rn "www.com.") RT_A DC_IN ex_budget
    (ex_walk ex_st2).1.1.1 (ex_walk ex_st2).1.1.2 (ex_walk ex_st2).1.2 (ex_walk ex_st2).2).
  - apply (Reach_report ex_cfg ex_world [] ex_st), Reach_new.
  - reflexivity.
  - fold (ex_walk ex_st2). by destruct (ex_walk ex_st2) as [[[? ?] ?] ?].
Defined.

Definition ex_resolve (n : string) := resolve_with_chain ex_cfg ex_world 2 (ex_query n) ex_st.

Lemma private_names_stay_local_witness :
  sent (ex_resolve "1.0.168.192.in-addr.arpa.").2 = 0%nat.
Proof.
  pose proof walk_hickory_laws as Hlaws.
  destruct (private_names_stay_local ex_cfg ex_world 2
    (ex_query "1.0.168.192.in-addr.arpa.")
    (query_query (rn "1.0.168.192.in-addr.arpa.") RT_PTR) ex_st
    (ex_resolve "1.0.168.192.in-addr.arpa.").1 (ex_resolve "1.0.168.192.in-addr.arpa.").2)
    as [[_ Hs] _].
  - reflexivity.
  - vm_compute. reflexivity.
  - unfold ex_resolve. by destruct (resolve_with_chain _ _ _ _ _).
  - exact Hs.
Defined.

(** The address for [www.bank.org] that came in the additional section of the
    [com] referral is now served from the shared cache, in validating mode too. *)
Lemma glue_poisons_cache :
  is_ok (ex_walk ex_st).1.1.1 = true ∧
  bool_decide (is_Some (DnsCache.get 100 (cache_key (rn "www.bank.org.") RT_A DC_IN)
    (rcache (ex_walk ex_st).2)).1) = true.
Proof. vm_compute. done. Qed.

(** A reply may send the walk back to the root: the guard exempts it. *)
Lemma root_referral_passes_guard z : non_progressive root z = false.
Proof. unfold non_progressive. by rewrite name_eqb_refl, andb_false_r. Qed.
End IterativeExamples.
