(* ===== verification/ClientPolicy.v ===== *)
(** * What a listener does with a client ([acl.rs], [recursor/rrl.rs],
    [recursor/cookies.rs])

    The allow-list, the rate-limit buckets and the DNS-cookie store. *)
From S2P Require Import Prelude Hickory Net.

(** ** The allow-list *)
Module Acl.
Section Acl.
Context `{IpNets}.

Record ClientAcl := { allow : list IpNet }.
Definition new (l : list IpNet) : ClientAcl := {| allow := l |}.
Definition allows (acl : ClientAcl) (peer : IpAddr) : bool :=
  existsb (λ cidr, ipnet_contains cidr peer) (allow acl).

(** An address inside a network, by its bits. *)
Definition inside (cidr : IpNet) (peer : IpAddr) : Prop :=
  match net_ip cidr, peer with
  | V4 b, V4 a => same_prefix 32 (net_prefix_len cidr) b a
  | V6 b, V6 a => same_prefix 128 (net_prefix_len cidr) b a
  | _, _ => False
  end.
Definition valid_net (cidr : IpNet) : Prop :=
  is_ip_addr (net_ip cidr) ∧
  0 ≤ net_prefix_len cidr ≤ (if is_ipv4 (net_ip cidr) then 32 else 128).

Lemma contains_inside `{!IpNetLaws} cidr peer :
  valid_net cidr → is_ip_addr peer → ipnet_contains cidr peer = true ↔ inside cidr peer.
Proof.
  intros [Hn Hl] Hp. unfold inside.
  destruct (net_ip cidr) as [b|b] eqn:N, peer as [a|a]; cbn in *.
  - by apply (ipnet_contains_v4 cidr a b).
  - split; [|done]. rewrite ipnet_contains_family; [done|by rewrite N].
  - split; [|done]. rewrite ipnet_contains_family; [done|by rewrite N].
  - by apply (ipnet_contains_v6 cidr a b).
Qed.

(** The allow-list is closed by default and exact: a peer is let in exactly
    when one of the configured networks is of its family and shares the network's
    prefix bits; an empty list lets nobody in. *)
Theorem acl_allows_iff `{!IpNetLaws} l peer :
  Forall valid_net l → is_ip_addr peer →
  (allows (new l) peer = true ↔ ∃ cidr, cidr ∈ l ∧ inside cidr peer) ∧
  allows (new []) peer = false.
Proof.
  intros V P. split; [|done]. unfold allows, new. cbn. rewrite existsb_exists.
  rewrite Forall_forall in V. setoid_rewrite list_elem_of_In. split.
  - intros (c & Hc & X). exists c. split; [done|]. apply contains_inside; [|done..].
    by apply V, list_elem_of_In.
  - intros (c & Hc & X). exists c. split; [done|]. apply contains_inside; [|done..].
    by apply V, list_elem_of_In.
Qed.
End Acl.
End Acl.

(** ** Rate limiting *)
Module Rrl.

(** [(tag, bucket-id)]. *)
Definition ClientKey : Type := Z * Z.

Record RateLimit := { per_client_qps : option Z; per_client_burst : option Z }.
Record Quota := { qps : Z; burst : Z }.

(** [NonZeroU32::new]. *)
Definition non_zero (n : Z) : option Z := if n =? 0 then None else Some n.

Definition from_config (cfg : option RateLimit) : option Quota :=
  c ← cfg;
  qps ← per_client_qps c;
  let burst := default (default 100 (per_client_qps c)) (per_client_burst c) in
  let qps := default 1 (non_zero qps) in
  let burst := default qps (non_zero burst) in
  Some {| qps := qps; burst := burst |}.

(** [(acc << w) | x] on unsigned integers. *)
Definition shift_in (w : Z) (acc x : Z) : Z := Z.lor (Z.shiftl acc w) x.

Definition bucket_key (peer : IpAddr) : ClientKey :=
  match peer with
  | V4 o =>
      (4, Z.lor (Z.lor (Z.shiftl (nth 0 o 0) 16) (Z.shiftl (nth 1 o 0) 8)) (nth 2 o 0))
  | V6 o => (6, foldl (shift_in 16) 0 (take 4 (segments o)))
  end.

(** [governor]'s keyed limiter: a decision and a new state. *)
Class Governor := {
  gov : Type;
  keyed : Quota → gov;
  check_key : Z → ClientKey → gov → bool * gov;
}.
Definition check `{Governor} (now : Z) (peer : IpAddr) (g : gov) : bool * gov :=
  check_key now (bucket_key peer) g.

Lemma from_config_quota cfg q :
  from_config cfg = Some q →
  (∀ c n, cfg = Some c → per_client_qps c = Some n → 0 ≤ n) →
  (∀ c n, cfg = Some c → per_client_burst c = Some n → 0 ≤ n) → 1 ≤ qps q ∧ 1 ≤ burst q.
Proof.
  unfold from_config. intros (c & -> & E)%bind_Some A B. cbn in E.
  apply bind_Some in E as (n & Hn & [= <-]). specialize (A c n eq_refl Hn). cbn.
  assert (1 ≤ default 1 (non_zero n)) as Q.
  { unfold non_zero. destruct (Z.eqb_spec n 0); cbn; lia. }
  split; [done|]. unfold non_zero at 2.
  destruct (Z.eqb_spec (default (default 100 (per_client_qps c)) (per_client_burst c)) 0) as [|Nz];
    cbn; [done|].
  destruct (per_client_burst c) as [m|] eqn:Hm; cbn in *; [specialize (B c m eq_refl Hm); lia|].
  rewrite Hn in *. cbn in *. lia.
Qed.

Lemma shift_in_add w acc x : 0 ≤ w → 0 ≤ acc → 0 ≤ x < 2 ^ w → shift_in w acc x = acc * 2 ^ w + x.
Proof.
  intros Hw Ha Hx. unfold shift_in. rewrite Z.shiftl_mul_pow2 by lia.
  symmetry. apply Z.add_nocarry_lor. apply Z.bits_inj'. intros n Hn.
  rewrite Z.land_spec, Z.bits_0. destruct (Z.lt_ge_cases n w) as [L|G].
  - by rewrite Z.mul_pow2_bits_low.
  - rewrite <- (Z.mod_small x (2 ^ w)) by done. rewrite Z.mod_pow2_bits_high by lia. apply andb_false_r.
Qed.

Lemma segments_fold o acc :
  Forall is_byte o → (Nat.Even (length o)) → 0 ≤ acc →
  foldl (shift_in 16) acc (pair_octets o) = foldl (λ acc b, acc * 256 + b) acc o.
Proof.
  intros Ho [k Hk]. revert o acc Ho Hk. induction k as [|k IH]; intros o acc Ho Hk Ha.
  { destruct o; cbn in *; [done|lia]. }
  destruct o as [|hi [|lo o]]; cbn in Hk; [lia..|]. cbn [pair_octets foldl].
  apply Forall_cons in Ho as [H1 Ho]. apply Forall_cons in Ho as [H2 Ho]. unfold is_byte in *.
  rewrite shift_in_add; [|unfold from_be16; lia..]. rewrite IH; [|done|lia|unfold from_be16; nia].
  f_equal. unfold from_be16. lia.
Qed.

Lemma take_pair_octets k o : take k (pair_octets o) = pair_octets (take (2 * k) o).
Proof.
  revert o. induction k as [|k IH]; intros o; [done|].
  replace (2 * S k)%nat with (S (S (2 * k))) by lia.
  destruct o as [|hi [|lo o]]; [done..|]. cbn [pair_octets take]. by rewrite IH.
Qed.

Lemma bucket_v4 o : is_v4_addr o → bucket_key (V4 o) = (4, octets_value (take 3 o)).
Proof.
  intros [L B]. destruct o as [|a [|b [|c [|d [|]]]]]; try done. cbn [bucket_key nth take].
  repeat (apply Forall_cons in B as [? B]). unfold is_byte in *. f_equal.
  change (Z.lor (Z.lor (Z.shiftl a 16) (Z.shiftl b 8)) c) with
    (Z.lor (Z.lor (Z.shiftl a (8 + 8)) (Z.shiftl b 8)) c).
  rewrite <- Z.shiftl_shiftl, <- Z.shiftl_lor by lia.
  change (shift_in 8 (shift_in 8 a b) c = octets_value [a; b; c]).
  rewrite (shift_in_add 8 a b) by lia. rewrite shift_in_add by lia. cbn. lia.
Qed.
Lemma bucket_v6 o : is_v6_addr o → bucket_key (V6 o) = (6, octets_value (take 8 o)).
Proof.
  intros [L B]. cbn [bucket_key]. f_equal. unfold segments. rewrite take_pair_octets.
  rewrite segments_fold; [done|by apply Forall_take| |lia].
  rewrite length_take, L. by exists 4%nat.
Qed.

(** Rate-limit buckets are exactly subnets: two peers drain the same bucket if
    and only if they are both IPv4 and share a /24, or both IPv6 and share a
    /64. *)
Theorem buckets_are_subnets p q :
  is_ip_addr p → is_ip_addr q →
  bucket_key p = bucket_key q ↔
  match p, q with
  | V4 a, V4 b => same_prefix 32 24 a b
  | V6 a, V6 b => same_prefix 128 64 a b
  | _, _ => False
  end.
Proof.
  intros Hp Hq. destruct p as [a|a], q as [b|b]; cbn [is_ip_addr] in *;
    rewrite ?bucket_v4, ?bucket_v6 by done; try naive_solver.
  - destruct Hp as [La Ba], Hq as [Lb Bb].
    pose proof (same_prefix_octets 3 a b ltac:(lia) Ba Bb ltac:(lia)) as S. rewrite La in S.
    change (8 * Z.of_nat 4) with 32 in S. change (8 * Z.of_nat 3) with 24 in S. rewrite S.
    split; [|by intros ->]. intros E. apply octets_value_inj; [|by apply Forall_take..|congruence].
    rewrite !length_take. lia.
  - destruct Hp as [La Ba], Hq as [Lb Bb].
    pose proof (same_prefix_octets 8 a b ltac:(lia) Ba Bb ltac:(lia)) as S. rewrite La in S.
    change (8 * Z.of_nat 16) with 128 in S. change (8 * Z.of_nat 8) with 64 in S. rewrite S.
    split; [|by intros ->]. intros E. apply octets_value_inj; [|by apply Forall_take..|congruence].
    rewrite !length_take. lia.
Qed.
End Rrl.

(** ** DNS cookies *)
Module Cookies.

Definition OPT_COOKIE : Z := 10.
Definition CLIENT_COOKIE_LEN : nat := 8.

Record CookieState := { client_cookie : list Z; server_cookies : gmap IpAddr (list Z) }.
Definition new (random : list Z) : CookieState :=
  {| client_cookie := random; server_cookies := ∅ |}.
Definition server_cookie_for (server : IpAddr) (s : CookieState) : option (list Z) :=
  server_cookies s !! server.
Definition remember (server : IpAddr) (cookie : list Z) (s : CookieState) : CookieState :=
  {| client_cookie := client_cookie s; server_cookies := <[server := cookie]> (server_cookies s) |}.
Definition forget (server : IpAddr) (s : CookieState) : CookieState :=
  {| client_cookie := client_cookie s; server_cookies := delete server (server_cookies s) |}.

Definition build_option (client_cookie server_cookie : list Z) : list Z :=
  client_cookie ++ server_cookie.
Definition parse_option_value (payload : list Z) : option (list Z) :=
  if (length payload <? CLIENT_COOKIE_LEN)%nat then None else Some (drop CLIENT_COOKIE_LEN payload).

(** What a server hands back is what the next query to it, and to it alone,
    carries. *)
Lemma cookie_echo s server server' cookie :
  length (client_cookie s) = CLIENT_COOKIE_LEN →
  let s' := remember server cookie s in
  (sc ← server_cookie_for server s'; parse_option_value (build_option (client_cookie s') sc)) = Some cookie ∧
  (server' ≠ server → server_cookie_for server' s' = server_cookie_for server' s) ∧
  server_cookie_for server (forget server s') = None.
Proof.
  intros L. cbn. unfold server_cookie_for, remember, forget, parse_option_value, build_option. cbn.
  rewrite lookup_insert_eq, lookup_delete_eq. split; [|split; [|done]].
  - cbn. rewrite length_app, L. cbn. f_equal. unfold CLIENT_COOKIE_LEN in *.
    by rewrite drop_app_length' by done.
  - intros N. by rewrite lookup_insert_ne.
Qed.
End Cookies.

(** ** Examples *)
Lemma acl_allows_iff_witness :
  Acl.allows (Acl.new [{| net_ip := V4 [10; 0; 0; 0]; net_prefix_len := 8 |}]) (V4 [10; 1; 2; 3]) = true.
Proof.
  destruct (Acl.acl_allows_iff [{| net_ip := V4 [10; 0; 0; 0]; net_prefix_len := 8 |}] (V4 [10; 1; 2; 3]))
    as [X _].
  - repeat constructor; cbn; unfold is_byte; lia.
  - repeat constructor; cbn; unfold is_byte; lia.
  - apply X. eexists; split; [left|]. reflexivity.
Defined.

Lemma buckets_are_subnets_witness :
  Rrl.bucket_key (V4 [192; 0; 2; 1]) = Rrl.bucket_key (V4 [192; 0; 2; 200]).
Proof.
  apply (Rrl.buckets_are_subnets (V4 [192; 0; 2; 1]) (V4 [192; 0; 2; 200]));
    [repeat constructor; cbn; unfold is_byte; lia..|reflexivity].
Defined.
