(* ===== verification/Tunnel.v ===== *)
(** * Byte streams to an upstream ([recursor/socks.rs], [recursor/dot_client.rs])

    A connected stream is what the far end will send and what this end has
    written; a small state-and-error monad runs the SOCKS5 handshake and the
    length-prefixed DNS framing over it. *)
From S2P Require Import Prelude Hickory.

(** [inp]: bytes still to be read; [out]: bytes written; [wleft]: writes that
    succeed before the stream breaks. *)
Record Chan := { inp : list Z; out : list Z; wleft : nat }.
Definition IO (A : Type) : Type := Chan → result A * Chan.

#[export] Instance io_ret : MRet IO := λ A a c, (Ok a, c).
#[export] Instance io_bind : MBind IO := λ A B f m c,
  match m c with (Ok a, c') => f a c' | (Err e, c') => (Err e, c') end.

Definition bail {A} (e : string) : IO A := λ c, (Err e, c).
(** [AsyncWriteExt::write_all]. *)
Definition write_all (bs : list Z) : IO unit := λ c,
  match wleft c with
  | O => (Err "write", c)
  | S n => (Ok (), {| inp := inp c; out := out c ++ bs; wleft := n |})
  end.
(** [AsyncWriteExt::flush]: may fail like a write. *)
Definition flush : IO unit := write_all [].
(** [AsyncReadExt::read_exact]. *)
Definition read_exact (n : nat) : IO (list Z) := λ c,
  if (length (inp c) <? n)%nat then (Err "unexpected end of file", {| inp := []; out := out c; wleft := wleft c |})
  else (Ok (take n (inp c)), {| inp := drop n (inp c); out := out c; wleft := wleft c |}).

Lemma io_bind_Ok {A B} (m : IO A) (f : A → IO B) c b c' :
  (m ≫= f) c = (Ok b, c') ↔ ∃ a c1, m c = (Ok a, c1) ∧ f a c1 = (Ok b, c').
Proof.
  unfold mbind, io_bind. destruct (m c) as [[a|e] c1]; naive_solver.
Qed.
Lemma write_all_Ok bs c u c' :
  write_all bs c = (Ok u, c') ↔
  wleft c = S (wleft c') ∧ inp c' = inp c ∧ out c' = out c ++ bs ∧ u = tt.
Proof.
  unfold write_all. destruct c as [i o [|n]], c' as [i' o' n'], u; cbn; naive_solver.
Qed.
Lemma read_exact_Ok n c bs c' :
  read_exact n c = (Ok bs, c') ↔
  length bs = n ∧ inp c = bs ++ inp c' ∧ out c' = out c ∧ wleft c' = wleft c.
Proof.
  unfold read_exact. destruct c as [i o w], c' as [i' o' w']; cbn [inp out wleft].
  destruct (Nat.ltb_spec (length i) n) as [L|L]; split.
  - intros E; discriminate E.
  - intros (<- & -> & _). rewrite length_app in L. lia.
  - intros [= <- <- <- <-]. rewrite length_take, take_drop. split; [lia|done].
  - intros (<- & -> & -> & ->). by rewrite take_app_length, drop_app_length.
Qed.

Module Socks.

Definition VER : Z := 5.
Definition M_NOAUTH : Z := 0.
Definition M_USERPASS : Z := 2.
Definition M_NONE : Z := 255.
Definition CMD_CONNECT : Z := 1.
Definition ATYP_V4 : Z := 1.
Definition ATYP_DOMAIN : Z := 3.
Definition ATYP_V6 : Z := 4.

Definition userpass_auth (user : list Z) : IO unit :=
  if (255 <? length user)%nat then bail "socks5: username too long"
  else
    _ ← write_all ([1; Z.of_nat (length user)] ++ user ++ [0]);
    reply ← read_exact 2;
    match reply with
    | [v; s] =>
        if negb (v =? 1) then bail "socks5: bad username/password auth version"
        else if negb (s =? 0) then bail "socks5: proxy rejected username/password auth"
        else mret ()
    | _ => bail "socks5: read auth reply"
    end.

Definition negotiate (username : option (list Z)) : IO unit :=
  match username with
  | Some user =>
      _ ← write_all [VER; 2; M_NOAUTH; M_USERPASS];
      sel ← read_exact 2;
      match sel with
      | [v; m] =>
          if negb (v =? VER) then bail "socks5: bad version in method reply"
          else if m =? M_NOAUTH then mret ()
          else if m =? M_USERPASS then userpass_auth user
          else if m =? M_NONE then bail "socks5: proxy rejected all offered auth methods"
          else bail "socks5: proxy selected unknown auth method"
      | _ => bail "socks5: read method selection"
      end
  | None =>
      _ ← write_all [VER; 1; M_NOAUTH];
      sel ← read_exact 2;
      match sel with
      | [v; m] =>
          if negb (v =? VER) || negb (m =? M_NOAUTH) then bail "socks5: proxy did not accept NO-AUTH"
          else mret ()
      | _ => bail "socks5: read method selection"
      end
  end.

Definition connect_request (target : SocketAddr) : list Z :=
  [VER; CMD_CONNECT; 0] ++
  match sa_ip target with
  | V4 v4 => ATYP_V4 :: v4
  | V6 v6 => ATYP_V6 :: v6
  end ++ to_be16 (sa_port target).

Definition bnd_len (atyp : Z) : IO nat :=
  if atyp =? ATYP_V4 then mret 4%nat
  else if atyp =? ATYP_V6 then mret 16%nat
  else if atyp =? ATYP_DOMAIN then
    l ← read_exact 1;
    match l with [n] => mret (Z.to_nat n) | _ => bail "socks5: read BND.ADDR length" end
  else bail "socks5: CONNECT reply has unknown ATYP".

Definition read_reply : IO unit :=
  head ← read_exact 4;
  match head with
  | [v; rep; _; atyp] =>
      if negb (v =? VER) then bail "socks5: bad version in CONNECT reply"
      else if negb (rep =? 0) then bail "socks5: CONNECT failed"
      else
        n ← bnd_len atyp;
        _ ← read_exact (n + 2);
        mret ()
  | _ => bail "socks5: read CONNECT reply"
  end.

Definition connect (target : SocketAddr) (username : option (list Z)) : IO unit :=
  _ ← negotiate username;
  _ ← write_all (connect_request target);
  read_reply.

(** ** What a successful handshake looked like *)

(** Method negotiation: what was offered and sent, what came back. *)
Inductive Negotiated : option (list Z) → list Z → list Z → Prop :=
| Neg_plain : Negotiated None [5; 1; 0] [5; 0]
| Neg_noauth u : Negotiated (Some u) [5; 2; 0; 2] [5; 0]
| Neg_userpass u :
    (length u ≤ 255)%nat →
    Negotiated (Some u) ([5; 2; 0; 2] ++ [1; Z.of_nat (length u)] ++ u ++ [0]) ([5; 2] ++ [1; 0]).
(** A positive reply with its bound address and port. *)
Inductive Replied : list Z → Prop :=
| Rep_v4 rsv bnd : length bnd = 6%nat → Replied ([5; 0; rsv; 1] ++ bnd)
| Rep_v6 rsv bnd : length bnd = 18%nat → Replied ([5; 0; rsv; 4] ++ bnd)
| Rep_domain rsv n bnd : length bnd = (Z.to_nat n + 2)%nat → Replied ([5; 0; rsv; 3; n] ++ bnd).

Ltac io_inv :=
  repeat match goal with
  | E : (_ ≫= _) _ = (Ok _, _) |- _ => apply io_bind_Ok in E as (? & ? & ? & E)
  | E : write_all _ _ = (Ok _, _) |- _ => apply write_all_Ok in E as (? & ? & ? & ?)
  | E : read_exact _ _ = (Ok _, _) |- _ => apply read_exact_Ok in E as (? & ? & ? & ?)
  | E : flush _ = (Ok _, _) |- _ => unfold flush in E
  | E : bail _ _ = (Ok _, _) |- _ => discriminate E
  | E : mret _ _ = (Ok _, _) |- _ => unfold mret, io_ret in E; simplify_eq
  | E : (if ?b then _ else _) _ = (Ok _, _) |- _ => destruct b eqn:?
  | E : (match ?l with [] => _ | _ :: _ => _ end) _ = (Ok _, _) |- _ => destruct l; [discriminate E|]
  | E : (match ?l with [] => _ | _ :: _ => _ end) _ = (Ok _, _) |- _ => destruct l; [|discriminate E]
  end.

Lemma negotiate_sound user c c' :
  negotiate user c = (Ok (), c') →
  ∃ sent recv, Negotiated user sent recv ∧ inp c = recv ++ inp c' ∧ out c' = out c ++ sent.
Proof.
  intros E. destruct user as [u|]; unfold negotiate in E; io_inv; bool_inv; subst.
  - eexists _, _. split; [apply Neg_noauth|]. unfold VER, M_NOAUTH, M_USERPASS in *. split; congruence.
  - unfold userpass_auth in E. io_inv. bool_inv. subst. eexists _, _. split; [by apply Neg_userpass|].
    unfold VER, M_NOAUTH, M_USERPASS in *.
    repeat match goal with X : inp _ = _ |- _ => rewrite X | X : out _ = _ |- _ => rewrite X end.
    split; [cbn in *; congruence|by rewrite <- !app_assoc].
  - eexists _, _. split; [apply Neg_plain|]. unfold VER, M_NOAUTH in *. split; congruence.
Qed.
Lemma read_reply_sound c c' :
  read_reply c = (Ok (), c') → ∃ reply, Replied reply ∧ inp c = reply ++ inp c' ∧ out c' = out c.
Proof.
  intros E. unfold read_reply in E. io_inv. bool_inv. subst.
  unfold bnd_len in *. io_inv; bool_inv; subst; unfold VER, ATYP_V4, ATYP_V6, ATYP_DOMAIN in *; subst;
    eexists; (split; [|split; [|congruence]]).
  - apply (Rep_v4 z1); eassumption.
  - cbn in *. congruence.
  - apply (Rep_v6 z1); eassumption.
  - cbn in *. congruence.
  - eapply (Rep_domain z1); eassumption.
  - cbn in *. congruence.
Qed.

Lemma read_exact_app n bs rest o w :
  length bs = n →
  read_exact n {| inp := bs ++ rest; out := o; wleft := w |} = (Ok bs, {| inp := rest; out := o; wleft := w |}).
Proof. intros L. by apply read_exact_Ok. Qed.

Lemma negotiate_complete user sent recv rest o w :
  Negotiated user sent recv → (2 ≤ w)%nat →
  ∃ w', (w ≤ 2 + w')%nat ∧
    negotiate user {| inp := recv ++ rest; out := o; wleft := w |} =
      (Ok (), {| inp := rest; out := o ++ sent; wleft := w' |}).
Proof.
  destruct w as [|[|w]]; [lia..|]. destruct 1 as [|u|u L]; intros _.
  - exists (S w). split; [lia|done].
  - exists (S w). split; [lia|done].
  - exists w. split; [lia|].
    unfold negotiate, userpass_auth. rewrite (proj2 (Nat.ltb_ge _ _) L).
    unfold mbind, io_bind. cbn. by rewrite <- app_assoc.
Qed.
Lemma read_reply_complete reply rest o w :
  Replied reply →
  read_reply {| inp := reply ++ rest; out := o; wleft := w |} =
    (Ok (), {| inp := rest; out := o; wleft := w |}).
Proof.
  destruct 1 as [rsv bnd L|rsv bnd L|rsv n bnd L]; unfold read_reply, mbind, io_bind.
  3: change ([5; 0; rsv; 3; n] ++ bnd) with ([5; 0; rsv; 3] ++ ([n] ++ bnd)).
  all: rewrite <- app_assoc; rewrite (read_exact_app 4) by done; cbn -[read_exact]; unfold mbind, io_bind.
  - by rewrite (read_exact_app _ bnd).
  - by rewrite (read_exact_app _ bnd).
  - change (n :: bnd ++ rest) with ([n] ++ (bnd ++ rest)). rewrite (read_exact_app 1) by done.
    cbn -[read_exact]. by rewrite (read_exact_app _ bnd).
Qed.

Lemma connect_sound target user c c' :
  connect target user c = (Ok (), c') →
  ∃ sent recv reply, Negotiated user sent recv ∧ Replied reply ∧
    inp c = recv ++ reply ++ inp c' ∧ out c' = out c ++ sent ++ connect_request target.
Proof.
  intros E. unfold connect in E. io_inv. destruct x, x1.
  match goal with X : negotiate _ _ = _ |- _ => apply negotiate_sound in X as (sent & recv & N & I & O) end.
  apply read_reply_sound in E as (reply & R & I' & O').
  exists sent, recv, reply. split; [done|]. split; [done|]. split; [congruence|].
  rewrite O'. match goal with X : out x2 = _ |- _ => rewrite X end. rewrite O. by rewrite <- app_assoc.
Qed.

(** What a handshake under a user name may put on the wire, cut off anywhere: the
    greeting, the name if the proxy asks for it, the CONNECT request. *)
Definition says (target : SocketAddr) (user said : list Z) : Prop :=
  ∃ auth, (auth = [] ∨ (length user ≤ 255)%nat ∧ auth = [1; Z.of_nat (length user)] ++ user ++ [0]) ∧
    said `prefix_of` [5; 2; 0; 2] ++ auth ++ connect_request target.
Lemma write_all_out bs c : out (write_all bs c).2 = out c ∨ out (write_all bs c).2 = out c ++ bs.
Proof. unfold write_all. case_match; auto. Qed.
Lemma read_exact_out n c : out (read_exact n c).2 = out c.
Proof. unfold read_exact. by case_match. Qed.
(** Computations that only read. *)
Definition mute {A} (m : IO A) : Prop := ∀ c, out (m c).2 = out c.
Lemma mute_bind {A B} (m : IO A) (f : A → IO B) : mute m → (∀ a, mute (f a)) → mute (m ≫= f).
Proof.
  intros M F c. unfold mbind, io_bind. specialize (M c). destruct (m c) as [[a|e] c']; [|done].
  etrans; [apply F|exact M].
Qed.
Lemma read_reply_mute : mute read_reply.
Proof.
  apply mute_bind; [intros c; apply read_exact_out|]. intros [|v [|rep [|r [|atyp [|]]]]]; try done.
  do 2 (case_match; [done|]). apply mute_bind.
  - unfold bnd_len. do 3 (case_match; try done). apply mute_bind; [intros c; apply read_exact_out|].
    by intros [|? [|]].
  - intros n. apply mute_bind; [intros c; apply read_exact_out|done].
Qed.
Lemma negotiate_says user c :
  ∃ said, out (negotiate (Some user) c).2 = out c ++ said ∧
    (said `prefix_of` [5; 2; 0; 2] ∨
     (length user ≤ 255)%nat ∧ said = [5; 2; 0; 2] ++ [1; Z.of_nat (length user)] ++ user ++ [0]).
Proof.
  unfold negotiate, mbind, io_bind, VER, M_NOAUTH, M_USERPASS.
  destruct (write_all [5; 2; 0; 2] c) as [[u|e] c1] eqn:W; pose proof (write_all_out [5; 2; 0; 2] c) as O;
    rewrite W in O; cbn [snd] in *.
  2: { destruct O as [->| ->].
       - exists []. rewrite app_nil_r. split; [done|]. left. apply prefix_nil.
       - eexists. split; [done|]. by left. }
  apply write_all_Ok in W as (_ & _ & O1 & _). clear O.
  pose proof (read_exact_out 2 c1) as O2. destruct (read_exact 2 c1) as [[sel|e] c2]; cbn [snd] in *.
  2: { rewrite O2, O1. by eexists; split; [done|left]. }
  assert (Stop : ∃ said, out c2 = out c ++ said ∧ (said `prefix_of` [5; 2; 0; 2] ∨ (length user ≤ 255)%nat ∧
    said = [5; 2; 0; 2] ++ [1; Z.of_nat (length user)] ++ user ++ [0]))
    by (rewrite O2, O1; by eexists; split; [done|left]).
  destruct sel as [|v [|m [|]]]; try exact Stop. do 2 (case_match; [exact Stop|]). case_match; [|by case_match].
  unfold userpass_auth. destruct (Nat.ltb_spec 255 (length user)) as [|L]; [exact Stop|].
  unfold mbind, io_bind. set (auth := [1; Z.of_nat (length user)] ++ user ++ [0]).
  destruct (write_all auth c2) as [[[]|e] c3] eqn:W; pose proof (write_all_out auth c2) as O;
    rewrite W in O; cbn [snd] in *.
  2: { destruct O as [->| ->]; [exact Stop|]. rewrite O2, O1, <- app_assoc. eexists; split; [done|]. by right. }
  apply write_all_Ok in W as (_ & _ & O3 & _).
  assert (out c3 = out c ++ [5; 2; 0; 2] ++ auth) as O4 by (rewrite O3, O2, O1; by rewrite <- app_assoc).
  pose proof (read_exact_out 2 c3) as O5. unfold bail, mret, io_ret.
  destruct (read_exact 2 c3) as [[rep|e] c4]; cbn [snd] in *;
    [|rewrite O5, O4; eexists; split; [done|by right]].
  destruct rep as [|? [|? [|]]]; cbn [snd]; repeat case_match; cbn [snd]; rewrite O5, O4;
    (eexists; split; [done|by right]).
Qed.
Lemma connect_says target user c :
  ∃ said, out (connect target (Some user) c).2 = out c ++ said ∧ says target user said.
Proof.
  unfold connect, mbind, io_bind. destruct (negotiate_says user c) as (s1 & O1 & S1).
  assert (Cut : says target user s1).
  { destruct S1 as [P|[L ->]]; [exists []|eexists]; (split; [auto|]).
    - etrans; [exact P|]. by apply prefix_app_r.
    - exists (connect_request target). by rewrite <- !app_assoc. }
  pose proof (negotiate_sound (Some user) c) as N.
  destruct (negotiate (Some user) c) as [[[]|e] c1]; cbn [snd] in *; [|by exists s1].
  destruct (N c1 eq_refl) as (sent & recv & Ng & _ & O1'). clear N.
  assert (s1 = sent) as -> by (rewrite O1 in O1'; by apply app_inv_head in O1').
  pose proof (write_all_out (connect_request target) c1) as W.
  destruct (write_all (connect_request target) c1) as [[[]|e] c2]; cbn [snd] in *.
  2: { destruct W as [->| ->]; [by exists sent|]. rewrite O1, <- app_assoc. eexists; split; [done|].
       inversion Ng; subst; [exists []|eexists]; (split; [auto|]); by rewrite <- ?app_assoc. }
  rewrite read_reply_mute. destruct W as [->| ->]; [by exists sent|]. rewrite O1, <- app_assoc.
  eexists; split; [done|]. inversion Ng; subst; [exists []|eexists]; (split; [auto|]); by rewrite <- ?app_assoc.
Qed.

(** C35. The SOCKS5 client speaks the protocol exactly.  A handshake succeeds only
    if the proxy's bytes are a method selection the client offered (with the
    positive answer to the RFC 1929 exchange if that was selected) and a positive
    CONNECT reply; the client has then written the greeting, the user name if
    asked for it, and the CONNECT request for the target, and has read nothing
    past the reply, so the stream stands at the first tunnelled byte.  Any such
    exchange does succeed. *)
Theorem socks_connect_exact target user rest c :
  (∀ c', connect target user c = (Ok (), c') →
     ∃ sent recv reply, Negotiated user sent recv ∧ Replied reply ∧
       inp c = recv ++ reply ++ inp c' ∧ out c' = out c ++ sent ++ connect_request target) ∧
  (∀ sent recv reply, Negotiated user sent recv → Replied reply →
     inp c = recv ++ reply ++ rest → (3 ≤ wleft c)%nat →
     ∃ c', connect target user c = (Ok (), c') ∧ inp c' = rest).
Proof.
  split.
  - intros c'. apply connect_sound.
  - intros sent recv reply N R I W. destruct c as [i o w]; cbn in *. subst i.
    destruct (negotiate_complete user sent recv (reply ++ rest) o w N ltac:(lia)) as (w' & L & E).
    destruct w' as [|w']; [lia|]. unfold connect, mbind, io_bind. rewrite E. cbn -[read_reply].
    rewrite (read_reply_complete reply rest) by done. by eexists.
Qed.

End Socks.

(** ** Length-prefixed DNS messages *)
Module DotClient.

Definition MAX_MESSAGE : Z := 65535.

Definition write_message (msg : list Z) : IO unit :=
  if MAX_MESSAGE <? Z.of_nat (length msg) then bail "DoT: query too large"
  else
    _ ← write_all (to_be16 (Z.of_nat (length msg)));
    _ ← write_all msg;
    flush.

Definition read_message : IO (list Z) :=
  len_buf ← read_exact 2;
  match len_buf with
  | [hi; lo] =>
      let len := from_be16 hi lo in
      if len <? 12 then bail "DoT: response too short"
      else read_exact (Z.to_nat len)
  | _ => bail "DoT: read response"
  end.

(** One exchange; [timed_out] says whether the deadline cut it off. *)
Definition exchange_dot (timed_out : bool) (query : list Z) : IO (list Z) := λ c,
  let '(r, c') := (_ ← write_message query; read_message) c in
  if timed_out then (Err "DoT exchange timed out", c') else (r, c').

(** [rustls]: which names are server names, and what becomes of a stream in the
    handshake with the holder of a certificate for that name. *)
Section Tls.
Context (is_server_name : string → bool) (tls_connect : string → Chan → result Chan).
Definition tls_handshake (stream : Chan) (tls_name : string) : result Chan :=
  if is_server_name tls_name then
    match tls_connect tls_name stream with Ok tls => Ok tls | Err _ => Err "DoT: TLS handshake" end
  else Err "DoT: invalid TLS server name".
Definition query_dot_inner (stream : Chan) (tls_name : string) (query : list Z) : result (list Z) :=
  tls ← tls_handshake stream tls_name;
  ((_ ← write_message query; read_message) tls).1.
Definition query_dot (timed_out : bool) (stream : Chan) (tls_name : string) (query : list Z) : result (list Z) :=
  if timed_out then Err "DoT query timed out" else query_dot_inner stream tls_name query.

(** A query on a connection of its own is a handshake followed by one exchange on the
    stream it leaves; nothing is sent in the clear, and no answer comes from a
    server whose handshake failed. *)
Lemma query_dot_exchange timed_out stream tls_name query msg :
  query_dot timed_out stream tls_name query = Ok msg ↔
  timed_out = false ∧ ∃ tls, is_server_name tls_name = true ∧ tls_connect tls_name stream = Ok tls ∧
    (exchange_dot false query tls).1 = Ok msg.
Proof.
  unfold query_dot, query_dot_inner, tls_handshake, exchange_dot.
  destruct timed_out; [by split; [|intros [? _]]|]. destruct (is_server_name tls_name) eqn:N; cbn.
  2: { split; [done|]. intros (_ & tls & ? & _). done. }
  destruct (tls_connect tls_name stream) as [tls|e] eqn:C; cbn.
  2: { split; [done|]. intros (_ & tls & _ & ? & _). done. }
  destruct ((_ ← write_message query; read_message) tls) as [r c] eqn:E. cbn. split.
  - intros ->. split; [done|]. exists tls. by rewrite E.
  - intros (_ & tls' & _ & [= <-] & R). by rewrite E in R.
Qed.
End Tls.

Lemma read_message_min c msg c' : read_message c = (Ok msg, c') → (12 ≤ length msg)%nat.
Proof.
  intros E. unfold read_message in E. Socks.io_inv.
  match goal with X : (_ <? 12) = false |- _ => apply Z.ltb_ge in X end. lia.
Qed.

Lemma read_message_inp c msg c' :
  read_message c = (Ok msg, c') → ∃ hi lo, from_be16 hi lo = Z.of_nat (length msg) ∧ inp c = [hi; lo] ++ msg ++ inp c'.
Proof.
  intros E. unfold read_message in E. Socks.io_inv. bool_inv.
  eexists _, _. split; [|match goal with X : inp c = _ |- _ => rewrite X end; cbn; by f_equal; f_equal].
  match goal with X : length msg = _ |- _ => rewrite X end. rewrite Z2Nat.id; [done|lia].
Qed.

Lemma write_message_Ok msg c c' :
  write_message msg c = (Ok (), c') ↔
  Z.of_nat (length msg) ≤ MAX_MESSAGE ∧ wleft c = (3 + wleft c')%nat ∧ inp c' = inp c ∧
  out c' = out c ++ to_be16 (Z.of_nat (length msg)) ++ msg.
Proof.
  unfold write_message. destruct (Z.ltb_spec MAX_MESSAGE (Z.of_nat (length msg))) as [|U]; [split; [done|lia]|].
  destruct c as [i o [|[|[|n]]]], c' as [i' o' n']; cbn; split; try (by intros; simplify_eq); try lia.
  - intros [= -> <- ->]. split_and!; [done..|]. by rewrite app_nil_r, <- app_assoc.
  - intros (_ & [= ->] & -> & ->). unfold mbind, io_bind, flush, write_all. cbn. by rewrite app_nil_r, <- app_assoc.
Qed.
Lemma read_message_complete msg rest o w :
  12 ≤ Z.of_nat (length msg) → Z.of_nat (length msg) ≤ MAX_MESSAGE →
  read_message {| inp := (to_be16 (Z.of_nat (length msg)) ++ msg) ++ rest; out := o; wleft := w |} =
    (Ok msg, {| inp := rest; out := o; wleft := w |}).
Proof.
  intros L U. rewrite <- app_assoc. unfold read_message, mbind, io_bind.
  rewrite (Socks.read_exact_app 2) by done.
  unfold to_be16. rewrite from_to_be16. destruct (Z.ltb_spec (Z.of_nat (length msg)) 12); [lia|].
  apply Socks.read_exact_app. lia.
Qed.

Lemma exchange_dot_inp timed_out query c msg :
  (exchange_dot timed_out query c).1 = Ok msg →
  ∃ hi lo rest, from_be16 hi lo = Z.of_nat (length msg) ∧ inp c = [hi; lo] ++ msg ++ rest.
Proof.
  unfold exchange_dot. destruct ((_ ← write_message query; read_message) c) as [r c'] eqn:E.
  destruct timed_out; [done|]. cbn. intros ->. apply io_bind_Ok in E as ([] & c1 & W & R).
  apply write_message_Ok in W as (_ & _ & I & _). apply read_message_inp in R as (hi & lo & L & I').
  exists hi, lo, (inp c'). split; [done|]. by rewrite <- I.
Qed.

(** The framing is a round trip: the bytes a message of at least a header's
    size is written as are read back, by any reader, as that message, from a stream
    that then stands right behind it.  The writer accepts nothing above 65535
    bytes. *)
Theorem framing_roundtrip msg c c1 :
  write_message msg c = (Ok (), c1) → 12 ≤ Z.of_nat (length msg) →
  Z.of_nat (length msg) ≤ 65535 ∧
  ∃ bytes, out c1 = out c ++ bytes ∧
    ∀ rest o w, read_message {| inp := bytes ++ rest; out := o; wleft := w |} =
                  (Ok msg, {| inp := rest; out := o; wleft := w |}).
Proof.
  intros (U & _ & _ & Eo)%write_message_Ok L. split; [done|]. eexists. split; [exact Eo|].
  intros rest o w. by apply read_message_complete.
Qed.
End DotClient.

(** ** Examples *)
Definition ex_chan (i : list Z) : Chan := {| inp := i; out := []; wleft := 10 |}.

(** A proxy that selects user/password, accepts, and binds 127.0.0.1:9050; the
    tunnelled bytes [[1; 2; 3]] are left in place. *)
Lemma socks_connect_exact_witness :
  ∃ c', Socks.connect {| sa_ip := V4 [9; 9; 9; 9]; sa_port := 853 |} (Some [99; 111; 109])
    (ex_chan ([5; 2] ++ [1; 0] ++ [5; 0; 0; 1; 127; 0; 0; 1; 35; 90] ++ [1; 2; 3])) = (Ok (), c') ∧
    inp c' = [1; 2; 3].
Proof.
  apply (Socks.socks_connect_exact _ _ [1; 2; 3]
    (ex_chan ([5; 2] ++ [1; 0] ++ [5; 0; 0; 1; 127; 0; 0; 1; 35; 90] ++ [1; 2; 3])))
    with (sent := [5; 2; 0; 2] ++ [1; 3] ++ [99; 111; 109] ++ [0]) (recv := [5; 2] ++ [1; 0])
         (reply := [5; 0; 0; 1] ++ [127; 0; 0; 1; 35; 90]).
  - apply (Socks.Neg_userpass [99; 111; 109]). cbn. lia.
  - by apply Socks.Rep_v4.
  - reflexivity.
  - cbn. lia.
Defined.

(** A proxy that picks NO-AUTH although a user name was given is accepted, and the
    user name never reaches it. *)
Lemma username_not_sent :
  let r := Socks.connect {| sa_ip := V4 [9; 9; 9; 9]; sa_port := 853 |} (Some [99; 111; 109])
             (ex_chan ([5; 0] ++ [5; 0; 0; 1; 127; 0; 0; 1; 35; 90])) in
  r.1 = Ok () ∧ out r.2 = [5; 2; 0; 2] ++ [5; 1; 0; 1; 9; 9; 9; 9; 3; 85].
Proof. vm_compute. done. Qed.

Lemma framing_roundtrip_witness :
  let msg := [1; 2; 3; 4; 5; 6; 7; 8; 9; 10; 11; 12] in
  ∃ bytes, out (DotClient.write_message msg (ex_chan [])).2 = [] ++ bytes ∧
    ∀ rest o w, DotClient.read_message {| inp := bytes ++ rest; out := o; wleft := w |} =
                  (Ok msg, {| inp := rest; out := o; wleft := w |}).
Proof.
  apply (DotClient.framing_roundtrip [1; 2; 3; 4; 5; 6; 7; 8; 9; 10; 11; 12] (ex_chan [])
    (DotClient.write_message [1; 2; 3; 4; 5; 6; 7; 8; 9; 10; 11; 12] (ex_chan [])).2).
  - reflexivity.
  - cbn. lia.
Defined.
