(* ===== verification/Forwarder.v ===== *)
(** * Upstream queries ([recursor/forwarder.rs], [recursor/dot_pool.rs], and the
    forwarder part of [config.rs])

    Which servers a name is forwarded to, how a query is rewritten and its
    response checked, and the three transports: UDP with TCP fallback, DNS over
    TLS, and DNS over TLS inside a SOCKS5 tunnel.  A [UWorld] answers the network;
    every use of it leaves an event in the trace. *)
From Stdlib Require Import Sorted.
From S2P Require Import Prelude Hickory Reference Net ZeroX20 LocalZones Tunnel.

(** ** Server lists in the configuration *)
Module ForwarderCfg.

Inductive Transport : Type := Udp | Tcp | Dot.
Inductive Via : Type := Direct | Tor.
#[export] Instance Transport_eq_dec : EqDecision Transport.
Proof. solve_decision. Defined.
#[export] Instance Via_eq_dec : EqDecision Via.
Proof. solve_decision. Defined.

Record ForwarderServer := {
  address : IpAddr; transport : Transport; tls_name : option string; via : Via }.
(** A bare address, or a full mapping. *)
Inductive ServerSpec : Type := Bare (ip : IpAddr) | Full (f : ForwarderServer).
Record Forwarder := { domain : string; servers : list ServerSpec }.

Definition normalise (spec : ServerSpec) : ForwarderServer :=
  match spec with
  | Bare ip => {| address := ip; transport := Udp; tls_name := None; via := Direct |}
  | Full f => f
  end.
Definition check_server (srv : ForwarderServer) : result ForwarderServer :=
  if bool_decide (transport srv = Dot) && bool_decide (tls_name srv = None)
  then Err "transport: dot but no tls_name"
  else if bool_decide (transport srv = Tcp) then Err "transport: tcp is not yet wired"
  else if bool_decide (via srv = Tor) && bool_decide (transport srv ≠ Dot)
  then Err "via: tor requires transport: dot"
  else Ok srv.
Fixpoint check_servers (specs : list ServerSpec) : result (list ForwarderServer) :=
  match specs with
  | [] => Ok []
  | spec :: specs' =>
      srv ← check_server (normalise spec);
      rest ← check_servers specs';
      Ok (srv :: rest)
  end.
Definition resolved_servers (f : Forwarder) : result (list ForwarderServer) :=
  out ← check_servers (servers f);
  let any_tor := existsb (λ s, bool_decide (via s = Tor)) out in
  let any_direct := existsb (λ s, bool_decide (via s = Direct)) out in
  if any_tor && any_direct then Err "mixes via: tor and via: direct servers"
  else Ok out.

(** What the configuration layer guarantees about a loaded list. *)
Definition supported (s : ForwarderServer) : Prop :=
  (transport s = Udp ∧ via s = Direct) ∨ (transport s = Dot ∧ is_Some (tls_name s)).

Lemma check_server_Ok srv srv' : check_server srv = Ok srv' → srv' = srv ∧ supported srv.
Proof.
  unfold check_server, supported.
  destruct srv as [a [] [t|] []]; cbn; intros [= <-]; split; eauto; right; eauto.
Qed.
Lemma check_servers_Ok specs out :
  check_servers specs = Ok out → out = map normalise specs ∧ Forall supported out.
Proof.
  revert out. induction specs as [|s specs IH]; intros out; cbn; [by intros [= <-]|].
  rewrite result_bind_Ok. intros (srv & [-> S]%check_server_Ok & E).
  apply result_bind_Ok in E as (rest & [-> R]%IH & [= <-]). by split; [|constructor].
Qed.
Lemma resolved_servers_Ok f out :
  resolved_servers f = Ok out →
  out = map normalise (servers f) ∧ Forall supported out ∧
  (Forall (λ s, via s = Tor) out ∨ Forall (λ s, via s = Direct) out).
Proof.
  unfold resolved_servers. rewrite result_bind_Ok. intros (l & [-> S]%check_servers_Ok & E).
  set (o := map normalise (servers f)) in *.
  destruct (existsb (λ s, bool_decide (via s = Tor)) o) eqn:T;
    [destruct (existsb (λ s, bool_decide (via s = Direct)) o) eqn:D|]; cbn in E; simplify_eq;
    (split; [done|]); (split; [done|]); rewrite !Forall_forall; [left|right]; intros s Hs.
  - destruct (via s) eqn:V; [|done]. rewrite <- not_true_iff_false, existsb_exists in D. exfalso. apply D.
    exists s. by rewrite V, list_elem_of_In in *.
  - destruct (via s) eqn:V; [done|]. rewrite <- not_true_iff_false, existsb_exists in T. exfalso. apply T.
    exists s. by rewrite V, list_elem_of_In in *.
Qed.
End ForwarderCfg.

(** ** The forwarder table *)
Module Forwarders.
Import ForwarderCfg.
Section Forwarders.
Context `{NameOps} (display : Name → string).

Record ForwarderEntry := { e_domain : Name; domain_str : string; e_servers : list ForwarderServer }.

Definition entry_of (c : Forwarder) : result ForwarderEntry :=
  d ← ok_or "bad forwarder domain" (from_ascii (domain c));
  let d := to_lowercase (set_fqdn d true) in
  ss ← resolved_servers c;
  Ok {| e_domain := d; domain_str := display d; e_servers := ss |}.
Fixpoint entries_of (cs : list Forwarder) : result (list ForwarderEntry) :=
  match cs with
  | [] => Ok []
  | c :: cs' => e ← entry_of c; rest ← entries_of cs'; Ok (e :: rest)
  end.

(** [sort_by_key(|e| Reverse(num_labels))]: stable, longest first. *)
Fixpoint insert_entry (e : ForwarderEntry) (l : list ForwarderEntry) : list ForwarderEntry :=
  match l with
  | [] => [e]
  | x :: l' =>
      if (num_labels (e_domain x) <=? num_labels (e_domain e))%nat then e :: l
      else x :: insert_entry e l'
  end.
Definition sort_entries (l : list ForwarderEntry) : list ForwarderEntry := foldr insert_entry [] l.

Definition new (configs : list Forwarder) : result (list ForwarderEntry) :=
  es ← entries_of configs; Ok (sort_entries es).

Definition is_suffix (name suffix : Name) : bool :=
  if (num_labels name <? num_labels suffix)%nat then false else zone_of suffix name.

Definition lookup_with_domain (es : list ForwarderEntry) (qname : Name)
  : option (string * list ForwarderServer) :=
  let lq := to_lowercase qname in
  e ← List.find (λ e, is_suffix lq (e_domain e)) es;
  Some (domain_str e, e_servers e).

(** ** Longest match *)

Lemma insert_entry_perm e l : insert_entry e l ≡ₚ e :: l.
Proof.
  induction l as [|x l IH]; cbn; [done|]. case_match; [done|]. rewrite IH. constructor.
Qed.
Lemma sort_entries_perm l : sort_entries l ≡ₚ l.
Proof.
  induction l as [|e l IH]; cbn; [done|]. by rewrite insert_entry_perm, IH.
Qed.

(** Longest first. *)
Definition by_length (a b : ForwarderEntry) : Prop :=
  (num_labels (e_domain b) ≤ num_labels (e_domain a))%nat.
Lemma insert_entry_sorted e l :
  StronglySorted by_length l → StronglySorted by_length (insert_entry e l).
Proof.
  induction 1 as [|x l S IH F]; cbn; [repeat constructor|].
  destruct (Nat.leb_spec (num_labels (e_domain x)) (num_labels (e_domain e))) as [L|L].
  - constructor; [by constructor|]. constructor; [done|].
    eapply Forall_impl; [exact F|]. unfold by_length. intros ? ?. lia.
  - constructor; [done|]. rewrite insert_entry_perm. constructor; [unfold by_length; lia|done].
Qed.
Lemma sort_entries_sorted l : StronglySorted by_length (sort_entries l).
Proof. induction l; cbn; [constructor|by apply insert_entry_sorted]. Qed.

Lemma find_sorted es f e :
  StronglySorted by_length es → List.find f es = Some e →
  e ∈ es ∧ f e = true ∧ ∀ e', e' ∈ es → f e' = true → by_length e e'.
Proof.
  induction 1 as [|x l S IH F]; cbn; [done|]. destruct (f x) eqn:X.
  - intros [= <-]. split; [left|]. split; [done|]. intros e' [->|E']%elem_of_cons _; [unfold by_length; lia|].
    rewrite Forall_forall in F. by apply F.
  - intros E. apply IH in E as (I & T & B). split; [by right|]. split; [done|].
    intros e' [->|E']%elem_of_cons T'; [congruence|]. by apply B.
Qed.

Lemma entries_of_elem cs es e :
  entries_of cs = Ok es → e ∈ es ↔ ∃ c, c ∈ cs ∧ entry_of c = Ok e.
Proof.
  revert es. induction cs as [|c cs IH]; intros es; cbn.
  { intros [= <-]. split; [by intros ?%not_elem_of_nil|]. by intros (c & ?%not_elem_of_nil & _). }
  rewrite result_bind_Ok. intros (e0 & E0 & R). apply result_bind_Ok in R as (rest & R & [= <-]).
  setoid_rewrite elem_of_cons. rewrite (IH _ R). split.
  - intros [->|(c' & C & E)]; [exists c; by split; [left|]|exists c'; by split; [right|]].
  - intros (c' & [->|C] & E); [left; congruence|right; eauto].
Qed.

End Forwarders.
End Forwarders.

(** ** The DoT connection pool *)
Module DotPool.
Import ForwarderCfg.

Definition IDLE_CAP : Z := from_secs 30.
Definition MAX_LIFETIME : Z := from_secs 300.
Definition MAX_PER_KEY : nat := 4.

Record DotConnKey := {
  resolver : SocketAddr; k_tls_name : string; k_via : Via;
  tor_socks : option SocketAddr; iso_user : option string }.
#[export] Instance DotConnKey_eq_dec : EqDecision DotConnKey.
Proof. solve_decision. Defined.
#[export] Instance DotConnKey_countable : Countable DotConnKey.
Proof.
  refine (inj_countable'
    (λ k, (resolver k, k_tls_name k, bool_decide (k_via k = Tor), tor_socks k, iso_user k))
    (λ p, {| resolver := p.1.1.1.1; k_tls_name := p.1.1.1.2;
             k_via := if p.1.1.2 : bool then Tor else Direct; tor_socks := p.1.2; iso_user := p.2 |}) _).
  by intros [? ? [] ? ?].
Defined.

Section DotPool.
Context {S : Type}.

Record DotConn := { stream : S; created_at : Z; last_used : Z }.
Definition conn_new (now : Z) (s : S) : DotConn :=
  {| stream := s; created_at := now; last_used := now |}.
(** [Instant::duration_since], which saturates. *)
Definition duration_since (now earlier : Z) : Z := Z.max 0 (now - earlier).
Definition is_stale (now : Z) (c : DotConn) : bool :=
  (IDLE_CAP <=? duration_since now (last_used c)) || (MAX_LIFETIME <=? duration_since now (created_at c)).

(** A bucket is a stack: the head is the last connection pushed. *)
Definition Pool : Type := gmap DotConnKey (list DotConn).
Definition pool_new : Pool := ∅.

Fixpoint pop_fresh (now : Z) (bucket : list DotConn) : option DotConn * list DotConn :=
  match bucket with
  | [] => (None, [])
  | c :: rest => if negb (is_stale now c) then (Some c, rest) else pop_fresh now rest
  end.
Definition take (now : Z) (key : DotConnKey) (p : Pool) : option DotConn * Pool :=
  match p !! key with
  | None => (None, p)
  | Some bucket =>
      match pop_fresh now bucket with
      | (Some c, rest) => (Some c, <[key := rest]> p)
      | (None, _) => (None, delete key p)
      end
  end.
Definition release (now : Z) (key : DotConnKey) (c : DotConn) (p : Pool) : Pool :=
  let c := {| stream := stream c; created_at := created_at c; last_used := now |} in
  if is_stale now c then p
  else
    let bucket := default [] (p !! key) in
    if (MAX_PER_KEY <=? length bucket)%nat then <[key := bucket]> p
    else <[key := c :: bucket]> p.
Definition sweep (now : Z) (p : Pool) : Pool :=
  filter (λ e, e.2 ≠ []) (List.filter (λ c, negb (is_stale now c)) <$> p).

(** ** Buckets *)

(** No bucket is over-full, and every connection satisfies what its key asks. *)
Definition pool_ok (P : DotConnKey → S → Prop) (p : Pool) : Prop :=
  map_Forall (λ k b, (length b ≤ MAX_PER_KEY)%nat ∧ Forall (λ c, P k (stream c)) b) p.

Lemma pop_fresh_spec now bucket o rest :
  pop_fresh now bucket = (o, rest) →
  (∃ dropped, bucket = dropped ++ (match o with Some c => [c] | None => [] end) ++ rest ∧
     Forall (λ c, is_stale now c = true) dropped) ∧
  match o with Some c => is_stale now c = false | None => rest = [] end.
Proof.
  revert o rest. induction bucket as [|c b IH]; intros o rest; cbn.
  { intros [= <- <-]. split; [|done]. by exists []. }
  destruct (is_stale now c) eqn:St; cbn.
  - intros E. apply IH in E as [(d & -> & F) L]. split; [|done]. exists (c :: d). by split; [|constructor].
  - intros [= <- <-]. split; [|done]. by exists [].
Qed.

Lemma take_ok P now key p o p' :
  pool_ok P p → take now key p = (o, p') →
  pool_ok P p' ∧ ∀ c, o = Some c → is_stale now c = false ∧ P key (stream c).
Proof.
  intros OK. unfold take. destruct (p !! key) as [b|] eqn:K; [|by intros [= <- <-]].
  pose proof (OK _ _ K) as [L F].
  destruct (pop_fresh now b) as [o' rest] eqn:E. apply pop_fresh_spec in E as [(d & -> & _) St].
  destruct o' as [c|]; intros [= <- <-].
  - rewrite !Forall_app in F. destruct F as (_ & [Pc _]%Forall_cons & Fr). split.
    + apply map_Forall_insert_2; [|done]. rewrite !length_app in L. cbn in L. split; [lia|done].
    + by intros c' [= <-].
  - split; [|done]. by apply map_Forall_delete.
Qed.
Lemma release_ok P now key c p : pool_ok P p → P key (stream c) → pool_ok P (release now key c p).
Proof.
  intros OK Pc. unfold release. case_match; [done|].
  assert ((length (default [] (p !! key)) ≤ MAX_PER_KEY)%nat ∧
          Forall (λ c, P key (stream c)) (default [] (p !! key))) as [L F].
  { destruct (p !! key) as [b|] eqn:K; cbn; [by apply (OK _ _ K)|]. split; [lia|constructor]. }
  destruct (Nat.leb_spec MAX_PER_KEY (length (default [] (p !! key)))) as [|L'];
    apply map_Forall_insert_2; try done.
  cbn [length]. split; [lia|by constructor].
Qed.
Lemma sweep_ok P now p : pool_ok P p → pool_ok P (sweep now p).
Proof.
  intros OK k b [Hb _]%map_lookup_filter_Some. apply lookup_fmap_Some in Hb as (b' & <- & Hb').
  specialize (OK _ _ Hb') as [L F]. split.
  - etrans; [|exact L]. clear. induction b' as [|c b' IH]; cbn; [lia|]. destruct (negb _); cbn; lia.
  - rewrite Forall_forall in *. intros c Hc. apply list_elem_of_In, filter_In in Hc as [Hc _].
    by apply F, list_elem_of_In.
Qed.
Lemma sweep_fresh now p k b c : sweep now p !! k = Some b → c ∈ b → is_stale now c = false.
Proof.
  intros [Hb _]%map_lookup_filter_Some Hc. apply lookup_fmap_Some in Hb as (b' & <- & _).
  apply list_elem_of_In, filter_In in Hc as [_ Hc]. by apply negb_true_iff.
Qed.
End DotPool.
Arguments DotConn _ : clear implicits.
Arguments Pool _ : clear implicits.
End DotPool.

(** ** The upstream client *)
Module Upstream.
Import ForwarderCfg DotPool.

Definition MAX_TCP_MESSAGE : Z := 65535.
Definition DOT_PORT : Z := 853.

(** An established TLS stream, known by how it was reached: the address the first
    TCP leg went to, the SOCKS request made on it (its target, the bytes written, the
    bytes the proxy answered), the TLS name verified. *)
Record Stream := {
  s_id : nat; s_target : SocketAddr; s_tunnel : option (SocketAddr * list Z * list Z); s_tls : string }.

(** What the client does to the network. *)
Inductive Event : Type :=
| EUdp (peer : SocketAddr) (wire : list Z)
| ETcp (peer : SocketAddr) (wire : list Z)
| EConnect (target : SocketAddr) (source : option IpAddr)
| ESocks (proxy target : SocketAddr) (said : list Z)
| EDot (s : Stream) (wire : list Z).

Record UWorld := {
  u_instant : nat → Z; u_txid : nat → Z; u_coin : nat → nat → bool;
  u_udp : nat → SocketAddr → list Z → result (list Z * SocketAddr);
  u_tcp : nat → SocketAddr → list Z → result (list Z);
  u_connect : nat → SocketAddr → result unit;
  u_proxy : nat → Chan;
  u_tls : nat → string → result unit;
  u_dot : nat → Stream → Chan;
  u_cut : nat → bool }.
Record USt := { pool : Pool Stream; utick : nat; trace : list Event }.
Record UpstreamClient := {
  source_v4 : option Ipv4Addr; source_v6 : option Ipv6Addr; c_tor_socks : option SocketAddr }.

Section Upstream.
Context `{NameOps} {HK : Hickory} (self : UpstreamClient) (w : UWorld).

Definition utock (st : USt) : USt := {| pool := pool st; utick := S (utick st); trace := trace st |}.
Definition emit (e : Event) (st : USt) : USt :=
  {| pool := pool st; utick := S (utick st); trace := trace st ++ [e] |}.
Definition set_pool (p : Pool Stream) (st : USt) : USt :=
  {| pool := p; utick := S (utick st); trace := trace st |}.

(** *** Preparing a query and accepting its response *)

Record Prepared := { wire : list Z; upstream_txid : Z; qname_mask : list Z; client_txid : Z }.

(** [wire[0..2].copy_from_slice(&txid.to_be_bytes())]; a message that parsed has
    its twelve header bytes. *)
Definition put_txid (txid : Z) (bytes : list Z) : list Z := to_be16 txid ++ drop 2 bytes.

Definition build (orig_query : list Z) (st : USt) : result Prepared * USt :=
  (orig_msg ← ok_or "parse client query" (from_bytes orig_query);
   let txid := u_txid w (utick st) in
   '(wire, mask) ← ZeroX20.encode (u_coin w (utick st)) (put_txid txid orig_query);
   Ok {| wire := wire; upstream_txid := txid; qname_mask := mask;
         client_txid := id (metadata orig_msg) |}, utock st).

Definition finalize (resp : list Z) (txid : Z) : result (list Z) :=
  parsed ← ok_or "parse upstream response for normalisation" (from_bytes resp);
  let parsed := Normalize.lowercase_response_names parsed in
  let parsed := set_id txid parsed in
  ok_or "re-encode normalised forwarder response" (to_vec parsed).

(** The checks every transport makes: header present, our TXID, our question. *)
Definition verify_response (resp : list Z) (txid : Z) (mask : list Z) : result unit :=
  if (length resp <? 12)%nat then Err "short upstream response"
  else
    match resp with
    | hi :: lo :: _ =>
        if negb (from_be16 hi lo =? txid) then Err "upstream TXID mismatch"
        else ZeroX20.verify resp mask
    | _ => Err "short upstream response"
    end.
Definition verify_dot_response (resp : list Z) (p : Prepared) : result unit :=
  verify_response resp (upstream_txid p) (qname_mask p).

Definition source_for (peer : SocketAddr) : option IpAddr :=
  match sa_ip peer with
  | V4 _ => V4 <$> source_v4 self
  | V6 _ => V6 <$> source_v6 self
  end.

(** *** UDP and TCP *)

Definition query_one_udp (peer : SocketAddr) (p : Prepared) (st : USt) : result (list Z) * USt :=
  ('(resp, from) ← u_udp w (utick st) peer (wire p);
   if negb (bool_decide (sa_ip from = sa_ip peer))
   then Err "upstream UDP response from unexpected address"
   else _ ← verify_response resp (upstream_txid p) (qname_mask p); Ok resp,
   emit (EUdp peer (wire p)) st).
Definition query_one_tcp (peer : SocketAddr) (p : Prepared) (st : USt) : result (list Z) * USt :=
  (resp ← u_tcp w (utick st) peer (wire p);
   if MAX_TCP_MESSAGE <? Z.of_nat (length resp) then Err "oversized upstream TCP response"
   else _ ← verify_response resp (upstream_txid p) (qname_mask p); Ok resp,
   emit (ETcp peer (wire p)) st).

Definition query_one (peer : SocketAddr) (orig_query : list Z) (st : USt) : result (list Z) * USt :=
  let '(rp, st) := build orig_query st in
  match rp with
  | Err e => (Err e, st)
  | Ok prepared =>
      let '(ru, st) := query_one_udp peer prepared st in
      match ru with
      | Err e => (Err e, st)
      | Ok udp_resp =>
          match from_bytes udp_resp with
          | None => (Err "parse UDP response", st)
          | Some parsed =>
              if truncation (metadata parsed) then
                let '(rp2, st) := build orig_query st in
                match rp2 with
                | Err e => (Err e, st)
                | Ok tcp_prepared =>
                    let '(rt, st) := query_one_tcp peer tcp_prepared st in
                    match rt with
                    | Err e => (Err e, st)
                    | Ok resp => (finalize resp (client_txid prepared), st)
                    end
                end
              else (finalize udp_resp (client_txid prepared), st)
          end
      end
  end.

Fixpoint query_loop (servers : list IpAddr) (query : list Z) (last : string) (st : USt)
  : result (list Z) * USt :=
  match servers with
  | [] => (Err last, st)
  | ip :: servers' =>
      let '(r, st) := query_one {| sa_ip := ip; sa_port := 53 |} query st in
      match r with
      | Ok resp => (Ok resp, st)
      | Err e => query_loop servers' query e st
      end
  end.
Definition query (servers : list IpAddr) (q : list Z) (st : USt) : result (list Z) * USt :=
  query_loop servers q "forwarder has no upstream servers" st.

(** *** DNS over TLS *)

Definition user_bytes (u : option string) : option (list Z) := bytes_of_string <$> u.

(** The SOCKS handshake on a connection just made: its outcome, what was written, what
    was read. *)
Definition socks_handshake (key : DotConnKey) (proxy : Chan) : result unit * list Z * list Z :=
  let '(r, c) := Socks.connect (resolver key) (user_bytes (iso_user key))
                   {| inp := inp proxy; out := []; wleft := wleft proxy |} in
  (r, out c, list.take (length (inp proxy) - length (inp c)) (inp proxy)).

(** The connection factory. *)
Definition connect_for (key : DotConnKey) (connect_target : SocketAddr) (st : USt)
  : result Stream * USt :=
  let st1 := emit (EConnect connect_target (source_for connect_target)) st in
  match u_connect w (utick st) connect_target with
  | Err e => (Err e, st1)
  | Ok _ =>
      let handshake tunnel st :=
        match u_tls w (utick st) (k_tls_name key) with
        | Err e => (Err e, utock st)
        | Ok _ => (Ok {| s_id := utick st; s_target := connect_target; s_tunnel := tunnel;
                         s_tls := k_tls_name key |}, utock st)
        end in
      if bool_decide (k_via key = Tor) then
        let '(r, said, heard) := socks_handshake key (u_proxy w (utick st1)) in
        let st2 := emit (ESocks connect_target (resolver key) said) st1 in
        match r with
        | Err e => (Err e, st2)
        | Ok _ => handshake (Some (resolver key, said, heard)) st2
        end
      else handshake None st1
  end.

Definition exchange_on (p : Prepared) (s : Stream) (st : USt) : result (list Z) * USt :=
  (resp ← (DotClient.exchange_dot (u_cut w (utick st)) (wire p) (u_dot w (utick st) s)).1;
   _ ← verify_dot_response resp p;
   Ok resp, emit (EDot s (wire p)) st).

(** A healthy stream goes back to the pool as a new connection. *)
Definition repool (key : DotConnKey) (s : Stream) (st : USt) : USt :=
  let conn := conn_new (u_instant w (utick st)) s in
  let st := utock st in
  set_pool (release (u_instant w (utick st)) key conn (pool st)) st.

(** Build, exchange, pool. *)
Definition fresh_exchange (key : DotConnKey) (connect_target : SocketAddr) (p : Prepared) (st : USt)
  : result (list Z) * USt :=
  let '(rs, st) := connect_for key connect_target st in
  match rs with
  | Err e => (Err e, st)
  | Ok s =>
      let '(r, st) := exchange_on p s st in
      match r with
      | Err e => (Err e, st)
      | Ok resp => (Ok resp, repool key s st)
      end
  end.
Definition exchange_pooled (key : DotConnKey) (connect_target : SocketAddr) (p : Prepared) (st : USt)
  : result (list Z) * USt :=
  let '(o, pl) := take (u_instant w (utick st)) key (pool st) in
  let st := set_pool pl st in
  match o with
  | Some conn =>
      let '(r, st) := exchange_on p (stream conn) st in
      match r with
      | Ok resp => (Ok resp, repool key (stream conn) st)
      | Err _ => fresh_exchange key connect_target p st
      end
  | None => fresh_exchange key connect_target p st
  end.

Definition dot_key (srv : ForwarderServer) (tls : string) (socks : option SocketAddr)
  (forwarder_domain : string) : DotConnKey :=
  {| resolver := {| sa_ip := address srv; sa_port := DOT_PORT |}; k_tls_name := tls; k_via := via srv;
     tor_socks := socks;
     iso_user := if bool_decide (via srv = Tor) then Some forwarder_domain else None |}.

Definition query_one_dot (srv : ForwarderServer) (forwarder_domain : string) (orig_query : list Z)
  (st : USt) : result (list Z) * USt :=
  match tls_name srv with
  | None => (Err "dot server has no tls_name", st)
  | Some tls =>
      let socks := if bool_decide (via srv = Tor) then ok_or "failing closed" (Some <$> c_tor_socks self)
                   else Ok None in
      match socks with
      | Err e => (Err e, st)
      | Ok socks =>
          let key := dot_key srv tls socks forwarder_domain in
          let '(rp, st) := build orig_query st in
          match rp with
          | Err e => (Err e, st)
          | Ok prepared =>
              let connect_target := default (resolver key) socks in
              let '(r, st) := exchange_pooled key connect_target prepared st in
              match r with
              | Err e => (Err e, st)
              | Ok dot_bytes => (finalize dot_bytes (client_txid prepared), st)
              end
          end
      end
  end.

Fixpoint forwarder_loop (servers : list ForwarderServer) (forwarder_domain : string) (q : list Z)
  (last : string) (st : USt) : result (list Z) * USt :=
  match servers with
  | [] => (Err last, st)
  | srv :: servers' =>
      let '(r, st) :=
        match transport srv, via srv with
        | Udp, Direct => query_one {| sa_ip := address srv; sa_port := 53 |} q st
        | Dot, _ => query_one_dot srv forwarder_domain q st
        | _, _ => (Err "unsupported transport/via combination reached query path", st)
        end in
      match r with
      | Ok resp => (Ok resp, st)
      | Err e => forwarder_loop servers' forwarder_domain q e st
      end
  end.
Definition query_forwarder (servers : list ForwarderServer) (forwarder_domain : string) (q : list Z)
  (st : USt) : result (list Z) * USt :=
  forwarder_loop servers forwarder_domain q "forwarder has no upstream servers" st.

(** *** Which events an operation leaves *)

(** The trace grows by events that satisfy [P]; time goes on. *)
Definition grows (P : Event → Prop) (st st' : USt) : Prop :=
  ∃ evs, trace st' = trace st ++ evs ∧ Forall P evs ∧ (utick st ≤ utick st')%nat.
Lemma grows_same P st : grows P st st.
Proof. exists []. by rewrite app_nil_r. Qed.
Lemma grows_utock P st : grows P st (utock st).
Proof. exists []. rewrite app_nil_r. split_and!; [done..|cbn; lia]. Qed.
Lemma grows_set_pool P p st : grows P st (set_pool p st).
Proof. exists []. rewrite app_nil_r. split_and!; [done..|cbn; lia]. Qed.
Lemma grows_trans P st1 st2 st3 : grows P st1 st2 → grows P st2 st3 → grows P st1 st3.
Proof.
  intros (e1 & E1 & F1 & L1) (e2 & E2 & F2 & L2). exists (e1 ++ e2).
  rewrite E2, E1, app_assoc. split_and!; [done|by apply Forall_app|lia].
Qed.
Lemma grows_emit P e st : P e → grows P st (emit e st).
Proof. intros Pe. exists [e]. split_and!; [done|by constructor|cbn; lia]. Qed.
Lemma grows_impl (P Q : Event → Prop) st st' : (∀ e, P e → Q e) → grows P st st' → grows Q st st'.
Proof. intros I (evs & E & F & L). exists evs. split_and!; [done| |done]. by eapply Forall_impl. Qed.
#[local] Hint Resolve grows_same grows_utock grows_set_pool : core.

(** A completed SOCKS handshake under the user name [d]: the greeting and, if the proxy
    selected user/password authentication, the name; then the CONNECT request. *)
Definition tunnelled (d : string) (target : SocketAddr) (said heard : list Z) : Prop :=
  ∃ greeting recv reply, Socks.Negotiated (Some (bytes_of_string d)) greeting recv ∧ Socks.Replied reply ∧
    said = greeting ++ Socks.connect_request target ∧ heard = recv ++ reply.

(** A stream reached the way its key asks. *)
Definition established (key : DotConnKey) (s : Stream) : Prop :=
  s_tls s = k_tls_name key ∧
  match k_via key with
  | Tor => tor_socks key = Some (s_target s) ∧
      ∀ d, iso_user key = Some d →
        ∃ said heard, s_tunnel s = Some (resolver key, said, heard) ∧ tunnelled d (resolver key) said heard
  | Direct => s_target s = resolver key ∧ s_tunnel s = None
  end.
Definition target_ok (key : DotConnKey) (target : SocketAddr) : Prop :=
  match k_via key with Tor => tor_socks key = Some target | Direct => target = resolver key end.
Definition key_event (key : DotConnKey) (target : SocketAddr) (e : Event) : Prop :=
  match e with
  | EConnect t _ => t = target
  | ESocks p t said => k_via key = Tor ∧ p = target ∧ t = resolver key ∧
      ∀ d, iso_user key = Some d → Socks.says t (bytes_of_string d) said
  | EDot s _ => established key s
  | EUdp _ _ | ETcp _ _ => False
  end.
Definition sound (st : USt) : Prop := pool_ok established (pool st).

Lemma socks_handshake_says key proxy d r said heard :
  iso_user key = Some d → socks_handshake key proxy = (r, said, heard) →
  Socks.says (resolver key) (bytes_of_string d) said ∧
  (∀ u, r = Ok u → tunnelled d (resolver key) said heard).
Proof.
  intros I. unfold socks_handshake. rewrite I. cbn [user_bytes fmap option_fmap option_map].
  destruct (Socks.connect_says (resolver key) (bytes_of_string d)
    {| inp := inp proxy; out := []; wleft := wleft proxy |}) as (s & O & S).
  pose proof (Socks.connect_sound (resolver key) (Some (bytes_of_string d))
    {| inp := inp proxy; out := []; wleft := wleft proxy |}) as C.
  destruct (Socks.connect _ _ _) as [r' c]. cbn in *. intros [= -> <- <-]. rewrite O. split; [done|].
  intros [] ->. destruct (C c eq_refl) as (sent & recv & reply & N & R & Ei & Eo).
  exists sent, recv, reply. split_and!; [done..| |].
  - by rewrite <- O.
  - rewrite Ei, app_assoc, !length_app. apply take_app_length'. rewrite length_app. lia.
Qed.

Lemma connect_for_ok key target st r st' :
  target_ok key target → connect_for key target st = (r, st') →
  pool st' = pool st ∧ grows (key_event key target) st st' ∧ ∀ s, r = Ok s → established key s.
Proof.
  intros T. unfold connect_for. set (e1 := EConnect target (source_for target)).
  assert (G1 : grows (key_event key target) st (emit e1 st)) by by apply grows_emit.
  destruct (u_connect w (utick st) target) as [u|e]; [|by intros [= <- <-]].
  unfold target_ok in T. case_bool_decide as V.
  - rewrite V in T.
    destruct (socks_handshake key _) as [[rh said] heard] eqn:Hs.
    assert (G2 : grows (key_event key target) st (emit (ESocks target (resolver key) said) (emit e1 st))).
    { eapply grows_trans; [exact G1|]. apply grows_emit. split_and!; [done..|].
      intros d I. by apply (socks_handshake_says _ _ _ _ _ _ I Hs). }
    destruct rh as [u'|e]; [|by intros [= <- <-]].
    assert (G3 := grows_trans _ _ _ _ G2 (grows_utock _ _)).
    destruct (u_tls _ _ _) as [u2|e]; intros [= <- <-]; (split; [done|]); (split; [exact G3|]); [|done].
    intros s [= <-]. unfold established. rewrite V. cbn. split_and!; [done..|].
    intros d I. exists said, heard. split; [done|]. by apply (proj2 (socks_handshake_says _ _ _ _ _ _ I Hs) u').
  - destruct (k_via key) eqn:K; [|done]. assert (G3 := grows_trans _ _ _ _ G1 (grows_utock _ _)).
    destruct (u_tls _ _ _) as [u2|e]; intros [= <- <-]; (split; [done|]); (split; [exact G3|]); [|done].
    intros s [= <-]. unfold established. by rewrite K.
Qed.

Lemma grows_repool P key s st : grows P st (repool key s st).
Proof. exists []. rewrite app_nil_r. split_and!; [done..|cbn; lia]. Qed.
#[local] Hint Resolve grows_repool : core.
Lemma repool_sound key s st : sound st → established key s → sound (repool key s st).
Proof. intros S E. by apply release_ok. Qed.

Lemma fresh_exchange_ok key target p st r st' :
  target_ok key target → sound st → fresh_exchange key target p st = (r, st') →
  sound st' ∧ grows (key_event key target) st st'.
Proof.
  intros T S. unfold fresh_exchange. destruct (connect_for key target st) as [rs st1] eqn:C.
  apply connect_for_ok in C as (Ep & G & Es); [|done].
  assert (sound st1) as S1 by (unfold sound; by rewrite Ep).
  destruct rs as [s|e]; [|by intros [= <- <-]]. specialize (Es s eq_refl).
  destruct (exchange_on p s st1) as [rx st2] eqn:X.
  assert (st2 = emit (EDot s (wire p)) st1) as -> by (by injection X as _ <-).
  assert (G2 : grows (key_event key target) st (emit (EDot s (wire p)) st1)).
  { eapply grows_trans; [exact G|]. by apply grows_emit. }
  destruct rx as [resp|e]; intros [= <- <-]; [|done].
  by split; [apply repool_sound|eapply grows_trans].
Qed.
Lemma exchange_pooled_ok key target p st r st' :
  target_ok key target → sound st → exchange_pooled key target p st = (r, st') →
  sound st' ∧ grows (key_event key target) st st'.
Proof.
  intros T S. unfold exchange_pooled.
  destruct (take (u_instant w (utick st)) key (pool st)) as [o pl] eqn:Tk.
  apply (take_ok established) in Tk as [OK F]; [|done].
  assert (S1 : sound (set_pool pl st)) by done.
  destruct o as [conn|].
  2: { intros [? G]%fresh_exchange_ok; [|done..]. split; [done|]. by eapply grows_trans; [apply (grows_set_pool _ pl)|]. }
  specialize (F conn eq_refl) as [_ E].
  destruct (exchange_on p (stream conn) (set_pool pl st)) as [rx st2] eqn:X.
  assert (st2 = emit (EDot (stream conn) (wire p)) (set_pool pl st)) as -> by (by injection X as _ <-).
  assert (G2 : grows (key_event key target) st (emit (EDot (stream conn) (wire p)) (set_pool pl st))).
  { eapply grows_trans; [apply (grows_set_pool _ pl)|]. by apply grows_emit. }
  destruct rx as [resp|e]; [intros [= <- <-]; by split; [apply repool_sound|eapply grows_trans]|].
  intros Fr. apply fresh_exchange_ok in Fr as [S2 G3]; [|done..]. split; [done|]. by eapply grows_trans.
Qed.

(** *** Fail closed *)

Lemma build_quiet P q st : pool (build q st).2 = pool st ∧ grows P st (build q st).2.
Proof. split; [done|]. apply grows_utock. Qed.

(** A DoT query leaves only events of its own key. *)
Lemma query_one_dot_ok srv d q st r st' :
  sound st → query_one_dot srv d q st = (r, st') →
  sound st' ∧ grows (λ e, ∃ tls socks target,
    (via srv = Tor → socks = c_tor_socks self ∧ socks = Some target) ∧
    key_event (dot_key srv tls socks d) target e) st st'.
Proof.
  intros S. unfold query_one_dot. destruct (tls_name srv) as [tls|];
    [|intros [= <- <-]; split; [done|by auto]].
  destruct (if bool_decide (via srv = Tor) then ok_or "failing closed" (Some <$> c_tor_socks self) else Ok None)
    as [socks|e] eqn:K; [|intros [= <- <-]; split; [done|by auto]].
  destruct (build q st) as [rp st1] eqn:B.
  pose proof (λ P, proj2 (build_quiet P q st)) as Bt. pose proof (proj1 (build_quiet (λ _, True) q st)) as Bp.
  rewrite B in Bp, Bt. cbn in Bp, Bt.
  assert (S1 : sound st1) by (unfold sound; by rewrite Bp).
  destruct rp as [p|e]; [|intros [= <- <-]; split; [done|by auto]].
  set (key := dot_key srv tls socks d). set (target := default (resolver key) socks).
  assert (T : target_ok key target ∧ (via srv = Tor → socks = c_tor_socks self ∧ socks = Some target)).
  { unfold target_ok, target, key. cbn [k_via dot_key tor_socks resolver]. case_bool_decide as V.
    - rewrite V. destruct (c_tor_socks self) as [a|]; [|done]. cbn in K. by injection K as <-.
    - injection K as <-. destruct (via srv); done. }
  destruct (exchange_pooled key target p st1) as [rx st2] eqn:X.
  apply exchange_pooled_ok in X as [S2 G]; [|apply T|done].
  assert (G' : grows (λ e, ∃ tls socks target,
    (via srv = Tor → socks = c_tor_socks self ∧ socks = Some target) ∧
    key_event (dot_key srv tls socks d) target e) st st2).
  { eapply grows_trans; [apply Bt|]. eapply grows_impl; [|exact G].
    intros e He. exists tls, socks, target. split; [apply T|done]. }
  destruct rx as [bytes|e]; intros [= <- <-]; done.
Qed.

(** Every use of the network by [query_one] is a datagram to, or a TCP exchange
    with, the peer itself. *)
Definition peer_event (peer : SocketAddr) (e : Event) : Prop :=
  match e with EUdp p _ | ETcp p _ => p = peer | _ => False end.
Lemma query_one_ok peer q st r st' :
  query_one peer q st = (r, st') → pool st' = pool st ∧ grows (peer_event peer) st st'.
Proof.
  unfold query_one. destruct (build q st) as [rp st1] eqn:B.
  pose proof (λ P, proj2 (build_quiet P q st)) as Bt. pose proof (proj1 (build_quiet (λ _, True) q st)) as Bp.
  rewrite B in Bp, Bt. cbn in Bp, Bt.
  destruct rp as [p|e]; [|intros [= <- <-]; split; [done|by auto]]. cbn.
  assert (G : grows (peer_event peer) st (emit (EUdp peer (wire p)) st1)).
  { eapply grows_trans; [apply Bt|]. by apply grows_emit. }
  destruct (mbind _ _) as [resp|e]; [|by intros [= <- <-]].
  destruct (from_bytes resp) as [m|]; [|by intros [= <- <-]].
  destruct (truncation (metadata m)); [|by intros [= <- <-]].
  assert (G' := grows_trans _ _ _ _ G (grows_utock _ _)).
  destruct (mbind _ _) as [p2|e]; [|by intros [= <- <-]].
  assert (G2 : grows (peer_event peer) st
    (emit (ETcp peer (wire p2)) (utock (emit (EUdp peer (wire p)) st1)))).
  { eapply grows_trans; [exact G'|]. by apply (grows_emit _ _ (utock _)). }
  destruct (mbind _ _) as [resp2|e]; by intros [= <- <-].
Qed.

Lemma forwarder_loop_ok (P : Event → Prop) servers d q last st r st' :
  sound st →
  (∀ srv e, srv ∈ servers → transport srv = Udp → via srv = Direct →
     peer_event {| sa_ip := address srv; sa_port := 53 |} e → P e) →
  (∀ srv e tls socks target, srv ∈ servers →
     (via srv = Tor → socks = c_tor_socks self ∧ socks = Some target) →
     key_event (dot_key srv tls socks d) target e → P e) →
  forwarder_loop servers d q last st = (r, st') → sound st' ∧ grows P st st'.
Proof.
  revert last st. induction servers as [|srv servers IH]; intros last st S PU PD; cbn [forwarder_loop].
  { intros [= <- <-]. split; [done|by auto]. }
  assert (∀ r1 st1, (match transport srv, via srv with
    | Udp, Direct => query_one {| sa_ip := address srv; sa_port := 53 |} q st
    | Dot, _ => query_one_dot srv d q st
    | _, _ => (Err "unsupported transport/via combination reached query path", st) end) = (r1, st1) →
    sound st1 ∧ grows P st st1) as One.
  { intros r1 st1. destruct (transport srv) eqn:T.
    - destruct (via srv) eqn:V; intros E;
        [|injection E as <- <-; split; [done|by auto]].
      apply query_one_ok in E as [Ep G]. split; [unfold sound; by rewrite Ep|].
      eapply grows_impl; [|exact G]. intros e He. by apply (PU srv e); [left|..].
    - intros [= <- <-]. split; [done|by auto].
    - intros E. apply query_one_dot_ok in E as [S1 G]; [|done]. split; [done|].
      eapply grows_impl; [|exact G]. intros e (tls & socks & target & A & He).
      by apply (PD srv e tls socks target); [left|..]. }
  destruct (match transport srv with Udp => _ | Tcp => _ | Dot => _ end) as [r1 st1].
  destruct (One _ _ eq_refl) as [S1 G1]. destruct r1 as [resp|e]; [by intros [= <- <-]|].
  intros E. apply IH in E as [S2 G2]; [split; [done|by eapply grows_trans]|done|..].
  - intros srv' e' I. apply PU. by right.
  - intros srv' e' tls socks target I. apply PD. by right.
Qed.

Lemma query_loop_ok servers q last st r st' :
  query_loop servers q last st = (r, st') → pool st' = pool st.
Proof.
  revert last st. induction servers as [|ip servers IH]; intros last st; cbn [query_loop]; [by intros [= <- <-]|].
  destruct (query_one _ q st) as [r1 st1] eqn:E. apply query_one_ok in E as [Ep _].
  destruct r1; [by intros [= <- <-]|]. intros Q. apply IH in Q. congruence.
Qed.

(** The life of a client: any mix of direct and forwarded queries, and the passing
    of time. *)
Inductive UReach : USt → Prop :=
| UReach_new t : UReach {| pool := pool_new; utick := t; trace := [] |}
| UReach_query st ips q r st' : UReach st → query ips q st = (r, st') → UReach st'
| UReach_forwarder st servers d q r st' :
    UReach st → query_forwarder servers d q st = (r, st') → UReach st'
| UReach_sweep st now : UReach st → UReach (set_pool (sweep now (pool st)) st).

Lemma reach_sound st : UReach st → sound st.
Proof.
  induction 1 as [t|st ips q r st' _ S E|st servers d q r st' _ S E|st now _ S].
  - by intros k b.
  - apply query_loop_ok in E. unfold sound. by rewrite E.
  - apply (forwarder_loop_ok (λ _, True)) in E; [by apply E|done..].
  - by apply sweep_ok.
Qed.

(** The network uses allowed to a Tor forwarder: a connection to the SOCKS proxy, a
    handshake on it that says no more than the greeting, the forwarder's own isolation
    name and the CONNECT request for the DoT port of one of its servers, or an
    exchange on a stream for which that handshake succeeded. *)
Definition dot_address (srv : ForwarderServer) : SocketAddr := {| sa_ip := address srv; sa_port := DOT_PORT |}.
Definition through_tor (servers : list ForwarderServer) (socks : SocketAddr) (d : string) (e : Event) : Prop :=
  match e with
  | EConnect t _ => t = socks
  | ESocks p t said => p = socks ∧ t ∈ map dot_address servers ∧ Socks.says t (bytes_of_string d) said
  | EDot s _ => s_target s = socks ∧
      ∃ t said heard, s_tunnel s = Some (t, said, heard) ∧ t ∈ map dot_address servers ∧ tunnelled d t said heard
  | EUdp _ _ | ETcp _ _ => False
  end.

(** C4. Tor forwarders fail closed.  If the configuration accepted a forwarder
    with a [via: tor] server, then in any reachable state a query to it touches the
    network only through the configured SOCKS proxy: a connection to the proxy, a
    handshake on it, or an exchange on a stream tunnelled through it to one of the
    forwarder's servers, pooled connections and the rebuild retry included; no
    datagram, no direct connection, and nothing at all without a proxy.  The bytes of
    every handshake are the greeting, the CONNECT request and, between them, no name
    but the forwarder's own, which a tunnel in use did send if the proxy had selected
    user/password authentication; to a proxy that selected NO-AUTH no name was sent,
    so there the streams are not isolated. *)
Theorem tor_fails_closed f servers srv d q st r st' :
  resolved_servers f = Ok servers → srv ∈ servers → via srv = Tor → UReach st →
  query_forwarder servers d q st = (r, st') →
  ∃ evs, trace st' = trace st ++ evs ∧
    Forall (λ e, ∃ socks, c_tor_socks self = Some socks ∧ through_tor servers socks d e) evs.
Proof.
  intros (_ & _ & Mix)%resolved_servers_Ok I V S%reach_sound.
  assert (All : ∀ s, s ∈ servers → via s = Tor).
  { destruct Mix as [A|A]; rewrite Forall_forall in A; [done|]. apply A in I. congruence. }
  intros E. apply (forwarder_loop_ok
    (λ e, ∃ socks, c_tor_socks self = Some socks ∧ through_tor servers socks d e)) in E;
    [destruct E as (_ & evs & Et & F & _); by exists evs|done|..].
  - intros s e Is _ D _. apply All in Is. congruence.
  - intros s e tls socks target Is A He. specialize (All s Is) as Vs. specialize (A Vs) as [-> A].
    assert (Ir : dot_address s ∈ map dot_address servers) by by apply list_elem_of_fmap_2.
    exists target. split; [done|]. destruct e as [| |t src|p t said|st0 wr]; cbn in He |- *; try done.
    + rewrite Vs in He. destruct He as (_ & -> & -> & Sy). split_and!; [done..|].
      apply Sy. by rewrite bool_decide_true.
    + destruct He as [_ He]. cbn in He. rewrite Vs, A in He. destruct He as [[= ->] Tn].
      split; [done|]. destruct (Tn d) as (said & heard & -> & X); [by rewrite bool_decide_true|].
      by eexists _, said, heard.
Qed.

(** *** Accepted responses *)

(** The question name of a wire message, up to case. *)
Definition question (b : list Z) : option (list Z) :=
  match ZeroX20.qname_byte_range b with
  | Ok (s, e) => Some (map to_ascii_lowercase (list.take (e - s) (drop s b)))
  | Err _ => None
  end.
Definition event_wire (e : Event) : option (list Z) :=
  match e with EUdp _ b | ETcp _ b | EDot _ b => Some b | EConnect _ _ | ESocks _ _ _ => None end.

(** What came back for an event at the reading [n]: the datagram, from the address asked;
    the message of the TCP exchange; the length-prefixed message at the front of what
    the TLS stream delivers. *)
Definition answered (n : nat) (e : Event) (reply : list Z) : Prop :=
  match e with
  | EUdp peer b => ∃ from, u_udp w n peer b = Ok (reply, from) ∧ sa_ip from = sa_ip peer
  | ETcp peer b => u_tcp w n peer b = Ok reply
  | EDot s b => ∃ hi lo rest, from_be16 hi lo = Z.of_nat (length reply) ∧ inp (u_dot w n s) = [hi; lo] ++ reply ++ rest
  | EConnect _ _ | ESocks _ _ _ => False
  end.
(** Some new event carries the bytes [sent] and was answered with [reply] in between. *)
Definition carried (sent reply : list Z) (st st' : USt) : Prop :=
  ∃ evs, trace st' = trace st ++ evs ∧
    ∃ e n, e ∈ evs ∧ event_wire e = Some sent ∧ (utick st ≤ n < utick st')%nat ∧ answered n e reply.

(** What stands behind a response [out] to the query [q]: a wire form of [q] that
    was sent (a fresh TXID, letters recased), the reply that the network gave to that
    very exchange, with that TXID and that question, and that reply handed on with the
    client's TXID and lower-case names. *)
Definition accepted (q out : list Z) (st st' : USt) : Prop :=
  ∃ orig sent txid hi lo rest parsed,
    from_bytes q = Some orig ∧
    carried sent (hi :: lo :: rest) st st' ∧
    Forall2 ZeroX20.case_variant (put_txid txid q) sent ∧
    from_be16 hi lo = txid ∧
    is_Some (question sent) ∧ question (hi :: lo :: rest) = question sent ∧
    from_bytes (hi :: lo :: rest) = Some parsed ∧
    to_vec (set_id (id (metadata orig)) (Normalize.lowercase_response_names parsed)) = Some out.

Lemma build_spec q st p st' :
  build q st = (Ok p, st') →
  st' = utock st ∧ Forall2 ZeroX20.case_variant (put_txid (upstream_txid p) q) (wire p) ∧
  (∃ e, ZeroX20.qname_byte_range (wire p) = Ok (12%nat, e) ∧
        qname_mask p = list.take (e - 12) (drop 12 (wire p))) ∧
  ∃ orig, from_bytes q = Some orig ∧ client_txid p = id (metadata orig).
Proof.
  unfold build. intros [= E <-]. split; [done|].
  apply result_bind_Ok in E as (orig & O%ok_or_Ok & E).
  apply result_bind_Ok in E as ([wr mask] & E & [= <-]). cbn.
  unfold ZeroX20.encode in E. apply result_bind_Ok in E as ([a e] & R & [= <- <-]).
  pose proof (proj1 (proj1 (ZeroX20.qname_byte_range_Ok _ _ _) R)) as ->.
  split; [apply ZeroX20.flips_case|]. split; [|eauto].
  exists e. split; [|done]. eapply ZeroX20.qname_byte_range_case; [apply ZeroX20.flips_case|done].
Qed.

Lemma verify_response_spec resp txid mask u :
  verify_response resp txid mask = Ok u →
  ∃ hi lo rest, resp = hi :: lo :: rest ∧ from_be16 hi lo = txid ∧
    question resp = Some (map to_ascii_lowercase mask).
Proof.
  unfold verify_response. case_match; [done|]. destruct resp as [|hi [|lo rest]]; [done..|].
  destruct (from_be16 hi lo =? txid) eqn:T; cbn; [|done]. apply Z.eqb_eq in T.
  destruct u. intros V. apply ZeroX20.verify_Ok_iff in V as (e & R & M). exists hi, lo, rest.
  split; [done|]. split; [done|]. unfold question. by rewrite R, M.
Qed.

(** The pieces together. *)
Lemma accepted_intro q st stb st' p resp out u b stc :
  build q stc = (Ok p, stb) → carried (wire p) resp st st' →
  verify_response resp (upstream_txid p) (qname_mask p) = Ok u →
  (∀ orig, from_bytes q = Some orig → b = id (metadata orig)) →
  finalize resp b = Ok out → accepted q out st st'.
Proof.
  intros (_ & CV & (e & R & M) & orig & O & _)%build_spec Ca V Hb F.
  apply verify_response_spec in V as (hi & lo & rest & -> & T & Q).
  unfold finalize in F. apply result_bind_Ok in F as (parsed & P%ok_or_Ok & F%ok_or_Ok).
  exists orig, (wire p), (upstream_txid p), hi, lo, rest, parsed.
  assert (question (wire p) = Some (map to_ascii_lowercase (qname_mask p))) as Qs
    by (unfold question; by rewrite R, M).
  rewrite Qs. split_and!; try done. by rewrite <- (Hb orig O).
Qed.

Lemma carried_after P sent reply st1 st2 st3 :
  grows P st1 st2 → carried sent reply st2 st3 → carried sent reply st1 st3.
Proof.
  intros (e1 & E1 & _ & L) (e2 & E2 & e & n & I & W & T & A). exists (e1 ++ e2).
  rewrite E2, E1, app_assoc. split; [done|]. exists e, n. split_and!; [set_solver|done|lia|lia|done].
Qed.
Lemma carried_repool sent reply key s st1 st2 :
  carried sent reply st1 st2 → carried sent reply st1 (repool key s st2).
Proof.
  intros (evs & E & e & n & I & W & T & A). exists evs. split; [done|]. exists e, n.
  split_and!; try done; [lia|cbn; lia].
Qed.
Lemma carried_emit e sent reply st :
  event_wire e = Some sent → answered (utick st) e reply → carried sent reply st (emit e st).
Proof.
  intros W A. exists [e]. split; [done|]. exists e, (utick st). split_and!; try done; [by left|cbn; lia].
Qed.

Lemma query_one_accepted peer q st out st' :
  query_one peer q st = (Ok out, st') → accepted q out st st'.
Proof.
  unfold query_one. destruct (build q st) as [[p|e] st1] eqn:B; [|done].
  pose proof (build_spec _ _ _ _ B) as (-> & _ & _ & orig & O & C).
  destruct (query_one_udp peer p (utock st)) as [ru st2] eqn:U.
  assert (st2 = emit (EUdp peer (wire p)) (utock st)) as -> by (by injection U as _ <-).
  destruct ru as [resp|e]; [|done]. injection U as U.
  apply result_bind_Ok in U as ([resp' from] & Up & U). case_match; [done|]. bool_inv.
  apply result_bind_Ok in U as (u & V & [= ->]).
  destruct (from_bytes resp) as [m|] eqn:Pm; [|done]. destruct (truncation (metadata m)).
  - destruct (build q (emit _ _)) as [[p2|e] st3] eqn:B2; [|done].
    pose proof (build_spec _ _ _ _ B2) as (-> & _).
    destruct (query_one_tcp peer p2 _) as [rt st4] eqn:T.
    assert (st4 = emit (ETcp peer (wire p2)) (utock (emit (EUdp peer (wire p)) (utock st)))) as ->
      by (by injection T as _ <-).
    destruct rt as [resp2|e]; [|done]. injection T as T.
    apply result_bind_Ok in T as (r2 & Tp & T). case_match; [done|].
    apply result_bind_Ok in T as (u2 & V2 & [= ->]). intros [= F <-].
    eapply (accepted_intro q st); [exact B2| |exact V2| |exact F].
    + eapply (carried_after (λ _, True)); [|by apply (carried_emit _ _ _ (utock _))].
      eapply grows_trans; [apply (grows_utock _ st)|].
      eapply grows_trans; [by apply (grows_emit _ (EUdp peer (wire p)) (utock st))|apply grows_utock].
    + intros o' O'. rewrite C. by simplify_eq.
  - intros [= F <-]. eapply (accepted_intro q st); [exact B| |exact V| |exact F].
    + eapply (carried_after (λ _, True)); [apply (grows_utock _ st)|].
      apply (carried_emit _ _ _ (utock st)); [done|]. exists from. split; [done|]. by eapply bool_decide_eq_true_1.
    + intros o' O'. rewrite C. by simplify_eq.
Qed.

Lemma exchange_on_Ok p s st bytes st' :
  exchange_on p s st = (Ok bytes, st') →
  carried (wire p) bytes st st' ∧ ∃ u, verify_response bytes (upstream_txid p) (qname_mask p) = Ok u.
Proof.
  unfold exchange_on. intros [= E <-].
  apply result_bind_Ok in E as (r & X & E). apply result_bind_Ok in E as (u & V & [= <-]).
  split; [|by exists u]. apply carried_emit; [done|]. by apply DotClient.exchange_dot_inp in X.
Qed.
Lemma connect_for_trace key target st r st' :
  connect_for key target st = (r, st') → grows (λ _, True) st st'.
Proof.
  unfold connect_for. set (e1 := EConnect _ _).
  assert (G1 : grows (λ _, True) st (emit e1 st)) by by apply grows_emit.
  destruct (u_connect _ _ _); [|by intros [= <- <-]]. case_bool_decide.
  - destruct (socks_handshake key _) as [[rh said] heard].
    assert (G2 : grows (λ _, True) st (emit (ESocks target (resolver key) said) (emit e1 st))).
    { eapply grows_trans; [exact G1|by apply grows_emit]. }
    destruct rh; [|by intros [= <- <-]]. assert (G3 := grows_trans _ _ _ _ G2 (grows_utock _ _)).
    case_match; by intros [= <- <-].
  - assert (G3 := grows_trans _ _ _ _ G1 (grows_utock _ _)). case_match; by intros [= <- <-].
Qed.
Lemma fresh_exchange_Ok key target p st bytes st' :
  fresh_exchange key target p st = (Ok bytes, st') →
  carried (wire p) bytes st st' ∧ ∃ u, verify_response bytes (upstream_txid p) (qname_mask p) = Ok u.
Proof.
  unfold fresh_exchange. destruct (connect_for key target st) as [[s|e] st1] eqn:C; [|done].
  apply connect_for_trace in C. destruct (exchange_on p s st1) as [[b|e] st2] eqn:X; [|done].
  apply exchange_on_Ok in X as [Ca V]. intros [= <- <-]. split; [|done].
  eapply carried_after; [exact C|]. by apply carried_repool.
Qed.
Lemma exchange_pooled_Ok key target p st bytes st' :
  exchange_pooled key target p st = (Ok bytes, st') →
  carried (wire p) bytes st st' ∧ ∃ u, verify_response bytes (upstream_txid p) (qname_mask p) = Ok u.
Proof.
  unfold exchange_pooled. destruct (take _ key (pool st)) as [[conn|] pl].
  2: { intros [C V]%fresh_exchange_Ok. split; [|done].
       by eapply (carried_after (λ _, True)); [apply (grows_set_pool _ pl)|]. }
  destruct (exchange_on p (stream conn) (set_pool pl st)) as [[b|e] st2] eqn:X.
  - apply exchange_on_Ok in X as [Ca V]. intros [= <- <-]. split; [|done].
    eapply (carried_after (λ _, True)); [apply (grows_set_pool _ pl)|]. by apply carried_repool.
  - intros F. apply fresh_exchange_Ok in F as [C V]. split; [|done].
    eapply (carried_after (λ _, True)); [|exact C].
    assert (st2 = emit (EDot (stream conn) (wire p)) (set_pool pl st)) as -> by (by injection X as _ <-).
    eapply grows_trans; [apply (grows_set_pool _ pl)|]. by apply grows_emit.
Qed.

Lemma query_one_dot_accepted srv d q st out st' :
  query_one_dot srv d q st = (Ok out, st') → accepted q out st st'.
Proof.
  unfold query_one_dot. destruct (tls_name srv) as [tls|]; [|done].
  destruct (if bool_decide _ then _ else _) as [socks|e]; [|done].
  destruct (build q st) as [[p|e] st1] eqn:B; [|done].
  pose proof (build_spec _ _ _ _ B) as (-> & _ & _ & orig & O & C).
  destruct (exchange_pooled _ _ p (utock st)) as [[bytes|e] st2] eqn:X; [|done].
  apply exchange_pooled_Ok in X as [Ca [u V]]. intros [= F <-].
  eapply (accepted_intro q st); [exact B| |exact V| |exact F].
  { by eapply (carried_after (λ _, True)); [apply (grows_utock _ st)|]. }
  intros o' O'. rewrite C. by simplify_eq.
Qed.

Lemma accepted_after P q out st1 st2 st3 :
  grows P st1 st2 → accepted q out st2 st3 → accepted q out st1 st3.
Proof.
  intros G (orig & sent & txid & hi & lo & rest & parsed & O & Ca & R).
  exists orig, sent, txid, hi, lo, rest, parsed. split; [done|]. split; [by eapply carried_after|done].
Qed.
Lemma exchange_on_trace p s st r st' :
  exchange_on p s st = (r, st') → grows (λ _, True) st st'.
Proof. intros [= _ <-]. by apply grows_emit. Qed.
Lemma fresh_exchange_trace key target p st r st' :
  fresh_exchange key target p st = (r, st') → grows (λ _, True) st st'.
Proof.
  unfold fresh_exchange. destruct (connect_for key target st) as [[s|e] st1] eqn:C;
    apply connect_for_trace in C; [|by intros [= <- <-]].
  destruct (exchange_on p s st1) as [rx st2] eqn:X. apply exchange_on_trace in X.
  pose proof (grows_trans _ _ _ _ C X) as G. destruct rx; intros [= <- <-]; [|done].
  by eapply grows_trans.
Qed.
Lemma exchange_pooled_trace key target p st r st' :
  exchange_pooled key target p st = (r, st') → grows (λ _, True) st st'.
Proof.
  unfold exchange_pooled. destruct (take _ key (pool st)) as [[conn|] pl].
  2: { intros F%fresh_exchange_trace. by eapply grows_trans; [apply (grows_set_pool _ pl)|]. }
  destruct (exchange_on p (stream conn) (set_pool pl st)) as [rx st2] eqn:X.
  apply exchange_on_trace in X. pose proof (grows_trans _ _ _ _ (grows_set_pool _ pl st) X) as G.
  destruct rx; [intros [= <- <-]; by eapply grows_trans|]. intros F%fresh_exchange_trace. by eapply grows_trans.
Qed.
Lemma query_one_dot_trace srv d q st r st' :
  query_one_dot srv d q st = (r, st') → grows (λ _, True) st st'.
Proof.
  unfold query_one_dot. destruct (tls_name srv) as [tls|]; [|intros [= <- <-]; by auto].
  destruct (if bool_decide _ then _ else _) as [socks|e]; [|intros [= <- <-]; by auto].
  pose proof (proj2 (build_quiet (λ _, True) q st)) as Bt. destruct (build q st) as [rp st1]; cbn in Bt.
  destruct rp as [p|e]; [|by intros [= <- <-]].
  destruct (exchange_pooled _ _ p st1) as [rx st2] eqn:E. apply exchange_pooled_trace in E.
  assert (grows (λ _, True) st st2) by by eapply grows_trans.
  destruct rx; by intros [= <- <-].
Qed.

Lemma query_loop_accepted servers q last st out st' :
  query_loop servers q last st = (Ok out, st') → accepted q out st st'.
Proof.
  revert last st. induction servers as [|ip servers IH]; intros last st; cbn [query_loop]; [done|].
  destruct (query_one _ q st) as [[o|e] st1] eqn:E.
  - intros [= -> ->]. by eapply query_one_accepted.
  - apply query_one_ok in E as [_ G]. intros Q. eapply accepted_after; [exact G|by eapply IH].
Qed.
Lemma forwarder_loop_accepted servers d q last st out st' :
  forwarder_loop servers d q last st = (Ok out, st') → accepted q out st st'.
Proof.
  revert last st. induction servers as [|srv servers IH]; intros last st; cbn [forwarder_loop]; [done|].
  destruct (transport srv); [destruct (via srv)|..].
  - destruct (query_one _ q st) as [[o|e] st1] eqn:E.
    + intros [= -> ->]. by eapply query_one_accepted.
    + apply query_one_ok in E as [_ G]. intros Q. eapply accepted_after; [exact G|by eapply IH].
  - apply IH.
  - apply IH.
  - destruct (query_one_dot srv d q st) as [[o|e] st1] eqn:E.
    + intros [= -> ->]. by eapply query_one_dot_accepted.
    + apply query_one_dot_trace in E. intros Q. eapply accepted_after; [exact E|by eapply IH].
Qed.

(** C9. Only a matching reply is handed on.  Whatever the transport (UDP, the TCP
    retry after truncation, DNS over TLS, pooled or fresh, direct or tunnelled), a
    response that [query] or [query_forwarder] returns is the lower-cased,
    TXID-restored form of what the network answered to an exchange of this very call
    (from the address asked, over UDP; the framed message on that stream, over TLS),
    an exchange that sent a wire form of this query; and the answer carried the TXID
    chosen for that wire form and its question name up to case. *)
Theorem accepted_reply_matches :
  (∀ servers q st out st', query servers q st = (Ok out, st') → accepted q out st st') ∧
  (∀ servers d q st out st', query_forwarder servers d q st = (Ok out, st') → accepted q out st st').
Proof.
  split; intros; [by eapply query_loop_accepted|by eapply forwarder_loop_accepted].
Qed.
End Upstream.
End Upstream.

(** ** The UDP demultiplexer

    Queries in flight on one channel wait under (peer address, TXID); the receive
    loop hands each datagram to the query waiting under its key.  Waiters are
    numbered; [wkey] remembers what each registered under, [inbox] what it was
    given. *)
Module Demux.

Abbreviation Key := (IpAddr * Z)%type.
Record Channel := {
  pending : gmap Key nat; wkey : gmap nat Key; inbox : gmap nat (list Z * SocketAddr) }.
Definition channel_new : Channel := {| pending := ∅; wkey := ∅; inbox := ∅ |}.

(** The registration at the start of [UpstreamUdpChannel::query]. *)
Definition register (waiter : nat) (k : Key) (c : Channel) : result unit * Channel :=
  match pending c !! k with
  | Some _ => (Err "upstream UDP TXID collision", c)
  | None => (Ok (), {| pending := <[k := waiter]> (pending c); wkey := <[waiter := k]> (wkey c);
                       inbox := inbox c |})
  end.
(** One datagram in [recv_demux_loop]. *)
Definition recv (bytes : list Z) (peer : SocketAddr) (c : Channel) : Channel :=
  if (length bytes <? 12)%nat then c
  else
    match bytes with
    | hi :: lo :: _ =>
        let k := (sa_ip peer, from_be16 hi lo) in
        match pending c !! k with
        | None => c
        | Some waiter =>
            {| pending := delete k (pending c); wkey := wkey c;
               inbox := <[waiter := (bytes, peer)]> (inbox c) |}
        end
    | _ => c
    end.
(** The drop of a [Cleanup] that was not disarmed: the query ended without taking a
    response (time-out, send error, cancellation). *)
Definition cleanup (waiter : nat) (c : Channel) : Channel :=
  match wkey c !! waiter with
  | Some k => {| pending := delete k (pending c); wkey := wkey c; inbox := inbox c |}
  | None => c
  end.

(** [UpstreamUdpChannel::query] up to the wait: the socket of the family must exist, the
    key is registered, the query is sent.  [v4] and [v6]: which sockets there are. *)
Definition query_begin (v4 v6 : bool) (waiter : nat) (peer : SocketAddr) (txid : Z) (sends : bool) (c : Channel)
  : result unit * Channel :=
  if negb (if is_ipv4 (sa_ip peer) then v4 else v6) then (Err "no upstream socket for family", c)
  else
    match register waiter (sa_ip peer, txid) c with
    | (Err e, c) => (Err e, c)
    | (Ok _, c) => if sends then (Ok (), c) else (Err "upstream UDP send", cleanup waiter c)
    end.
(** Its end: a response that is there when the wait is over is taken and the guard
    disarmed; else the time is up (a response may still slip in before the guard is
    dropped: it is lost), or the entry was removed without a response. *)
Definition query_end (timed_out : bool) (waiter : nat) (c : Channel) : result (list Z * SocketAddr) * Channel :=
  match inbox c !! waiter with
  | Some d => if timed_out then (Err "timed out", cleanup waiter c) else (Ok d, c)
  | None => (Err (if timed_out then "timed out" else "response channel closed"), cleanup waiter c)
  end.
Definition RECV_BUF : nat := Z.to_nat 4096.
(** The datagrams a [recv_demux_loop] takes off its socket, cut at its buffer. *)
Definition recv_demux_loop (ds : list (list Z * SocketAddr)) (c : Channel) : Channel :=
  foldl (λ c d, recv (take RECV_BUF d.1) d.2 c) c ds.

Inductive Step : Channel → Channel → Prop :=
| Step_register w k c c' r : wkey c !! w = None → register w k c = (r, c') → Step c c'
| Step_recv bytes peer c : Step c (recv bytes peer c)
| Step_cleanup w c : Step c (cleanup w c).
Inductive CReach : Channel → Prop :=
| CReach_new : CReach channel_new
| CReach_step c c' : CReach c → Step c c' → CReach c'.

(** A pending waiter is waiting under its own key and has nothing yet; what was
    delivered matches the key. *)
Record inv (c : Channel) : Prop := {
  inv_pending k w : pending c !! k = Some w → wkey c !! w = Some k ∧ inbox c !! w = None;
  inv_inbox w b p : inbox c !! w = Some (b, p) →
    (12 ≤ length b)%nat ∧ ∃ hi lo rest, b = hi :: lo :: rest ∧ wkey c !! w = Some (sa_ip p, from_be16 hi lo) }.

Lemma register_inv w k c r c' : inv c → wkey c !! w = None → register w k c = (r, c') → inv c'.
Proof.
  intros [P I] F. unfold register. destruct (pending c !! k) as [w0|] eqn:K; intros [= <- <-]; [done|].
  assert (inbox c !! w = None) as Nw.
  { destruct (inbox c !! w) as [[b p]|] eqn:E; [|done]. apply I in E as (_ & hi & lo & rest & _ & E). congruence. }
  split; cbn.
  - intros k' w' [[<- <-]|[Nk E]]%lookup_insert_Some; [by rewrite lookup_insert_eq|].
    apply P in E as [E1 E2]. rewrite lookup_insert_ne; [done|]. intros ->. congruence.
  - intros w' b p E. apply I in E as (L & hi & lo & rest & -> & E). split; [done|].
    exists hi, lo, rest. split; [done|]. rewrite lookup_insert_ne; [done|]. intros ->. congruence.
Qed.
Lemma recv_inv bytes peer c : inv c → inv (recv bytes peer c).
Proof.
  intros [P I]. unfold recv. destruct (Nat.ltb_spec (length bytes) 12) as [|L]; [done|].
  destruct bytes as [|hi [|lo rest]]; [done..|].
  destruct (pending c !! (sa_ip peer, from_be16 hi lo)) as [w|] eqn:K; [|done].
  pose proof (P _ _ K) as [Kw Nw]. split; cbn.
  - intros k' w' [Nk E]%lookup_delete_Some. apply P in E as [E1 E2]. split; [done|].
    rewrite lookup_insert_ne; [done|]. intros ->. congruence.
  - intros w' b p [[<- [= <- <-]]|[Nw' E]]%lookup_insert_Some; [|by apply I].
    split; [done|]. by exists hi, lo, rest.
Qed.
Lemma cleanup_inv w c : inv c → inv (cleanup w c).
Proof.
  intros [P I]. unfold cleanup. destruct (wkey c !! w); [|done]. split; cbn; [|done].
  intros k' w' [_ E]%lookup_delete_Some. by apply P.
Qed.
Lemma reach_inv c : CReach c → inv c.
Proof.
  induction 1 as [|c c' _ IH S]; [split; cbn; intros *; by rewrite lookup_empty|].
  destruct S; [by eapply register_inv|by apply recv_inv|by apply cleanup_inv].
Qed.

(** C32. The demultiplexer delivers each query its own response, once.  In any
    reachable state of a channel, what a query was handed is a datagram of at
    least a header from the peer it had asked and with the TXID it had chosen;
    a delivery is never replaced by a later datagram; and a registration that
    collides with a waiting query is refused and leaves the waiting one alone. *)
Theorem demux_delivers_own c c' :
  CReach c → Step c c' →
  (∀ w b p, inbox c !! w = Some (b, p) →
     (12 ≤ length b)%nat ∧ ∃ hi lo rest, b = hi :: lo :: rest ∧ wkey c !! w = Some (sa_ip p, from_be16 hi lo)) ∧
  (∀ w d, inbox c !! w = Some d → inbox c' !! w = Some d) ∧
  (∀ w k w', pending c !! k = Some w' → register w k c = (Err "upstream UDP TXID collision", c)).
Proof.
  intros [P I]%reach_inv S. split; [exact I|]. split.
  - intros w d E. destruct S as [w0 k c c' r F R|bytes peer c|w0 c].
    + unfold register in R. destruct (pending c !! k); injection R as _ <-; done.
    + unfold recv. case_match; [done|]. destruct bytes as [|hi [|lo rest]]; [done..|].
      destruct (pending c !! _) as [w'|] eqn:K; [|done]. apply P in K as [_ N]. cbn.
      rewrite lookup_insert_ne; [done|]. intros ->. congruence.
    + unfold cleanup. by case_match.
  - intros w k w' E. unfold register. by rewrite E.
Qed.

(** *** Whole queries *)
Lemma reach_recv_loop ds c : CReach c → CReach (recv_demux_loop ds c).
Proof.
  revert c. induction ds as [|d ds IH]; intros c R; [done|]. apply (IH (recv _ _ c)). eapply CReach_step; [done|constructor].
Qed.
Lemma reach_query_begin v4 v6 w peer txid sends c :
  CReach c → wkey c !! w = None → CReach (query_begin v4 v6 w peer txid sends c).2.
Proof.
  intros R F. unfold query_begin. destruct (negb _); [done|].
  destruct (register w (sa_ip peer, txid) c) as [[[]|e] c1] eqn:E; [|by eapply CReach_step; [|by eapply Step_register]].
  assert (R1 : CReach c1) by (by eapply CReach_step; [|by eapply Step_register]).
  destruct sends; [done|]. eapply CReach_step; [done|constructor].
Qed.
Lemma reach_query_end timed w c : CReach c → CReach (query_end timed w c).2.
Proof.
  intros R. assert (Rc : CReach (cleanup w c)) by (eapply CReach_step; [done|constructor]).
  unfold query_end. destruct (inbox c !! w); [by destruct timed|done].
Qed.
(** A query that began, whatever datagrams came and whatever other queries did in
    between, ends with an error or with a datagram from its peer that carries its TXID;
    and once it ended with an error nothing is pending under its key in its name. *)
Theorem channel_query_own v4 v6 w peer txid sends c c1 c2 timed r c3 :
  CReach c → wkey c !! w = None → query_begin v4 v6 w peer txid sends c = (Ok (), c1) →
  CReach c2 → wkey c2 !! w = wkey c1 !! w → query_end timed w c2 = (r, c3) →
  match r with
  | Ok (b, p) => sa_ip p = sa_ip peer ∧ (12 ≤ length b)%nat ∧ ∃ hi lo rest, b = hi :: lo :: rest ∧ from_be16 hi lo = txid
  | Err _ => pending c3 !! (sa_ip peer, txid) = None
  end.
Proof.
  intros R F. unfold query_begin. destruct (negb _); [done|]. unfold register.
  destruct (pending c !! (sa_ip peer, txid)); [done|]. destruct sends; [|done]. intros [= <-] R2. cbn [wkey].
  rewrite lookup_insert_eq. intros Hk. unfold query_end, cleanup. rewrite Hk. destruct (reach_inv c2 R2) as [_ I].
  destruct (inbox c2 !! w) as [[b p]|] eqn:B; [destruct timed|]; intros [= <- <-]; try (cbn; apply lookup_delete_eq).
  destruct (I w b p B) as (L & hi & lo & rest & -> & E). rewrite Hk in E. injection E as E1 E2. split_and!; try done. by exists hi, lo, rest.
Qed.
End Demux.

(** ** Examples *)
Module ForwarderExamples.
Import ForwarderCfg DotPool Upstream.

Definition ex_tor (a : Z) : ForwarderServer :=
  {| address := V4 [9; 9; 9; a]; transport := Dot; tls_name := Some "dns.quad9.net"; via := Tor |}.
Definition ex_forwarder : Forwarder := {| domain := "corp.example"; servers := [Full (ex_tor 9); Full (ex_tor 10)] |}.
Definition ex_root_forwarder : Forwarder := {| domain := "."; servers := [Bare (V4 [8; 8; 8; 8])] |}.
Definition ex_table : list Forwarder := [ex_root_forwarder; ex_forwarder].


Definition ex_socks : SocketAddr := {| sa_ip := V4 [127; 0; 0; 1]; sa_port := 9050 |}.
Definition ex_client : UpstreamClient :=
  {| source_v4 := None; source_v6 := None; c_tor_socks := Some ex_socks |}.
(** A query for [a.] and its echo. *)
Definition ex_query : list Z := [18; 52; 1; 0; 0; 1; 0; 0; 0; 0; 0; 0; 1; 97; 0; 0; 1; 0; 1].
Definition ex_reply : list Z := [0; 7; 129; 128; 0; 1; 0; 0; 0; 0; 0; 0; 1; 97; 0; 0; 1; 0; 1].
(** The first server never answers; the clock advances 5 s with each reading. *)
Definition ex_world : UWorld :=
  {| u_instant := λ n, from_secs (5 * Z.of_nat n); u_txid := λ _, 7; u_coin := λ _ _, true;
     u_udp := λ _ p _, Ok (ex_reply, p); u_tcp := λ _ _ _, Err "refused";
     u_connect := λ _ _, Ok ();
     u_proxy := λ _, ex_chan ([5; 2] ++ [1; 0] ++ [5; 0; 0; 1; 127; 0; 0; 1; 35; 90]);
     u_tls := λ _ _, Ok ();
     u_dot := λ _ s, ex_chan (if bool_decide ((λ x, x.1.1) <$> s_tunnel s = Some {| sa_ip := V4 [9; 9; 9; 10]; sa_port := 853 |})
                              then [0; 19] ++ ex_reply else []);
     u_cut := λ _, false |}.
Definition ex_st : USt := {| pool := pool_new; utick := 0; trace := [] |}.
Definition ex_servers : list ForwarderServer := [ex_tor 9; ex_tor 10].
Definition ex_run (st : USt) : result (list Z) * USt :=
  query_forwarder ex_client ex_world ex_servers "corp.example." ex_query st.

(** The first server fails, the second answers: six uses of the network, all through
    the proxy. *)
Lemma tor_fails_closed_witness :
  is_ok (ex_run ex_st).1 = true ∧ length (trace (ex_run ex_st).2) = 6%nat ∧
  ∃ evs, trace (ex_run ex_st).2 = [] ++ evs ∧
    Forall (λ e, ∃ socks, c_tor_socks ex_client = Some socks ∧ through_tor ex_servers socks "corp.example." e) evs.
Proof.
  split; [vm_compute; reflexivity|]. split; [vm_compute; reflexivity|].
  apply (tor_fails_closed ex_client ex_world ex_forwarder ex_servers (ex_tor 9) "corp.example." ex_query
    ex_st (ex_run ex_st).1 (ex_run ex_st).2).
  - reflexivity.
  - left.
  - reflexivity.
  - apply UReach_new.
  - unfold ex_run. by destruct (query_forwarder _ _ _ _ _ _).
Defined.

Lemma accepted_reply_matches_witness :
  ∃ out, (ex_run ex_st).1 = Ok out ∧ accepted ex_world ex_query out ex_st (ex_run ex_st).2.
Proof.
  destruct (accepted_reply_matches ex_client ex_world) as [_ A].
  destruct (ex_run ex_st) as [[out|e] st'] eqn:E.
  - exists out. split; [done|]. exact (A _ _ _ _ _ _ E).
  - apply (f_equal (λ x, is_ok x.1)) in E. vm_compute in E. discriminate.
Defined.

(** A connection is stamped new each time it goes back to the pool: kept busy, it is
    still in use when it is older than [MAX_LIFETIME], and no other was ever made. *)
Fixpoint ex_repeat (n : nat) (st : USt) : USt :=
  match n with
  | O => st
  | S n' => ex_repeat n' (query_forwarder ex_client ex_world [ex_tor 10] "corp.example." ex_query st).2
  end.
Definition is_connect (e : Event) : bool := match e with EConnect _ _ => true | _ => false end.
Definition is_dot (e : Event) : bool := match e with EDot _ _ => true | _ => false end.
Lemma lifetime_not_enforced :
  let st := ex_repeat 30 ex_st in
  MAX_LIFETIME < u_instant ex_world (utick st) - u_instant ex_world 10 ∧
  length (List.filter is_dot (trace st)) = 30%nat ∧
  length (List.filter is_connect (trace st)) = 1%nat.
Proof. vm_compute. done. Qed.

(** A query that was already answered but is dropped before it looks (the loser of a
    race, say) removes the entry of another query that has since registered under
    the same key: the second query's response finds nobody waiting. *)
Definition ex_key : IpAddr * Z := (V4 [9; 9; 9; 9], 7).
Lemma cleanup_evicts_other :
  let peer := {| sa_ip := V4 [9; 9; 9; 9]; sa_port := 53 |} in
  let c1 := (Demux.register 1 ex_key Demux.channel_new).2 in
  let c2 := Demux.recv ex_reply peer c1 in
  let c3 := (Demux.register 2 ex_key c2).2 in
  let c4 := Demux.cleanup 1 c3 in
  let c5 := Demux.recv ex_reply peer c4 in
  Demux.pending c3 !! ex_key = Some 2%nat ∧ Demux.inbox c5 !! 2%nat = None.
Proof. vm_compute. done. Qed.

Lemma demux_delivers_own_witness :
  let peer := {| sa_ip := V4 [9; 9; 9; 9]; sa_port := 53 |} in
  let c1 := (Demux.register 1 ex_key Demux.channel_new).2 in
  let c2 := Demux.recv ex_reply peer c1 in
  Demux.inbox c2 !! 1%nat = Some (ex_reply, peer) ∧
  Demux.wkey c2 !! 1%nat = Some (V4 [9; 9; 9; 9], 7).
Proof.
  cbn zeta. split; [vm_compute; reflexivity|].
  set (c1 := (Demux.register 1 ex_key Demux.channel_new).2).
  set (c2 := Demux.recv ex_reply {| sa_ip := V4 [9; 9; 9; 9]; sa_port := 53 |} c1).
  destruct (Demux.demux_delivers_own c2 (Demux.cleanup 1 c2)) as [D _].
  - eapply Demux.CReach_step; [eapply Demux.CReach_step; [apply Demux.CReach_new|]|apply Demux.Step_recv].
    eapply (Demux.Step_register 1 ex_key); reflexivity.
  - apply Demux.Step_cleanup.
  - destruct (D 1%nat ex_reply {| sa_ip := V4 [9; 9; 9; 9]; sa_port := 53 |}) as (_ & hi & lo & rest & E & K).
    + vm_compute. reflexivity.
    + injection E as <- <- _. exact K.
Defined.
End ForwarderExamples.
