(* ===== verification/Handler.v ===== *)
(** * The query handler ([recursor/mod.rs], [handler.rs])

    [RecursorHandler::handle_bytes] and what it calls: the readiness gate, the
    local answers, the cache, coalescing, the forwarder and iterative paths, DNSSEC
    validation, DNS64 and the error replies.  The handler is split at the only point
    where it waits for other queries, the per-question lock: [before_lock] and
    [after_lock]; [between] is what the rest of the program does meanwhile. *)
From S2P Require Import Prelude Hickory Reference Net Dns64 Cache TtlCaches Text LocalZones.
From S2P Require Import Anchor Dnssec Validator Iterative ClientPolicy Tunnel Forwarder.

Module Handler.
Import Anchor Dnssec Validator.

(** ** Error replies *)
Section Replies.
Context `{NameOps} {HK : Hickory}.

Definition EDE_DNSSEC_BOGUS : Z := 6.

Definition build_refused (query : list Z) : option (list Z) :=
  msg ← from_bytes query;
  let resp := message_response (id (metadata msg)) (op_code (metadata msg)) in
  let resp := set_rd (recursion_desired (metadata msg)) resp in
  let resp := set_ra false resp in
  let resp := set_rcode (match op_code (metadata msg) with OC_Query => RC_Refused | _ => RC_NotImp end) resp in
  let resp := add_queries (queries msg) resp in
  to_vec resp.

Definition servfail_message (req : Message) : Message :=
  let resp := message_response (id (metadata req)) OC_Query in
  let resp := set_rd (recursion_desired (metadata req)) resp in
  let resp := set_ra false resp in
  let resp := set_rcode RC_ServFail resp in
  add_queries (queries req) resp.
(** Twelve bytes by hand when even that does not encode. *)
Definition servfail (req : Message) : list Z :=
  match to_vec (servfail_message req) with
  | Some b => b
  | None => to_be16 (id (metadata req)) ++ [0x80; 0x02; 0; 0; 0; 0; 0; 0; 0; 0]
  end.
Definition servfail_with_ede (req : Message) (info_code : Z) (extra_text : string) : list Z :=
  let extra_bytes := to_be16 info_code ++ take 255 (bytes_of_string extra_text) in
  let resp := set_edns {| max_payload := 1232; edns_version := 0; dnssec_ok := false;
                          edns_options := [(15, extra_bytes)] |} (servfail_message req) in
  match to_vec resp with Some b => b | None => servfail req end.

Definition respond_with_policy (policy : DnssecPolicy) (msg : Message) : list Z :=
  default [] (to_vec (apply_to_response policy msg)).
Definition rewrite_query_name (txid : Z) (original : Message) (new_name : Name) : Message :=
  let new_msg := message_new txid MT_Query OC_Query in
  let new_msg := set_rd (recursion_desired (metadata original)) new_msg in
  add_query (query_query new_name RT_PTR) new_msg.
End Replies.

Record ListenerContext := { ctx_name : string; ctx_dns64 : bool; doh_auth_token : option string }.

(** What [handle_bytes] comes to: bytes for the client, silence, or a panic. *)
Inductive Reply : Type := Answer (b : list Z) | NoReply | Panic.
Definition reply_of (o : option (list Z)) : Reply := match o with Some b => Answer b | None => NoReply end.

Section Handler.
Context `{NameOps} {HK : Hickory} `{IpNets, !Moka, !MapIter, Rrl.Governor}.

(** The fields of [RecursorHandler] that do not change; [h_validator] says whether
    there is a validator, [h_nesting] bounds nested sub-walks (see [Iterative]). *)
Record HConfig := {
  h_dns64 : option Dns64.Dns64Policy; h_dnssec : DnssecPolicy; h_validator : bool;
  h_iterative : option Iterative.Config; h_nesting : nat; h_ddr : list SVCB;
  h_forwarders : list Forwarders.ForwarderEntry; h_client : Upstream.UpstreamClient }.
Record HSt := {
  h_ready : bool; h_it : Iterative.ISt; h_val : St; h_anchors : TrustAnchors;
  h_neg : NegResolveCache.NegResolveCache; h_fly : InFlight.InFlightMap; h_rrl : option Rrl.gov;
  h_up : Upstream.USt }.
(** The worlds of the components, and the lock counts of the in-flight map. *)
Record HWorld := {
  w_it : Iterative.IWorld; w_val : World; w_up : Upstream.UWorld; w_strong : nat → nat → nat }.

Context (self : HConfig) (w : HWorld).

Definition set_it (it : Iterative.ISt) (st : HSt) : HSt :=
  {| h_ready := h_ready st; h_it := it; h_val := h_val st; h_anchors := h_anchors st;
     h_neg := h_neg st; h_fly := h_fly st; h_rrl := h_rrl st; h_up := h_up st |}.
Definition set_val (v : St) (st : HSt) : HSt :=
  {| h_ready := h_ready st; h_it := h_it st; h_val := v; h_anchors := h_anchors st;
     h_neg := h_neg st; h_fly := h_fly st; h_rrl := h_rrl st; h_up := h_up st |}.
Definition set_neg (n : NegResolveCache.NegResolveCache) (st : HSt) : HSt :=
  {| h_ready := h_ready st; h_it := h_it st; h_val := h_val st; h_anchors := h_anchors st;
     h_neg := n; h_fly := h_fly st; h_rrl := h_rrl st; h_up := h_up st |}.
Definition set_fly (f : InFlight.InFlightMap) (st : HSt) : HSt :=
  {| h_ready := h_ready st; h_it := h_it st; h_val := h_val st; h_anchors := h_anchors st;
     h_neg := h_neg st; h_fly := f; h_rrl := h_rrl st; h_up := h_up st |}.
Definition set_rrl (g : Rrl.gov) (st : HSt) : HSt :=
  {| h_ready := h_ready st; h_it := h_it st; h_val := h_val st; h_anchors := h_anchors st;
     h_neg := h_neg st; h_fly := h_fly st; h_rrl := Some g; h_up := h_up st |}.
Definition set_up (u : Upstream.USt) (st : HSt) : HSt :=
  {| h_ready := h_ready st; h_it := h_it st; h_val := h_val st; h_anchors := h_anchors st;
     h_neg := h_neg st; h_fly := h_fly st; h_rrl := h_rrl st; h_up := u |}.

(** One clock for the handler: the resolver's. *)
Definition now (st : HSt) : Z := Iterative.iinstant (w_it w) (Iterative.itick (h_it st)).
Definition htock (st : HSt) : HSt := set_it (Iterative.itock (h_it st)) st.

(** [self.cache.get] and [self.cache.put]. *)
Definition cache_get (k : CacheKey) (st : HSt) : option (list Z) * HSt :=
  let '(o, it) := Iterative.cache_get (w_it w) k (h_it st) in (o, set_it it st).
Definition cache_put (k : CacheKey) (msg : Message) (bytes : list Z) (st : HSt) : HSt :=
  set_it (Iterative.cache_put (w_it w) k msg bytes (h_it st)) st.

Definition query_forwarder (servers : list ForwarderCfg.ForwarderServer) (d : string) (q : list Z) (st : HSt)
  : result (list Z) * HSt :=
  let '(r, u) := Upstream.query_forwarder (h_client self) (w_up w) servers d q (h_up st) in (r, set_up u st).

(** ** Resolve, validate, cache *)

Inductive ResolveOutcome : Type :=
| ROk (bytes : list Z) (parsed : Message) | RBogus (servfail_bytes : list Z) | RWalkFailed.

Definition resolve_validate_cache (icfg : Iterative.Config) (msg : Message) (st : HSt)
  : ResolveOutcome * HSt :=
  match head (queries msg) with
  | None => (RWalkFailed, st)
  | Some q =>
      let '(r, it) := Iterative.resolve_with_chain icfg (w_it w) (h_nesting self) msg (h_it st) in
      let st := set_it it st in
      match r with
      | Err _ => (RWalkFailed, st)
      | Ok (bytes, walk_chain) =>
          match from_bytes bytes with
          | None => (ROk bytes (message_new 0 MT_Response OC_Query), st)
          | Some parsed =>
              let finish parsed st :=
                let final_bytes := default bytes (to_vec parsed) in
                let key := cache_key (q_name q) (query_type q) (query_class q) in
                (ROk final_bytes parsed, cache_put key parsed final_bytes st) in
              if h_validator self then
                let '(status, validated_zones, v) :=
                  validate_walk (w_val w) (h_anchors st) (Iterative.roots (h_it st)) walk_chain parsed []
                    (h_val st) in
                let st := set_val v st in
                let st := set_it (Iterative.cache_validated_delegations icfg (w_it w) walk_chain
                                    validated_zones (h_it st)) st in
                match status with
                | Secure => finish (set_ad true parsed) st
                | Insecure => finish (set_ad false parsed) st
                | Bogus reason => (RBogus (servfail_with_ede msg EDE_DNSSEC_BOGUS reason), st)
                end
              else finish (apply_to_response (h_dnssec self) parsed) st
          end
      end
  end.

(** ** From the cache *)

(** [None]: not cached (or not usable); [Some None]: [embed_v4] panics. *)
Definition synthesise_from_cached_a (policy : Dns64.Dns64Policy) (original_query : Message) (qname : Name)
  (st : HSt) : option (option Message) * HSt :=
  let '(o, st) := cache_get (cache_key qname RT_A DC_IN) st in
  (a_resp ← o ≫= from_bytes;
   if negb (existsb (λ r, bool_decide (record_type r = RT_A)) (answers a_resp)) then None
   else Some (apply_to_response (h_dnssec self) <$> Dns64.synthesise_from_a policy original_query a_resp), st).

(** [None]: fall through to a fresh resolve. *)
Definition build_from_cache_value (msg : Message) (q : Query) (cached : list Z) (ctx : ListenerContext)
  (st : HSt) : option Reply * HSt :=
  match DnsCache.rewrite_txid cached (id (metadata msg)) with
  | None => (Some Panic, st)
  | Some cached =>
      match from_bytes cached with
      | None => (Some (Answer cached), st)
      | Some parsed =>
          if Dns64.should_synthesise (h_dns64 self) (ctx_dns64 ctx) (q_name q) (query_type q) parsed then
            match h_dns64 self with
            | None => (None, st)
            | Some policy =>
                let '(o, st) := synthesise_from_cached_a policy msg (q_name q) st in
                match o with
                | None => (None, st)
                | Some None => (Some Panic, st)
                | Some (Some synth) => (Answer <$> to_vec synth, st)
                end
            end
          else
            let parsed := if h_validator self then parsed else apply_to_response (h_dnssec self) parsed in
            (Some (Answer (default cached (to_vec parsed))), st)
      end
  end.

(** ** The DNS64 PTR path *)

Definition resolve_forwarded (query_msg : Message) (qname : Name) (qtype : RecordType) (st : HSt)
  : option (list Z) * HSt :=
  let key := cache_key qname qtype DC_IN in
  let '(o, st) := cache_get key st in
  match o with
  | Some cached => (Some cached, st)
  | None =>
      match Forwarders.lookup_with_domain (h_forwarders self) qname with
      | None => (None, st)
      | Some (d, servers) =>
          match to_vec query_msg with
          | None => (None, st)
          | Some q_bytes =>
              let '(r, st) := query_forwarder servers d q_bytes st in
              match r with
              | Err _ => (None, st)
              | Ok resp_bytes =>
                  (Some resp_bytes,
                   match from_bytes resp_bytes with
                   | Some parsed => cache_put key parsed resp_bytes st
                   | None => st
                   end)
              end
          end
      end
  end.

(** The question rewritten to [in-addr.arpa], when the short cut applies. *)
Definition dns64_ptr_target (q : Query) (ctx : ListenerContext) : option Name :=
  if ctx_dns64 ctx && bool_decide (query_type q = RT_PTR) then
    policy ← h_dns64 self; Dns64.rewrite_ptr_question policy (q_name q)
  else None.
Definition dns64_ptr (msg : Message) (new_qname : Name) (st : HSt) : Reply * HSt :=
  let txid := Iterative.irnd (w_it w) (Iterative.itick (h_it st)) in
  let '(o, st) := resolve_forwarded (rewrite_query_name txid msg new_qname) new_qname RT_PTR (htock st) in
  match o with
  | None => (Answer (servfail msg), st)
  | Some ans =>
      match from_bytes ans with
      | None => (NoReply, st)
      | Some parsed =>
          (reply_of (to_vec (apply_to_response (h_dnssec self) (Dns64.rewrap_ptr_response msg parsed))), st)
      end
  end.

(** ** Before the lock *)

Inductive Phase : Type :=
| Done (r : Reply)
| Locked (msg : Message) (q : Query) (lock : nat).

Definition before_lock (query : list Z) (peer : IpAddr) (ctx : ListenerContext) (st : HSt) : Phase * HSt :=
  if negb (h_ready st) then (Done (reply_of (build_refused query)), st)
  else
  match from_bytes query with
  | None => (Done NoReply, st)
  | Some msg =>
  match head (queries msg) with
  | None => (Done NoReply, st)
  | Some q =>
      let '(allowed, st) :=
        match h_rrl st with
        | Some g => let '(ok, g) := Rrl.check (now st) peer g in (ok, set_rrl g (htock st))
        | None => (true, st)
        end in
      if negb allowed then (Done NoReply, st)
      else if Ipv4Only.is_local_question (q_name q) (query_type q) then
        (Done (match Ipv4Only.synth_response msg (h_dns64 self) (ctx_dns64 ctx) with
               | None => Panic | Some synth => reply_of (to_vec synth) end), st)
      else if negb (bool_decide (h_ddr self = [])) && Ddr.is_ddr_question (q_name q) then
        (Done (match Ddr.synth_response msg (h_ddr self) with
               | None => Panic | Some synth => reply_of (to_vec synth) end), st)
      else
      match dns64_ptr_target q ctx with
      | Some new_qname => let '(r, st) := dns64_ptr msg new_qname st in (Done r, st)
      | None =>
          if NegResolveCache.hit (now st) (q_name q) (query_type q) (h_neg st)
          then (Done (Answer (servfail msg)), htock st)
          else
            let st := htock st in
            let '(o, st) := cache_get (cache_key (q_name q) (query_type q) (query_class q)) st in
            let '(r, st) :=
              match o with
              | Some cached => build_from_cache_value msg q cached ctx st
              | None => (None, st)
              end in
            match r with
            | Some r => (Done r, st)
            | None =>
                let '(lock, fly) :=
                  InFlight.lock_for (w_strong w (Iterative.itick (h_it st))) (q_name q) (query_type q) (h_fly st) in
                (Locked msg q lock, set_fly fly st)
            end
      end
  end
  end.

(** ** Under the lock *)

Definition a_query_of (msg : Message) (q : Query) : Message :=
  add_query (query_query (q_name q) RT_A) (set_queries [] msg).

Definition iterative_path (icfg : Iterative.Config) (msg : Message) (q : Query) (ctx : ListenerContext)
  (st : HSt) : Reply * HSt :=
  let '(out, st) := resolve_validate_cache icfg msg st in
  match out with
  | RBogus servfail_bytes => (Answer servfail_bytes, st)
  | RWalkFailed =>
      let n := NegResolveCache.insert (now st) (now (htock st)) (q_name q) (query_type q) (h_neg st) in
      (Answer (servfail msg), set_neg n (htock (htock st)))
  | ROk bytes parsed =>
      if Dns64.should_synthesise (h_dns64 self) (ctx_dns64 ctx) (q_name q) (query_type q) parsed then
        match h_dns64 self with
        | None => (Answer bytes, st)
        | Some policy =>
            let '(a_out, st) := resolve_validate_cache icfg (a_query_of msg q) st in
            match a_out with
            | ROk _ a_resp =>
                match answers a_resp with
                | [] => (Answer bytes, st)
                | _ :: _ =>
                    match Dns64.synthesise_from_a policy msg a_resp with
                    | None => (Panic, st)
                    | Some synth => (Answer (default bytes (to_vec (apply_to_response (h_dnssec self) synth))), st)
                    end
                end
            | _ => (Answer bytes, st)
            end
        end
      else (Answer bytes, st)
  end.

(** Policy, then cache. *)
Definition finish_forwarded (msg : Message) (key : CacheKey) (resp : Message) (st : HSt) : Reply * HSt :=
  let resp := apply_to_response (h_dnssec self) resp in
  let out := default (servfail msg) (to_vec resp) in
  (Answer out, cache_put key resp out st).

Definition forwarder_path (d : string) (servers : list ForwarderCfg.ForwarderServer) (query : list Z)
  (msg : Message) (q : Query) (ctx : ListenerContext) (st : HSt) : Reply * HSt :=
  let key := cache_key (q_name q) (query_type q) (query_class q) in
  let '(r, st) := query_forwarder servers d query st in
  match r with
  | Err _ => (Answer (servfail msg), st)
  | Ok resp_bytes =>
      match from_bytes resp_bytes with
      | None => (Answer (servfail msg), st)
      | Some resp =>
          if Dns64.should_synthesise (h_dns64 self) (ctx_dns64 ctx) (q_name q) (query_type q) resp then
            match h_dns64 self with
            | None => finish_forwarded msg key resp st
            | Some policy =>
                match to_vec (a_query_of msg q) with
                | None => (Answer (respond_with_policy (h_dnssec self) resp), st)
                | Some a_query_bytes =>
                    let '(ra, st) := query_forwarder servers d a_query_bytes st in
                    match res_ok ra ≫= from_bytes with
                    | None => finish_forwarded msg key resp st
                    | Some a_resp =>
                        match answers a_resp with
                        | [] => finish_forwarded msg key resp st
                        | _ :: _ =>
                            match Dns64.synthesise_from_a policy msg a_resp with
                            | None => (Panic, st)
                            | Some synth =>
                                (Answer (default (servfail msg)
                                   (to_vec (apply_to_response (h_dnssec self) synth))), st)
                            end
                        end
                    end
                end
            end
          else finish_forwarded msg key resp st
      end
  end.

Definition after_lock (query : list Z) (msg : Message) (q : Query) (ctx : ListenerContext) (st : HSt)
  : Reply * HSt :=
  let '(o, st) := cache_get (cache_key (q_name q) (query_type q) (query_class q)) st in
  let '(r, st) :=
    match o with
    | Some cached => build_from_cache_value msg q cached ctx st
    | None => (None, st)
    end in
  match r with
  | Some r => (r, st)
  | None =>
      if NegResolveCache.hit (now st) (q_name q) (query_type q) (h_neg st)
      then (Answer (servfail msg), htock st)
      else
        let st := htock st in
        match Forwarders.lookup_with_domain (h_forwarders self) (q_name q) with
        | Some (d, servers) => forwarder_path d servers query msg q ctx st
        | None =>
            match h_iterative self with
            | None => (Answer (servfail msg), st)
            | Some icfg => iterative_path icfg msg q ctx st
            end
        end
  end.

Definition handle_bytes (between : HSt → HSt) (query : list Z) (peer : IpAddr) (ctx : ListenerContext)
  (st : HSt) : Reply * HSt :=
  let '(p, st) := before_lock query peer ctx st in
  match p with
  | Done r => (r, st)
  | Locked msg q _ => after_lock query msg q ctx (between st)
  end.

(** ** The TXID of a reply *)
Context `{!NameLaws, !HickoryLaws}.

(** The reply's first two bytes. *)
Definition tagged (i : Z) (b : list Z) : Prop := take 2 b = to_be16 i.

Lemma to_vec_tagged m b i : to_vec m = Some b → id (metadata m) = i → is_u16 i → tagged i b.
Proof.
  intros T <- U. destruct (to_vec_header m b T U) as (_ & rest & ->). unfold tagged. done.
Qed.
Lemma from_bytes_tagged b m i : from_bytes b = Some m → tagged i b → id (metadata m) = i.
Proof.
  intros F T. destruct (from_bytes_header b m F) as (_ & hi & lo & rest & -> & ->).
  unfold tagged in T. cbn in T. injection T as -> ->. apply from_to_be16.
Qed.
Lemma default_tagged m d i :
  id (metadata m) = i → is_u16 i → tagged i d → tagged i (default d (to_vec m)).
Proof. intros I U D. destruct (to_vec m) eqn:T; [by eapply to_vec_tagged|done]. Qed.

Lemma servfail_message_id msg : id (metadata (servfail_message msg)) = id (metadata msg).
Proof. unfold servfail_message, message_response. rewrite message_new_spec. by msg_simpl. Qed.
Lemma servfail_tagged msg : is_u16 (id (metadata msg)) → tagged (id (metadata msg)) (servfail msg).
Proof.
  intros U. unfold servfail. destruct (to_vec _) eqn:T; [|done].
  eapply to_vec_tagged; [exact T|apply servfail_message_id|done].
Qed.
Lemma servfail_with_ede_tagged msg c t :
  is_u16 (id (metadata msg)) → tagged (id (metadata msg)) (servfail_with_ede msg c t).
Proof.
  intros U. unfold servfail_with_ede. destruct (to_vec _) eqn:T; [|by apply servfail_tagged].
  eapply to_vec_tagged; [exact T|apply servfail_message_id|done].
Qed.
Lemma apply_to_response_id p m : id (metadata (apply_to_response p m)) = id (metadata m).
Proof. by destruct p. Qed.
Lemma response_shell_id msg rc : id (metadata (Dns64.response_shell msg rc)) = id (metadata msg).
Proof. unfold Dns64.response_shell, message_response. rewrite message_new_spec. by msg_simpl. Qed.

Lemma synthesise_id policy msg a m :
  Dns64.synthesise_from_a policy msg a = Some m → id (metadata m) = id (metadata msg).
Proof.
  unfold Dns64.synthesise_from_a. rewrite <- (response_shell_id msg RC_NoError).
  generalize (Dns64.response_shell msg RC_NoError) as m0.
  induction (answers a) as [|r rs IH]; intros m0; cbn [foldl].
  { by intros [= <-]. }
  assert (foldl (Dns64.synth_step policy) None rs = None) as N by (clear; induction rs; done).
  destruct (Dns64.synth_step policy (Some m0) r) as [m1|] eqn:S; [|by rewrite N].
  intros E. apply IH in E. rewrite E. clear -S. unfold Dns64.synth_step in S. cbn in S.
  repeat case_match; simplify_eq; try done. apply bind_Some in S as (v6 & _ & [= <-]). done.
Qed.
Lemma rewrap_id msg m :
  queries msg ≠ [] → id (metadata (Dns64.rewrap_ptr_response msg m)) = id (metadata msg).
Proof.
  intros Q. unfold Dns64.rewrap_ptr_response. destruct (queries msg) as [|q qs] eqn:Eq; [done|]. cbn.
  rewrite <- (response_shell_id msg (response_code (metadata m))).
  generalize (Dns64.response_shell msg (response_code (metadata m))) as m0.
  induction (answers m) as [|r rs IH]; intros m0; cbn; [done|]. rewrite IH.
  unfold Dns64.rewrap_step. by repeat case_match.
Qed.
Lemma ipv4only_id msg pol en m :
  Ipv4Only.synth_response msg pol en = Some m → id (metadata m) = id (metadata msg).
Proof.
  unfold Ipv4Only.synth_response. intros (q & _ & E)%bind_Some.
  pose proof (response_shell_id msg RC_NoError) as S.
  repeat case_match; simplify_eq; try done; cbn in E.
  - apply bind_Some in E as (m1 & E1 & E). apply bind_Some in E as (v6 & _ & [= <-]).
    apply bind_Some in E1 as (v6' & _ & [= <-]). done.
  - apply bind_Some in E as (t & _ & [= <-]). done.
Qed.
Lemma ddr_id msg rs m : Ddr.synth_response msg rs = Some m → id (metadata m) = id (metadata msg).
Proof.
  unfold Ddr.synth_response. intros (q & _ & E)%bind_Some.
  rewrite <- (response_shell_id msg RC_NoError). case_match; simplify_eq; [|done].
  generalize (Dns64.response_shell msg RC_NoError) as m0.
  induction rs as [|r rs IH]; intros m0; cbn; [done|]. by rewrite IH.
Qed.

Lemma query_forwarder_tagged servers d q st out st' msg :
  query_forwarder servers d q st = (Ok out, st') → from_bytes q = Some msg →
  is_u16 (id (metadata msg)) → tagged (id (metadata msg)) out.
Proof.
  unfold query_forwarder. destruct (Upstream.query_forwarder _ _ _ _ _ _) as [r u] eqn:E.
  intros [= -> _] M U. apply Upstream.forwarder_loop_accepted in E
    as (orig & _ & _ & _ & _ & _ & parsed & O & _ & _ & _ & _ & _ & _ & V).
  eapply to_vec_tagged; [exact V|by simplify_eq|done].
Qed.

Lemma resolve_validate_cache_tagged icfg msg st out st' :
  is_u16 (id (metadata msg)) → resolve_validate_cache icfg msg st = (out, st') →
  match out with
  | ROk bytes _ | RBogus bytes => tagged (id (metadata msg)) bytes
  | RWalkFailed => True
  end.
Proof.
  intros U. unfold resolve_validate_cache. destruct (head (queries msg)) as [q|]; [|by intros [= <- <-]].
  destruct (Iterative.resolve_with_chain _ _ _ _ _) as [[[bytes chain]|e] it] eqn:R; [|by intros [= <- <-]].
  destruct (Iterative.resolve_reply _ _ _ _ _ _ _ _ R) as (m & T & I & _).
  pose proof (to_vec_tagged _ _ _ T I U) as Tb.
  destruct (from_bytes bytes) as [parsed|] eqn:F; [|by intros [= <- <-]].
  pose proof (from_bytes_tagged _ _ _ F Tb) as Ip.
  destruct (h_validator self).
  - destruct (validate_walk _ _ _ _ _ _ _) as [[status zones] v].
    destruct status; intros [= <- <-]; [by apply default_tagged..|by apply servfail_with_ede_tagged].
  - intros [= <- <-]. apply default_tagged; [by rewrite apply_to_response_id|done..].
Qed.

Lemma build_from_cache_value_tagged msg q cached ctx st b st' :
  is_u16 (id (metadata msg)) → build_from_cache_value msg q cached ctx st = (Some (Answer b), st') →
  tagged (id (metadata msg)) b.
Proof.
  intros U. unfold build_from_cache_value. destruct cached as [|c0 [|c1 cs]]; [done..|]. cbn [DnsCache.rewrite_txid].
  set (c := to_be16 (id (metadata msg)) ++ cs). assert (tagged (id (metadata msg)) c) as Tc by done.
  destruct (from_bytes c) as [parsed|] eqn:F; [|by intros [= <- <-]].
  pose proof (from_bytes_tagged _ _ _ F Tc) as Ip.
  destruct (Dns64.should_synthesise _ _ _ _ _).
  - destruct (h_dns64 self) as [policy|]; [|done]. unfold synthesise_from_cached_a.
    destruct (cache_get _ st) as [o st1]. destruct (o ≫= from_bytes) as [a|]; [|done]. cbn.
    destruct (negb _); [done|]. destruct (Dns64.synthesise_from_a policy msg a) as [m|] eqn:S; [|done]. cbn.
    destruct (to_vec (apply_to_response (h_dnssec self) m)) as [bs|] eqn:T; [|done]. intros [= <- <-].
    eapply to_vec_tagged; [exact T| |done]. rewrite apply_to_response_id. by eapply synthesise_id.
  - intros [= <- <-]. apply default_tagged; [|done..].
    destruct (h_validator self); [done|by rewrite apply_to_response_id].
Qed.

Lemma reply_of_tagged m i b : reply_of (to_vec m) = Answer b → id (metadata m) = i → is_u16 i → tagged i b.
Proof. intros R I U. destruct (to_vec m) eqn:T; [|done]. injection R as <-. by eapply to_vec_tagged. Qed.

Lemma dns64_ptr_tagged msg n st b st' :
  is_u16 (id (metadata msg)) → queries msg ≠ [] → dns64_ptr msg n st = (Answer b, st') →
  tagged (id (metadata msg)) b.
Proof.
  intros U Q. unfold dns64_ptr. destruct (resolve_forwarded _ _ _ _) as [[ans|] st1].
  - destruct (from_bytes ans) as [m|]; [|done]. intros E. injection E as E _.
    eapply reply_of_tagged; [exact E| |done]. rewrite apply_to_response_id. by apply rewrap_id.
  - intros [= <- <-]. by apply servfail_tagged.
Qed.

Lemma iterative_path_tagged icfg msg q ctx st b st' :
  is_u16 (id (metadata msg)) → iterative_path icfg msg q ctx st = (Answer b, st') → tagged (id (metadata msg)) b.
Proof.
  intros U. unfold iterative_path. destruct (resolve_validate_cache icfg msg st) as [out st1] eqn:R.
  apply resolve_validate_cache_tagged in R; [|done].
  destruct out as [bytes parsed|sf|]; [|by intros [= <- <-]|intros [= <- <-]; by apply servfail_tagged].
  destruct (Dns64.should_synthesise _ _ _ _ _); [|by intros [= <- <-]].
  destruct (h_dns64 self) as [policy|]; [|by intros [= <- <-]].
  destruct (resolve_validate_cache icfg (a_query_of msg q) st1) as [aout st2].
  destruct aout as [ab a|?|]; [|by intros [= <- <-]..]. destruct (answers a); [by intros [= <- <-]|].
  destruct (Dns64.synthesise_from_a policy msg a) as [m|] eqn:S; [|done]. intros [= <- <-].
  apply default_tagged; [|done..]. rewrite apply_to_response_id. by eapply synthesise_id.
Qed.

Lemma forwarder_path_tagged d servers query msg q ctx st b st' :
  from_bytes query = Some msg → is_u16 (id (metadata msg)) →
  forwarder_path d servers query msg q ctx st = (Answer b, st') → b = [] ∨ tagged (id (metadata msg)) b.
Proof.
  intros M U. unfold forwarder_path. destruct (query_forwarder servers d query st) as [r st1] eqn:F.
  destruct r as [rb|e]; [|intros [= <- <-]; right; by apply servfail_tagged].
  pose proof (query_forwarder_tagged _ _ _ _ _ _ _ F M U) as Tb.
  destruct (from_bytes rb) as [resp|] eqn:P; [|intros [= <- <-]; right; by apply servfail_tagged].
  pose proof (from_bytes_tagged _ _ _ P Tb) as Ir.
  assert (Fin : ∀ k sx, finish_forwarded msg k resp sx = (Answer b, st') → tagged (id (metadata msg)) b).
  { intros k sx [= <- _]. apply default_tagged; [by rewrite apply_to_response_id|done|by apply servfail_tagged]. }
  destruct (Dns64.should_synthesise _ _ _ _ _); [|intros E; right; by eapply Fin].
  destruct (h_dns64 self) as [policy|]; [|intros E; right; by eapply Fin].
  destruct (to_vec (a_query_of msg q)) as [aq|].
  2: { unfold respond_with_policy. destruct (to_vec (apply_to_response _ resp)) as [bs|] eqn:T; cbn;
         intros [= <- <-]; [right|by left]. eapply to_vec_tagged; [exact T|by rewrite apply_to_response_id|done]. }
  destruct (query_forwarder servers d aq st1) as [ra st2].
  destruct (res_ok ra ≫= from_bytes) as [a|]; [|intros E; right; by eapply Fin].
  destruct (answers a); [intros E; right; by eapply Fin|].
  destruct (Dns64.synthesise_from_a policy msg a) as [m|] eqn:S; [|done]. intros [= <- <-]. right.
  apply default_tagged; [|done|by apply servfail_tagged]. rewrite apply_to_response_id. by eapply synthesise_id.
Qed.

Lemma query_id query msg :
  Forall is_byte query → from_bytes query = Some msg →
  is_u16 (id (metadata msg)) ∧ take 2 query = to_be16 (id (metadata msg)).
Proof.
  intros B F. destruct (from_bytes_header _ _ F) as (_ & hi & lo & rest & -> & ->).
  apply Forall_cons in B as [Bh B]. apply Forall_cons in B as [Bl _].
  rewrite to_from_be16 by done. unfold is_u16, is_byte, from_be16 in *. split; [lia|done].
Qed.

Lemma build_refused_tagged query msg b :
  from_bytes query = Some msg → is_u16 (id (metadata msg)) → build_refused query = Some b →
  tagged (id (metadata msg)) b.
Proof.
  unfold build_refused. intros -> U T. cbn in T. eapply to_vec_tagged; [exact T| |done].
  unfold message_response. rewrite message_new_spec. by msg_simpl.
Qed.

Lemma after_lock_tagged query msg q ctx st b st' :
  from_bytes query = Some msg → is_u16 (id (metadata msg)) →
  after_lock query msg q ctx st = (Answer b, st') → b = [] ∨ tagged (id (metadata msg)) b.
Proof.
  intros M U. unfold after_lock. destruct (cache_get _ st) as [o st1].
  destruct (match o with Some c => _ | None => _ end) as [[r|] st2] eqn:B.
  - intros [= -> ->]. destruct o; [|done]. right. by eapply build_from_cache_value_tagged.
  - destruct (NegResolveCache.hit _ _ _ _); [intros [= <- <-]; right; by apply servfail_tagged|].
    destruct (Forwarders.lookup_with_domain _ _) as [[d servers]|]; [by apply forwarder_path_tagged|].
    destruct (h_iterative self) as [icfg|]; [|intros [= <- <-]; right; by apply servfail_tagged].
    intros E. right. by eapply iterative_path_tagged.
Qed.

Lemma before_lock_tagged query peer ctx st p st' :
  Forall is_byte query → before_lock query peer ctx st = (p, st') →
  match p with
  | Done (Answer b) => take 2 b = take 2 query
  | Done _ => True
  | Locked msg q _ => from_bytes query = Some msg ∧ head (queries msg) = Some q
  end.
Proof.
  intros By. unfold before_lock. destruct (from_bytes query) as [msg|] eqn:M.
  2: { unfold build_refused. rewrite M. cbn. destruct (negb _); by intros [= <- <-]. }
  destruct (query_id _ _ By M) as [U Tq]. destruct (negb (h_ready st)).
  { intros [= <- <-]. destruct (build_refused query) as [b|] eqn:R; [|done]. cbn. rewrite Tq.
    by eapply build_refused_tagged. }
  destruct (head (queries msg)) as [q|] eqn:Hq; [|by intros [= <- <-]].
  assert (queries msg ≠ []) as Nq by (by destruct (queries msg)).
  destruct (match h_rrl st with Some _ => _ | None => _ end) as [al st1].
  destruct (negb al); [by intros [= <- <-]|].
  destruct (Ipv4Only.is_local_question _ _).
  { intros [= <- <-]. destruct (Ipv4Only.synth_response _ _ _) as [m|] eqn:S; [|done].
    destruct (to_vec m) eqn:T; [|done]. cbn. rewrite Tq. eapply to_vec_tagged; [exact T|by eapply ipv4only_id|done]. }
  destruct (_ && _).
  { intros [= <- <-]. destruct (Ddr.synth_response _ _) as [m|] eqn:S; [|done].
    destruct (to_vec m) eqn:T; [|done]. cbn. rewrite Tq. eapply to_vec_tagged; [exact T|by eapply ddr_id|done]. }
  destruct (dns64_ptr_target q ctx) as [n|].
  { destruct (dns64_ptr msg n st1) as [[b| |] st2] eqn:D; intros [= <- <-]; try done. rewrite Tq.
    by eapply dns64_ptr_tagged. }
  destruct (NegResolveCache.hit _ _ _ _).
  { intros [= <- <-]. rewrite Tq. by apply servfail_tagged. }
  destruct (cache_get _ _) as [o st2].
  destruct (match o with Some c => _ | None => _ end) as [[r|] st3] eqn:B.
  - intros [= <- <-]. destruct r as [b| |]; try done. destruct o; [|done]. rewrite Tq.
    by eapply build_from_cache_value_tagged.
  - destruct (InFlight.lock_for _ _ _ _) as [l f]. by intros [= <- <-].
Qed.

Lemma handle_bytes_tagged between query peer ctx st b st' :
  Forall is_byte query → handle_bytes between query peer ctx st = (Answer b, st') →
  b = [] ∨ take 2 b = take 2 query.
Proof.
  intros By. unfold handle_bytes. destruct (before_lock query peer ctx st) as [p st1] eqn:P.
  apply before_lock_tagged in P; [|done]. destruct p as [r|msg q l].
  - intros [= -> ->]. by right.
  - destruct P as [M _]. destruct (query_id _ _ By M) as [U ->]. by apply after_lock_tagged.
Qed.
(** A packet that does not parse is never answered. *)
Lemma handle_bytes_parses between query peer ctx st b st' :
  handle_bytes between query peer ctx st = (Answer b, st') → is_Some (from_bytes query).
Proof.
  unfold handle_bytes, before_lock, build_refused. destruct (from_bytes query) as [m|]; [by eexists|].
  cbn. by destruct (negb (h_ready st)).
Qed.

(** C3. Every reply answers its query: whichever path produces it (REFUSED while
    starting up, a local answer, the cache, a forwarder, the iterative resolver,
    DNS64 synthesis, SERVFAIL with or without an explanation), and whatever other
    queries did while this one waited for its lock, the bytes returned for a query
    begin with that query's TXID; the only other possibility is the empty reply the
    forwarder path produces when neither its A query nor the response encodes. *)
Theorem reply_echoes_txid between query peer ctx st b st' :
  Forall is_byte query → handle_bytes between query peer ctx st = (Answer b, st') →
  b = [] ∨ take 2 b = take 2 query.
Proof. apply handle_bytes_tagged. Qed.

(** ** The AD bit *)

Lemma cache_validated_rcache icfg iw chain zs it :
  Iterative.rcache (Iterative.cache_validated_delegations icfg iw chain zs it) = Iterative.rcache it.
Proof.
  unfold Iterative.cache_validated_delegations. case_match; [done|]. generalize (steps chain) as l.
  intros l; revert it. induction l as [|x l IH]; intros it; cbn; [done|]. rewrite IH.
  case_match; [|done]. unfold Iterative.delegation_insert. by case_match.
Qed.

(** With a validator, AD means validated and Bogus means SERVFAIL.  If the key
    cache leads back to the anchors, with signatures checked at readings of the clock
    from the [t0]th on, then after resolving any question it still
    does; a result that carries AD is the walk's answer with the bit set, and each
    of its records, or the denial of its question, is vouched for by the anchors at
    such readings (see [secure_chain_of_trust]); a
    Bogus answer becomes a SERVFAIL reply, and nothing is cached for it beyond what
    the walk itself had cached. *)
Theorem ad_means_trusted icfg msg t0 st out st' :
  let clock := since (w_val w) t0 in
  h_validator self = true → st_ok (h_anchors st) clock t0 (h_val st) →
  resolve_validate_cache icfg msg st = (out, st') →
  h_anchors st' = h_anchors st ∧ st_ok (h_anchors st') clock t0 (h_val st') ∧
  match out with
  | ROk bytes parsed =>
      authentic_data (metadata parsed) = true →
      ∃ m, parsed = set_ad true m ∧ trusted_answer (h_anchors st) clock clock m ∧ (∀ b, to_vec parsed = Some b → bytes = b)
  | RBogus b =>
      (∃ reason, b = servfail_with_ede msg EDE_DNSSEC_BOGUS reason) ∧
      Iterative.rcache (h_it st') =
        Iterative.rcache (Iterative.resolve_with_chain icfg (w_it w) (h_nesting self) msg (h_it st)).2
  | RWalkFailed => True
  end.
Proof.
  intros clock V OK. unfold resolve_validate_cache. destruct (head (queries msg)) as [q|]; [|by intros [= <- <-]].
  destruct (Iterative.resolve_with_chain _ _ _ _ _) as [[[bytes chain]|e] it]; [|by intros [= <- <-]].
  destruct (from_bytes bytes) as [parsed|].
  2: { intros [= <- <-]. split; [done|]. split; [done|]. by rewrite message_new_spec. }
  rewrite V. destruct (validate_walk _ _ _ _ _ _ _) as [[status zones] v] eqn:W.
  apply (validate_walk_ok _ (h_anchors st) clock clock t0) in W as (OK' & _ & S);
    [|by intros n L; exists n|by intros n L; exists n|done..].
  destruct status as [| |reason]; intros [= <- <-]; (split; [done|]); (split; [done|]).
  - intros _. exists parsed. split; [done|]. split; [by apply S|]. intros b T. by rewrite T.
  - done.
  - split; [by exists reason|]. cbn. by rewrite cache_validated_rcache.
Qed.

(** ** Quiet answers *)

(** No query on the wire, nothing learnt. *)
Definition offline (st st' : HSt) : Prop :=
  Iterative.sent (h_it st') = Iterative.sent (h_it st) ∧ h_up st' = h_up st ∧ h_val st' = h_val st ∧
  h_neg st' = h_neg st ∧ h_anchors st' = h_anchors st ∧
  Iterative.delegations (h_it st') = Iterative.delegations (h_it st).
Lemma offline_trans st1 st2 st3 : offline st1 st2 → offline st2 st3 → offline st1 st3.
Proof. unfold offline. naive_solver congruence. Qed.
Lemma offline_cache_get k st o st' : cache_get k st = (o, st') → offline st st'.
Proof.
  unfold cache_get. pose proof (Iterative.quiet_cache_get (w_it w) k (h_it st)) as [[(D & _) _] S].
  destruct (Iterative.cache_get _ k (h_it st)) as [o' it]. intros [= <- <-]. by repeat split.
Qed.
Lemma build_from_cache_value_offline msg q cached ctx st r st' :
  build_from_cache_value msg q cached ctx st = (r, st') → offline st st'.
Proof.
  unfold build_from_cache_value. destruct (DnsCache.rewrite_txid _ _); [|by intros [= <- <-]].
  destruct (from_bytes _); [|by intros [= <- <-]]. destruct (Dns64.should_synthesise _ _ _ _ _); [|by intros [= <- <-]].
  destruct (h_dns64 self) as [policy|]; [|by intros [= <- <-]].
  unfold synthesise_from_cached_a. destruct (cache_get _ st) as [o st1] eqn:G. apply offline_cache_get in G.
  repeat case_match; by intros [= <- <-].
Qed.

(** The fast path stays off the network: except for the DNS64 PTR short cut,
    everything [handle_bytes] does before it takes the per-question lock (the
    readiness gate, rate limiting, local answers, the failure cache, a cache hit
    with or without DNS64 synthesis) sends no query, changes neither the failure
    cache nor the validator's keys nor the delegation cache; and while the handler
    is not ready it changes nothing at all and answers REFUSED, or nothing to a
    malformed packet. *)
Theorem fast_path_offline query peer ctx st p st' :
  (∀ msg q, from_bytes query = Some msg → head (queries msg) = Some q → dns64_ptr_target q ctx = None) →
  before_lock query peer ctx st = (p, st') →
  offline st st' ∧
  (h_ready st = false → st' = st ∧ p = Done (reply_of (build_refused query))).
Proof.
  intros NP. unfold before_lock. destruct (h_ready st); cbn [negb].
  2: { intros [= <- <-]. split; [done|]. done. }
  intros E. split; [|done]. revert E.
  destruct (from_bytes query) as [msg|] eqn:M; [|by intros [= <- <-]].
  destruct (head (queries msg)) as [q|] eqn:Hq; [|by intros [= <- <-]]. rewrite (NP _ _ eq_refl Hq).
  destruct (match h_rrl st with Some _ => _ | None => _ end) as [al st1] eqn:R.
  assert (O1 : offline st st1).
  { destruct (h_rrl st) as [g|]; [|by injection R as <- <-].
    destruct (Rrl.check _ _ _) as [ok g']. by injection R as <- <-. }
  destruct (negb al); [by intros [= <- <-]|].
  destruct (Ipv4Only.is_local_question _ _); [by intros [= <- <-]|].
  destruct (_ && _); [by intros [= <- <-]|].
  assert (O2 : offline st (htock st1)) by (eapply offline_trans; [exact O1|done]).
  destruct (NegResolveCache.hit _ _ _ _); [by intros [= <- <-]|].
  destruct (cache_get _ (htock st1)) as [o st2] eqn:G. apply offline_cache_get in G.
  pose proof (offline_trans _ _ _ O2 G) as O3.
  destruct (match o with Some c => _ | None => _ end) as [r st3] eqn:B.
  assert (O4 : offline st st3).
  { destruct o; [|by injection B as <- <-]. apply build_from_cache_value_offline in B.
    by eapply offline_trans. }
  destruct r; [by intros [= <- <-]|]. destruct (InFlight.lock_for _ _ _ _). by intros [= <- <-].
Qed.

(** ** Failed walks *)

(** A question the handler has no local answer for. *)
Definition ordinary (q : Query) (ctx : ListenerContext) : Prop :=
  Ipv4Only.is_local_question (q_name q) (query_type q) = false ∧
  negb (bool_decide (h_ddr self = [])) && Ddr.is_ddr_question (q_name q) = false ∧
  dns64_ptr_target q ctx = None.

(** C30. A failed walk is not repeated.  When the walk for a question itself fails (not
    the follow-up for A records that DNS64 makes), its query is answered SERVFAIL and the
    question is entered in the failure cache for five minutes.  While that entry is
    kept and those five minutes last, a handler that is ready answers a query for the
    same name (in any case) and type, if it is one with no local answer, without a look at
    the response cache and without a query on the wire: with SERVFAIL, or not at all if
    its rate limiter says so.  Only the rate limiter's account and the clock move. *)
Theorem failed_walk_suppressed icfg msg q ctx st st1 r st' :
  resolve_validate_cache icfg msg st = (RWalkFailed, st1) →
  iterative_path icfg msg q ctx st = (r, st') →
  let k := (to_lowercase (q_name q), query_type q) in
  r = Answer (servfail msg) ∧
  NegResolveCache.entries (h_neg st') !! k = Some (now st1 + from_secs 300) ∧
  ∀ st2 query2 peer2 ctx2 msg2 q2,
    NegResolveCache.entries (h_neg st2) !! k = NegResolveCache.entries (h_neg st') !! k → h_ready st2 = true →
    from_bytes query2 = Some msg2 → head (queries msg2) = Some q2 → ordinary q2 ctx2 →
    name_eqb (q_name q2) (q_name q) = true → query_type q2 = query_type q →
    now st2 < now st1 + from_secs 300 → now (htock st2) < now st1 + from_secs 300 →
    match h_rrl st2 with
    | None => before_lock query2 peer2 ctx2 st2 = (Done (Answer (servfail msg2)), htock st2)
    | Some g =>
        let '(allowed, g') := Rrl.check (now st2) peer2 g in
        before_lock query2 peer2 ctx2 st2 =
          if allowed then (Done (Answer (servfail msg2)), htock (set_rrl g' (htock st2)))
          else (Done NoReply, set_rrl g' (htock st2))
    end.
Proof.
  intros R. unfold iterative_path. rewrite R. intros [= <- <-]. cbn zeta.
  set (k := (to_lowercase (q_name q), query_type q)). split; [done|].
  assert (En : NegResolveCache.entries (NegResolveCache.insert (now st1) (now (htock st1)) (q_name q) (query_type q)
    (h_neg st1)) !! k = Some (now st1 + from_secs 300)) by apply put_capped_lookup.
  split; [exact En|]. cbn [h_neg set_neg].
  intros st2 query2 peer2 ctx2 msg2 q2 N Rd M Q (O1 & O2 & O3) E T Lt Lt'. rewrite En in N.
  assert (Hit : ∀ t, t < now st1 + from_secs 300 →
    NegResolveCache.hit t (q_name q2) (query_type q2) (h_neg st2) = true).
  { intros t Ht. unfold NegResolveCache.hit. apply name_eqb_spec in E. rewrite E, T. unfold k in N. rewrite N.
    by apply bool_decide_eq_true. }
  unfold before_lock. rewrite Rd, M, Q. cbn [negb]. destruct (h_rrl st2) as [g|].
  - destruct (Rrl.check (now st2) peer2 g) as [[|] g']; cbn [negb]; [|done]. rewrite O1, O2, O3.
    change (h_neg (set_rrl g' (htock st2))) with (h_neg st2).
    by rewrite (Hit (now (set_rrl g' (htock st2))) Lt').
  - cbn [negb]. by rewrite O1, O2, O3, (Hit _ Lt).
Qed.
End Handler.
End Handler.

(** ** Examples *)
Module HandlerExamples.
Import Anchor Dnssec Validator ValidatorExamples Handler.

#[local] Instance ExMoka : Moka.
Proof. by refine {| moka_evict _ m := m |}. Defined.
(** A limiter that lets nothing through. *)
#[local] Instance ExGovernor : Rrl.Governor :=
  {| Rrl.gov := unit; Rrl.keyed _ := tt; Rrl.check_key _ _ g := (false, g) |}.

Definition ex_rr (n : string) (d : RData) : DnsRecord := record_from_rdata (rn n) 600 d.
(** The root's signed referral to [com], with glue. *)
Definition ex_referral : Message :=
  set_additionals [ex_rr "a.ns.com." (RD_A [192; 5; 6; 30])]
    (add_authorities
       [ex_rr "com." (RD_NS (rn "a.ns.com."));
        ex_rr "com." (RD_DS {| ds_key_tag := 3; ds_algorithm := 8; ds_digest_type := 2; ds_digest := [3] |});
        ex_rr "com." (RD_RRSIG (ex_sig RT_DS root 2))]
       (message_response 7 OC_Query)).
Definition ex_signed (signer : Z) : list DnsRecord :=
  [ex_rr "www.com." (RD_A [192; 0; 2; 1]); ex_rr "www.com." (RD_RRSIG (ex_sig RT_A (rn "com.") signer))].
Definition ex_ptr : list DnsRecord := [ex_rr "33.2.0.192.in-addr.arpa." (RD_PTR (rn "host.example."))].

(** Replies of the name servers are told apart by their third byte; any other
    response carries the records that belong to its question. *)
Definition ex_decode (signer : Z) (b : list Z) : option Message :=
  if bool_decide (b = ex_wire 1) then Some (ex_dnskeys root [1; 2] 1)
  else if bool_decide (b = ex_wire 2) then Some (ex_dnskeys (rn "com.") [3; 4] 3)
  else if bool_decide (b = ex_wire 11) then Some ex_referral
  else if bool_decide (b = ex_wire 12) then Some (set_answers (ex_signed signer) (message_response 7 OC_Query))
  else
    m ← ref_from_bytes b;
    Some (match message_type (metadata m), queries m with
          | MT_Response, q :: _ =>
              set_answers (if bool_decide (q_name q = rn "www.com.") then ex_signed signer
                           else if bool_decide (rlower (q_name q) = rn "33.2.0.192.in-addr.arpa.") then ex_ptr
                           else []) m
          | _, _ => m
          end).
#[local] Instance query_eq_dec : EqDecision Query.
Proof. solve_decision. Defined.
(** The encoder refuses a question section it could not read back. *)
Definition ex_encode (signer : Z) (m : Message) : option (list Z) :=
  b ← ref_to_vec m; m' ← ex_decode signer b;
  if bool_decide (queries m' = queries m) then Some b else None.
Lemma ex_encode_Some s m b :
  ex_encode s m = Some b → ref_to_vec m = Some b ∧ ∃ m', ex_decode s b = Some m' ∧ queries m' = queries m.
Proof.
  intros (b' & R & (m' & D & E)%bind_Some)%bind_Some. case_bool_decide; simplify_eq. eauto.
Qed.
Definition ex_hickory (signer : Z) : Hickory :=
  {| from_bytes := ex_decode signer;
     to_vec := ex_encode signer; message_new := message_new;
     record_from_rdata := record_from_rdata; query_query := query_query; record_type := record_type;
     verify_rrsig := verify_rrsig; ds_covers := ds_covers; calculate_key_tag := calculate_key_tag;
     nsec3_hash := nsec3_hash; record_type_cmp := record_type_cmp; class_cmp := class_cmp;
     base32hex_decode := base32hex_decode |}.

Lemma handler_hickory_laws s : @HickoryLaws _ (ex_hickory s).
Proof.
  split; try done.
  - exact (record_type_cmp_eq (HickoryLaws := RefHickoryLaws)).
  - exact (class_cmp_eq (HickoryLaws := RefHickoryLaws)).
  - intros b m. cbv beta iota delta [from_bytes ex_hickory]. unfold ex_decode.
    repeat (case_bool_decide as Hb; [subst b; intros Hm; injection Hm as <-; (split; [cbn; lia|]);
      (eexists _, _, _; split; [reflexivity|]); try (unfold ex_dnskeys; rewrite add_answers_eq); reflexivity|clear Hb]).
    intros (m0 & F & Hm)%bind_Some. injection Hm as <-.
    destruct (from_bytes_header (HickoryLaws := RefHickoryLaws) b m0 F) as (L & hi & lo & rest & -> & I).
    split; [done|]. exists hi, lo, rest. split; [done|]. rewrite <- I. by destruct m0 as [[? []] []].
  - intros m b [E _]%ex_encode_Some. exact (to_vec_length (HickoryLaws := RefHickoryLaws) m b E).
  - intros m b [E _]%ex_encode_Some. exact (to_vec_header (HickoryLaws := RefHickoryLaws) m b E).
Qed.

Definition ex_icfg : Iterative.Config :=
  {| Iterative.dnssec_ok := true; Iterative.ipv6_upstream := false; Iterative.max_depth := 32;
     Iterative.max_queries := 384; Iterative.max_cname := 8 |}.
Definition ex_policy : Dns64.Dns64Policy := Dns64.wkp_policy.
Definition ex_self : HConfig :=
  {| h_dns64 := Some ex_policy; h_dnssec := Validate; h_validator := true; h_iterative := Some ex_icfg;
     h_nesting := 2; h_ddr := [];
     h_forwarders := match Forwarders.new to_ascii [{| ForwarderCfg.domain := "in-addr.arpa";
       ForwarderCfg.servers := [ForwarderCfg.Bare (V4 [8; 8; 8; 8])] |}] with Ok es => es | Err _ => [] end;
     h_client := {| Upstream.source_v4 := None; Upstream.source_v6 := None; Upstream.c_tor_socks := None |} |}.
(** The forwarder echoes the question and sets AD. *)
Definition ex_hworld : HWorld :=
  {| w_it := {| Iterative.iup := λ _ ips _, Ok (if bool_decide (ips = [ex_root_ip]) then ex_wire 11 else ex_wire 12);
                Iterative.iinstant := λ n, Z.of_nat n; Iterative.irnd := λ _, 7;
                Iterative.shuffle := λ _ l, l; Iterative.pick := λ n, n; Iterative.late := λ _, false |};
     w_val := ex_world;
     w_up := {| Upstream.u_instant := λ n, Z.of_nat n; Upstream.u_txid := λ _, 9; Upstream.u_coin := λ _ _, true;
                Upstream.u_udp := λ _ p b, Ok (take 2 b ++ [129; 160] ++ drop 4 b, p);
                Upstream.u_tcp := λ _ _ _, Err "refused"; Upstream.u_connect := λ _ _, Err "refused";
                Upstream.u_proxy := λ _, ex_chan []; Upstream.u_tls := λ _ _, Err "refused";
                Upstream.u_dot := λ _ _, ex_chan []; Upstream.u_cut := λ _, false |};
     w_strong := λ _ _, 1%nat |}.
Definition ex_hst : HSt :=
  {| h_ready := true;
     h_it := {| Iterative.rcache := DnsCache.new 100 0 3600 60 900; Iterative.delegations := ∅;
                Iterative.roots := [ex_root_ip]; Iterative.itick := 0; Iterative.sent := 0 |};
     h_val := ex_st; h_anchors := ex_anchors; h_neg := NegResolveCache.new; h_fly := InFlight.new;
     h_rrl := None; h_up := {| Upstream.pool := DotPool.pool_new; Upstream.utick := 0; Upstream.trace := [] |} |}.
Definition ex_ctx : ListenerContext := {| ctx_name := "lan"; ctx_dns64 := true; doh_auth_token := None |}.
Definition ex_q (n : string) (t : RecordType) : list Z :=
  default [] (ref_to_vec (set_rd true (add_query (query_query (rn n) t) (message_new 4660 MT_Query OC_Query)))).
Definition ex_msg (n : string) (t : RecordType) : Message := default (message_new 0 MT_Query OC_Query) (ref_from_bytes (ex_q n t)).
Definition ex_handle (signer : Z) (n : string) (t : RecordType) (st : HSt) : Reply * HSt :=
  handle_bytes (HK := ex_hickory signer) ex_self ex_hworld (λ st, st) (ex_q n t) (V4 [192; 168; 0; 2]) ex_ctx st.
Definition ad_bit (r : Reply) : bool :=
  match r with Answer b => Z.testbit (nth 3 b 0) 5 | _ => false end.
Definition rcode_of (r : Reply) : Z := match r with Answer b => nth 3 b 0 mod 16 | _ => -1 end.

(** A signed name: AD set.  The same with the wrong key: SERVFAIL. *)
Lemma handler_runs :
  (ad_bit (ex_handle 4 "www.com." RT_A ex_hst).1, rcode_of (ex_handle 4 "www.com." RT_A ex_hst).1,
   ad_bit (ex_handle 9 "www.com." RT_A ex_hst).1, rcode_of (ex_handle 9 "www.com." RT_A ex_hst).1)
  = (true, 0, false, 2).
Proof. vm_compute. reflexivity. Qed.

(** Validation is on, yet AD reaches a client for data nobody validated: a PTR query
    for a synthesised address is answered through the forwarder, whose response goes
    into the cache with the AD bit the forwarder set; a direct query for the IPv4
    name is then served from the cache with AD. *)
Lemma forwarded_ad_leaks :
  let '(r1, st1) := ex_handle 4
    "1.2.2.0.0.0.0.c.0.0.0.0.0.0.0.0.0.0.0.0.0.0.0.0.b.9.f.f.4.6.0.0.ip6.arpa." RT_PTR ex_hst in
  let '(r2, _) := ex_handle 4 "33.2.0.192.in-addr.arpa." RT_PTR st1 in
  (ad_bit r1, rcode_of r2, ad_bit r2, length (Upstream.trace (h_up st1))) = (false, 0, true, 1%nat).
Proof. vm_compute. reflexivity. Qed.

Lemma reply_echoes_txid_witness :
  ∃ b, (ex_handle 4 "www.com." RT_A ex_hst).1 = Answer b ∧ (b = [] ∨ take 2 b = [18; 52]).
Proof.
  pose proof (handler_hickory_laws 4) as Hlaws.
  destruct (ex_handle 4 "www.com." RT_A ex_hst) as [[b| |] st'] eqn:E.
  - exists b. split; [done|].
    apply (reply_echoes_txid (HK := ex_hickory 4) ex_self ex_hworld (λ st, st) (ex_q "www.com." RT_A)
      (V4 [192; 168; 0; 2]) ex_ctx ex_hst b st'); [|exact E].
    repeat constructor; unfold is_byte; vm_compute; done.
  - apply (f_equal (λ x, rcode_of x.1)) in E. vm_compute in E. discriminate.
  - apply (f_equal (λ x, rcode_of x.1)) in E. vm_compute in E. discriminate.
Defined.

Definition ex_resolved : ResolveOutcome * HSt :=
  resolve_validate_cache (HK := ex_hickory 4) ex_self ex_hworld ex_icfg (ex_msg "www.com." RT_A) ex_hst.
Lemma ad_means_trusted_witness :
  ∃ bytes parsed m, ex_resolved.1 = ROk bytes parsed ∧ parsed = set_ad true m ∧
    trusted_answer (HK := ex_hickory 4) ex_anchors (since ex_world 0) (since ex_world 0) m.
Proof.
  pose proof (handler_hickory_laws 4) as Hlaws.
  destruct ex_resolved as [out st'] eqn:E.
  destruct (ad_means_trusted (HK := ex_hickory 4) ex_self ex_hworld ex_icfg (ex_msg "www.com." RT_A) 0 ex_hst out st')
    as (_ & _ & T).
  - reflexivity.
  - split; [apply map_Forall_empty|cbn; lia].
  - exact E.
  - destruct out as [bytes parsed|b|].
    + exists bytes, parsed. destruct T as (m & P & Tr & _).
      * apply (f_equal (λ x, match x.1 with ROk _ p => authentic_data (metadata p) | _ => true end)) in E.
        refine (eq_trans (eq_sym E) _). vm_compute. reflexivity.
      * exists m. split; [reflexivity|]. split; [exact P|exact Tr].
    + apply (f_equal (λ x, match x.1 with RBogus _ => true | _ => false end)) in E. vm_compute in E. discriminate.
    + apply (f_equal (λ x, match x.1 with RWalkFailed => true | _ => false end)) in E. vm_compute in E. discriminate.
Defined.

Lemma fast_path_offline_witness :
  offline ex_hst (before_lock (HK := ex_hickory 4) ex_self ex_hworld (ex_q "www.com." RT_A)
    (V4 [192; 168; 0; 2]) ex_ctx ex_hst).2.
Proof.
  apply (fast_path_offline (HK := ex_hickory 4) ex_self ex_hworld (ex_q "www.com." RT_A)
    (V4 [192; 168; 0; 2]) ex_ctx ex_hst (before_lock (HK := ex_hickory 4) ex_self ex_hworld
      (ex_q "www.com." RT_A) (V4 [192; 168; 0; 2]) ex_ctx ex_hst).1).
  - assert (EM : from_bytes (Hickory := ex_hickory 4) (ex_q "www.com." RT_A) = Some (ex_msg "www.com." RT_A))
      by (vm_compute; reflexivity).
    assert (EQ : head (queries (ex_msg "www.com." RT_A)) = Some (query_query (rn "www.com.") RT_A))
      by (vm_compute; reflexivity).
    intros msg q M Q. rewrite EM in M. injection M as <-. rewrite EQ in Q. injection Q as <-.
    vm_compute. reflexivity.
  - by destruct (before_lock _ _ _ _ _ _).
Defined.

(** No root servers: the walk fails, and the next query for the name in another
    spelling is refused at once. *)
Definition ex_hst0 : HSt :=
  set_it {| Iterative.rcache := DnsCache.new 100 0 3600 60 900; Iterative.delegations := ∅;
            Iterative.roots := []; Iterative.itick := 0; Iterative.sent := 0 |} ex_hst.
Lemma failed_walk_suppressed_witness :
  let st' := (iterative_path (HK := ex_hickory 4) ex_self ex_hworld ex_icfg (ex_msg "www.com." RT_A)
    (query_query (rn "www.com.") RT_A) ex_ctx ex_hst0).2 in
  before_lock (HK := ex_hickory 4) ex_self ex_hworld (ex_q "WWW.com." RT_A) (V4 [192; 168; 0; 3]) ex_ctx st' =
    (Done (Answer (servfail (HK := ex_hickory 4) (ex_msg "WWW.com." RT_A))), htock st').
Proof.
  cbn zeta.
  set (r := iterative_path (HK := ex_hickory 4) ex_self ex_hworld ex_icfg (ex_msg "www.com." RT_A)
    (query_query (rn "www.com.") RT_A) ex_ctx ex_hst0).
  set (st1 := (resolve_validate_cache (HK := ex_hickory 4) ex_self ex_hworld ex_icfg (ex_msg "www.com." RT_A) ex_hst0).2).
  destruct (failed_walk_suppressed (HK := ex_hickory 4) ex_self ex_hworld ex_icfg (ex_msg "www.com." RT_A)
    (query_query (rn "www.com.") RT_A) ex_ctx ex_hst0 st1 r.1 r.2) as (_ & _ & F).
  - assert (X : (resolve_validate_cache (HK := ex_hickory 4) ex_self ex_hworld ex_icfg
      (ex_msg "www.com." RT_A) ex_hst0).1 = RWalkFailed) by (vm_compute; reflexivity).
    unfold st1. rewrite <- X. apply surjective_pairing.
  - unfold r. by destruct (iterative_path _ _ _ _ _ _ _).
  - apply (F r.2 (ex_q "WWW.com." RT_A) (V4 [192; 168; 0; 3]) ex_ctx (ex_msg "WWW.com." RT_A)
      (query_query (rn "WWW.com.") RT_A)); [reflexivity|..|vm_compute; reflexivity|vm_compute; reflexivity].
    1-3: vm_compute; reflexivity.
    + split; [vm_compute; reflexivity|]. split; vm_compute; reflexivity.
    + vm_compute; reflexivity.
    + reflexivity.
Defined.
End HandlerExamples.
