(* ===== verification/Provenance.v ===== *)
(** * Where the AD bit of a reply comes from

    The AD bit tells a client that its answer was authenticated.  This file follows
    the bit through the whole handler: the walk and its sub-walks, the validator, the
    response cache that all queries share, DNS64, the forwarders, root priming and
    anchor refreshes.  The system is a step relation whose steps are those of
    concurrent queries (up to the per-question lock, and under it) and of the
    background tasks, in any order. *)
From S2P Require Import Prelude Hickory Reference Net Dns64 Cache TtlCaches Text LocalZones.
From S2P Require Import Anchor Dnssec Validator Iterative ClientPolicy Tunnel Forwarder Handler.

Module Provenance.
Import Anchor Dnssec Validator Handler.

(** AD is bit 5 of the fourth byte of the header (RFC 2535, 6.1; RFC 4035, 3.1.6), and the
    question section of a message survives its encoding: as many questions, each with its
    type, its class and, up to case, the labels of its name. *)
Definition wire_ad (b : list Z) : bool := Z.testbit (nth 3 b 0) 5.
Definition same_question `{NameOps} (q q' : Query) : Prop :=
  labels (to_lowercase (q_name q')) = labels (to_lowercase (q_name q)) ∧
  query_type q' = query_type q ∧ query_class q' = query_class q.
Class WireLaws `{Hickory} := {
  to_vec_ad m b : to_vec m = Some b → wire_ad b = authentic_data (metadata m);
  from_bytes_ad b m : from_bytes b = Some m → authentic_data (metadata m) = wire_ad b;
  question_roundtrip m b m' :
    to_vec m = Some b → from_bytes b = Some m' → Forall2 same_question (queries m) (queries m') }.

Section Provenance.
Context `{NameOps} {HK : Hickory} `{IpNets, !Moka, !MapIter, Rrl.Governor}.
Context `{!NameLaws, !HickoryLaws, !WireLaws}.
(** [Cs]: the configurations ever in force; [A] holds every anchor ever in force; [t0] is the
    number of readings of the validator's clock before the first of the steps below. *)
Context (Cs : HConfig → Prop) (w : HWorld) (A : TrustAnchors) (t0 : nat).

(** ** Messages without AD *)

Lemma plain_no_ad m b : Iterative.plain m → to_vec m = Some b → wire_ad b = false.
Proof. intros (i & t & o & E) T. rewrite (to_vec_ad _ _ T), E. by rewrite message_new_spec. Qed.
Lemma servfail_message_plain msg : Iterative.plain (servfail_message msg).
Proof. apply Iterative.plain_queries. by eexists _, _, _. Qed.
Lemma servfail_no_ad msg : wire_ad (servfail msg) = false.
Proof. unfold servfail. destruct (to_vec _) eqn:T; [|done]. eapply plain_no_ad, T. apply servfail_message_plain. Qed.
Lemma servfail_with_ede_no_ad msg c s : wire_ad (servfail_with_ede msg c s) = false.
Proof.
  unfold servfail_with_ede. destruct (to_vec _) eqn:T; [|apply servfail_no_ad].
  eapply plain_no_ad, T. apply (servfail_message_plain msg).
Qed.
Lemma build_refused_no_ad q b : build_refused q = Some b → wire_ad b = false.
Proof.
  unfold build_refused. intros (msg & _ & T)%bind_Some. eapply plain_no_ad, T.
  apply Iterative.plain_queries. by eexists _, _, _.
Qed.
Lemma response_shell_ad msg rc : authentic_data (metadata (Dns64.response_shell msg rc)) = false.
Proof. unfold Dns64.response_shell, message_response. rewrite message_new_spec. by msg_simpl. Qed.
Lemma ipv4only_no_ad msg pol en m b :
  Ipv4Only.synth_response msg pol en = Some m → to_vec m = Some b → wire_ad b = false.
Proof.
  intros E T. rewrite (to_vec_ad _ _ T). clear T. revert E. unfold Ipv4Only.synth_response.
  intros (q & _ & E)%bind_Some. pose proof (response_shell_ad msg RC_NoError) as S.
  repeat case_match; simplify_eq; try done; cbn in E.
  - apply bind_Some in E as (m1 & E1 & E). apply bind_Some in E as (v6 & _ & [= <-]).
    apply bind_Some in E1 as (v6' & _ & [= <-]). done.
  - apply bind_Some in E as (t & _ & [= <-]). done.
Qed.
Lemma ddr_no_ad msg rs m b : Ddr.synth_response msg rs = Some m → to_vec m = Some b → wire_ad b = false.
Proof.
  intros E T. rewrite (to_vec_ad _ _ T). clear T. revert E. unfold Ddr.synth_response.
  intros (q & _ & E)%bind_Some. rewrite <- (response_shell_ad msg RC_NoError). case_match; simplify_eq; [|done].
  generalize (Dns64.response_shell msg RC_NoError) as m0.
  induction rs as [|r rs IH]; intros m0; cbn; [done|]. by rewrite IH.
Qed.

(** ** What is stored and sent *)

Definition key_of (q : Query) : CacheKey := cache_key (q_name q) (query_type q) (query_class q).
(** The question of a message is the one of this key, names up to case. *)
Definition asks (m : Message) (k : CacheKey) : Prop :=
  ∃ q, head (queries m) = Some q ∧ labels (to_lowercase (q_name q)) = labels (k_name k) ∧ query_type q = k_rtype k.
(** What a walk under one of the configurations returned for a question with this key. *)
Definition walked (k : CacheKey) (m : Message) : Prop :=
  ∃ self icfg cq q it bytes chain it', Cs self ∧ head (queries cq) = Some q ∧ key_of q = k ∧
    Iterative.resolve_with_chain icfg (w_it w) (h_nesting self) cq it = (Ok (bytes, chain), it') ∧
    from_bytes bytes = Some m.
(** The bytes encode what a walk returned for a question with this key, the message still
    asks that question, and each of its records (for a negative answer, the denial of
    that question) has a chain of trust, every signature of it in its window at a
    reading of the clock since [t0]. *)
Definition authenticated (k : CacheKey) (b : list Z) : Prop :=
  ∃ m, walked k m ∧ asks m k ∧ trusted_answer A (since (w_val w) t0) (since (w_val w) t0) m ∧
    to_vec (set_ad true m) = Some b.
(** Keys under which a response is stored as it came: the root's name servers, by
    priming, and the targets of the DNS64 PTR short cut that a forwarder serves. *)
Definition stored_unchecked (k : CacheKey) : Prop :=
  k = cache_key root RT_NS DC_IN ∨
  ∃ self policy name target, Cs self ∧ h_dns64 self = Some policy ∧
    Dns64.rewrite_ptr_question policy name = Some target ∧
    is_Some (Forwarders.lookup_with_domain (h_forwarders self) target) ∧ k = cache_key target RT_PTR DC_IN.

Definition entry_ok (k : CacheKey) (b : list Z) : Prop := wire_ad b = true → authenticated k b ∨ stored_unchecked k.
Definition cache_sound (it : Iterative.ISt) : Prop :=
  ∀ k e, DnsCache.inner (Iterative.rcache it) !! k = Some e → entry_ok k (e_bytes e).
Record inv (st : HSt) : Prop := {
  inv_cache : cache_sound (h_it st);
  inv_anchors : anchor_keys (h_anchors st) ⊆ anchor_keys A;
  inv_keys : st_ok A (since (w_val w) t0) t0 (h_val st) }.

(** A reply to the query [msg] for [q]: with AD, it is an authenticated answer, as
    encoded when it was validated or under this query's TXID. *)
Definition retagged (i : Z) (b b' : list Z) : Prop :=
  ∃ t, DnsCache.rewrite_txid b i = Some t ∧ (b' = t ∨ ∃ m, from_bytes t = Some m ∧ to_vec m = Some b').
Definition reply_ok (msg : Message) (q : Query) (r : Reply) : Prop :=
  ∀ b, r = Answer b → wire_ad b = true →
    (∃ enc, authenticated (key_of q) enc ∧ (b = enc ∨ retagged (id (metadata msg)) enc b)) ∨
    stored_unchecked (key_of q).

Lemma reply_ok_none msg q r : (∀ b, r = Answer b → wire_ad b = false) → reply_ok msg q r.
Proof. intros N b E W. rewrite (N b E) in W. done. Qed.
Lemma reply_ok_servfail msg q : reply_ok msg q (Answer (servfail msg)).
Proof. apply reply_ok_none. intros b [= <-]. apply servfail_no_ad. Qed.

(** [b] answers the first question of the query, and it is an authenticated answer to
    it, unless its key is one of those stored unchecked. *)
Definition earned (query b : list Z) : Prop :=
  ∃ msg q, from_bytes query = Some msg ∧ head (queries msg) = Some q ∧
    ((∃ enc, authenticated (key_of q) enc ∧ (b = enc ∨ retagged (id (metadata msg)) enc b)) ∨
     stored_unchecked (key_of q)).
Definition answers_well (query : list Z) (r : Reply) : Prop :=
  ∀ b, r = Answer b → wire_ad b = true → earned query b.
Lemma answers_well_reply query msg q r :
  from_bytes query = Some msg → head (queries msg) = Some q → reply_ok msg q r → answers_well query r.
Proof. intros F Q R b E W. exists msg, q. split_and!; [done..|]. by apply R. Qed.
Lemma answers_well_none query r : (∀ b, r = Answer b → wire_ad b = false) → answers_well query r.
Proof. intros N b E W. rewrite (N b E) in W. done. Qed.

(** ** The cache *)

Lemma keeps_sound it it' :
  Iterative.keeps (Iterative.rcache it) (Iterative.rcache it') → cache_sound it → cache_sound it'.
Proof.
  intros K S k e [E|(m & P & T)]%K; [by apply S|]. intros W. by rewrite (plain_no_ad m _ P T) in W.
Qed.
Lemma inv_set_it it st : inv st → cache_sound it → inv (set_it it st).
Proof. intros [_ Ia Ik] S. by split. Qed.
Lemma inv_htock st : inv st → inv (htock st).
Proof. by intros [Ic Ia Ik]; split. Qed.
Lemma cache_get_ok k st o st' :
  inv st → cache_get w k st = (o, st') → inv st' ∧ ∀ b, o = Some b → entry_ok k b.
Proof.
  intros I. unfold cache_get, Iterative.cache_get.
  pose proof (Iterative.keeps_get (Iterative.iinstant (w_it w) (Iterative.itick (h_it st))) k
    (Iterative.rcache (h_it st))) as K.
  destruct (DnsCache.get _ _ _) as [o' c] eqn:G. intros [= <- <-]. split.
  { apply inv_set_it; [done|]. eapply keeps_sound; [exact K|]. apply I. }
  intros b ->. unfold DnsCache.get in G. destruct (DnsCache.inner _ !! k) as [e|] eqn:L; [|done].
  destruct (_ <=? _); [done|]. injection G as <- _. by eapply inv_cache.
Qed.
Lemma cache_put_ok k m b st : inv st → entry_ok k b → inv (cache_put w k m b st).
Proof.
  intros I E. apply inv_set_it; [done|]. intros k' e P. cbn in P.
  unfold DnsCache.put in P. case_match; [by eapply inv_cache|]. cbn in P.
  eapply lookup_weaken in P; [|apply moka_evict_subset].
  apply lookup_insert_Some in P as [[<- <-]|[_ P]]; [done|by eapply inv_cache].
Qed.
Lemma no_ad_entry k b : wire_ad b = false → entry_ok k b.
Proof. intros N W. congruence. Qed.

(** ** Resolve, validate, cache *)

(** A walk's answer still asks the question. *)
Lemma walk_asks icfg n cq q it bytes chain it' m :
  head (queries cq) = Some q → Iterative.resolve_with_chain icfg (w_it w) n cq it = (Ok (bytes, chain), it') →
  from_bytes bytes = Some m → asks m (key_of q).
Proof.
  intros Hq W F. destruct (Iterative.resolve_reply _ _ _ _ _ _ _ _ W) as (m0 & T & _ & _ & _ & _ & Qs & _).
  pose proof (question_roundtrip _ _ _ T F) as R. rewrite Qs in R.
  destruct (queries cq) as [|q0 qs]; [done|]. injection Hq as ->. cbn in R.
  apply Forall2_cons_inv_l in R as (q' & qs' & (L & Ty & _) & _ & Em). exists q'. rewrite Em. split; [done|].
  split; [|exact Ty]. cbn in L. by rewrite to_lowercase_idemp in L.
Qed.

(** One of the configurations; all of them validate. *)
Section Validating.
Context (HC : ∀ self, Cs self → h_validator self = true ∧ h_dnssec self = Validate).
Context (self : HConfig) (Hs : Cs self).
Let Hv : h_validator self = true := proj1 (HC self Hs).
Let Hp : h_dnssec self = Validate := proj2 (HC self Hs).

Lemma policy_no_ad m b : to_vec (apply_to_response (h_dnssec self) m) = Some b → wire_ad b = false.
Proof. intros T. rewrite (to_vec_ad _ _ T), Hp. done. Qed.

(** What a resolution hands on: bytes that may carry AD only as an authenticated
    answer. *)
Definition outcome_ok (msg : Message) (out : ResolveOutcome) : Prop :=
  match out with
  | ROk b _ => wire_ad b = true → ∀ q, head (queries msg) = Some q → authenticated (key_of q) b
  | RBogus b => wire_ad b = false
  | RWalkFailed => True
  end.
Lemma finish_ok k b0 m st :
  inv st → wire_ad b0 = false →
  (authentic_data (metadata m) = true → ∀ b, to_vec m = Some b → authenticated k b) →
  (wire_ad (default b0 (to_vec m)) = true → authenticated k (default b0 (to_vec m))) ∧
  inv (cache_put w k m (default b0 (to_vec m)) st).
Proof.
  intros I N T. assert (X : wire_ad (default b0 (to_vec m)) = true → authenticated k (default b0 (to_vec m))).
  { destruct (to_vec m) as [b|] eqn:V; [|change (default b0 None) with b0; congruence]. intros W. apply T; [|done]. by rewrite <- (to_vec_ad _ _ V). }
  split; [exact X|]. apply cache_put_ok; [done|]. intros W. left. by apply X.
Qed.
Lemma resolve_validate_ok icfg msg st out st' :
  inv st → resolve_validate_cache self w icfg msg st = (out, st') → inv st' ∧ outcome_ok msg out.
Proof.
  intros I. unfold resolve_validate_cache, outcome_ok. destruct (head (queries msg)) as [q|] eqn:Hq; [|by intros [= <- <-]].
  destruct (Iterative.resolve_with_chain _ _ _ _ _) as [r it] eqn:R.
  pose proof (Iterative.resolve_with_chain_frame icfg (w_it w) (h_nesting self) msg (h_it st)) as [(_ & _ & K) _].
  rewrite R in K. cbn in K. apply keeps_sound in K; [|apply I].
  pose proof (inv_set_it it st I K) as I1. destruct r as [[bytes chain]|e]; [|by intros [= <- <-]].
  destruct (Iterative.resolve_plain _ _ _ _ _ _ _ _ R) as (m0 & P & T). pose proof (plain_no_ad m0 bytes P T) as N.
  destruct (from_bytes bytes) as [parsed|] eqn:F; [|intros [= <- <-]; split; [done|]; intros W; by rewrite N in W].
  rewrite Hv. destruct (validate_walk _ _ _ _ _ _ _) as [[status zones] v] eqn:W.
  apply (validate_walk_ok _ A (since (w_val w) t0) (since (w_val w) t0) t0) in W as (OK & _ & S);
    [|by intros n L; exists n|by intros n L; exists n|apply I1|apply I1].
  assert (I2 : inv (set_it (Iterative.cache_validated_delegations icfg (w_it w) chain zones it) (set_val v (set_it it st)))).
  { split; [|apply I1|exact OK]. eapply keeps_sound; [|exact K]. cbn [set_it h_it]. rewrite cache_validated_rcache. apply Iterative.keeps_refl. }
  destruct status as [| |reason]; intros [= <- <-].
  - edestruct (finish_ok (key_of q)) as [X Y]; [exact I2|exact N| |split; [exact Y|intros W q' [= <-]; exact (X W)]].
    intros _ b Tb. exists parsed. split_and!; [|by eapply walk_asks|by apply S|done].
    by exists self, icfg, msg, q, (h_it st), bytes, chain, it.
  - edestruct (finish_ok (key_of q)) as [X Y]; [exact I2|exact N| |split; [exact Y|intros W q' [= <-]; exact (X W)]]. done.
  - split; [exact I2|]. apply servfail_with_ede_no_ad.
Qed.

(** ** Answers from the cache *)

Lemma rewrite_txid_ad b i t : DnsCache.rewrite_txid b i = Some t → wire_ad t = wire_ad b.
Proof. destruct b as [|? [|? rest]]; [done..|]. by intros [= <-]. Qed.
Lemma build_from_cache_ok msg q k cached ctx st r st' :
  k = key_of q → entry_ok k cached →
  inv st → build_from_cache_value self w msg q cached ctx st = (r, st') →
  inv st' ∧ ∀ r', r = Some r' → reply_ok msg q r'.
Proof.
  intros -> E I. unfold build_from_cache_value.
  destruct (DnsCache.rewrite_txid cached _) as [tagged|] eqn:T.
  2: { intros [= <- <-]. split; [done|]. intros r' [= <-]. by apply reply_ok_none. }
  assert (Ok1 : ∀ b, (b = tagged ∨ ∃ m, from_bytes tagged = Some m ∧ to_vec m = Some b) → reply_ok msg q (Answer b)).
  { intros b Hb ? [= <-] W. assert (Wc : wire_ad cached = true).
    { rewrite <- (rewrite_txid_ad _ _ _ T). destruct Hb as [-> |(m & F & V)]; [done|].
      by rewrite <- (from_bytes_ad _ _ F), <- (to_vec_ad _ _ V). }
    apply E in Wc as [Au|U]; [left|by right]. exists cached. split; [done|]. right. by exists tagged. }
  destruct (from_bytes tagged) as [parsed|] eqn:F.
  2: { intros [= <- <-]. split; [done|]. intros r' [= <-]. apply Ok1. by left. }
  destruct (Dns64.should_synthesise _ _ _ _ _).
  - destruct (h_dns64 self) as [policy|]; [|by intros [= <- <-]].
    unfold synthesise_from_cached_a. destruct (cache_get w _ st) as [o st1] eqn:G.
    apply cache_get_ok in G as [I1 _]; [|done].
    destruct (o ≫= from_bytes) as [a|]; cbn; [|by intros [= <- <-]].
    destruct (negb _); [by intros [= <- <-]|].
    destruct (Dns64.synthesise_from_a _ _ _) as [m|]; cbn; intros [= <- <-]; (split; [done|]).
    + intros r' Hr. apply fmap_Some in Hr as (b & V & ->). apply reply_ok_none. intros ? [= <-]. by eapply policy_no_ad.
    + intros r' [= <-]. by apply reply_ok_none.
  - rewrite Hv. intros [= <- <-]. split; [done|]. intros r' [= <-]. apply Ok1.
    destruct (to_vec parsed) as [b|] eqn:V; cbn; [right; by exists parsed|by left].
Qed.
(** The look-up and what is made of a hit, before the lock and under it. *)
Lemma cached_reply_ok msg q ctx st o st1 r st2 :
  inv st → cache_get w (key_of q) st = (o, st1) →
  match o with Some cached => build_from_cache_value self w msg q cached ctx st1 | None => (None, st1) end = (r, st2) →
  inv st2 ∧ ∀ r', r = Some r' → reply_ok msg q r'.
Proof.
  intros I G. apply cache_get_ok in G as [I1 E]; [|done].
  destruct o as [cached|]; [|by intros [= <- <-]]. eapply build_from_cache_ok; [done|by apply E|done].
Qed.

(** ** Before the lock *)

Lemma dns64_ptr_ok msg q ctx target st r st' :
  dns64_ptr_target self q ctx = Some target → inv st → dns64_ptr self w msg target st = (r, st') →
  inv st' ∧ reply_ok msg q r.
Proof.
  intros Tg I. unfold dns64_ptr, resolve_forwarded. destruct (cache_get w _ (htock st)) as [o st1] eqn:G.
  apply cache_get_ok in G as [I1 _]; [|by apply inv_htock].
  assert (Rep : ∀ o st', inv st' → ∀ r st2, match o with
    | None => (Answer (servfail msg), st')
    | Some ans => match from_bytes ans with
                  | None => (NoReply, st')
                  | Some parsed => (reply_of (to_vec (apply_to_response (h_dnssec self)
                                      (Dns64.rewrap_ptr_response msg parsed))), st')
                  end
    end = (r, st2) → inv st2 ∧ reply_ok msg q r).
  { intros o' st2 I2 r' st3. destruct o' as [ans|]; [|intros [= <- <-]; split; [done|apply reply_ok_servfail]].
    destruct (from_bytes ans) as [m|]; intros [= <- <-]; (split; [done|]); apply reply_ok_none; [|done].
    intros b Hb. destruct (to_vec _) as [b'|] eqn:V; [|done]. injection Hb as <-. by eapply policy_no_ad. }
  destruct o as [cached|]; [apply (Rep (Some cached) st1 I1)|].
  destruct (Forwarders.lookup_with_domain _ _) as [[d servers]|] eqn:L; [|apply (Rep None st1 I1)].
  destruct (to_vec _) as [qb|]; [|apply (Rep None st1 I1)].
  unfold query_forwarder. destruct (Upstream.query_forwarder _ _ _ _ _ _) as [rr u].
  assert (I2 : inv (set_up u st1)) by (by destruct I1; split).
  destruct rr as [resp|e]; [|apply (Rep None _ I2)]. apply (Rep (Some resp)).
  destruct (from_bytes resp) as [m|]; [|done]. apply cache_put_ok; [done|]. intros _. right. right.
  unfold dns64_ptr_target in Tg. destruct (_ && _); [|done].
  apply bind_Some in Tg as (policy & Hd & Hr). exists self, policy, (q_name q), target. rewrite L. done.
Qed.

Lemma before_lock_ok query peer ctx st p st' :
  inv st → before_lock self w query peer ctx st = (p, st') →
  inv st' ∧
  match p with
  | Done r => answers_well query r
  | Locked msg q _ => from_bytes query = Some msg ∧ head (queries msg) = Some q
  end.
Proof.
  intros I. unfold before_lock. destruct (h_ready st); cbn [negb].
  2: { intros [= <- <-]. split; [done|]. apply answers_well_none. intros b Hb.
       destruct (build_refused query) as [b'|] eqn:B; [|done]. injection Hb as <-. by eapply build_refused_no_ad. }
  destruct (from_bytes query) as [msg|] eqn:F; [|intros [= <- <-]; split; [done|]; by apply answers_well_none].
  destruct (head (queries msg)) as [q|] eqn:Hq; [|intros [= <- <-]; split; [done|]; by apply answers_well_none].
  assert (Aw : ∀ r, reply_ok msg q r → answers_well query r) by (intros r; by apply answers_well_reply).
  destruct (match h_rrl st with Some _ => _ | None => _ end) as [al st1] eqn:R.
  assert (I1 : inv st1).
  { destruct (h_rrl st) as [g|]; [|by injection R as <- <-].
    destruct (Rrl.check _ _ _) as [ok g']. injection R as <- <-. by destruct I; split. }
  destruct (negb al); [intros [= <- <-]; split; [done|]; by apply answers_well_none|].
  destruct (Ipv4Only.is_local_question _ _).
  { intros [= <- <-]. split; [done|]. apply answers_well_none. intros b Hb.
    destruct (Ipv4Only.synth_response _ _ _) as [m|] eqn:S; [|done].
    destruct (to_vec m) as [b'|] eqn:V; [|done]. injection Hb as <-. by eapply ipv4only_no_ad. }
  destruct (_ && _).
  { intros [= <- <-]. split; [done|]. apply answers_well_none. intros b Hb.
    destruct (Ddr.synth_response _ _) as [m|] eqn:S; [|done].
    destruct (to_vec m) as [b'|] eqn:V; [|done]. injection Hb as <-. by eapply ddr_no_ad. }
  destruct (dns64_ptr_target self q ctx) as [target|] eqn:Tg.
  { destruct (dns64_ptr _ _ _ _ _) as [r st2] eqn:D. intros [= <- <-].
    apply (dns64_ptr_ok msg q ctx) in D as [? ?]; auto. }
  destruct (NegResolveCache.hit _ _ _ _).
  { intros [= <- <-]. split; [by apply inv_htock|]. apply Aw, reply_ok_servfail. }
  destruct (cache_get w _ (htock st1)) as [o st2] eqn:G.
  destruct (match o with Some _ => _ | None => _ end) as [r st3] eqn:B.
  eapply cached_reply_ok in B as [I3 Rk]; [|by apply inv_htock|exact G].
  destruct r as [r|]; [intros [= <- <-]; split; [done|]; by apply Aw, Rk|].
  destruct (InFlight.lock_for _ _ _ _) as [lock fly]. intros [= <- <-]. split; [by destruct I3; split|done].
Qed.

(** ** Under the lock *)

Lemma reply_ok_fresh msg q b : (wire_ad b = true → authenticated (key_of q) b) → reply_ok msg q (Answer b).
Proof. intros E ? [= <-] W. left. exists b. split; [by apply E|by left]. Qed.
Lemma iterative_path_ok icfg msg q ctx st r st' :
  head (queries msg) = Some q → inv st → iterative_path self w icfg msg q ctx st = (r, st') → inv st' ∧ reply_ok msg q r.
Proof.
  intros Hq I. unfold iterative_path. destruct (resolve_validate_cache _ _ _ msg _) as [out st1] eqn:R.
  apply resolve_validate_ok in R as [I1 O]; [|done]. destruct out as [bytes parsed|b|].
  - assert (K : reply_ok msg q (Answer bytes)) by (apply reply_ok_fresh; intros W; by apply O).
    destruct (Dns64.should_synthesise _ _ _ _ _); [|by intros [= <- <-]].
    destruct (h_dns64 self) as [policy|]; [|by intros [= <- <-]].
    destruct (resolve_validate_cache _ _ _ (a_query_of msg q) _) as [aout st2] eqn:R2.
    apply resolve_validate_ok in R2 as [I2 _]; [|done]. destruct aout as [? a| |]; [|by intros [= <- <-]..].
    destruct (answers a); [by intros [= <- <-]|].
    destruct (Dns64.synthesise_from_a _ _ _) as [m|]; intros [= <- <-]; (split; [done|]); [|by apply reply_ok_none].
    destruct (to_vec _) as [b|] eqn:V; cbn; [|done]. apply reply_ok_none. intros ? [= <-]. by eapply policy_no_ad.
  - intros [= <- <-]. split; [done|]. apply reply_ok_none. intros ? [= <-]. exact O.
  - intros [= <- <-]. split; [by destruct I1; split|apply reply_ok_servfail].
Qed.
Lemma finish_forwarded_ok msg q k m st r st' :
  inv st → finish_forwarded self w msg k m st = (r, st') → inv st' ∧ reply_ok msg q r.
Proof.
  intros I. unfold finish_forwarded. intros [= <- <-].
  assert (N : wire_ad (default (servfail msg) (to_vec (apply_to_response (h_dnssec self) m))) = false).
  { destruct (to_vec _) as [b|] eqn:V; [by eapply policy_no_ad|apply servfail_no_ad]. }
  split; [apply cache_put_ok; [done|by apply no_ad_entry]|]. apply reply_ok_none. intros b [= <-]. exact N.
Qed.
Lemma query_forwarder_ok servers d q st r st' : inv st → query_forwarder self w servers d q st = (r, st') → inv st'.
Proof.
  intros I. unfold query_forwarder. destruct (Upstream.query_forwarder _ _ _ _ _ _). intros [= <- <-].
  by destruct I; split.
Qed.
Lemma forwarder_path_ok d servers query msg q ctx st r st' :
  inv st → forwarder_path self w d servers query msg q ctx st = (r, st') → inv st' ∧ reply_ok msg q r.
Proof.
  intros I. unfold forwarder_path. destruct (query_forwarder _ _ _ _ query _) as [rr st1] eqn:Q1.
  apply query_forwarder_ok in Q1; [|done].
  destruct rr as [resp|e]; [|intros [= <- <-]; split; [done|apply reply_ok_servfail]].
  destruct (from_bytes resp) as [m|]; [|intros [= <- <-]; split; [done|apply reply_ok_servfail]].
  destruct (Dns64.should_synthesise _ _ _ _ _); [|by apply finish_forwarded_ok].
  destruct (h_dns64 self) as [policy|]; [|by apply finish_forwarded_ok].
  destruct (to_vec (a_query_of msg q)) as [aq|].
  2: { intros [= <- <-]. split; [done|]. apply reply_ok_none. intros b [= <-]. unfold respond_with_policy.
       destruct (to_vec _) as [b|] eqn:V; [by eapply policy_no_ad|done]. }
  destruct (query_forwarder _ _ _ _ aq _) as [ra st2] eqn:Q2. apply query_forwarder_ok in Q2; [|done].
  destruct (res_ok ra ≫= from_bytes) as [a|]; [|by apply finish_forwarded_ok].
  destruct (answers a); [by apply finish_forwarded_ok|].
  destruct (Dns64.synthesise_from_a _ _ _) as [s|]; intros [= <- <-]; (split; [done|]); [|by apply reply_ok_none].
  apply reply_ok_none. intros b [= <-]. destruct (to_vec _) as [b|] eqn:V; [by eapply policy_no_ad|apply servfail_no_ad].
Qed.
Lemma after_lock_ok query msg q ctx st r st' :
  head (queries msg) = Some q → inv st → after_lock self w query msg q ctx st = (r, st') → inv st' ∧ reply_ok msg q r.
Proof.
  intros Hq I. unfold after_lock. destruct (cache_get w _ st) as [o st1] eqn:G.
  destruct (match o with Some _ => _ | None => _ end) as [rc st2] eqn:B.
  eapply cached_reply_ok in B as [I2 Rk]; [|exact I|exact G].
  destruct rc as [rc|]; [intros [= <- <-]; split; [done|]; by apply Rk|].
  destruct (NegResolveCache.hit _ _ _ _); [intros [= <- <-]; split; [by apply inv_htock|apply reply_ok_servfail]|].
  destruct (Forwarders.lookup_with_domain _ _) as [[d servers]|]; [by apply forwarder_path_ok, inv_htock|].
  destruct (h_iterative self) as [icfg|]; [by apply iterative_path_ok; [|apply inv_htock]|].
  intros [= <- <-]. split; [by apply inv_htock|apply reply_ok_servfail].
Qed.
End Validating.

(** ** The system *)

Definition set_anchors (B : TrustAnchors) (st : HSt) : HSt :=
  {| h_ready := h_ready st; h_it := h_it st; h_val := h_val st; h_anchors := B;
     h_neg := h_neg st; h_fly := h_fly st; h_rrl := h_rrl st; h_up := h_up st |}.
Definition set_ready (b : bool) (st : HSt) : HSt :=
  {| h_ready := b; h_it := h_it st; h_val := h_val st; h_anchors := h_anchors st;
     h_neg := h_neg st; h_fly := h_fly st; h_rrl := h_rrl st; h_up := h_up st |}.
Definition flush_cache (st : HSt) : HSt :=
  set_it (Iterative.set_rcache (DnsCache.flush (Iterative.rcache (h_it st))) (h_it st)) st.

(** What can happen next, with the replies that leave.  A query is answered at once,
    or reaches its lock; any query that has been read may come out of its lock.
    In between, the prewarm resolves names and opens the gate, the roots are primed,
    the anchors are refreshed, an operator flushes the cache, and a reload puts another
    handler in place, which may keep the shared caches; each step may be one of a handler
    under any of the configurations, so queries of a handler that was replaced may still
    finish. *)
Inductive Step : HSt → list (list Z * Reply) → HSt → Prop :=
| S_answer self query peer ctx st r st' :
    Cs self → before_lock self w query peer ctx st = (Done r, st') → Step st [(query, r)] st'
| S_lock self query peer ctx st msg q l st' :
    Cs self → before_lock self w query peer ctx st = (Locked msg q l, st') → Step st [] st'
| S_unlock self query msg q ctx st r st' :
    Cs self → from_bytes query = Some msg → head (queries msg) = Some q →
    after_lock self w query msg q ctx st = (r, st') → Step st [(query, r)] st'
| S_prewarm self icfg msg st out st' : Cs self → resolve_validate_cache self w icfg msg st = (out, st') → Step st [] st'
| S_ready b st : Step st [] (set_ready b st)
| S_prime icfg st : Step st [] (set_it (Iterative.prime icfg (w_it w) (h_it st)).2 st)
| S_anchors B st : anchor_keys B ⊆ anchor_keys A → Step st [] (set_anchors B st)
| S_flush st : Step st [] (flush_cache st)
| S_reload st st' :
    DnsCache.inner (Iterative.rcache (h_it st')) ⊆ DnsCache.inner (Iterative.rcache (h_it st)) →
    DnskeyCache.positive (cache (h_val st')) ⊆ DnskeyCache.positive (cache (h_val st)) →
    (tick (h_val st) ≤ tick (h_val st'))%nat → anchor_keys (h_anchors st') ⊆ anchor_keys A → Step st [] st'.
Inductive Run : HSt → list (list Z * Reply) → HSt → Prop :=
| Run_nil st : Run st [] st
| Run_step st log st1 new st2 : Run st log st1 → Step st1 new st2 → Run st (log ++ new) st2.

(** At start-up no response and no key is cached. *)
Definition initial (st : HSt) : Prop :=
  tick (h_val st) = t0 ∧
  DnsCache.inner (Iterative.rcache (h_it st)) = ∅ ∧ DnskeyCache.positive (cache (h_val st)) = ∅ ∧
  anchor_keys (h_anchors st) ⊆ anchor_keys A.

Lemma initial_inv st : initial st → inv st.
Proof.
  intros (L & C & K & Sub). split; [|done|split; [|lia]].
  - intros k e. by rewrite C, lookup_empty.
  - intros k e. by rewrite K, lookup_empty.
Qed.
Lemma prime_ok icfg st : inv st → inv (set_it (Iterative.prime icfg (w_it w) (h_it st)).2 st).
Proof.
  intros I. apply inv_set_it; [done|]. intros k e E.
  apply Iterative.prime_spec in E as [E|[(m & P & T)| ->]].
  - by eapply inv_cache.
  - by eapply no_ad_entry, plain_no_ad.
  - intros _. right. by left.
Qed.
Context (HC : ∀ self, Cs self → h_validator self = true ∧ h_dnssec self = Validate).
Lemma step_ok st new st' :
  inv st → Step st new st' → inv st' ∧ Forall (λ p, answers_well p.1 p.2) new.
Proof.
  intros I S. destruct S as [self query peer ctx st r st' Hs B|self query peer ctx st msg q l st' Hs B
    |self query msg q ctx st r st' Hs F Q B|self icfg msg st out st' Hs B|b st|icfg st|B st Sub|st|st st' Sc Sk L Sub].
  - apply before_lock_ok in B as [I' R]; [|done..]. split; [done|]. by repeat constructor.
  - by apply before_lock_ok in B as [I' _].
  - apply after_lock_ok in B as [I' R]; [|done..]. split; [done|]. repeat constructor. by eapply answers_well_reply.
  - by apply resolve_validate_ok in B as [I' _].
  - split; [by destruct I; split|done].
  - split; [by apply prime_ok|done].
  - split; [by destruct I; split|done].
  - split; [|done]. apply inv_set_it; [done|]. intros k e E.
    assert (E' : (∅ : gmap CacheKey Entry) !! k = Some e) by exact E. by rewrite lookup_empty in E'.
  - split; [|done]. destruct I as [Ic _ [Ik Il]]. split; [|done|split; [|lia]].
    + intros k e E. by eapply Ic, lookup_weaken.
    + intros k e E. by eapply Ik, lookup_weaken.
Qed.
Lemma run_ok st log st' : inv st → Run st log st' → inv st' ∧ Forall (λ p, answers_well p.1 p.2) log.
Proof.
  intros I. induction 1 as [|st log st1 new st2 _ IH S]; [done|]. destruct (IH I) as [I1 F].
  apply step_ok in S as [I2 F2]; [|done]. split; [done|]. by apply Forall_app.
Qed.
End Provenance.

Section AdEarned.
Context `{NameOps} {HK : Hickory} `{IpNets, !Moka, !MapIter, Rrl.Governor}.
Context `{!NameLaws, !HickoryLaws, !WireLaws}.

(** C15. AD is earned, end to end.  Take a handler from start-up through any
    interleaving of queries, prewarm, root priming, anchor refreshes (within the
    anchors [A] that are ever in force), cache flushes and reloads, under configurations
    that all validate.  Whenever a reply leaves with
    the AD bit set, it answers the first question of its query, and it is an encoding,
    fresh or from the shared cache under the new TXID, of what a walk returned for a
    question with the same name up to case, type and class; each record of it, or
    the denial of just that name and type if it is negative, has a chain of signatures down
    from [A], each in its window at a reading of the clock since start-up; unless the
    question is one
    whose response the code stores unchecked: the root's name servers after
    priming, or a name that a DNS64 PTR query was rewritten to and a forwarder
    answered. *)
Theorem ad_is_earned Cs w A st log st' :
  (∀ self, Cs self → h_validator self = true ∧ h_dnssec self = Validate) →
  let t0 := tick (h_val st) in
  initial A t0 st → Run Cs w A st log st' →
  ∀ query b, (query, Answer b) ∈ log → wire_ad b = true → earned Cs w A t0 query b.
Proof.
  intros HC t0 I R query b Hin W. apply (initial_inv Cs w) in I.
  destruct (run_ok Cs w A t0 HC st log st' I R) as [_ F].
  rewrite Forall_forall in F. by apply (F _ Hin b).
Qed.
End AdEarned.
End Provenance.

(** ** Examples *)
Module ProvenanceExamples.
Import Anchor Dnssec Validator ValidatorExamples Handler HandlerExamples Provenance.

#[local] Existing Instances HandlerExamples.ExMoka HandlerExamples.ExGovernor.
#[local] Instance ExHickory : Hickory := ex_hickory 4.

Lemma flag_bit (ra ad cd : bool) c : Z.testbit (flag_byte [ra; false; ad; cd] * 16 + c mod 16) 5 = ad.
Proof.
  pose proof (Z.mod_pos_bound c 16 ltac:(lia)) as B. generalize dependent (c mod 16). intros r B.
  assert (r = 0 ∨ r = 1 ∨ r = 2 ∨ r = 3 ∨ r = 4 ∨ r = 5 ∨ r = 6 ∨ r = 7 ∨ r = 8 ∨ r = 9 ∨ r = 10 ∨ r = 11 ∨
    r = 12 ∨ r = 13 ∨ r = 14 ∨ r = 15) as Hr by lia.
  destruct ra, ad, cd; repeat (destruct Hr as [-> |Hr]; [reflexivity|]); by subst r.
Qed.
#[local] Instance ExWireLaws : WireLaws (H0 := ExHickory).
Proof.
  split.
  - intros m b [E _]%ex_encode_Some. injection E as <-. apply flag_bit.
  - intros b m. change (from_bytes b) with (ex_decode 4 b). unfold ex_decode.
    repeat (case_bool_decide as Hb; [subst b; intros [= <-]; try (unfold ex_dnskeys; rewrite add_answers_eq); reflexivity|clear Hb]).
    intros (m0 & F & [= <-])%bind_Some. unfold ref_from_bytes in F.
    do 12 (destruct b as [|? b]; [done|]). injection F as <-. by repeat case_match.
  - intros m b m' (_ & m1 & D & E)%ex_encode_Some F. change (from_bytes b) with (ex_decode 4 b) in F.
    simplify_eq. rewrite E. clear. induction (queries m); constructor; done.
Qed.

Definition ex_peer : IpAddr := V4 [192; 168; 0; 2].
Definition ex_www : list Z := ex_q "www.com." RT_A.
Definition ex_question : Query := query_query (rn "www.com.") RT_A.
(** The same question twice: resolved, then served from the cache. *)
Definition ex_s1 : Phase * HSt := before_lock ex_self ex_hworld ex_www ex_peer ex_ctx ex_hst.
Definition ex_s2 : Reply * HSt := after_lock ex_self ex_hworld ex_www (ex_msg "www.com." RT_A) ex_question ex_ctx ex_s1.2.
Definition ex_s3 : Phase * HSt := before_lock ex_self ex_hworld ex_www ex_peer ex_ctx ex_s2.2.
Definition ex_done (p : Phase) : Reply := match p with Done r => r | Locked _ _ _ => NoReply end.
Definition ex_log : list (list Z * Reply) := ([] ++ []) ++ [(ex_www, ex_s2.1)] ++ [(ex_www, ex_done ex_s3.1)].

Definition ex_configs (self : HConfig) : Prop := self = ex_self.
Lemma ex_run : Run ex_configs ex_hworld ex_anchors ex_hst ex_log ex_s3.2.
Proof.
  unfold ex_log. rewrite app_assoc. apply (Run_step _ _ _ _ _ ex_s2.2);
    [apply (Run_step _ _ _ _ _ ex_s1.2); [apply (Run_step _ _ _ _ _ ex_hst); [apply Run_nil|]|]|].
  - eapply (S_lock _ _ _ ex_self ex_www ex_peer ex_ctx _ (ex_msg "www.com." RT_A) ex_question 0%nat ex_s1.2); [reflexivity|].
    change (ex_s1 = (Locked (ex_msg "www.com." RT_A) ex_question 0%nat, ex_s1.2)).
    assert (E : ex_s1.1 = Locked (ex_msg "www.com." RT_A) ex_question 0%nat) by (vm_compute; reflexivity).
    rewrite <- E. apply surjective_pairing.
  - eapply (S_unlock _ _ _ ex_self ex_www (ex_msg "www.com." RT_A) ex_question ex_ctx); [vm_compute; reflexivity..|].
    change (ex_s2 = (ex_s2.1, ex_s2.2)). apply surjective_pairing.
  - eapply (S_answer _ _ _ ex_self ex_www ex_peer ex_ctx); [reflexivity|]. change (ex_s3 = (Done (ex_done ex_s3.1), ex_s3.2)).
    assert (E : ex_s3.1 = Done (ex_done ex_s3.1)) by (vm_compute; reflexivity).
    rewrite <- E. apply surjective_pairing.
Qed.

Lemma ad_is_earned_witness :
  map (ad_bit ∘ snd) ex_log = [true; true] ∧
  ∀ b, (ex_www, Answer b) ∈ ex_log → wire_ad b = true → earned ex_configs ex_hworld ex_anchors 0 ex_www b.
Proof.
  split; [vm_compute; reflexivity|]. pose proof (handler_hickory_laws 4) as Hlaws.
  intros b. apply (ad_is_earned ex_configs ex_hworld ex_anchors ex_hst ex_log ex_s3.2).
  - intros self ->. by split.
  - split; [reflexivity|]. split; [reflexivity|]. by split.
  - exact ex_run.
Defined.

(** Validation is on, yet the root's name servers are served with AD although nobody
    validated them: the reply to the priming query is cached with the AD bit it came
    with. *)
Definition ex_priming : list Z := [0; 7; 129; 160; 0; 0; 0; 0; 0; 0; 0; 0].
Definition ex_root_ns : Message :=
  set_additionals [ex_rr "a.root-servers.net." (RD_A [198; 41; 0; 4])]
    (set_ad true (set_answers [record_from_rdata root 600 (RD_NS (rn "a.root-servers.net."))] (message_response 7 OC_Query))).
Definition prime_hickory : Hickory :=
  {| from_bytes b := if bool_decide (b = ex_priming) then Some ex_root_ns else ex_decode 4 b;
     to_vec := ref_to_vec; message_new := message_new;
     record_from_rdata := record_from_rdata; query_query := query_query; record_type := record_type;
     verify_rrsig := verify_rrsig; ds_covers := ds_covers; calculate_key_tag := calculate_key_tag;
     nsec3_hash := nsec3_hash; record_type_cmp := record_type_cmp; class_cmp := class_cmp;
     base32hex_decode := base32hex_decode |}.
Definition prime_world : Iterative.IWorld :=
  {| Iterative.iup := λ _ _ _, Ok ex_priming; Iterative.iinstant := λ n, Z.of_nat n; Iterative.irnd := λ _, 7;
     Iterative.shuffle := λ _ l, l; Iterative.pick := λ n, n; Iterative.late := λ _, false |}.
Lemma primed_ad_leaks :
  let st := set_it (Iterative.prime (HK := prime_hickory) ex_icfg prime_world (h_it ex_hst)).2 ex_hst in
  let '(p, st') := before_lock (HK := prime_hickory) ex_self ex_hworld (ex_q "." RT_NS) ex_peer ex_ctx st in
  (ad_bit (ex_done p), rcode_of (ex_done p), Iterative.sent (h_it st')) = (true, 0, 1%nat).
Proof. vm_compute. reflexivity. Qed.
End ProvenanceExamples.
