(* ===== verification/Http.v ===== *)
(** * HTTP/1.1 requests ([io/doh.rs], the parser)

    The request head, the header checks against request smuggling, the GET
    parameter, the token gate and the reader that collects a head from a stream.
    Text is its bytes; [str::from_utf8] is the validator [utf8_valid].  A stream is
    cut into reads at arbitrary points. *)
From Stdlib Require Import Ascii.
From S2P Require Import Prelude Text.

(** [BASE64_URL_SAFE_NO_PAD] of the crate [base64]. *)
Class Base64Url := {
  b64url_encode : list Z → list Z;
  b64url_decode : list Z → option (list Z) }.
(** Decoding inverts encoding, whose output is made of unreserved characters. *)
Definition unreserved (c : Z) : bool := is_ascii_alphabetic c || ((48 <=? c) && (c <=? 57)) || (c =? 45) || (c =? 95).
Class Base64UrlLaws `{Base64Url} := {
  b64url_roundtrip bs : Forall is_byte bs → b64url_decode (b64url_encode bs) = Some bs;
  b64url_plain bs : Forall is_byte bs → forallb unreserved (b64url_encode bs) = true }.

(** RFC 4648 with the URL alphabet and no padding: an instance of the laws. *)
Module Base64.
Definition digit (v : Z) : Z :=
  if v <? 26 then 65 + v else if v <? 52 then 71 + v else if v <? 62 then v - 4 else if v =? 62 then 45 else 95.
Definition value (c : Z) : option Z :=
  if is_ascii_upper c then Some (c - 65) else if is_ascii_lower c then Some (c - 71)
  else if (48 <=? c) && (c <=? 57) then Some (c + 4)
  else if c =? 45 then Some 62 else if c =? 95 then Some 63 else None.
Fixpoint encode (bs : list Z) : list Z :=
  match bs with
  | [] => []
  | [a] => [digit (a / 4); digit (a mod 4 * 16)]
  | [a; b] => [digit (a / 4); digit (a mod 4 * 16 + b / 16); digit (b mod 16 * 4)]
  | a :: b :: c :: bs' =>
      digit (a / 4) :: digit (a mod 4 * 16 + b / 16) :: digit (b mod 16 * 4 + c / 64) :: digit (c mod 64) :: encode bs'
  end.
(** Left-over bits must be zero. *)
Fixpoint decode (cs : list Z) : option (list Z) :=
  match cs with
  | [] => Some []
  | [_] => None
  | [c; d] =>
      x ← value c; y ← value d;
      if y mod 16 =? 0 then Some [x * 4 + y / 16] else None
  | [c; d; e] =>
      x ← value c; y ← value d; z ← value e;
      if z mod 4 =? 0 then Some [x * 4 + y / 16; y mod 16 * 16 + z / 4] else None
  | c :: d :: e :: f :: cs' =>
      x ← value c; y ← value d; z ← value e; u ← value f; rest ← decode cs';
      Some (x * 4 + y / 16 :: y mod 16 * 16 + z / 4 :: z mod 4 * 64 + u :: rest)
  end.

Lemma value_digit v : 0 ≤ v < 64 → value (digit v) = Some v ∧ unreserved (digit v) = true.
Proof.
  intros Hv. assert (A : forallb (λ n, bool_decide (value (digit (Z.of_nat n)) = Some (Z.of_nat n)) &&
    unreserved (digit (Z.of_nat n))) (seq 0 64) = true) by (vm_compute; reflexivity).
  rewrite forallb_forall in A. specialize (A (Z.to_nat v)). rewrite in_seq, Z2Nat.id in A by lia.
  specialize (A ltac:(lia)). apply andb_true_iff in A as [A%bool_decide_eq_true ?]. done.
Qed.
Lemma bytes_ind3 (P : list Z → Prop) :
  P [] → (∀ a, P [a]) → (∀ a b, P [a; b]) → (∀ a b c l, P l → P (a :: b :: c :: l)) → ∀ l, P l.
Proof.
  intros P0 P1 P2 P3. refine (fix go l := _). destruct l as [|a [|b [|c l]]]; [done..|apply P3, go].
Qed.
Ltac byte_digits :=
  repeat match goal with
  | |- context [value (digit ?v)] =>
      let A := fresh in let B := fresh in
      destruct (value_digit v) as [A B]; [Z.to_euclidean_division_equations; lia|]; rewrite A, ?B; clear A B
  end.
Lemma decode_encode bs : Forall is_byte bs → decode (encode bs) = Some bs ∧ forallb unreserved (encode bs) = true.
Proof.
  induction bs as [|a|a b|a b c bs IH] using bytes_ind3; intros Hb; [done|..];
    repeat match goal with Hb : Forall is_byte (_ :: _) |- _ => apply Forall_cons in Hb as [? Hb] end;
    unfold is_byte in *; cbn [encode decode forallb]; byte_digits; cbn [mbind option_bind andb].
  - replace (a mod 4 * 16 mod 16 =? 0) with true by (Z.to_euclidean_division_equations; lia). split; [|done].
    repeat f_equal. Z.to_euclidean_division_equations; lia.
  - replace (b mod 16 * 4 mod 4 =? 0) with true by (Z.to_euclidean_division_equations; lia). split; [|done].
    repeat f_equal; Z.to_euclidean_division_equations; lia.
  - destruct (IH Hb) as [-> ->]. cbn [mbind option_bind]. split; [|done].
    repeat f_equal; Z.to_euclidean_division_equations; lia.
Qed.
#[export] Instance b64_rfc4648 : Base64Url := {| b64url_encode := encode; b64url_decode := decode |}.
#[export] Instance b64_rfc4648_laws : Base64UrlLaws.
Proof. split; intros bs Hb; by destruct (decode_encode bs Hb). Qed.
End Base64.

Module Http.

Definition CRLF : list Z := [13; 10].
Definition MAX_HEADER_BYTES : nat := Z.to_nat 8192.
Definition MAX_BODY_BYTES : nat := Z.to_nat 65535.
Definition MAX_REQS_PER_CONN : nat := Z.to_nat 1000.
Definition Header : Type := list Z * list Z.

(** ** Text *)

Definition utf8_cont (b : Z) : bool := (0x80 <=? b) && (b <=? 0xBF).
(** The second byte of a three-byte or four-byte sequence: no overlong forms, no
    surrogates, nothing above U+10FFFF. *)
Definition utf8_second (b c : Z) : bool :=
  if b =? 0xE0 then (0xA0 <=? c) && (c <=? 0xBF)
  else if b =? 0xED then (0x80 <=? c) && (c <=? 0x9F)
  else if b =? 0xF0 then (0x90 <=? c) && (c <=? 0xBF)
  else if b =? 0xF4 then (0x80 <=? c) && (c <=? 0x8F)
  else utf8_cont c.
Fixpoint utf8_valid (s : list Z) : bool :=
  match s with
  | [] => true
  | b :: s1 =>
      if b <? 0x80 then utf8_valid s1
      else if (0xC2 <=? b) && (b <=? 0xDF) then
        match s1 with c1 :: s2 => utf8_cont c1 && utf8_valid s2 | _ => false end
      else if (0xE0 <=? b) && (b <=? 0xEF) then
        match s1 with c1 :: c2 :: s3 => utf8_second b c1 && utf8_cont c2 && utf8_valid s3 | _ => false end
      else if (0xF0 <=? b) && (b <=? 0xF4) then
        match s1 with
        | c1 :: c2 :: c3 :: s4 => utf8_second b c1 && utf8_cont c2 && utf8_cont c3 && utf8_valid s4
        | _ => false
        end
      else false
  end.

(** [str::split] at a character and at ["\r\n"]; [str::split_once]. *)
Fixpoint split_on (sep : Z) (s : list Z) : list (list Z) :=
  match s with
  | [] => [[]]
  | b :: s' =>
      if b =? sep then [] :: split_on sep s'
      else match split_on sep s' with [] => [[b]] | w :: ws => (b :: w) :: ws end
  end.
Fixpoint split_crlf (s : list Z) : list (list Z) :=
  match s with
  | [] => [[]]
  | b :: s' =>
      let rest := match split_crlf s' with [] => [[b]] | w :: ws => (b :: w) :: ws end in
      match s' with
      | c :: s'' => if (b =? 13) && (c =? 10) then [] :: split_crlf s'' else rest
      | [] => rest
      end
  end.
Fixpoint split_once (sep : Z) (s : list Z) : option (list Z * list Z) :=
  match s with
  | [] => None
  | b :: s' =>
      if b =? sep then Some ([], s') else '(l, r) ← split_once sep s'; Some (b :: l, r)
  end.
Definition strip_prefix (p s : list Z) : option (list Z) :=
  if bool_decide (take (length p) s = p) then Some (drop (length p) s) else None.

(** Optional white space, and [trim_start_matches] and [trim_end_matches] of it. *)
Definition is_ows (c : Z) : bool := (c =? 32) || (c =? 9).
Fixpoint trim_start (s : list Z) : list Z :=
  match s with [] => [] | c :: s' => if is_ows c then trim_start s' else s end.
Definition trim_end (s : list Z) : list Z := rev (trim_start (rev s)).

(** ** The request head *)

Definition is_token_char (b : Z) : bool :=
  existsb (Z.eqb b) [33; 35; 36; 37; 38; 39; 42; 43; 45; 46; 94; 95; 96; 124; 126]
  || ((48 <=? b) && (b <=? 57)) || is_ascii_upper b || is_ascii_lower b.
Definition is_ctl (b : Z) : bool := (b <? 0x20) || (b =? 0x7f).

Definition parse_header (line : list Z) : result Header :=
  match line with
  | [] => Err "empty line in header block"
  | c :: _ =>
      if is_ows c then Err "obsolete line-folded header"
      else
        match split_once 58 line with
        | None => Err "header missing colon"
        | Some (name, value) =>
            if bool_decide (name = []) || existsb (λ b, negb (is_token_char b)) name
            then Err "invalid header name"
            else
              let value := trim_end (trim_start value) in
              if existsb (λ b, (b =? 0) || (b =? 13) || (b =? 10)) value
              then Err "CTL char in header value"
              else Ok (map to_ascii_lowercase name, value)
        end
  end.
Fixpoint parse_headers (lines : list (list Z)) : result (list Header) :=
  match lines with
  | [] => Ok []
  | line :: lines' => h ← parse_header line; hs ← parse_headers lines'; Ok (h :: hs)
  end.

Definition HTTP11 : list Z := bytes_of_string "HTTP/1.1".
Definition parse_request_line (first : list Z) : result (list Z * list Z) :=
  match split_on 32 first with
  | [] => Err "no method"
  | [_] => Err "no path"
  | [_; _] => Err "no HTTP version"
  | [method; path; version] =>
      if negb (bool_decide (version = HTTP11)) then Err "unsupported HTTP version"
      else if bool_decide (method = []) || existsb (λ b, negb (is_token_char b)) method
      then Err "invalid method"
      else if bool_decide (path = []) || existsb is_ctl path then Err "invalid path"
      else Ok (method, path)
  | _ => Err "malformed request line: extra tokens"
  end.
Definition parse_request_head (bytes : list Z) : result (list Z * list Z * list Header) :=
  if negb (utf8_valid bytes) then Err "non-UTF-8 HTTP/1.1 request head"
  else
    match split_crlf bytes with
    | [] => Err "empty request head"
    | first :: lines =>
        '(method, path) ← parse_request_line first;
        headers ← parse_headers lines;
        Ok (method, path, headers)
    end.

(** ** Headers *)

Definition named (n : string) (h : Header) : bool := bool_decide (h.1 = bytes_of_string n).
Definition validate_framing (headers : list Header) : result unit :=
  if existsb (named "transfer-encoding") headers then Err "Transfer-Encoding header not allowed"
  else if existsb (named "trailer") headers then Err "Trailer header not allowed"
  else if (1 <? length (List.filter (named "content-length") headers))%nat
  then Err "multiple Content-Length headers"
  else Ok ().

Definition usize_max : Z := 18446744073709551615.
Definition is_ascii_digit (b : Z) : bool := (48 <=? b) && (b <=? 57).
Definition content_length (headers : list Header) : option Z :=
  '(_, v) ← find (named "content-length") headers;
  if bool_decide (v = []) || existsb (λ b, negb (is_ascii_digit b)) v then None
  else parse_uint usize_max (string_of_bytes v).
Definition content_type_is_dns_message (headers : list Header) : bool :=
  existsb (λ h, named "content-type" h && bool_decide (h.2 = bytes_of_string "application/dns-message")) headers.
(** [v.eq_ignore_ascii_case("close")] on a [connection] header. *)
Definition asks_close (headers : list Header) : bool :=
  existsb (λ h, named "connection" h &&
    bool_decide (map to_ascii_lowercase h.2 = bytes_of_string "close")) headers.

(** ** Path and parameter *)

Definition constant_time_eq (a b : list Z) : bool :=
  if negb (length a =? length b)%nat then false
  else foldl (λ diff p, Z.lor diff (Z.lxor p.1 p.2)) 0 (zip a b) =? 0.
Definition doh_path_authorized (path : list Z) (auth_token : option string) : bool :=
  match auth_token with
  | None => bool_decide (path = bytes_of_string "/dns-query")
  | Some token =>
      match strip_prefix (bytes_of_string "/dns-query/") path with
      | Some got => constant_time_eq got (bytes_of_string token)
      | None => false
      end
  end.
Definition path_only (path : list Z) : list Z := default (bytes_of_string "/") (head (split_on 63 path)).

Section Param.
Context `{Base64Url}.
Definition dns_param_from_query (qs : list Z) : option (list Z) :=
  val ← head (omap (strip_prefix (bytes_of_string "dns=")) (split_on 38 qs));
  b64url_decode val.
Definition parse_get_dns_param (path : list Z) : option (list Z) :=
  '(_, qs) ← split_once 63 path; dns_param_from_query qs.
End Param.

(** ** Reading the head *)

(** What the peer has still to say, cut as the reads will find it, and whether the
    stream then fails instead of ending. *)
Record Rx := { chunks : list (list Z); broken : bool }.
(** [stream.read(&mut buf)] with a buffer of [n] bytes; no bytes is the end. *)
Definition read (n : nat) (s : Rx) : result (list Z) * Rx :=
  match chunks s with
  | [] => (if broken s then Err "read" else Ok [], s)
  | c :: cs =>
      (Ok (take n c),
       {| chunks := if (length c <=? n)%nat then cs else drop n c :: cs; broken := broken s |})
  end.

Fixpoint find_subsequence (hay needle : list Z) : option nat :=
  if bool_decide (take (length needle) hay = needle) then Some O
  else match hay with [] => None | _ :: hay' => S <$> find_subsequence hay' needle end.
Definition needle : list Z := CRLF ++ CRLF.

(** The loop of [read_until_double_crlf]; every turn but the last adds a byte. *)
Fixpoint read_head (fuel : nat) (search_from : nat) (buf : list Z) (s : Rx)
  : result nat * list Z * Rx :=
  match fuel with
  | O => (Err "out of fuel", buf, s)
  | S fuel' =>
      match find_subsequence (drop search_from buf) needle with
      | Some pos => (Ok (search_from + pos + length needle)%nat, buf, s)
      | None =>
          let search_from := (length buf - (length needle - 1))%nat in
          if (MAX_HEADER_BYTES <=? length buf)%nat
          then (Err "HTTP/1.1 request headers exceeded", buf, s)
          else
            match read 1024 s with
            | (Err e, s) => (Err e, buf, s)
            | (Ok [], s) => (Err "EOF before HTTP/1.1 headers terminated", buf, s)
            | (Ok bs, s) => read_head fuel' search_from (buf ++ bs) s
            end
      end
  end.
Definition read_until_double_crlf (buf : list Z) (s : Rx) : result nat * list Z * Rx :=
  read_head (S (S MAX_HEADER_BYTES)) 0 buf s.

(** ** Splitting and joining *)

Lemma split_on_nonnil sep s : split_on sep s ≠ [].
Proof. destruct s as [|b s]; cbn; [done|]. case_match; [done|]. by destruct (split_on sep s). Qed.
Lemma split_crlf_nonnil s : split_crlf s ≠ [].
Proof. destruct s as [|b [|c s]]; cbn; [done..|]. case_match; [done|]. by repeat case_match. Qed.

Lemma split_on_none sep s : sep ∉ s → split_on sep s = [s].
Proof.
  induction s as [|b s IH]; cbn; [done|]. rewrite not_elem_of_cons. intros [Hb Hs].
  rewrite (IH Hs). by destruct (Z.eqb_spec b sep).
Qed.
Lemma split_on_app sep w s : sep ∉ w → split_on sep (w ++ sep :: s) = w :: split_on sep s.
Proof.
  induction w as [|b w IH]; cbn.
  - by rewrite Z.eqb_refl.
  - rewrite not_elem_of_cons. intros [Hb Hw]. rewrite (IH Hw). by destruct (Z.eqb_spec b sep).
Qed.
(** The pieces, none of which has the separator, make the text up again. *)
Lemma split_on_inv sep s w ws :
  split_on sep s = w :: ws → sep ∉ w ∧ s = w ++ concat (map (cons sep) ws) ∧ Forall (λ x, sep ∉ x) ws.
Proof.
  revert w ws. induction s as [|b s IH]; cbn; intros w ws.
  { intros [= <- <-]. split_and!; [set_solver|done|constructor]. }
  destruct (split_on sep s) as [|w' ws'] eqn:E; [by destruct (split_on_nonnil sep s)|].
  destruct (IH w' ws' eq_refl) as (Hw & -> & Hws). destruct (Z.eqb_spec b sep) as [->|Hb].
  - intros [= <- <-]. split_and!; [set_solver|done|by constructor].
  - intros [= <- <-]. split_and!; [set_solver|done|done].
Qed.

Lemma split_once_Some sep s l r : split_once sep s = Some (l, r) ↔ s = l ++ sep :: r ∧ sep ∉ l.
Proof.
  revert l r. induction s as [|b s IH]; intros l r; cbn.
  { split; [done|]. intros [E _]. by destruct l. }
  destruct (Z.eqb_spec b sep) as [->|Hb].
  - split; [by intros [= <- <-]; split; [|set_solver]|]. intros [E Hl].
    destruct l as [|x l]; cbn in E; [by injection E as ->|]. injection E as -> ->. set_solver.
  - split.
    + intros ([l' r'] & [-> Hl']%IH & [= <- <-])%bind_Some. split; [done|set_solver].
    + intros [E Hl]. destruct l as [|x l]; cbn in E; [by injection E as -> ->|].
      injection E as -> ->. apply not_elem_of_cons in Hl as [_ Hl].
      rewrite (proj2 (IH l r)) by done. done.
Qed.
Lemma split_once_None sep s : split_once sep s = None ↔ sep ∉ s.
Proof.
  split.
  - intros E. induction s as [|b s IH]; [set_solver|]. cbn in E. destruct (Z.eqb_spec b sep) as [->|Hb]; [done|].
    destruct (split_once sep s) as [[l r]|]; [done|]. set_solver.
  - destruct (split_once sep s) as [[l r]|] eqn:E; [|done]. apply split_once_Some in E as [-> _]. set_solver.
Qed.

(** Lines joined by CRLF. *)
Definition join_lines (first : list Z) (lines : list (list Z)) : list Z :=
  first ++ concat (map (app CRLF) lines).

Lemma split_crlf_line w s : 13 ∉ w → split_crlf (w ++ CRLF ++ s) = w :: split_crlf s.
Proof.
  induction w as [|b w IH]; intros Hw; [done|]. apply not_elem_of_cons in Hw as [Hb Hw].
  specialize (IH Hw). destruct (Z.eqb_spec b 13) as [->|_]; [done|].
  cbn [app split_crlf]. rewrite IH. destruct (w ++ CRLF ++ s) as [|c r]; [done|].
  destruct (Z.eqb_spec b 13); [congruence|]. done.
Qed.
Lemma split_crlf_last w : 13 ∉ w → split_crlf w = [w].
Proof.
  induction w as [|b w IH]; intros Hw; [done|]. apply not_elem_of_cons in Hw as [Hb Hw].
  cbn [split_crlf]. rewrite (IH Hw). destruct w as [|c w]; [done|].
  destruct (Z.eqb_spec b 13); [congruence|]. done.
Qed.
Lemma split_crlf_join first lines :
  Forall (λ w, 13 ∉ w) (first :: lines) → split_crlf (join_lines first lines) = first :: lines.
Proof.
  unfold join_lines. revert first. induction lines as [|w lines IH]; intros first Hall; cbn.
  - rewrite app_nil_r. apply split_crlf_last. by apply Forall_cons_1 in Hall as [? _].
  - apply Forall_cons_1 in Hall as [Hf Hall]. rewrite <- (IH w Hall). by apply split_crlf_line.
Qed.
Lemma join_split_crlf s first lines : split_crlf s = first :: lines → s = join_lines first lines.
Proof.
  unfold join_lines. remember (length s) as n eqn:Hn.
  revert s Hn first lines. induction (lt_wf n) as [n _ IH]. intros s -> first lines.
  destruct s as [|b s]; [by intros [= <- <-]|]. destruct s as [|c s]; [by intros [= <- <-]|].
  cbn [split_crlf]. destruct ((b =? 13) && (c =? 10)) eqn:E.
  - apply andb_true_iff in E as [->%Z.eqb_eq ->%Z.eqb_eq].
    destruct (split_crlf s) as [|w ws] eqn:Es; [by destruct (split_crlf_nonnil s)|].
    intros [= <- <-]. rewrite (IH (length s) ltac:(cbn; lia) s eq_refl w ws Es) at 1. done.
  - change (match split_crlf (c :: s) with [] => [[b]] | w :: ws => (b :: w) :: ws end = first :: lines
      → b :: c :: s = first ++ concat (map (app CRLF) lines)).
    destruct (split_crlf (c :: s)) as [|w ws] eqn:Es; [by destruct (split_crlf_nonnil (c :: s))|].
    intros [= <- <-]. rewrite (IH (length (c :: s)) ltac:(cbn; lia) (c :: s) eq_refl w ws Es). done.
Qed.

(** ** White space around a value *)

Lemma trim_start_app o s : Forall (λ c, is_ows c = true) o → trim_start (o ++ s) = trim_start s.
Proof. induction 1 as [|c o Hc _ IH]; cbn; [done|]. by rewrite Hc. Qed.
Lemma trim_start_split s :
  ∃ o, s = o ++ trim_start s ∧ Forall (λ c, is_ows c = true) o.
Proof.
  induction s as [|c s (o & E & Ho)]; cbn; [by exists []|]. destruct (is_ows c) eqn:Hc.
  - exists (c :: o). split; [by rewrite E at 1|by constructor].
  - by exists [].
Qed.
Lemma trim_start_head s c s' : trim_start s = c :: s' → is_ows c = false.
Proof. induction s as [|x s IH]; cbn; [done|]. destruct (is_ows x) eqn:Hx; [done|]. by intros [= <- <-]. Qed.
Lemma trim_start_id s : (∀ c s', s = c :: s' → is_ows c = false) → trim_start s = s.
Proof. destruct s as [|c s]; [done|]. cbn. intros Hs. by rewrite (Hs c s). Qed.

(** No white space at either end. *)
Definition trimmed (v : list Z) : Prop :=
  (∀ c v', v = c :: v' → is_ows c = false) ∧ (∀ c v', v = v' ++ [c] → is_ows c = false).

Lemma trim_spec o1 v o2 :
  Forall (λ c, is_ows c = true) o1 → Forall (λ c, is_ows c = true) o2 → trimmed v →
  trim_end (trim_start (o1 ++ v ++ o2)) = v.
Proof.
  intros H1 H2 [Hs He]. rewrite trim_start_app by done. unfold trim_end.
  assert (Hr : rev (trim_start (v ++ o2)) = rev o2 ++ rev v ∨ v = [] ∧ trim_start (v ++ o2) = []).
  { destruct v as [|c v].
    - right. split; [done|]. cbn. rewrite <- (app_nil_r o2). by rewrite trim_start_app.
    - left. rewrite trim_start_id, rev_app_distr; [done|]. intros ? ? [= <- _]. by eapply Hs. }
  destruct Hr as [->|[-> ->]]; [|done].
  rewrite trim_start_app by (by apply Forall_rev). rewrite trim_start_id, rev_involutive; [done|].
  intros c s' E. apply (He c (rev s')). by rewrite <- (rev_involutive v), E.
Qed.
Lemma trim_inv s :
  ∃ o1 o2, s = o1 ++ trim_end (trim_start s) ++ o2 ∧ trimmed (trim_end (trim_start s)) ∧
    Forall (λ c, is_ows c = true) o1 ∧ Forall (λ c, is_ows c = true) o2.
Proof.
  destruct (trim_start_split s) as (o1 & E1 & H1). set (t := trim_start s) in *.
  destruct (trim_start_split (rev t)) as (o2 & E2 & H2). exists o1, (rev o2).
  assert (Et : t = trim_end t ++ rev o2).
  { unfold trim_end. rewrite <- (rev_involutive t) at 1. by rewrite E2 at 1; rewrite rev_app_distr. }
  split_and!; [by rewrite <- Et| |done|by apply Forall_rev]. split; intros c v' E.
  - apply (trim_start_head s c (v' ++ rev o2)). fold t. by rewrite Et, E.
  - unfold trim_end in E. apply (trim_start_head (rev t) c (rev v')).
    by rewrite <- (rev_involutive (trim_start _)), E, rev_app_distr.
Qed.

(** ** The grammar of a request head (RFC 7230, what this server takes of it) *)

Definition is_token (w : list Z) : Prop := w ≠ [] ∧ Forall (λ b, is_token_char b = true) w.
Inductive FieldLine : list Z → Header → Prop :=
| Field name o1 value o2 :
    is_token name → Forall (λ c, is_ows c = true) o1 → Forall (λ c, is_ows c = true) o2 →
    trimmed value → Forall (λ b, b ≠ 0 ∧ b ≠ 13 ∧ b ≠ 10) value →
    FieldLine (name ++ 58 :: o1 ++ value ++ o2) (map to_ascii_lowercase name, value).
Inductive RequestHead : list Z → list Z → list Z → list Header → Prop :=
| Head method path lines headers :
    is_token method → path ≠ [] → 32 ∉ path → Forall (λ b, is_ctl b = false) path →
    Forall2 FieldLine lines headers →
    RequestHead (join_lines (method ++ 32 :: path ++ 32 :: HTTP11) lines) method path headers.

Lemma existsb_negb_token w : existsb (λ b, negb (is_token_char b)) w = false ↔ Forall (λ b, is_token_char b = true) w.
Proof.
  induction w as [|b w IH]; cbn; [by split|]. rewrite orb_false_iff, negb_false_iff, IH, Forall_cons. done.
Qed.
Lemma existsb_false_Forall {A} (f : A → bool) l : existsb f l = false ↔ Forall (λ x, f x = false) l.
Proof. induction l as [|x l IH]; cbn; [by split|]. by rewrite orb_false_iff, IH, Forall_cons. Qed.

Lemma token_not w c : is_token w → is_token_char c = false → c ∉ w.
Proof. intros [_ Hw] Hc Hin. rewrite Forall_forall in Hw. apply Hw in Hin. congruence. Qed.
Lemma token_char_not_ows b : is_token_char b = true → is_ows b = false.
Proof.
  unfold is_ows. destruct (Z.eqb_spec b 32) as [->|]; [done|]. by destruct (Z.eqb_spec b 9) as [->|].
Qed.

Lemma ctl_value v :
  existsb (λ b, (b =? 0) || (b =? 13) || (b =? 10)) v = false ↔ Forall (λ b, b ≠ 0 ∧ b ≠ 13 ∧ b ≠ 10) v.
Proof.
  rewrite existsb_false_Forall. apply Forall_proper; [|done]. intros b. cbn.
  rewrite !orb_false_iff, !Z.eqb_neq. tauto.
Qed.

Lemma parse_header_iff line h : parse_header line = Ok h ↔ FieldLine line h.
Proof.
  split.
  - unfold parse_header. destruct line as [|c line]; [done|]. destruct (is_ows c) eqn:Hc; [done|].
    destruct (split_once 58 (c :: line)) as [[name value]|] eqn:E; [|done].
    apply split_once_Some in E as [E Hn]. case_bool_decide as Hne; [done|]. cbn [orb].
    destruct (existsb _ name) eqn:Ht; [done|]. destruct (existsb _ (trim_end _)) eqn:Hv; [done|].
    intros [= <-]. rewrite E. destruct (trim_inv value) as (o1 & o2 & Ev & Htr & H1 & H2).
    rewrite Ev at 1. apply existsb_negb_token in Ht. apply ctl_value in Hv. by constructor.
  - intros [name o1 value o2 Hn H1 H2 Htr Hv]. unfold parse_header.
    destruct name as [|c name]; [by destruct Hn|]. cbn [app].
    assert (Hc : is_ows c = false).
    { destruct Hn as [_ [Hc _]%Forall_cons_1]. by apply token_char_not_ows. }
    rewrite Hc. change (c :: name ++ 58 :: o1 ++ value ++ o2) with ((c :: name) ++ 58 :: o1 ++ value ++ o2).
    rewrite (proj2 (split_once_Some 58 _ (c :: name) _)) by (split; [done|by apply token_not]).
    rewrite bool_decide_eq_false_2 by done. cbn [orb].
    rewrite (proj2 (existsb_negb_token (c :: name))) by apply Hn.
    rewrite trim_spec by done. by rewrite (proj2 (ctl_value value)).
Qed.
Lemma parse_headers_iff lines hs : parse_headers lines = Ok hs ↔ Forall2 FieldLine lines hs.
Proof.
  revert hs. induction lines as [|line lines IH]; intros hs; cbn.
  - split; [by intros [= <-]; constructor|]. by inversion 1.
  - rewrite result_bind_Ok. setoid_rewrite result_bind_Ok. split.
    + intros (h & Hh%parse_header_iff & hs' & Hhs%IH & [= <-]). by constructor.
    + inversion 1 as [|? h ? hs' Hh Hhs]; subst. exists h. split; [by apply parse_header_iff|].
      exists hs'. by rewrite IH.
Qed.

Lemma parse_request_line_iff first m p :
  parse_request_line first = Ok (m, p) ↔
  first = m ++ 32 :: p ++ 32 :: HTTP11 ∧ is_token m ∧ p ≠ [] ∧ 32 ∉ p ∧ Forall (λ b, is_ctl b = false) p.
Proof.
  split.
  - unfold parse_request_line. destruct (split_on 32 first) as [|m' [|p' [|v [|]]]] eqn:E; try done.
    apply split_on_inv in E as (Hm & -> & [Hp _]%Forall_cons_1).
    case_bool_decide as Hv; [|done]. cbn [negb]. subst v. case_bool_decide as Hne; [done|]. cbn [orb].
    destruct (existsb _ m') eqn:Ht; [done|]. case_bool_decide as Hpe; [done|]. cbn [orb].
    destruct (existsb _ p') eqn:Hc; [done|]. intros [= <- <-].
    apply existsb_negb_token in Ht. apply existsb_false_Forall in Hc. by cbn.
  - intros (-> & Hm & Hpe & Hp & Hc). unfold parse_request_line.
    rewrite split_on_app by (by apply token_not). rewrite split_on_app by done.
    rewrite split_on_none by (vm_compute; set_solver). rewrite bool_decide_eq_true_2 by done. cbn [negb].
    rewrite bool_decide_eq_false_2 by apply Hm. rewrite (proj2 (existsb_negb_token m)) by apply Hm. cbn [orb].
    rewrite bool_decide_eq_false_2 by done. by rewrite (proj2 (existsb_false_Forall is_ctl p)).
Qed.

(** No line of a request head has a carriage return, and no field line is empty. *)
Lemma field_line_plain line h : FieldLine line h → 13 ∉ line ∧ line ≠ [].
Proof.
  intros [name o1 value o2 Hn H1 H2 _ Hv]. split; [|by destruct name].
  rewrite elem_of_app, elem_of_cons, !elem_of_app. rewrite !Forall_forall in H1, H2, Hv.
  intros [Hin|[?|[Hin|[Hin|Hin]]]]; [|done| | |].
  - revert Hin. by apply token_not.
  - by apply H1 in Hin.
  - apply Hv in Hin. tauto.
  - by apply H2 in Hin.
Qed.
Lemma request_line_plain m p :
  is_token m → Forall (λ b, is_ctl b = false) p → 13 ∉ m ++ 32 :: p ++ 32 :: HTTP11.
Proof.
  intros Hm Hp. rewrite elem_of_app, elem_of_cons, elem_of_app, elem_of_cons.
  rewrite Forall_forall in Hp. intros [Hin|[?|[Hin|[?|Hin]]]]; [|done| |done|].
  - revert Hin. by apply token_not.
  - by apply Hp in Hin.
  - revert Hin. vm_compute. set_solver.
Qed.
Lemma field_lines_plain lines hs : Forall2 FieldLine lines hs → Forall (λ w, 13 ∉ w) lines.
Proof. induction 1 as [|l h ls hs Hl _ IH]; constructor; [by eapply field_line_plain|done]. Qed.

Lemma parse_head_iff bytes m p hs :
  parse_request_head bytes = Ok (m, p, hs) ↔ utf8_valid bytes = true ∧ RequestHead bytes m p hs.
Proof.
  unfold parse_request_head. destruct (utf8_valid bytes); cbn [negb]; [|by split; [|intros [? _]]].
  split.
  - destruct (split_crlf bytes) as [|first lines] eqn:E; [done|].
    intros ([m' p'] & (-> & ? & ? & ? & ?)%parse_request_line_iff & Hr)%result_bind_Ok.
    apply result_bind_Ok in Hr as (hs' & Hhs%parse_headers_iff & [= <- <- <-]).
    apply join_split_crlf in E as ->. by split.
  - intros [_ Hh]. destruct Hh as [m p lines hs Hm Hpe Hp Hc Hls].
    rewrite split_crlf_join by (constructor; [by apply request_line_plain|by eapply field_lines_plain]).
    rewrite (proj2 (parse_request_line_iff _ m p)) by done. cbn.
    by rewrite (proj2 (parse_headers_iff lines hs) Hls).
Qed.

(** ** Where the head ends *)

Definition occurs (n s : list Z) (i : nat) : Prop := take (length n) (drop i s) = n.
(** The first occurrence. *)
Definition first_at (n s : list Z) (i : nat) : Prop := occurs n s i ∧ ∀ j, (j < i)%nat → ¬ occurs n s j.

Lemma occurs_bound n s i : n ≠ [] → occurs n s i → (i + length n ≤ length s)%nat.
Proof.
  intros Hn Ho. pose proof (f_equal length Ho) as L. rewrite length_take, length_drop in L.
  assert (0 < length n)%nat by (destruct n; cbn; [done|lia]). lia.
Qed.
Lemma occurs_app n s t i : (i + length n ≤ length s)%nat → occurs n (s ++ t) i ↔ occurs n s i.
Proof.
  intros L. unfold occurs. rewrite drop_app_le by lia. by rewrite take_app_le by (rewrite length_drop; lia).
Qed.
Lemma occurs_drop n s k i : occurs n (drop k s) i ↔ occurs n s (k + i).
Proof. unfold occurs. by rewrite drop_drop. Qed.
Lemma first_at_unique n s i j : first_at n s i → first_at n s j → i = j.
Proof.
  intros [Hi Fi] [Hj Fj]. destruct (Nat.lt_trichotomy i j) as [L|[?|L]]; [|done|].
  - by destruct (Fj i L).
  - by destruct (Fi j L).
Qed.

Lemma find_subsequence_spec hay n :
  n ≠ [] →
  match find_subsequence hay n with Some i => first_at n hay i | None => ∀ i, ¬ occurs n hay i end.
Proof.
  intros Hn. induction hay as [|b hay IH]; cbn [find_subsequence]; case_bool_decide as E.
  - by destruct n.
  - intros i Hi%occurs_bound; [|done]. destruct n; cbn in *; [done|lia].
  - split; [done|lia].
  - destruct (find_subsequence hay n) as [i|]; cbn [fmap option_fmap option_map].
    + destruct IH as [Hi Fi]. split; [done|]. intros [|j] L; [done|]. apply Fi. lia.
    + intros [|i]; [done|]. apply IH.
Qed.

Lemma read_spec n s r s' :
  read n s = (r, s') → (0 < n)%nat → Forall (λ c, c ≠ []) (chunks s) →
  Forall (λ c, c ≠ []) (chunks s') ∧
  match r with
  | Ok bs => concat (chunks s) = bs ++ concat (chunks s') ∧ (bs = [] → chunks s = []) ∧ (length bs ≤ n)%nat
  | Err e => chunks s = [] ∧ s' = s ∧ e = "read"%string
  end ∧ broken s' = broken s.
Proof.
  unfold read. destruct s as [[|c cs] b]; cbn [chunks broken]; intros E Hn Hc.
  - destruct b; injection E as <- <-; cbn; repeat split; auto; cbn; lia.
  - injection E as <- <-. apply Forall_cons_1 in Hc as [Hc Hcs]. split_and!.
    + destruct (Nat.leb_spec (length c) n); [done|]. constructor; [|done].
      intros E. apply (f_equal length) in E. rewrite length_drop in E. cbn in E. lia.
    + cbn. destruct (Nat.leb_spec (length c) n); [by rewrite take_ge by lia|].
      cbn. by rewrite app_assoc, take_drop.
    + destruct c, n; [done..|lia|done].
    + rewrite length_take. lia.
    + by destruct (length c <=? n)%nat.
Qed.

Lemma read_head_spec fuel sf buf s :
  (0 < fuel)%nat → (MAX_HEADER_BYTES < fuel + length buf)%nat → (sf ≤ length buf)%nat →
  (∀ j, (j < sf)%nat → ¬ occurs needle buf j) → Forall (λ c, c ≠ []) (chunks s) →
  let '(r, buf', s') := read_head fuel sf buf s in
  let total := buf ++ concat (chunks s) in
  buf' ++ concat (chunks s') = total ∧ Forall (λ c, c ≠ []) (chunks s') ∧ broken s' = broken s ∧
  (∀ e, r = Ok e → (4 ≤ e ≤ length buf')%nat ∧ first_at needle total (e - 4)) ∧
  (∀ i, first_at needle total i → (i + 4 ≤ MAX_HEADER_BYTES)%nat → r = Ok (i + 4)%nat) ∧
  r ≠ Err "out of fuel".
Proof.
  revert sf buf s. induction fuel as [|fuel IH]; intros sf buf s Hf Hm Hsf Hno Hc; [lia|].
  cbn [read_head]. pose proof (find_subsequence_spec (drop sf buf) needle ltac:(done)) as Hfind.
  destruct (find_subsequence (drop sf buf) needle) as [pos|].
  - destruct Hfind as [Ho Hfirst]. apply occurs_drop in Ho. assert (L := Ho). apply occurs_bound in L; [|done].
    change (length needle) with 4%nat in *.
    assert (F : first_at needle (buf ++ concat (chunks s)) (sf + pos)).
    { split; [by apply occurs_app|]. intros j Hj Hoj. apply occurs_app in Hoj; [|cbn; lia].
      destruct (decide (j < sf)%nat); [by eapply Hno|]. apply (Hfirst (j - sf)%nat); [lia|].
      apply occurs_drop. by replace (sf + (j - sf))%nat with j by lia. }
    split_and!; try done.
    + intros e [= <-]. split; [lia|]. by replace (sf + pos + 4 - 4)%nat with (sf + pos)%nat by lia.
    + intros i Fi _. by rewrite (first_at_unique _ _ _ _ Fi F).
  - change (length needle - 1)%nat with 3%nat.
    assert (Hnone : ∀ j, ¬ occurs needle buf j).
    { intros j Hj. destruct (decide (j < sf)%nat); [by eapply Hno|]. apply (Hfind (j - sf)%nat), occurs_drop.
      by replace (sf + (j - sf))%nat with j by lia. }
    destruct (Nat.leb_spec MAX_HEADER_BYTES (length buf)) as [L|L].
    { split_and!; try done. intros i [Hi _] Li. destruct (Hnone i).
      apply (occurs_app needle buf (concat (chunks s)) i); [cbn; lia|done]. }
    destruct (read 1024 s) as [r s1] eqn:Er. apply read_spec in Er as (Hc1 & Hr & Hb); [|lia|done].
    destruct r as [bs|e].
    + destruct Hr as (Hcat & He & _). destruct bs as [|b bs].
      { rewrite He in * by done. cbn in Hcat. rewrite <- Hcat. cbn. rewrite app_nil_r.
        split_and!; try done. intros i [Hi _] _. by destruct (Hnone i). }
      rewrite Hcat, app_assoc, <- Hb. apply IH; rewrite ?length_app; cbn [length]; try lia; [|done].
      intros j Hj Ho. destruct (Hnone j). apply (occurs_app needle buf (b :: bs)); [cbn; lia|done].
    + destruct Hr as (Hcs & -> & ->). rewrite Hcs, app_nil_r in *. split_and!; try done.
      intros i [Hi _] _. by destruct (Hnone i).
Qed.

Lemma first_at_skip p s i :
  (∀ j, (j < length p)%nat → ¬ occurs needle (p ++ s) j) → first_at needle s i →
  first_at needle (p ++ s) (length p + i).
Proof.
  intros Hp [Ho Hf]. split.
  - apply occurs_drop. by rewrite drop_app_length.
  - intros j Hj Hoj. destruct (decide (j < length p)%nat); [by eapply Hp|].
    apply (Hf (j - length p)%nat); [lia|]. rewrite <- (drop_app_length p s). apply occurs_drop.
    by replace (length p + (j - length p))%nat with j by lia.
Qed.
Lemma occurs_needle_head s j : occurs needle s j → s !! j = Some 13 ∧ s !! (j + 2)%nat = Some 13.
Proof.
  unfold occurs. intros E.
  assert (L : ∀ k, (k < 4)%nat → s !! (j + k)%nat = needle !! k).
  { intros k Hk. rewrite <- E at 1. by rewrite lookup_take_lt, lookup_drop by (cbn; lia). }
  split; [|exact (L 2%nat ltac:(lia))]. rewrite <- (Nat.add_0_r j). exact (L 0%nat ltac:(lia)).
Qed.
Lemma first_at_line w s i :
  13 ∉ w → first_at needle s i → first_at needle (w ++ s) (length w + i).
Proof.
  intros Hw. apply first_at_skip. intros j Hj [Hl _]%occurs_needle_head.
  rewrite lookup_app_l in Hl by done. by apply Hw, (list_elem_of_lookup_2 _ j).
Qed.

(** The lines of a head come before the blank line that ends it. *)
Lemma first_at_join first lines rest :
  13 ∉ first → Forall (λ w, 13 ∉ w ∧ w ≠ []) lines →
  first_at needle (join_lines first lines ++ needle ++ rest) (length (join_lines first lines)).
Proof.
  intros Hf Hls. revert first Hf. induction Hls as [|w lines [Hw Hne] _ IH]; intros first Hf; unfold join_lines; cbn [map concat].
  - rewrite app_nil_r, <- (Nat.add_0_r (length first)). apply first_at_line; [done|]. split; [done|lia].
  - rewrite <- app_assoc, length_app. apply first_at_line; [done|].
    replace (length ((CRLF ++ w) ++ concat (map (app CRLF) lines)))
      with (length CRLF + length (join_lines w lines))%nat
      by (unfold join_lines; rewrite !length_app; lia).
    replace (((CRLF ++ w) ++ concat (map (app CRLF) lines)) ++ needle ++ rest)
      with (CRLF ++ join_lines w lines ++ needle ++ rest)
      by (unfold join_lines; by rewrite <- !app_assoc).
    apply first_at_skip; [|by apply IH]. destruct w as [|c w]; [done|].
    apply not_elem_of_cons in Hw as [Hc Hw]. intros [|[|j]] Hj; [| |cbn in Hj; lia];
      intros [H0 H2]%occurs_needle_head; [|done].
    cbn in H2. congruence.
Qed.
Lemma request_head_end bytes m p hs rest :
  RequestHead bytes m p hs → first_at needle (bytes ++ needle ++ rest) (length bytes).
Proof.
  intros [m' p' lines hs' Hm _ _ Hc Hls]. apply first_at_join; [by apply request_line_plain|].
  clear -Hls. induction Hls as [|l h ls hs Hl _ IH]; constructor; [by eapply field_line_plain|done].
Qed.

(** ** Constant-time comparison *)

Lemma ct_fold a b d :
  length a = length b →
  foldl (λ diff p, Z.lor diff (Z.lxor p.1 p.2)) d (zip a b) = 0 ↔ d = 0 ∧ a = b.
Proof.
  revert b d. induction a as [|x a IH]; intros [|y b] d L; cbn in *; try done.
  - naive_solver.
  - rewrite IH by lia. rewrite Z.lor_eq_0_iff, Z.lxor_eq_0_iff. naive_solver.
Qed.
Lemma constant_time_eq_spec a b : constant_time_eq a b = true ↔ a = b.
Proof.
  unfold constant_time_eq. destruct (Nat.eqb_spec (length a) (length b)) as [L|L]; cbn [negb].
  - rewrite Z.eqb_eq, ct_fold by done. naive_solver.
  - split; [done|]. by intros ->.
Qed.
Lemma strip_prefix_Some p s r : strip_prefix p s = Some r ↔ s = p ++ r.
Proof.
  unfold strip_prefix. case_bool_decide as E.
  - split; [|by intros ->; rewrite drop_app_length]. intros [= <-]. by rewrite <- E at 1; rewrite take_drop.
  - split; [done|]. intros ->. by rewrite take_app_length in E.
Qed.

(** The gate opens for exactly one path. *)
Lemma doh_path_authorized_spec path token :
  doh_path_authorized path token = true ↔
  path = match token with
         | None => bytes_of_string "/dns-query"
         | Some t => bytes_of_string "/dns-query/" ++ bytes_of_string t
         end.
Proof.
  destruct token as [t|]; unfold doh_path_authorized; [|by rewrite bool_decide_eq_true].
  destruct (strip_prefix _ path) as [got|] eqn:E.
  - apply strip_prefix_Some in E as ->. rewrite constant_time_eq_spec.
    split; [by intros ->|]. by intros ?%app_inv_head.
  - split; [done|]. intros Hp%strip_prefix_Some. congruence.
Qed.

(** A message a client puts into the query string is the message the server decodes. *)
Lemma split_once_app sep l r : sep ∉ l → split_once sep (l ++ sep :: r) = Some (l, r).
Proof.
  induction l as [|b l IH]; cbn; [by rewrite Z.eqb_refl|]. intros [Hb Hl]%not_elem_of_cons.
  destruct (Z.eqb_spec b sep); [congruence|]. by rewrite IH.
Qed.
Lemma split_on_plain sep l : sep ∉ l → split_on sep l = [l].
Proof.
  induction l as [|b l IH]; cbn; [done|]. intros [Hb Hl]%not_elem_of_cons.
  destruct (Z.eqb_spec b sep); [congruence|]. by rewrite IH.
Qed.
Lemma unreserved_no_amp l : forallb unreserved l = true → 38 ∉ l.
Proof. rewrite forallb_forall. intros Hl Hin%list_elem_of_In%Hl. done. Qed.
Lemma get_param_roundtrip `{Base64Url, !Base64UrlLaws} path wire :
  63 ∉ path → Forall is_byte wire →
  parse_get_dns_param (path ++ bytes_of_string "?dns=" ++ b64url_encode wire) = Some wire.
Proof.
  intros Hp Hw. unfold parse_get_dns_param.
  change (bytes_of_string "?dns=" ++ b64url_encode wire) with (63 :: bytes_of_string "dns=" ++ b64url_encode wire).
  rewrite split_once_app by done. cbn [mbind option_bind]. unfold dns_param_from_query.
  pose proof (unreserved_no_amp _ (b64url_plain wire Hw)) as Ha.
  rewrite split_on_plain by (rewrite elem_of_app; intros [?|?]; [by vm_compute in *; set_solver|done]).
  cbn [omap list_omap]. rewrite (proj2 (strip_prefix_Some (bytes_of_string "dns=") _ (b64url_encode wire))) by done.
  cbn. by apply b64url_roundtrip.
Qed.

(** C36. The parser of a request head accepts exactly the heads of the grammar
    [RequestHead] that are UTF-8: a request line with a token as method, a target
    without control bytes and version HTTP/1.1, separated by single spaces, then header
    fields, each with a token as name; the fields it returns are those of the grammar,
    names in lower case and values without surrounding white space. *)
Theorem parse_request_head_exact bytes method path headers :
  parse_request_head bytes = Ok (method, path, headers) ↔
  utf8_valid bytes = true ∧ RequestHead bytes method path headers.
Proof. apply parse_head_iff. Qed.
End Http.
