(* ===== verification/Service.v ===== *)
(** * The handler interface ([handler.rs], [worker.rs])

    [DnsHandler] is the trait between the transports and the resolver; its laws are
    what the transports rely on.  The instances are the resolver, the stub that
    refuses, the hot-swappable wrapper and the dispatcher to another runtime. *)
From S2P Require Import Prelude Hickory Reference Net Cache TtlCaches ClientPolicy Handler.

(** The trait.  A handler is an object with state; a call may change it. *)
Class DnsHandler (T : Type) := {
  is_ready : T → bool;
  handle : list Z → IpAddr → Handler.ListenerContext → T → Handler.Reply * T }.

(** What every handler promises: a packet that does not parse is never answered, and
    an answer carries the TXID of its query. *)
Class HandlerLaws `{NameOps} {HK : Hickory} (T : Type) `{!DnsHandler T} := {
  answer_parses q peer ctx (t : T) b t' :
    handle q peer ctx t = (Handler.Answer b, t') → is_Some (from_bytes q);
  answer_txid q peer ctx (t : T) b t' :
    Forall is_byte q → handle q peer ctx t = (Handler.Answer b, t') → b = [] ∨ take 2 b = take 2 q }.

Module Service.
Import Handler.

Section Instances.
Context `{NameOps} {HK : Hickory} `{IpNets, !Moka, !MapIter, Rrl.Governor}.

(** [RecursorHandler]; [r_between] is what other queries do while one waits. *)
Record Recursor := {
  r_self : HConfig; r_world : HWorld; r_between : HSt → HSt; r_st : HSt }.
Definition recursor_handle (q : list Z) (peer : IpAddr) (ctx : ListenerContext) (t : Recursor)
  : Reply * Recursor :=
  let '(r, st) := Handler.handle_bytes (r_self t) (r_world t) (r_between t) q peer ctx (r_st t) in
  (r, {| r_self := r_self t; r_world := r_world t; r_between := r_between t; r_st := st |}).
#[export] Instance recursor_handler : DnsHandler Recursor := {|
  is_ready t := h_ready (r_st t); handle := recursor_handle |}.

Record RefusedHandler := {}.
#[export] Instance refused_handler : DnsHandler RefusedHandler := {|
  is_ready _ := true; handle q _ _ t := (reply_of (build_refused q), t) |}.

(** [LiveHandler<T>]: one cell, replaced as a whole. *)
Record LiveHandler (T : Type) := { inner : T }.
Arguments inner {_} _.
Definition live_new {T} (initial : T) : LiveHandler T := {| inner := initial |}.
Definition swap {T} (new : T) (_ : LiveHandler T) : LiveHandler T := {| inner := new |}.
Definition current {T} (l : LiveHandler T) : T := inner l.
#[export] Instance live_handler {T} `{!DnsHandler T} : DnsHandler (LiveHandler T) := {|
  is_ready l := is_ready (inner l);
  handle q peer ctx l :=
    let '(r, t) := handle q peer ctx (inner l) in (r, {| inner := t |}) |}.

(** [MainDispatchHandler]: the call runs as a task of another runtime, whose result
    is lost when the task panics or the runtime shuts down ([md_down]). *)
Record MainDispatchHandler (T : Type) := { md_inner : T; md_down : bool }.
Arguments md_inner {_} _.
Arguments md_down {_} _.
#[export] Instance main_dispatch_handler {T} `{!DnsHandler T} : DnsHandler (MainDispatchHandler T) := {|
  is_ready m := is_ready (md_inner m);
  handle q peer ctx m :=
    if md_down m then (NoReply, m)
    else
      let '(r, t) := handle q peer ctx (md_inner m) in
      (match r with Panic => NoReply | _ => r end, {| md_inner := t; md_down := false |}) |}.

(** ** The laws *)
Context `{!NameLaws, !HickoryLaws}.

#[export] Instance recursor_laws : HandlerLaws Recursor.
Proof.
  split; intros q peer ctx t b t'; cbn; unfold recursor_handle;
    destruct (Handler.handle_bytes _ _ _ _ _ _ _) as [r st] eqn:E.
  - intros [= -> <-]. by eapply handle_bytes_parses.
  - intros By [= -> <-]. by eapply handle_bytes_tagged.
Qed.
#[export] Instance refused_laws : HandlerLaws RefusedHandler.
Proof.
  split; intros q peer ctx t b t'; cbn.
  - unfold build_refused. destruct (from_bytes q); [by eexists|done].
  - intros By. destruct (build_refused q) as [r|] eqn:R; [|done]. intros [= ->]. right.
    destruct (from_bytes q) as [m|] eqn:M; [|by unfold build_refused in R; rewrite M in R].
    destruct (query_id _ _ By M) as [U ->]. by eapply build_refused_tagged.
Qed.
#[export] Instance live_laws {T} `{!DnsHandler T, !HandlerLaws T} : HandlerLaws (LiveHandler T).
Proof.
  split; intros q peer ctx t b t'; cbn; destruct (handle _ _ _ _) as [r t1] eqn:E.
  - intros [= -> _]. by eapply answer_parses.
  - intros By [= -> _]. by eapply answer_txid.
Qed.
#[export] Instance dispatch_laws {T} `{!DnsHandler T, !HandlerLaws T} : HandlerLaws (MainDispatchHandler T).
Proof.
  split; intros q peer ctx t b t'; cbn; destruct (md_down t); [done| |done|];
    destruct (handle _ _ _ _) as [[x| |] t1] eqn:E; try done.
  - intros [= -> _]. by eapply answer_parses.
  - intros By [= -> _]. by eapply answer_txid.
Qed.
End Instances.
Arguments inner {_} _.
Arguments md_inner {_} _.
Arguments md_down {_} _.
End Service.
