(* ===== verification/Listeners.v ===== *)
(** * Datagram and stream listeners ([io/udp.rs], [io/tcp.rs], [io/dot.rs])

    The listeners serve any [DnsHandler].  The UDP loop is a machine driven by events
    (a datagram, the end of a task, a reload, work of other listeners); TCP and DoT
    share one framing loop over a byte channel.  A listener loads its allow-list and
    its context afresh for every query: [acl_at] and [ctx_at] are what the loads
    return. *)
From S2P Require Import Prelude Hickory Reference Net Cache TtlCaches ClientPolicy Tunnel Handler Service.

Module Listeners.
Import Handler Service.

(** The counters of [metrics.rs] the listeners touch; 64-bit, wrapping. *)
Record Metrics := {
  queries_udp : Z; queries_tcp : Z; queries_dot : Z; queries_doh : Z; acl_denied : Z; udp_inflight_shed : Z }.
Definition fetch_add (n : Z) : Z := (n + 1) mod 18446744073709551616.
Definition count_udp (m : Metrics) : Metrics :=
  {| queries_udp := fetch_add (queries_udp m); queries_tcp := queries_tcp m; queries_dot := queries_dot m;
     queries_doh := queries_doh m; acl_denied := acl_denied m; udp_inflight_shed := udp_inflight_shed m |}.
Definition count_tcp (m : Metrics) : Metrics :=
  {| queries_udp := queries_udp m; queries_tcp := fetch_add (queries_tcp m); queries_dot := queries_dot m;
     queries_doh := queries_doh m; acl_denied := acl_denied m; udp_inflight_shed := udp_inflight_shed m |}.
Definition count_dot (m : Metrics) : Metrics :=
  {| queries_udp := queries_udp m; queries_tcp := queries_tcp m; queries_dot := fetch_add (queries_dot m);
     queries_doh := queries_doh m; acl_denied := acl_denied m; udp_inflight_shed := udp_inflight_shed m |}.
Definition count_doh (m : Metrics) : Metrics :=
  {| queries_udp := queries_udp m; queries_tcp := queries_tcp m; queries_dot := queries_dot m;
     queries_doh := fetch_add (queries_doh m); acl_denied := acl_denied m; udp_inflight_shed := udp_inflight_shed m |}.
Definition count_denied (m : Metrics) : Metrics :=
  {| queries_udp := queries_udp m; queries_tcp := queries_tcp m; queries_dot := queries_dot m;
     queries_doh := queries_doh m; acl_denied := fetch_add (acl_denied m); udp_inflight_shed := udp_inflight_shed m |}.
Definition count_shed (m : Metrics) : Metrics :=
  {| queries_udp := queries_udp m; queries_tcp := queries_tcp m; queries_dot := queries_dot m;
     queries_doh := queries_doh m; acl_denied := acl_denied m; udp_inflight_shed := fetch_add (udp_inflight_shed m) |}.
Definition zero_metrics : Metrics :=
  {| queries_udp := 0; queries_tcp := 0; queries_dot := 0; queries_doh := 0; acl_denied := 0; udp_inflight_shed := 0 |}.

Section Listeners.
Context `{NameOps} {HK : Hickory} `{IpNets} {T : Type} `{!DnsHandler T}.

(** ** UDP *)

Definition UDP_BUF_SIZE : nat := Z.to_nat 4096.

(** A spawned task, and a datagram sent; both with the number of the datagram they
    come from. *)
Record Task := { t_no : nat; t_query : list Z; t_peer : SocketAddr; t_ctx : ListenerContext }.
Record Sent := { s_no : nat; s_bytes : list Z; s_peer : SocketAddr }.
Record UdpSt := {
  u_svc : T; u_acl : Acl.ClientAcl; u_ctx : ListenerContext; u_permits : nat; u_tasks : list Task;
  u_recv : nat; u_sent : list Sent; u_metrics : Metrics }.
Definition udp_spawn (svc : T) (acl : Acl.ClientAcl) (ctx : ListenerContext) (max_inflight : nat) : UdpSt :=
  {| u_svc := svc; u_acl := acl; u_ctx := ctx; u_permits := max_inflight; u_tasks := []; u_recv := 0;
     u_sent := []; u_metrics := zero_metrics |}.

(** [sends]: whether the [send_to] of this event works. *)
Inductive UdpEvent : Type :=
| Datagram (d : list Z) (peer : SocketAddr) (sends : bool)
| Finish (i : nat) (sends : bool)
| Reload (acl : Acl.ClientAcl) (ctx : ListenerContext)
| Elsewhere (f : T → T).

Definition send_to (sends : bool) (no : nat) (b : option (list Z)) (peer : SocketAddr) (l : list Sent) : list Sent :=
  match b with
  | Some b => if sends then l ++ [{| s_no := no; s_bytes := b; s_peer := peer |}] else l
  | None => l
  end.
(** One datagram taken off the socket by the drain loop. *)
Definition on_datagram (d : list Z) (peer : SocketAddr) (sends : bool) (st : UdpSt) : UdpSt :=
  let q := take UDP_BUF_SIZE d in
  let upd permits tasks sent m :=
    {| u_svc := u_svc st; u_acl := u_acl st; u_ctx := u_ctx st; u_permits := permits; u_tasks := tasks;
       u_recv := S (u_recv st); u_sent := sent; u_metrics := m |} in
  if negb (Acl.allows (u_acl st) (sa_ip peer))
  then upd (u_permits st) (u_tasks st) (u_sent st) (count_denied (u_metrics st))
  else
    let m := count_udp (u_metrics st) in
    match u_permits st with
    | O => upd O (u_tasks st) (send_to sends (u_recv st) (build_refused q) peer (u_sent st)) (count_shed m)
    | S p =>
        upd p (u_tasks st ++ [{| t_no := u_recv st; t_query := q; t_peer := peer; t_ctx := u_ctx st |}])
          (u_sent st) m
    end.
(** The [i]-th running task ends: its permit is dropped with it. *)
Definition on_finish (i : nat) (sends : bool) (st : UdpSt) : UdpSt :=
  match u_tasks st !! i with
  | None => st
  | Some t =>
      let '(r, svc) := handle (t_query t) (sa_ip (t_peer t)) (t_ctx t) (u_svc st) in
      {| u_svc := svc; u_acl := u_acl st; u_ctx := u_ctx st; u_permits := S (u_permits st);
         u_tasks := delete i (u_tasks st); u_recv := u_recv st;
         u_sent := send_to sends (t_no t) (match r with Answer b => Some b | _ => None end) (t_peer t) (u_sent st);
         u_metrics := u_metrics st |}
  end.
Definition udp_step (st : UdpSt) (e : UdpEvent) : UdpSt :=
  match e with
  | Datagram d peer sends => on_datagram d peer sends st
  | Finish i sends => on_finish i sends st
  | Reload acl ctx =>
      {| u_svc := u_svc st; u_acl := acl; u_ctx := ctx; u_permits := u_permits st; u_tasks := u_tasks st;
         u_recv := u_recv st; u_sent := u_sent st; u_metrics := u_metrics st |}
  | Elsewhere f =>
      {| u_svc := f (u_svc st); u_acl := u_acl st; u_ctx := u_ctx st; u_permits := u_permits st;
         u_tasks := u_tasks st; u_recv := u_recv st; u_sent := u_sent st; u_metrics := u_metrics st |}
  end.
Definition serve_loop (evs : list UdpEvent) (st : UdpSt) : UdpSt := foldl udp_step st evs.

(** ** TCP and DoT *)

Definition MAX_TCP_MESSAGE : Z := 65535.
Context (acl_at : nat → Acl.ClientAcl) (ctx_at : nat → ListenerContext).

(** [c_broken]: the peer's bytes end in an I/O error, not in an orderly close.
    [c_log]: the queries handed to the handler and its replies. *)
Record TcpSt := {
  c_chan : Chan; c_broken : bool; c_svc : T; c_tick : nat; c_metrics : Metrics;
  c_log : list (list Z * Reply) }.
Definition set_chan (ch : Chan) (st : TcpSt) : TcpSt :=
  {| c_chan := ch; c_broken := c_broken st; c_svc := c_svc st; c_tick := c_tick st; c_metrics := c_metrics st;
     c_log := c_log st |}.

Inductive Accepted : Type := Dropped | Serve.
(** The gate of the three [accept_loop]s, passed before any handshake. *)
Definition accept (peer : IpAddr) (st : TcpSt) : Accepted * TcpSt :=
  if negb (Acl.allows (acl_at (c_tick st)) peer)
  then (Dropped, {| c_chan := c_chan st; c_broken := c_broken st; c_svc := c_svc st; c_tick := S (c_tick st);
                    c_metrics := count_denied (c_metrics st); c_log := c_log st |})
  else
    (if is_ready (c_svc st) then Serve else Dropped,
     {| c_chan := c_chan st; c_broken := c_broken st; c_svc := c_svc st; c_tick := S (c_tick st);
        c_metrics := c_metrics st; c_log := c_log st |}).

Definition frame (b : list Z) : list Z := to_be16 (Z.of_nat (length b)) ++ b.
(** Write the answer; [flushes]: then flush, which may fail like a write. *)
Definition write_answer (flushes : bool) (b : list Z) : IO unit :=
  _ ← write_all (frame b);
  if flushes then flush else mret ().

(** One turn: [inl] ends the connection. *)
Definition serve_query (flushes : bool) (count : Metrics → Metrics) (peer : IpAddr) (st : TcpSt)
  : result unit * TcpSt + TcpSt :=
  match read_exact 2 (c_chan st) with
  | (Err _, ch) => inl (if c_broken st then Err "i/o error" else Ok (), set_chan ch st)
  | (Ok lenbuf, ch) =>
      let st := set_chan ch st in
      let len := from_be16 (nth 0 lenbuf 0) (nth 1 lenbuf 0) in
      if (len =? 0) || (MAX_TCP_MESSAGE <? len) then inl (Err "invalid DNS length", st)
      else
        match read_exact (Z.to_nat len) (c_chan st) with
        | (Err e, ch) => inl (Err e, set_chan ch st)
        | (Ok query, ch) =>
            let st := set_chan ch st in
            if negb (Acl.allows (acl_at (c_tick st)) peer)
            then inl (Ok (), {| c_chan := ch; c_broken := c_broken st; c_svc := c_svc st; c_tick := S (c_tick st);
                                c_metrics := count_denied (c_metrics st); c_log := c_log st |})
            else
              let '(r, svc) := handle query peer (ctx_at (S (c_tick st))) (c_svc st) in
              let st := {| c_chan := ch; c_broken := c_broken st; c_svc := svc; c_tick := S (S (c_tick st));
                           c_metrics := count (c_metrics st); c_log := c_log st ++ [(query, r)] |} in
              match r with
              | Panic => inl (Err "panic", st)
              | NoReply => inr st
              | Answer b =>
                  if MAX_TCP_MESSAGE <? Z.of_nat (length b) then inl (Ok (), st)
                  else
                    match write_answer flushes b ch with
                    | (Err e, ch) => inl (Err e, set_chan ch st)
                    | (Ok _, ch) => inr (set_chan ch st)
                    end
              end
        end
  end.
Fixpoint serve_frames (fuel : nat) (flushes : bool) (count : Metrics → Metrics) (peer : IpAddr) (st : TcpSt)
  : result unit * TcpSt :=
  match fuel with
  | O => (Err "out of fuel", st)
  | S fuel' =>
      match serve_query flushes count peer st with
      | inl out => out
      | inr st => serve_frames fuel' flushes count peer st
      end
  end.
(** Every turn takes at least three bytes off the stream. *)
Definition serve_connection (peer : IpAddr) (st : TcpSt) : result unit * TcpSt :=
  serve_frames (S (length (inp (c_chan st)))) false count_tcp peer st.
Definition serve_tls (peer : IpAddr) (st : TcpSt) : result unit * TcpSt :=
  serve_frames (S (length (inp (c_chan st)))) true count_dot peer st.

(** ** UDP: one reply at most, to an allowed peer, about its query *)

(** The datagrams that have arrived, with the allow-list then in force. *)
Definition Arrival : Type := list Z * SocketAddr * Acl.ClientAcl.
Fixpoint arrivals (acl : Acl.ClientAcl) (evs : list UdpEvent) : list Arrival :=
  match evs with
  | [] => []
  | Datagram d peer _ :: evs' => (take UDP_BUF_SIZE d, peer, acl) :: arrivals acl evs'
  | Reload acl' _ :: evs' => arrivals acl' evs'
  | _ :: evs' => arrivals acl evs'
  end.

(** [no] is the number of an arrival from [peer], allowed when it came. *)
Definition came_from (log : list Arrival) (no : nat) (q : list Z) (peer : SocketAddr) : Prop :=
  ∃ acl, log !! no = Some (q, peer, acl) ∧ Acl.allows acl (sa_ip peer) = true.
Definition answers_arrival (log : list Arrival) (s : Sent) : Prop :=
  ∃ q, came_from log (s_no s) q (s_peer s) ∧ is_Some (from_bytes q) ∧
    (Forall is_byte q → s_bytes s = [] ∨ take 2 (s_bytes s) = take 2 q).
Record udp_inv (max : nat) (log : list Arrival) (st : UdpSt) : Prop := {
  ui_permits : (u_permits st + length (u_tasks st) = max)%nat;
  ui_recv : u_recv st = length log;
  ui_fresh : NoDup ((t_no <$> u_tasks st) ++ (s_no <$> u_sent st));
  ui_tasks : Forall (λ t, came_from log (t_no t) (t_query t) (t_peer t)) (u_tasks st);
  ui_sent : Forall (answers_arrival log) (u_sent st) }.

Lemma came_from_app log x no q peer : came_from log no q peer → came_from (log ++ x) no q peer.
Proof. intros (acl & L & A). exists acl. split; [by apply lookup_app_l_Some|done]. Qed.
Lemma came_from_lt log no q peer : came_from log no q peer → (no < length log)%nat.
Proof. intros (acl & L & _). by eapply lookup_lt_Some. Qed.
Lemma answers_arrival_app log x s : answers_arrival log s → answers_arrival (log ++ x) s.
Proof. intros (q & C & P). exists q. split; [by apply came_from_app|done]. Qed.
Lemma udp_inv_fresh max log st : udp_inv max log st → length log ∉ (t_no <$> u_tasks st) ++ (s_no <$> u_sent st).
Proof.
  intros I [(t & E & Ht)%list_elem_of_fmap|(s & E & Hs)%list_elem_of_fmap]%elem_of_app.
  - pose proof (ui_tasks _ _ _ I) as F. rewrite Forall_forall in F.
    apply F, came_from_lt in Ht. lia.
  - pose proof (ui_sent _ _ _ I) as F. rewrite Forall_forall in F.
    apply F in Hs as (q & C%came_from_lt & _). lia.
Qed.
(** An arrival changes nothing for what arrived before. *)
Lemma udp_inv_log max log st x :
  udp_inv max log st →
  Forall (λ t, came_from (log ++ x) (t_no t) (t_query t) (t_peer t)) (u_tasks st) ∧
  Forall (answers_arrival (log ++ x)) (u_sent st).
Proof.
  intros I. split; (eapply Forall_impl; [|]); [apply (ui_tasks _ _ _ I)| |apply (ui_sent _ _ _ I)|]; cbn; intros.
  - by apply came_from_app.
  - by apply answers_arrival_app.
Qed.

Context `{!NameLaws, !HickoryLaws, !HandlerLaws T}.

(** The shedding path answers as the stub handler does. *)
Lemma refused_promises q b :
  build_refused q = Some b → is_Some (from_bytes q) ∧ (Forall is_byte q → b = [] ∨ take 2 b = take 2 q).
Proof.
  intros R. set (t := Build_RefusedHandler).
  assert (E : handle q (V4 []) {| ctx_name := ""; ctx_dns64 := false; doh_auth_token := None |} t = (Answer b, t))
    by (cbn [handle refused_handler]; by rewrite R).
  split; [exact (answer_parses _ _ _ _ _ _ E)|]. intros By. exact (answer_txid _ _ _ _ _ _ By E).
Qed.
(** A reply with these promises keeps the log in order. *)
Lemma send_to_ok max log sends no q peer o st l :
  udp_inv max log st → came_from log no q peer →
  no ∉ (t_no <$> l) ++ (s_no <$> u_sent st) → NoDup ((t_no <$> l) ++ (s_no <$> u_sent st)) →
  (∀ b, o = Some b → is_Some (from_bytes q) ∧ (Forall is_byte q → b = [] ∨ take 2 b = take 2 q)) →
  NoDup ((t_no <$> l) ++ (s_no <$> send_to sends no o peer (u_sent st))) ∧
  Forall (answers_arrival log) (send_to sends no o peer (u_sent st)).
Proof.
  intros I C N D Ho. unfold send_to. destruct o as [b|]; [|split; [done|apply (ui_sent _ _ _ I)]].
  destruct sends; [|split; [done|apply (ui_sent _ _ _ I)]]. destruct (Ho b eq_refl) as [P X]. split.
  - rewrite fmap_app, app_assoc. cbn. apply NoDup_app. split_and!; [done| |apply NoDup_singleton].
    intros x Hx ->%list_elem_of_singleton. done.
  - apply Forall_app. split; [apply (ui_sent _ _ _ I)|]. constructor; [|done]. by exists q.
Qed.

Lemma on_datagram_inv max log d peer sends st :
  udp_inv max log st →
  udp_inv max (log ++ [(take UDP_BUF_SIZE d, peer, u_acl st)]) (on_datagram d peer sends st).
Proof.
  intros I. pose proof (udp_inv_log max log st [(take UDP_BUF_SIZE d, peer, u_acl st)] I) as [Ft Fs].
  pose proof (udp_inv_fresh _ _ _ I) as N. pose proof (ui_permits _ _ _ I) as P.
  pose proof (ui_fresh _ _ _ I) as D. unfold on_datagram.
  set (q := take UDP_BUF_SIZE d) in *. set (log' := log ++ _) in *.
  assert (Hr : S (u_recv st) = length log').
  { unfold log'. rewrite (ui_recv _ _ _ I), length_app. cbn. lia. }
  destruct (Acl.allows (u_acl st) (sa_ip peer)) eqn:A; cbn [negb]; [|by split].
  assert (C : came_from log' (u_recv st) q peer).
  { exists (u_acl st). split; [|done]. unfold log'. rewrite (ui_recv _ _ _ I).
    by apply list_lookup_middle. }
  destruct (u_permits st) as [|p] eqn:Ep.
  - assert (I' : udp_inv max log' {| u_svc := u_svc st; u_acl := u_acl st; u_ctx := u_ctx st; u_permits := 0;
      u_tasks := u_tasks st; u_recv := S (u_recv st); u_sent := u_sent st; u_metrics := u_metrics st |}) by (by split).
    destruct (send_to_ok max log' sends (u_recv st) q peer (build_refused q) _ (u_tasks st) I' C) as [D' S'];
      [by rewrite (ui_recv _ _ _ I)|done| |by split].
    apply refused_promises.
  - split; cbn; [rewrite length_app; cbn; lia|done| | |done].
    + rewrite fmap_app, <- app_assoc. cbn. rewrite <- Permutation_middle. constructor; [|done].
      by rewrite (ui_recv _ _ _ I).
    + apply Forall_app. split; [done|]. by constructor.
Qed.

Lemma on_finish_inv max log i sends st : udp_inv max log st → udp_inv max log (on_finish i sends st).
Proof.
  intros I. unfold on_finish. destruct (u_tasks st !! i) as [t|] eqn:Et; [|done].
  pose proof (delete_Permutation _ _ _ Et) as Pm. pose proof (ui_fresh _ _ _ I) as D.
  rewrite Pm in D. cbn in D. apply NoDup_cons in D as [N D].
  pose proof (ui_tasks _ _ _ I) as Ft. rewrite Pm in Ft. apply Forall_cons in Ft as [C Ft].
  destruct (handle (t_query t) (sa_ip (t_peer t)) (t_ctx t) (u_svc st)) as [r svc] eqn:Eh.
  destruct (send_to_ok max log sends (t_no t) (t_query t) (t_peer t)
    (match r with Answer b => Some b | _ => None end) st (delete i (u_tasks st)) I C N D) as [D' S'].
  { intros b Eb. destruct r; simplify_eq. split; [by eapply answer_parses|]. intros By. by eapply answer_txid. }
  split; cbn; try done; [|apply (ui_recv _ _ _ I)].
  pose proof (ui_permits _ _ _ I) as P. rewrite (Permutation_length Pm) in P. cbn in P. lia.
Qed.

Lemma serve_loop_inv max log evs st :
  udp_inv max log st → udp_inv max (log ++ arrivals (u_acl st) evs) (serve_loop evs st).
Proof.
  unfold serve_loop. revert log st. induction evs as [|e evs IH]; intros log st I; cbn; [by rewrite app_nil_r|].
  destruct e as [d peer sends|i sends|acl ctx|f]; cbn.
  - rewrite cons_middle, app_assoc. assert (u_acl (on_datagram d peer sends st) = u_acl st) as E.
    { unfold on_datagram. by repeat case_match. }
    rewrite <- E at 2. apply IH. by apply on_datagram_inv.
  - assert (u_acl (on_finish i sends st) = u_acl st) as <- by (unfold on_finish; by repeat case_match).
    apply IH. by apply on_finish_inv.
  - apply (IH log {| u_svc := u_svc st; u_acl := acl; u_ctx := ctx; u_permits := u_permits st;
      u_tasks := u_tasks st; u_recv := u_recv st; u_sent := u_sent st; u_metrics := u_metrics st |}). by destruct I.
  - apply (IH log {| u_svc := f (u_svc st); u_acl := u_acl st; u_ctx := u_ctx st; u_permits := u_permits st;
      u_tasks := u_tasks st; u_recv := u_recv st; u_sent := u_sent st; u_metrics := u_metrics st |}). by destruct I.
Qed.

(** ** TCP and DoT: the framing loop *)

Definition answer_of (r : Reply) : option (list Z) := match r with Answer b => Some b | _ => None end.
(** The handler on a sequence of queries, without framing or channel. *)
Fixpoint replies (peer : IpAddr) (qs : list (list Z)) (tick : nat) (t : T) : list Reply * T :=
  match qs with
  | [] => ([], t)
  | q :: qs' =>
      let '(r, t) := handle q peer (ctx_at (S tick)) t in
      let '(rs, t) := replies peer qs' (S (S tick)) t in (r :: rs, t)
  end.
(** A reply the connection goes on after. *)
Definition orderly (r : Reply) : bool :=
  match r with Panic => false | NoReply => true | Answer b => Z.of_nat (length b) <=? MAX_TCP_MESSAGE end.
Definition message_len (q : list Z) : Prop := 0 < Z.of_nat (length q) ≤ MAX_TCP_MESSAGE.

Lemma read_exact_stream n bs c rest :
  inp c = bs ++ rest → length bs = n →
  read_exact n c = (Ok bs, {| inp := rest; out := out c; wleft := wleft c |}).
Proof. intros E L. apply read_exact_Ok. cbn. done. Qed.

(** What one turn does with a whole message at the front of the stream. *)
Lemma serve_query_message fl cnt peer st q rest :
  inp (c_chan st) = frame q ++ rest → message_len q → Acl.allows (acl_at (c_tick st)) peer = true →
  serve_query fl cnt peer st =
  let '(r, svc) := handle q peer (ctx_at (S (c_tick st))) (c_svc st) in
  let ch := {| inp := rest; out := out (c_chan st); wleft := wleft (c_chan st) |} in
  let st := {| c_chan := ch; c_broken := c_broken st; c_svc := svc; c_tick := S (S (c_tick st));
               c_metrics := cnt (c_metrics st); c_log := c_log st ++ [(q, r)] |} in
  match r with
  | Panic => inl (Err "panic", st)
  | NoReply => inr st
  | Answer b =>
      if MAX_TCP_MESSAGE <? Z.of_nat (length b) then inl (Ok (), st)
      else match write_answer fl b ch with
           | (Err e, ch) => inl (Err e, set_chan ch st)
           | (Ok _, ch) => inr (set_chan ch st)
           end
  end.
Proof.
  intros E L A. unfold serve_query, frame in *. rewrite <- app_assoc in E.
  rewrite (read_exact_stream 2 _ _ _ E eq_refl). cbn [nth to_be16]. rewrite from_to_be16.
  destruct (Z.eqb_spec (Z.of_nat (length q)) 0); [unfold message_len in L; lia|].
  destruct (Z.ltb_spec MAX_TCP_MESSAGE (Z.of_nat (length q))); [unfold message_len in L; lia|]. cbn [orb].
  rewrite Nat2Z.id. rewrite (read_exact_stream (length q) q _ rest) by done. cbn -[write_answer].
  rewrite A. cbn -[write_answer]. by destruct (handle q peer _ (c_svc st)) as [r svc].
Qed.

Lemma write_answer_ok fl b c :
  (2 ≤ wleft c)%nat → ∃ c', write_answer fl b c = (Ok (), c') ∧ inp c' = inp c ∧ out c' = out c ++ frame b ∧
    (wleft c - 2 ≤ wleft c')%nat.
Proof.
  destruct c as [i o [|[|w]]]; cbn; try lia. intros _. destruct fl; cbn; eexists; (split; [reflexivity|]); cbn;
    rewrite ?app_nil_r; split_and!; try done; lia.
Qed.

Lemma frames_complete fuel fl cnt peer qs st rs t :
  inp (c_chan st) = concat (map frame qs) → (length qs < fuel)%nat → Forall message_len qs →
  (∀ n, Acl.allows (acl_at n) peer = true) → c_broken st = false → (2 * length qs ≤ wleft (c_chan st))%nat →
  replies peer qs (c_tick st) (c_svc st) = (rs, t) →
  forallb orderly rs = true →
  ∃ st', serve_frames fuel fl cnt peer st = (Ok (), st') ∧ inp (c_chan st') = [] ∧ c_svc st' = t ∧
    out (c_chan st') = out (c_chan st) ++ concat (map frame (omap answer_of rs)) ∧
    c_log st' = c_log st ++ zip qs rs.
Proof.
  revert fuel st rs t. induction qs as [|q qs IH]; intros [|fuel] st rs t E L M A Br W R O; try (cbn in L; lia).
  - cbn in R. simplify_eq. cbn [serve_frames]. unfold serve_query, read_exact. cbn in E. rewrite E. cbn.
    rewrite Br. eexists. split; [done|]. cbn. by rewrite !app_nil_r.
  - cbn [serve_frames]. apply Forall_cons in M as [Mq M]. rewrite (serve_query_message _ _ _ _ q (concat (map frame qs))) by done.
    cbn in R. destruct (handle q peer _ (c_svc st)) as [r svc]. destruct (replies peer qs _ svc) as [rs' t'] eqn:R'.
    injection R as <- <-. cbn in O. apply andb_true_iff in O as [Or O]. cbn [length] in W, L.
    destruct r as [b| |]; [| |done].
    + destruct (Z.ltb_spec MAX_TCP_MESSAGE (Z.of_nat (length b))); [cbn in Or; apply Z.leb_le in Or; lia|].
      destruct (write_answer_ok fl b {| inp := concat (map frame qs); out := out (c_chan st); wleft := wleft (c_chan st) |})
        as (c' & Ew & Ei & Eo & Wl); [cbn; lia|]. cbv zeta. rewrite Ew. cbn [inp out wleft] in *.
      match goal with |- context [serve_frames fuel fl cnt peer ?s] =>
        destruct (IH fuel s rs' t') as (st' & Es & ? & ? & Eout & Elog) end; cbn; try done; try lia.
      exists st'. split; [exact Es|]. cbn in Eout, Elog. rewrite Eout, Elog, Eo. cbn.
      by rewrite <- !app_assoc.
    + cbv beta iota zeta. match goal with |- context [serve_frames fuel fl cnt peer ?s] =>
        destruct (IH fuel s rs' t') as (st' & Es & ? & ? & Eout & Elog) end; cbn; try done; try lia.
      exists st'. split; [exact Es|]. cbn in Eout, Elog. rewrite Eout, Elog. by rewrite <- app_assoc.
Qed.

Lemma frames_longer qs bytes : bytes = concat (map frame qs) → (length qs < S (length bytes))%nat.
Proof. intros ->. induction qs as [|q qs IH]; cbn; [lia|]. rewrite length_app. lia. Qed.
Lemma replies_length peer qs tick t : length (replies peer qs tick t).1 = length qs.
Proof.
  revert tick t. induction qs as [|q qs IH]; intros tick t; [done|]. cbn.
  destruct (handle q peer _ t) as [r t1]. specialize (IH (S (S tick)) t1).
  destruct (replies peer qs _ t1). cbn in *. by rewrite IH.
Qed.

(** ** The framing loop on arbitrary bytes *)

Lemma read_frame c lenbuf c1 q c2 :
  Forall is_byte (inp c) → read_exact 2 c = (Ok lenbuf, c1) →
  read_exact (Z.to_nat (from_be16 (nth 0 lenbuf 0) (nth 1 lenbuf 0))) c1 = (Ok q, c2) →
  inp c = frame q ++ inp c2 ∧ out c2 = out c ∧ wleft c2 = wleft c.
Proof.
  intros By (L1 & E1 & O1 & W1)%read_exact_Ok (L2 & E2 & O2 & W2)%read_exact_Ok.
  destruct lenbuf as [|hi [|lo []]]; try done. cbn in L2. rewrite E1 in By.
  apply Forall_cons in By as [Bh By]. apply Forall_cons in By as [Bl _].
  split; [|split; congruence]. rewrite E1, E2. unfold frame. rewrite L2, Z2Nat.id.
  - by rewrite to_from_be16.
  - unfold from_be16, is_byte in *. lia.
Qed.

(** What has been logged, read and written between two states. *)
Record progress (peer : IpAddr) (st : TcpSt) (new : list (list Z * Reply)) (bs : list (list Z)) (rest : list Z)
  (st' : TcpSt) : Prop := {
  pr_log : c_log st' = c_log st ++ new;
  pr_inp : inp (c_chan st) = concat (map frame new.*1) ++ rest;
  pr_out : out (c_chan st') = out (c_chan st) ++ concat (map frame bs);
  pr_pre : bs `prefix_of` omap answer_of new.*2;
  pr_run : replies peer new.*1 (c_tick st) (c_svc st) = (new.*2, c_svc st');
  pr_acl : ∀ i, (i < length new)%nat → Acl.allows (acl_at (c_tick st + 2 * i)) peer = true }.

Lemma progress_none peer st st' :
  c_log st' = c_log st → out (c_chan st') = out (c_chan st) → c_svc st' = c_svc st →
  progress peer st [] [] (inp (c_chan st)) st'.
Proof. intros L O S. split; cbn; rewrite ?app_nil_r, ?S; try done. intros i Hi. lia. Qed.

(** An answer is written whole, or not at all in a turn that ends the connection. *)
Lemma write_answer_out fl b c r c' :
  write_answer fl b c = (r, c') →
  inp c' = inp c ∧ (out c' = out c ++ frame b ∨ (∃ e, r = Err e) ∧ out c' = out c).
Proof.
  unfold write_answer, mbind, io_bind. destruct (write_all (frame b) c) as [[[]|e1] c1] eqn:W1.
  - apply write_all_Ok in W1 as (_ & I1 & O1 & _). destruct fl; [|intros [= _ <-]; auto].
    unfold flush, write_all. case_match; intros [= _ <-]; cbn; rewrite ?app_nil_r; auto.
  - unfold write_all in W1. case_match; simplify_eq. intros [= <- <-]. eauto.
Qed.

Lemma serve_query_sound fl cnt peer st :
  Forall is_byte (inp (c_chan st)) →
  match serve_query fl cnt peer st with
  | inl (r, st') => ∃ new bs rest, progress peer st new bs rest st' ∧ (length new ≤ 1)%nat
  | inr st' => ∃ q r, progress peer st [(q, r)] (omap answer_of [r]) (inp (c_chan st')) st' ∧
                 c_tick st' = S (S (c_tick st))
  end.
Proof.
  intros By. unfold serve_query.
  destruct (read_exact 2 (c_chan st)) as [[lenbuf|e] c1] eqn:R1.
  2: { exists [], []; eexists; split; [|cbn; lia]. apply progress_none; try done. unfold read_exact in R1. by case_match; simplify_eq. }
  pose proof R1 as (_ & _ & O1 & _)%read_exact_Ok.
  destruct (_ || _). { exists [], []; eexists; split; [|cbn; lia]. by apply progress_none. }
  destruct (read_exact (Z.to_nat _) (c_chan (set_chan c1 st))) as [[q|e] c2] eqn:R2.
  2: { exists [], []; eexists; split; [|cbn; lia]. apply progress_none; try done. cbn. unfold read_exact in R2. case_match; simplify_eq. done. }
  destruct (read_frame _ _ _ _ _ By R1 R2) as (Ei & Eo & Ew).
  destruct (Acl.allows (acl_at (c_tick (set_chan c2 (set_chan c1 st)))) peer) eqn:A; cbn [negb].
  2: { exists [], []; eexists; split; [|cbn; lia]. by apply progress_none. }
  cbn [c_tick c_svc c_log c_metrics c_broken set_chan] in A |- *.
  destruct (handle q peer (ctx_at (S (c_tick st))) (c_svc st)) as [r svc] eqn:H3.
  assert (P : ∀ bs st', c_log st' = c_log st ++ [(q, r)] → out (c_chan st') = out (c_chan st) ++ concat (map frame bs) →
    c_svc st' = svc → bs `prefix_of` omap answer_of [r] → progress peer st [(q, r)] bs (inp c2) st').
  { intros bs st' Hl Ho Hs Hb. split; cbn; try done.
    - by rewrite app_nil_r.
    - by rewrite H3, Hs.
    - intros [|i] Hi; [|lia]. by rewrite Nat.add_0_r. }
  destruct r as [b| |].
  - destruct (_ <? _). { exists [(q, Answer b)], [], (inp c2). split; [|done]. apply P; cbn; rewrite ?app_nil_r; try done. apply prefix_nil. }
    destruct (write_answer fl b c2) as [[u|e] c3] eqn:W; apply write_answer_out in W as [Ic [Oc|[[? ?] Oc]]]; try done.
    + exists q, (Answer b). split; [|done].
      cbn [c_chan set_chan]. rewrite Ic. apply P; cbn; rewrite ?app_nil_r; try done. by rewrite Oc, Eo.
    + exists [(q, Answer b)], [b], (inp c2). split; [|done]. apply P; cbn; rewrite ?app_nil_r; try done. by rewrite Oc, Eo.
    + exists [(q, Answer b)], [], (inp c2). split; [|done]. apply P; cbn; rewrite ?app_nil_r, ?Oc; try done. apply prefix_nil.
  - exists q, NoReply. split; [|done]. apply P; cbn; rewrite ?app_nil_r; try done.
  - exists [(q, Panic)], [], (inp c2). split; [|done]. apply P; cbn; rewrite ?app_nil_r; try done.
Qed.

Lemma frames_sound fuel fl cnt peer st r st' :
  Forall is_byte (inp (c_chan st)) → serve_frames fuel fl cnt peer st = (r, st') →
  ∃ new bs rest, progress peer st new bs rest st'.
Proof.
  revert st. induction fuel as [|fuel IH]; intros st By; cbn [serve_frames].
  { intros [= <- <-]. eexists _, _, _. by apply progress_none. }
  pose proof (serve_query_sound fl cnt peer st By) as Hq.
  destruct (serve_query fl cnt peer st) as [[r1 st1]|st1]; [intros [= <- <-]; naive_solver|]. intros E.
  destruct Hq as (q & rp & [L1 I1 O1 _ R1 A1] & Tk). cbn [fmap list_fmap fst snd map concat] in I1. cbn in R1. rewrite app_nil_r in I1.
  assert (By1 : Forall is_byte (inp (c_chan st1))) by (rewrite I1 in By; by apply Forall_app in By as [_ ?]).
  destruct (IH st1 By1 E) as (new & bs & rest & [L2 I2 O2 P2 R2 A2]).
  exists ((q, rp) :: new), (omap answer_of [rp] ++ bs), rest.
  split; cbn [fst snd fmap list_fmap].
  - by rewrite L2, L1, <- app_assoc.
  - by rewrite I1, I2; cbn; rewrite <- app_assoc.
  - by rewrite O2, O1, map_app, concat_app, <- app_assoc.
  - change (omap answer_of (rp :: new.*2)) with (omap answer_of ([rp] ++ new.*2)).
    rewrite omap_app. by apply prefix_app.
  - cbn. destruct (handle q peer _ (c_svc st)) as [x y]. injection R1 as -> ->. rewrite Tk in R2. by rewrite R2.
  - intros [|i] Hi; [apply (A1 0%nat); cbn; lia|]. replace (c_tick st + 2 * S i)%nat with (c_tick st1 + 2 * i)%nat by lia.
    apply A2. cbn in Hi. lia.
Qed.
(** The fuel is enough: a turn takes at least the length prefix. *)
Lemma serve_query_fuel fl cnt peer st :
  match serve_query fl cnt peer st with
  | inl (r, _) => r ≠ Err "out of fuel"
  | inr st1 => (length (inp (c_chan st1)) < length (inp (c_chan st)))%nat
  end.
Proof.
  unfold serve_query. destruct (read_exact 2 (c_chan st)) as [[lenbuf|e] c1] eqn:R1; [|by destruct (c_broken st)].
  destruct (_ || _); [done|].
  destruct (read_exact (Z.to_nat _) (c_chan (set_chan c1 st))) as [[q|e] c2] eqn:R2.
  2: { unfold read_exact in R2. by case_match; simplify_eq. }
  apply read_exact_Ok in R1 as (L1 & E1 & _). apply read_exact_Ok in R2 as (_ & E2 & _). cbn in E2.
  assert (L3 : (length (inp c2) < length (inp (c_chan st)))%nat) by (rewrite E1, E2, !length_app, L1; lia).
  destruct (negb _); [done|]. destruct (handle _ _ _ _) as [[b| |] svc]; [|done..].
  destruct (_ <? _); [done|]. destruct (write_answer fl b c2) as [[u|e] c3] eqn:W.
  - apply write_answer_out in W as [Ic _]. cbn. by rewrite Ic.
  - unfold write_answer, flush, mbind, io_bind, write_all in W. destruct fl; repeat case_match; simplify_eq; done.
Qed.
Lemma serve_frames_fuel fuel fl cnt peer st :
  (length (inp (c_chan st)) < fuel)%nat → (serve_frames fuel fl cnt peer st).1 ≠ Err "out of fuel".
Proof.
  revert st. induction fuel as [|fuel IH]; intros st L; [lia|]. cbn [serve_frames].
  pose proof (serve_query_fuel fl cnt peer st) as Q. destruct (serve_query fl cnt peer st) as [[r st1]|st1]; [done|].
  apply IH. lia.
Qed.

(** C23. A UDP listener, whatever arrives and however its tasks, reloads and the other
    listeners interleave: never more than [max_inflight] queries are being worked
    on; every datagram sent answers one that arrived, no arrival is answered twice,
    and an answer goes to the peer that asked, which the allow-list in force at that
    moment permits, for a packet that parses, and it begins with that packet's TXID, or
    is empty (the handler's reply when nothing could be encoded). *)
Theorem udp_one_reply svc acl ctx max evs :
  let st := serve_loop evs (udp_spawn svc acl ctx max) in
  (u_permits st + length (u_tasks st) = max)%nat ∧ NoDup (s_no <$> u_sent st) ∧
  ∀ s, s ∈ u_sent st → answers_arrival (arrivals acl evs) s.
Proof.
  intros st. destruct (serve_loop_inv max [] evs (udp_spawn svc acl ctx max)) as [P _ D _ S].
  { split; cbn; try done; try lia; constructor. }
  split_and!; [done| |by apply Forall_forall]. by apply NoDup_app in D as (_ & _ & D).
Qed.

(** C24. Pipelined queries over TCP or DoT: when the peer sends whole messages, stays
    allowed, and the handler neither panics nor produces more than 65535 bytes, the
    connection serves every message in order, and what it writes is exactly the
    length-prefixed answers of the handler run on those messages one after another
    (not, as the comment at the top of [tcp.rs] has it, in tasks of their own that may answer out of
    order). *)
Theorem tcp_serves_all peer qs st rs t :
  inp (c_chan st) = concat (map frame qs) → Forall message_len qs →
  (∀ n, Acl.allows (acl_at n) peer = true) → c_broken st = false → (2 * length qs ≤ wleft (c_chan st))%nat →
  replies peer qs (c_tick st) (c_svc st) = (rs, t) →
  forallb orderly rs = true →
  ∀ serve, serve = serve_connection ∨ serve = serve_tls →
  ∃ st', serve peer st = (Ok (), st') ∧ c_svc st' = t ∧ inp (c_chan st') = [] ∧
    out (c_chan st') = out (c_chan st) ++ concat (map frame (omap answer_of rs)).
Proof.
  intros E M A Br W R O serve Hs.
  pose proof (frames_longer qs _ E) as L.
  destruct Hs as [-> | ->]; (edestruct frames_complete as (st' & Es & Ei & Et & Eo & _);
    [exact E|exact L|exact M|exact A|exact Br|exact W|exact R|exact O|]); exists st'; done.
Qed.

(** Arbitrary bytes over TCP or DoT: the connection always ends, and there are
    messages such that the bytes read begin with their frames, each was received
    while the peer was allowed, their replies are those of the handler run on them in
    order, and what has been written is a sequence of whole frames, the answers among
    those replies up to a failed write. *)
Theorem tcp_hostile_stream peer st r st' serve :
  serve = serve_connection ∨ serve = serve_tls →
  Forall is_byte (inp (c_chan st)) → serve peer st = (r, st') →
  r ≠ Err "out of fuel" ∧ ∃ new bs rest, progress peer st new bs rest st'.
Proof.
  intros Hs By E. split.
  - destruct Hs as [-> | ->]; unfold serve_connection, serve_tls in E; change r with (r, st').1; rewrite <- E;
      apply serve_frames_fuel; lia.
  - destruct Hs as [-> | ->]; eapply frames_sound; done.
Qed.
End Listeners.
End Listeners.

(** ** Examples *)
Module ListenerExamples.
Import Handler HandlerExamples Service Listeners.

#[local] Existing Instances HandlerExamples.ExMoka HandlerExamples.ExGovernor.
#[local] Instance ExHickory : Hickory := ex_hickory 4.

(** The resolver of the handler's examples behind a hot-swappable wrapper. *)
Definition ex_live : LiveHandler Recursor :=
  live_new {| r_self := ex_self; r_world := ex_hworld; r_between := λ st, st; r_st := ex_hst |}.
Definition ex_peer (d : Z) : SocketAddr := {| sa_ip := V4 [192; 168; 0; d]; sa_port := 4000 |}.
Definition ex_acl : Acl.ClientAcl := Acl.new [{| net_ip := V4 [192; 168; 0; 0]; net_prefix_len := 24 |}].
(** One permit: the second query is shed while the first is worked on, the third is
    not allowed. *)
Definition ex_events : list (UdpEvent (T := LiveHandler Recursor)) :=
  [Datagram (ex_q "www.com." RT_A) (ex_peer 2) true; Datagram (ex_q "www.com." RT_A) (ex_peer 3) true;
   Datagram (ex_q "www.com." RT_A) {| sa_ip := V4 [203; 0; 113; 9]; sa_port := 4000 |} true; Finish 0 true].
Definition ex_udp : UdpSt := serve_loop ex_events (udp_spawn ex_live ex_acl ex_ctx 1).

Lemma udp_one_reply_witness :
  map (λ s, (s_no s, sa_ip (s_peer s), rcode_of (Answer (s_bytes s)))) (u_sent ex_udp)
    = [(1%nat, V4 [192; 168; 0; 3], 5); (0%nat, V4 [192; 168; 0; 2], 0)] ∧
  (acl_denied (u_metrics ex_udp), udp_inflight_shed (u_metrics ex_udp)) = (1, 1) ∧
  ∀ s, s ∈ u_sent ex_udp → answers_arrival (arrivals ex_acl ex_events) s.
Proof.
  split; [vm_compute; reflexivity|]. split; [vm_compute; reflexivity|].
  pose proof (handler_hickory_laws 4) as Hlaws.
  destruct (udp_one_reply ex_live ex_acl ex_ctx 1 ex_events) as (_ & _ & A). exact A.
Defined.

(** Two queries in one stream. *)
Definition ex_tcp : TcpSt (T := LiveHandler Recursor) :=
  {| c_chan := {| inp := frame (ex_q "www.com." RT_A) ++ frame (ex_q "1.0.0.127.in-addr.arpa." RT_PTR); out := [];
                  wleft := 10 |};
     c_broken := false; c_svc := ex_live; c_tick := 0; c_metrics := zero_metrics; c_log := [] |}.
Definition ex_served : result () * TcpSt :=
  serve_tls (λ _, ex_acl) (λ _, ex_ctx) (sa_ip (ex_peer 2)) ex_tcp.

Lemma tcp_serves_all_witness :
  let qs := [ex_q "www.com." RT_A; ex_q "1.0.0.127.in-addr.arpa." RT_PTR] in
  let rs := (replies (λ _, ex_ctx) (sa_ip (ex_peer 2)) qs 0 ex_live).1 in
  map rcode_of rs = [0; 0] ∧ ∃ st', ex_served = (Ok (), st') ∧
    out (c_chan st') = concat (map frame (omap answer_of rs)).
Proof.
  intros qs rs. assert (Hr : map rcode_of rs = [0; 0]) by (vm_compute; reflexivity). split; [exact Hr|].
  pose proof (handler_hickory_laws 4) as Hlaws.
  destruct (tcp_serves_all (λ _, ex_acl) (λ _, ex_ctx) (sa_ip (ex_peer 2)) qs ex_tcp rs
    (replies (λ _, ex_ctx) (sa_ip (ex_peer 2)) qs 0 ex_live).2) with (serve := serve_tls (T := LiveHandler Recursor) (λ _, ex_acl) (λ _, ex_ctx))
    as (st' & E & _ & _ & O).
  - reflexivity.
  - repeat constructor; vm_compute; done.
  - intros n. vm_compute. reflexivity.
  - reflexivity.
  - vm_compute. lia.
  - unfold rs, qs. by destruct (replies _ _ _ _ _).
  - vm_compute. reflexivity.
  - by right.
  - exists st'. by split.
Defined.

(** A query, then a zero length: the query is answered, the connection dropped. *)
Definition ex_hostile : TcpSt (T := LiveHandler Recursor) :=
  {| c_chan := {| inp := frame (ex_q "www.com." RT_A) ++ [0; 0; 7; 7]; out := []; wleft := 10 |};
     c_broken := false; c_svc := ex_live; c_tick := 0; c_metrics := zero_metrics; c_log := [] |}.
Lemma tcp_hostile_stream_witness :
  let '(r, st') := serve_connection (λ _, ex_acl) (λ _, ex_ctx) (sa_ip (ex_peer 2)) ex_hostile in
  r = Err "invalid DNS length" ∧ map (rcode_of ∘ snd) (c_log st') = [0] ∧
  ∃ new bs rest, progress (λ _, ex_acl) (λ _, ex_ctx) (sa_ip (ex_peer 2)) ex_hostile new bs rest st'.
Proof.
  destruct (serve_connection _ _ _ ex_hostile) as [r st'] eqn:E.
  split; [change r with (r, st').1; rewrite <- E; vm_compute; reflexivity|].
  split; [change st' with (r, st').2; rewrite <- E; vm_compute; reflexivity|].
  pose proof (handler_hickory_laws 4) as Hlaws.
  destruct (tcp_hostile_stream (λ _, ex_acl) (λ _, ex_ctx) (sa_ip (ex_peer 2)) ex_hostile r st'
    (serve_connection (λ _, ex_acl) (λ _, ex_ctx))) as [_ P]; [by left| |exact E|exact P].
  apply (bool_decide_unpack (Forall is_byte (inp (c_chan ex_hostile)))). vm_compute. exact I.
Defined.
End ListenerExamples.
