(* ===== verification/Accept.v ===== *)
(** * Accepting streams, and serving many at once ([io/tcp.rs], [io/dot.rs])

    The accept loop of a stream listener as a machine driven by events: a stream
    arrives or [accept] fails, a TLS handshake ends, some connection takes its next
    turn, other work changes the service.  Every connection is a task of its own, and
    the scheduler may interleave their turns in any way; they share the service, the
    counters and the swapped allow-list and context.  The turn is the one of
    [Listeners]. *)
From S2P Require Import Prelude Hickory Reference Net Cache TtlCaches ClientPolicy Tunnel Handler Service Listeners.

Module Accept.
Import Handler Service Listeners.

Section Accept.
Context `{NameOps} {HK : Hickory} `{IpNets} {T : Type} `{!DnsHandler T}.
(** [tls]: a DoT listener; else plain TCP. *)
Context (tls : bool) (acl_at : nat → Acl.ClientAcl) (ctx_at : nat → ListenerContext).

Inductive Phase : Type := Handshaking | Open | Closed.
(** One spawned task.  [cn_start] is what the peer sends on the stream. *)
Record Conn := {
  cn_peer : SocketAddr; cn_phase : Phase; cn_start : list Z; cn_chan : Chan; cn_broken : bool;
  cn_log : list (list Z * Reply) }.
Record AccSt := { a_svc : T; a_tick : nat; a_metrics : Metrics; a_conns : list Conn }.

Inductive Event : Type :=
| AcceptError
| Arrive (peer : SocketAddr) (ch : Chan) (broken : bool)
| Handshake (i : nat) (r : option (Chan * bool))
| Turn (i : nat)
| Other (f : T → T).

Definition empty_chan : Chan := {| inp := []; out := []; wleft := 0 |}.
(** The connection and the shared state, as the framing loop sees them. *)
Definition enter (c : Conn) (a : AccSt) : TcpSt :=
  {| c_chan := cn_chan c; c_broken := cn_broken c; c_svc := a_svc a; c_tick := a_tick a;
     c_metrics := a_metrics a; c_log := cn_log c |}.
Definition leave (ph : Phase) (c : Conn) (st : TcpSt (T := T)) : Conn :=
  {| cn_peer := cn_peer c; cn_phase := ph; cn_start := cn_start c; cn_chan := c_chan st;
     cn_broken := cn_broken c; cn_log := c_log st |}.
Definition with_conn (i : nat) (c : Conn) (st : TcpSt (T := T)) (a : AccSt) : AccSt :=
  {| a_svc := c_svc st; a_tick := c_tick st; a_metrics := c_metrics st; a_conns := <[i := c]> (a_conns a) |}.

(** One pass of [accept_loop]. *)
Definition on_arrive (peer : SocketAddr) (ch : Chan) (broken : bool) (a : AccSt) : AccSt :=
  let c := {| cn_peer := peer; cn_phase := if tls then Handshaking else Open; cn_start := inp ch;
              cn_chan := if tls then empty_chan else ch; cn_broken := broken; cn_log := [] |} in
  let '(v, st) := accept acl_at (sa_ip peer) (enter c a) in
  let conns := match v with Dropped => a_conns a | Serve => a_conns a ++ [c] end in
  {| a_svc := c_svc st; a_tick := c_tick st; a_metrics := c_metrics st; a_conns := conns |}.
(** [acceptor.accept]: what the peer sends inside TLS is known from here on. *)
Definition on_handshake (i : nat) (r : option (Chan * bool)) (a : AccSt) : AccSt :=
  match a_conns a !! i with
  | Some c =>
      match cn_phase c with
      | Handshaking =>
          let c' := match r with
                    | Some (ch, broken) =>
                        {| cn_peer := cn_peer c; cn_phase := Open; cn_start := inp ch; cn_chan := ch;
                           cn_broken := broken; cn_log := [] |}
                    | None =>
                        {| cn_peer := cn_peer c; cn_phase := Closed; cn_start := []; cn_chan := cn_chan c;
                           cn_broken := cn_broken c; cn_log := [] |}
                    end in
          {| a_svc := a_svc a; a_tick := a_tick a; a_metrics := a_metrics a; a_conns := <[i := c']> (a_conns a) |}
      | _ => a
      end
  | None => a
  end.
Definition on_turn (i : nat) (a : AccSt) : AccSt :=
  match a_conns a !! i with
  | Some c =>
      match cn_phase c with
      | Open =>
          match serve_query acl_at ctx_at tls (if tls then count_dot else count_tcp) (sa_ip (cn_peer c)) (enter c a) with
          | inl (_, st) => with_conn i (leave Closed c st) st a
          | inr st => with_conn i (leave Open c st) st a
          end
      | _ => a
      end
  | None => a
  end.
Definition acc_step (a : AccSt) (e : Event) : AccSt :=
  match e with
  | AcceptError => a
  | Arrive peer ch broken => on_arrive peer ch broken a
  | Handshake i r => on_handshake i r a
  | Turn i => on_turn i a
  | Other f => {| a_svc := f (a_svc a); a_tick := a_tick a; a_metrics := a_metrics a; a_conns := a_conns a |}
  end.
Definition accept_loop (evs : list Event) (a : AccSt) : AccSt := foldl acc_step a evs.
Definition acc_new (svc : T) (m : Metrics) : AccSt := {| a_svc := svc; a_tick := 0; a_metrics := m; a_conns := [] |}.

(** ** Every connection sees its own queries and answers only *)

(** Streams carry bytes, and nothing has been written on a fresh one. *)
Definition fresh (ch : Chan) : Prop := Forall is_byte (inp ch) ∧ out ch = [].
Definition event_ok (e : Event) : Prop :=
  match e with
  | Arrive _ ch _ => fresh ch
  | Handshake _ (Some (ch, _)) => fresh ch
  | _ => True
  end.
Record conn_ok (c : Conn) : Prop := {
  ok_bytes : Forall is_byte (cn_start c);
  ok_in : ∃ rest, cn_start c = concat (map frame (cn_log c).*1) ++ rest ∧ (cn_phase c = Open → rest = inp (cn_chan c));
  ok_out : ∃ bs, out (cn_chan c) = concat (map frame bs) ∧ bs `prefix_of` omap answer_of (cn_log c).*2 ∧
             (cn_phase c = Open → bs = omap answer_of (cn_log c).*2);
  ok_silent : cn_phase c = Handshaking → cn_log c = [] ∧ out (cn_chan c) = [] }.

Lemma conn_ok_fresh c ch :
  fresh ch → cn_log c = [] → out (cn_chan c) = [] →
  cn_start c = inp ch → (cn_phase c ≠ Handshaking → cn_chan c = ch) → conn_ok c.
Proof.
  intros [By O] L Ou S C. split; [| | |done].
  - by rewrite S.
  - exists (inp ch). rewrite L, S. split; [done|]. intros P. by rewrite C by (rewrite P; done).
  - exists []. rewrite L, Ou. split_and!; [done..|]. by intros _.
Qed.
(** A turn that made this progress leaves the connection in order. *)
Lemma leave_ok ph c a new bs rest st :
  conn_ok c → cn_phase c = Open → ph ≠ Handshaking →
  progress acl_at ctx_at (sa_ip (cn_peer c)) (enter c a) new bs rest st → (length new ≤ 1)%nat →
  (ph = Open → bs = omap answer_of new.*2 ∧ rest = inp (c_chan st)) → conn_ok (leave ph c st).
Proof.
  intros [By (r0 & Ei & Er) (b0 & Eo & _ & Eb) _] Ph Np P L Op. destruct P as [Pl Pi Po Pp _ _]. cbn in Pl, Pi, Po.
  specialize (Er Ph). specialize (Eb Ph). subst r0 b0. split; cbn; try done.
  - exists rest. rewrite Pl, fmap_app, map_app, concat_app, Ei, Pi, <- app_assoc. split; [done|]. intros E. by apply Op.
  - exists (omap answer_of (cn_log c).*2 ++ bs). rewrite Pl, !fmap_app, omap_app, concat_app, Po, Eo.
    split_and!; [done|by apply prefix_app|]. intros E. f_equal. by apply Op.
Qed.
Definition acc_ok (a : AccSt) : Prop := Forall conn_ok (a_conns a).
Lemma on_arrive_ok peer ch broken a : fresh ch → acc_ok a → acc_ok (on_arrive peer ch broken a).
Proof.
  intros F A. unfold acc_ok, on_arrive, accept. destruct (Acl.allows (acl_at (a_tick a)) (sa_ip peer)) eqn:Al; cbn.
  2: { by rewrite Al. }
  rewrite Al. cbn. destruct (is_ready (a_svc a)); [|done]. apply Forall_app. split; [done|]. constructor; [|constructor].
  apply (conn_ok_fresh _ ch); try done; cbn; [by destruct tls; [|apply F]|by destruct tls].
Qed.
Lemma on_handshake_ok i r a :
  match r with Some (ch, _) => fresh ch | None => True end → acc_ok a → acc_ok (on_handshake i r a).
Proof.
  intros F A. unfold acc_ok, on_handshake. destruct (a_conns a !! i) as [c|] eqn:C; [|done].
  destruct (cn_phase c) eqn:Ph; [|done..]. pose proof (Forall_lookup_1 _ _ _ _ A C) as Ok. apply Forall_insert; [done|].
  destruct (ok_silent c Ok Ph) as [_ So]. destruct r as [[ch broken]|].
  - apply (conn_ok_fresh _ ch); try done. apply F.
  - split; cbn; try done; [by exists []|]. exists []. by rewrite So.
Qed.
Lemma on_turn_ok i a : acc_ok a → acc_ok (on_turn i a).
Proof.
  intros A. unfold acc_ok, on_turn. destruct (a_conns a !! i) as [c|] eqn:C; [|done].
  destruct (cn_phase c) eqn:Ph; [done| |done]. pose proof (Forall_lookup_1 _ _ _ _ A C) as Ok.
  assert (By : Forall is_byte (inp (c_chan (enter c a)))).
  { destruct (ok_in c Ok) as (rest & E & Er). cbn. rewrite <- (Er Ph). pose proof (ok_bytes c Ok) as B. rewrite E in B.
    by apply Forall_app in B as [_ ?]. }
  pose proof (serve_query_sound acl_at ctx_at tls (if tls then count_dot else count_tcp) (sa_ip (cn_peer c)) (enter c a) By) as S.
  destruct (serve_query _ _ _ _ _ _) as [[r st]|st]; apply Forall_insert; try done.
  - destruct S as (new & bs & rest & P & L). by eapply leave_ok.
  - destruct S as (q & r & P & _). by eapply leave_ok; [..|exact P|cbn; lia|].
Qed.
Lemma accept_loop_ok evs a : Forall event_ok evs → acc_ok a → acc_ok (accept_loop evs a).
Proof.
  revert a. induction evs as [|e evs IH]; intros a F A; [done|]. apply Forall_cons in F as [Fe F].
  apply IH; [done|]. destruct e; cbn; [done|by apply on_arrive_ok|by apply on_handshake_ok|by apply on_turn_ok|done].
Qed.

(** ** Which event stands behind what *)

(** A turn that logs a query: the peer was allowed at the load of the allow-list that this
    turn made, the context loaded next went to the handler with the query, the reply is the
    handler's, and both loads are spent. *)
Lemma serve_query_logs fl cnt peer st q r :
  let st' := match serve_query acl_at ctx_at fl cnt peer st with inl (_, st') | inr st' => st' end in
  c_log st' = c_log st ++ [(q, r)] →
  Acl.allows (acl_at (c_tick st)) peer = true ∧ (handle q peer (ctx_at (S (c_tick st))) (c_svc st)).1 = r ∧
  c_tick st' = S (S (c_tick st)).
Proof.
  cbn zeta. unfold serve_query.
  assert (No : ∀ st1 : TcpSt (T := T), c_log st1 = c_log st → c_log st1 = c_log st ++ [(q, r)] → False)
    by (intros st1 -> E; apply (f_equal length) in E; rewrite length_app in E; cbn in E; lia).
  destruct (read_exact 2 (c_chan st)) as [[lb|e] c1]; [|by intros E%No].
  destruct (_ || _); [by intros E%No|].
  destruct (read_exact (Z.to_nat _) _) as [[q1|e] c2]; [|by intros E%No].
  destruct (Acl.allows _ peer) eqn:A; cbn [negb]; [|by intros E%No].
  cbn [c_tick c_svc c_log c_metrics c_broken set_chan] in A |- *.
  destruct (handle q1 peer (ctx_at (S (c_tick st))) (c_svc st)) as [r1 svc] eqn:Hd.
  assert (Yes : ∀ t l, l = c_log st ++ [(q1, r1)] → t = S (S (c_tick st)) → l = c_log st ++ [(q, r)] →
    true = true ∧ (handle q peer (ctx_at (S (c_tick st))) (c_svc st)).1 = r ∧ t = S (S (c_tick st))).
  { intros t l -> -> E. apply app_inv_head in E. injection E as -> ->. by rewrite Hd. }
  destruct r1 as [b| |]; [destruct (_ <? _); [|destruct (write_answer fl b _) as [[u|e] c3]]|..]; by apply Yes.
Qed.

Context (svc0 : T) (m0 : Metrics).
Definition run (evs : list Event) : AccSt := accept_loop evs (acc_new svc0 m0).

(** How the events so far account for the connection [i]: the arrival of its peer, allowed at
    the load made for that arrival by a ready handler, when [i] connections had been
    taken; the TLS handshake, if any, which opened it on the given stream; then, one by one, the
    turns of this connection that served a query, each with the loads of its own turn and
    the service as it then was.  Every one of these events spends the loads it used,
    so no later event sees the same readings of the swapped allow-list and context. *)
Inductive history (i : nat) (peer : SocketAddr) : option (list Z) → list Event → list (list Z * Reply) → Prop :=
| H_arrive pre ch broken :
    length (a_conns (run pre)) = i → Acl.allows (acl_at (a_tick (run pre))) (sa_ip peer) = true →
    is_ready (a_svc (run pre)) = true →
    a_tick (run (pre ++ [Arrive peer ch broken])) = S (a_tick (run pre)) →
    history i peer (if tls then None else Some (inp ch)) (pre ++ [Arrive peer ch broken]) []
| H_handshake evs ch broken :
    history i peer None evs [] → history i peer (Some (inp ch)) (evs ++ [Handshake i (Some (ch, broken))]) []
| H_turn evs start log q r :
    history i peer (Some start) evs log →
    Acl.allows (acl_at (a_tick (run evs))) (sa_ip peer) = true →
    (handle q (sa_ip peer) (ctx_at (S (a_tick (run evs)))) (a_svc (run evs))).1 = r →
    a_tick (run (evs ++ [Turn i])) = S (S (a_tick (run evs))) →
    history i peer (Some start) (evs ++ [Turn i]) (log ++ [(q, r)])
| H_between evs start log e : history i peer start evs log → history i peer start (evs ++ [e]) log.

Lemma run_snoc evs e : run (evs ++ [e]) = acc_step (run evs) e.
Proof. unfold run, accept_loop. by rewrite foldl_app. Qed.
Lemma history_unopened i peer evs log : history i peer None evs log → log = [].
Proof. remember None as o. intros H1. induction H1; try done. by apply IHhistory. Qed.

(** What is known of connection [i] from the events. *)
Definition accounted (evs : list Event) (i : nat) (c : Conn) : Prop :=
  ∃ start, history i (cn_peer c) start evs (cn_log c) ∧
    match cn_phase c with
    | Handshaking => start = None
    | Open => start = Some (cn_start c)
    | Closed => start = None ∨ start = Some (cn_start c)
    end.
Lemma accounted_between evs e i c : accounted evs i c → accounted (evs ++ [e]) i c.
Proof. intros (start & Hh & P). exists start. split; [by apply H_between|done]. Qed.

Lemma turn_accounted evs i c :
  Forall is_byte (inp (cn_chan c)) →
  a_conns (run evs) !! i = Some c → cn_phase c = Open → accounted evs i c →
  ∃ c', a_conns (run (evs ++ [Turn i])) = <[i := c']> (a_conns (run evs)) ∧ accounted (evs ++ [Turn i]) i c'.
Proof.
  intros By C Ph (start & Hh & P). rewrite Ph in P. subst start.
  pose proof (run_snoc evs (Turn i)) as E. cbn [acc_step] in E. unfold on_turn in E. rewrite C, Ph in E.
  set (cnt := if tls then count_dot else count_tcp) in *.
  pose proof (serve_query_sound acl_at ctx_at tls cnt (sa_ip (cn_peer c)) (enter c (run evs)) By) as Sq.
  pose proof (serve_query_logs tls cnt (sa_ip (cn_peer c)) (enter c (run evs))) as Lg. cbn zeta in Lg.
  assert (K : ∀ st ph, (∀ q r, c_log st = cn_log c ++ [(q, r)] →
      Acl.allows (acl_at (a_tick (run evs))) (sa_ip (cn_peer c)) = true ∧
      (handle q (sa_ip (cn_peer c)) (ctx_at (S (a_tick (run evs)))) (a_svc (run evs))).1 = r ∧
      c_tick st = S (S (a_tick (run evs)))) →
    ∀ new, c_log st = cn_log c ++ new → (length new ≤ 1)%nat → ph ≠ Handshaking →
    run (evs ++ [Turn i]) = with_conn i (leave ph c st) st (run evs) →
    accounted (evs ++ [Turn i]) i (leave ph c st)).
  { intros st ph Lg' new Hn L Np Er. exists (Some (cn_start c)). cbn [leave cn_peer cn_log cn_phase cn_start].
    split; [|by destruct ph; auto]. rewrite Hn. destruct new as [|[q r] [|]]; [| |cbn in L; lia].
    - rewrite app_nil_r. by apply H_between.
    - destruct (Lg' q r Hn) as (A & R & Tk). apply H_turn; try done. by rewrite Er. }
  destruct (serve_query _ _ _ _ _ _) as [[r st]|st].
  - destruct Sq as (new & bs & rest & Pr & L). exists (leave Closed c st). split; [by rewrite E|].
    apply (K st Closed Lg new); try done. apply (pr_log _ _ _ _ _ _ _ _ Pr).
  - destruct Sq as (q & r & Pr & _). exists (leave Open c st). split; [by rewrite E|].
    apply (K st Open Lg [(q, r)]); try done; try (cbn; lia). apply (pr_log _ _ _ _ _ _ _ _ Pr).
Qed.
Lemma run_accounted evs i c :
  Forall event_ok evs → a_conns (run evs) !! i = Some c → accounted evs i c.
Proof.
  revert i c. induction evs as [|e evs IH] using rev_ind; intros i c F; [done|].
  apply Forall_app in F as [F Fe]. apply Forall_singleton in Fe. rewrite run_snoc.
  assert (Ok : acc_ok (run evs)) by (apply accept_loop_ok; [done|apply Forall_nil; exact I]).
  assert (Same : ∀ i c, a_conns (run evs) !! i = Some c → accounted (evs ++ [e]) i c)
    by (intros ? ? ?; by apply accounted_between, IH).
  destruct e as [|peer ch br|j r|j|f]; cbn [acc_step]; try by apply Same.
  - pose proof (run_snoc evs (Arrive peer ch br)) as E. cbn [acc_step] in E. unfold on_arrive, accept in *.
    cbn [c_tick enter] in *. destruct (Acl.allows _ (sa_ip peer)) eqn:Al; cbn [negb] in *; [|by apply Same].
    cbn [c_svc enter] in *. destruct (is_ready (a_svc (run evs))) eqn:Rd; cbn [negb a_conns] in *; [|by apply Same].
    intros [C|C]%lookup_app_Some; [by apply Same|]. destruct C as [Le C].
    destruct (i - length (a_conns (run evs)))%nat as [|d] eqn:D; [|done]. injection C as <-.
    assert (length (a_conns (run evs)) = i) as Hi by lia.
    exists (if tls then None else Some (inp ch)). split; [|by destruct tls]. apply H_arrive; try done. by rewrite E.
  - unfold on_handshake. destruct (a_conns (run evs) !! j) as [cj|] eqn:Cj; [|by apply Same].
    destruct (cn_phase cj) eqn:Ph; [|by apply Same..]. cbn [a_conns].
    intros [(-> & <- & _)|[_ C]]%list_lookup_insert_Some; [|by apply Same].
    destruct (IH _ _ F Cj) as (start & Hh & P). rewrite Ph in P. subst start.
    rewrite (history_unopened _ _ _ _ Hh) in Hh. destruct r as [[ch br]|].
    + exists (Some (inp ch)). split; [|done]. by apply H_handshake.
    + exists None. split; [by apply H_between|by left].
  - intros Hc. unfold on_turn in Hc.
    destruct (a_conns (run evs) !! j) as [cj|] eqn:Cj; [|by apply Same]. destruct (cn_phase cj) eqn:Ph; [by apply Same| |by apply Same].
    assert (By : Forall is_byte (inp (cn_chan cj))).
    { pose proof (Forall_lookup_1 _ _ _ _ Ok Cj) as K. destruct (ok_in cj K) as (rest & E & Er). rewrite <- (Er Ph).
      pose proof (ok_bytes cj K) as B. rewrite E in B. by apply Forall_app in B as [_ ?]. }
    destruct (turn_accounted evs j cj By Cj Ph (IH _ _ F Cj)) as (c' & E & A).
    assert (C : a_conns (run (evs ++ [Turn j])) !! i = Some c) by (rewrite run_snoc; cbn; unfold on_turn; by rewrite Cj, Ph).
    rewrite E in C. apply list_lookup_insert_Some in C as [(-> & <- & _)|[_ C]]; [done|by apply Same].
Qed.

(** ** Every connection gets on, whatever the others do *)

Definition is_turn (i : nat) (e : Event) : bool := match e with Turn j => bool_decide (j = i) | _ => false end.
Definition turns (i : nat) (evs : list Event) : nat := length (List.filter (is_turn i) evs).
(** The messages still to come, and room to write their answers. *)
Definition pending (c : Conn) (qs : list (list Z)) : Prop :=
  cn_phase c = Open ∧ inp (cn_chan c) = concat (map frame qs) ∧ Forall message_len qs ∧
  (2 * length qs ≤ wleft (cn_chan c))%nat.
(** In this run, each turn of the connection [i] finds its peer allowed by the allow-list it
    loads, and the handler, in the state that turn finds it in, neither panics on the next message
    nor answers it with more than a frame holds. *)
Fixpoint welcome (i : nat) (peer : IpAddr) (qs : list (list Z)) (evs : list Event) (a : AccSt) : bool :=
  match evs with
  | [] => true
  | e :: evs' =>
      if is_turn i e then
        match qs with
        | [] => true
        | q :: qs' =>
            Acl.allows (acl_at (a_tick a)) peer && orderly (handle q peer (ctx_at (S (a_tick a))) (a_svc a)).1 &&
            welcome i peer qs' evs' (acc_step a e)
        end
      else welcome i peer qs evs' (acc_step a e)
  end.

Lemma turn_serves i a c q qs :
  a_conns a !! i = Some c → pending c (q :: qs) →
  Acl.allows (acl_at (a_tick a)) (sa_ip (cn_peer c)) = true →
  orderly (handle q (sa_ip (cn_peer c)) (ctx_at (S (a_tick a))) (a_svc a)).1 = true →
  ∃ c' r, a_conns (on_turn i a) !! i = Some c' ∧ pending c' qs ∧ cn_peer c' = cn_peer c ∧
    cn_log c' = cn_log c ++ [(q, r)] ∧ out (cn_chan c') = out (cn_chan c) ++ concat (map frame (omap answer_of [r])).
Proof.
  intros C (Ph & Ei & M & W) Al O. apply Forall_cons in M as [Mq M]. unfold on_turn. rewrite C, Ph.
  rewrite (serve_query_message acl_at ctx_at _ _ _ (enter c a) q (concat (map frame qs))) by done.
  cbn [c_tick c_svc enter]. destruct (handle q _ _ _) as [r svc]. cbn in O. cbn [length] in W.
  assert (Li : ∀ x, <[i:=x]> (a_conns a) !! i = Some x) by (intros x; apply list_lookup_insert_eq; by eapply lookup_lt_Some).
  destruct r as [b| |]; [| |done]; cbv zeta.
  - destruct (Z.ltb_spec MAX_TCP_MESSAGE (Z.of_nat (length b))); [apply Z.leb_le in O; lia|].
    destruct (write_answer_ok tls b {| inp := concat (map frame qs); out := out (c_chan (enter c a)); wleft := wleft (c_chan (enter c a)) |})
      as (c' & -> & Ic & Oc & Wl); [cbn; lia|]. cbn [inp out wleft c_chan enter] in Ic, Oc, Wl.
    eexists _, (Answer b). split; [apply Li|]. split_and!; try done.
    + unfold pending. split_and!; try done. cbn [leave cn_chan c_chan set_chan]. lia.
    + cbn [leave cn_chan c_chan set_chan]. rewrite Oc. cbn. by rewrite app_nil_r.
  - eexists _, NoReply. split; [apply Li|]. split_and!; try done.
    + unfold pending. split_and!; try done. cbn [leave cn_chan c_chan enter wleft]. lia.
    + cbn. by rewrite app_nil_r.
Qed.
Lemma others_leave i a c e :
  a_conns a !! i = Some c → cn_phase c = Open → is_turn i e = false → a_conns (acc_step a e) !! i = Some c.
Proof.
  intros C Ph Ne. destruct e as [|pr ch br|j r|j|f]; cbn; try done.
  - unfold on_arrive. destruct (accept _ _ _) as [[] st]; cbn; [done|]. by apply lookup_app_l_Some.
  - unfold on_handshake. destruct (a_conns a !! j) as [c'|] eqn:Cj; [|done]. destruct (cn_phase c') eqn:Pj; [|done..].
    cbn. rewrite list_lookup_insert_ne; [done|]. intros ->. congruence.
  - apply bool_decide_eq_false in Ne. unfold on_turn. destruct (a_conns a !! j) as [c'|]; [|done].
    destruct (cn_phase c'); [done| |done]. destruct (serve_query _ _ _ _ _ _) as [[r st]|st]; cbn; by rewrite list_lookup_insert_ne.
Qed.
Lemma served_among_others i evs a c qs :
  a_conns a !! i = Some c → pending c qs → (turns i evs ≤ length qs)%nat →
  welcome i (sa_ip (cn_peer c)) qs evs a = true →
  ∃ c' new, a_conns (accept_loop evs a) !! i = Some c' ∧ pending c' (drop (turns i evs) qs) ∧
    cn_log c' = cn_log c ++ new ∧ new.*1 = take (turns i evs) qs ∧
    out (cn_chan c') = out (cn_chan c) ++ concat (map frame (omap answer_of new.*2)).
Proof.
  revert a c qs. induction evs as [|e evs IH]; intros a c qs C P L W.
  { exists c, []. cbn. by rewrite !app_nil_r. }
  cbn [welcome] in W. unfold turns in *. cbn [List.filter] in *. destruct (is_turn i e) eqn:Te.
  - destruct e as [| | |j|]; try done. apply bool_decide_eq_true in Te as ->.
    destruct qs as [|q qs]; [cbn in L; lia|]. rewrite !andb_true_iff in W. destruct W as [[Al Or] W].
    destruct (turn_serves i a c q qs C P Al Or) as (c1 & r & C1 & P1 & Pe & L1 & O1). rewrite <- Pe in W.
    destruct (IH _ c1 qs C1 P1) as (c' & new & C' & P' & L' & N' & O'); [cbn in L; lia|done|].
    exists c', ((q, r) :: new). split_and!; [done|done|by rewrite L', L1, <- app_assoc|cbn; by rewrite N'|].
    rewrite O', O1. cbn [fmap list_fmap snd]. change (r :: new.*2) with ([r] ++ new.*2).
    by rewrite omap_app, map_app, concat_app, app_assoc.
  - apply (IH (acc_step a e) c qs); [|done..]. apply others_leave; [done|apply P|done].
Qed.
End Accept.

Section Theorems.
Context `{NameOps} {HK : Hickory} `{IpNets} {T : Type} `{!DnsHandler T}.

(** C16. Streams do not mix.  Whatever arrives at a TCP or DoT listener, and however the
    tasks of its connections, handshakes, reloads and other work interleave, every
    connection is accounted for by events of its own, in order ([history]): the arrival of
    its peer, allowed by the allow-list loaded at that arrival; its TLS handshake; and for each query in its
    log a turn of this connection, at which the peer was allowed by the allow-list
    loaded for that query, and the handler, in the state it then had and with the context
    then loaded, gave the logged reply; each load is a new one, so a reload is seen from the next
    query on.  The queries came off the connection's own stream, in order; what has been
    written to it are the frames of its own answers, in order, all of them while it is open;
    and nothing is read from or written to a connection before its TLS handshake is over.
    (The connection answers one query after another: there is no task per query.) *)
Theorem streams_do_not_mix tls acl_at ctx_at evs (svc : T) m i c :
  Forall event_ok evs → a_conns (accept_loop tls acl_at ctx_at evs (acc_new svc m)) !! i = Some c →
  accounted tls acl_at ctx_at svc m evs i c ∧ conn_ok c.
Proof.
  intros F C. split; [by apply run_accounted|].
  eapply Forall_lookup_1; [|exact C]. apply accept_loop_ok; [done|]. apply Forall_nil. exact I.
Qed.

(** C18. No connection starves another.  Take an open connection with the messages [qs] still
    to come and room to write, and any further run of the listener in which each of its turns finds the
    peer allowed and the handler, as it then is, neither panics on the message nor
    overflows a frame.  If it is scheduled [n] times it has handed over exactly the next [n] of
    them, each once and in order, and has written exactly the frames of their answers,
    whatever else the listener did in between. *)
Theorem connection_gets_on tls acl_at ctx_at (a : AccSt (T := T)) i c qs evs :
  a_conns a !! i = Some c → pending c qs → (turns i evs ≤ length qs)%nat →
  welcome tls acl_at ctx_at i (sa_ip (cn_peer c)) qs evs a = true →
  ∃ c' new, a_conns (accept_loop tls acl_at ctx_at evs a) !! i = Some c' ∧ pending c' (drop (turns i evs) qs) ∧
    cn_log c' = cn_log c ++ new ∧ new.*1 = take (turns i evs) qs ∧
    out (cn_chan c') = out (cn_chan c) ++ concat (map frame (omap answer_of new.*2)).
Proof. apply served_among_others. Qed.
End Theorems.
End Accept.

(** ** Examples *)
Module AcceptExamples.
Import Handler HandlerExamples Service Listeners ListenerExamples Accept.

#[local] Existing Instances HandlerExamples.ExMoka HandlerExamples.ExGovernor.
#[local] Instance ExHickory : Hickory := ex_hickory 4.

Definition ex_stream (qs : list (list Z)) : Chan := {| inp := concat (map frame qs); out := []; wleft := 10 |}.
Definition ex_a : list Z := ex_q "www.com." RT_A.
Definition ex_ptr_q : list Z := ex_q "1.0.0.127.in-addr.arpa." RT_PTR.
(** Three peers, one of them not allowed; the turns of the two connections alternate,
    and the handshake of the second is late. *)
Definition ex_evs : list (Event (T := LiveHandler Recursor)) :=
  [AcceptError; Arrive (ex_peer 2) (ex_stream []) false;
   Arrive {| sa_ip := V4 [203; 0; 113; 9]; sa_port := 4000 |} (ex_stream []) false;
   Arrive (ex_peer 3) (ex_stream []) false; Handshake 0 (Some (ex_stream [ex_a; ex_ptr_q], false)); Turn 1; Turn 0;
   Handshake 1 (Some (ex_stream [ex_ptr_q], false)); Turn 1; Turn 0; Turn 1].
Definition ex_acc : AccSt (T := LiveHandler Recursor) :=
  accept_loop true (λ _, ex_acl) (λ _, ex_ctx) ex_evs (acc_new ex_live zero_metrics).

Lemma streams_do_not_mix_witness :
  map (λ c, map (λ p, (bool_decide (p.1 = ex_a), rcode_of p.2)) (cn_log c)) (a_conns ex_acc)
    = [[(true, 0); (false, 0)]; [(false, 0)]] ∧
  acl_denied (a_metrics ex_acc) = 1 ∧
  ∀ i c, a_conns ex_acc !! i = Some c →
    accounted true (λ _, ex_acl) (λ _, ex_ctx) ex_live zero_metrics ex_evs i c ∧ conn_ok c.
Proof.
  split; [vm_compute; reflexivity|]. split; [vm_compute; reflexivity|]. intros i c.
  apply (streams_do_not_mix true (λ _, ex_acl) (λ _, ex_ctx) ex_evs ex_live zero_metrics i c).
  unfold ex_evs. repeat first [apply Forall_nil; exact I | apply Forall_cons; split]; try exact I;
    (split; [apply (bool_decide_unpack (Forall is_byte _)); vm_compute; exact I|reflexivity]).
Defined.

(** Two open connections on the resolver. *)
Definition ex_conn (d : Z) (qs : list (list Z)) : Conn :=
  {| cn_peer := ex_peer d; cn_phase := Open; cn_start := inp (ex_stream qs); cn_chan := ex_stream qs;
     cn_broken := false; cn_log := [] |}.
Definition ex_two : AccSt (T := LiveHandler Recursor) :=
  {| a_svc := ex_live; a_tick := 0; a_metrics := zero_metrics;
     a_conns := [ex_conn 2 [ex_a; ex_ptr_q]; ex_conn 3 [ex_ptr_q]] |}.
Definition ex_turns : list (Event (T := LiveHandler Recursor)) := [Turn 1; Turn 0; AcceptError; Turn 1; Turn 0].
Lemma connection_gets_on_witness :
  ∃ c' new, a_conns (accept_loop false (λ _, ex_acl) (λ _, ex_ctx) ex_turns ex_two) !! 0%nat = Some c' ∧
    cn_log c' = new ∧ new.*1 = [ex_a; ex_ptr_q] ∧ out (cn_chan c') = concat (map frame (omap answer_of new.*2)).
Proof.
  destruct (connection_gets_on false (λ _, ex_acl) (λ _, ex_ctx) ex_two 0 (ex_conn 2 [ex_a; ex_ptr_q])
    [ex_a; ex_ptr_q] ex_turns) as (c' & new & C & _ & L & N & O).
  - reflexivity.
  - split_and!; try reflexivity; [|vm_compute; lia]. repeat constructor; vm_compute; done.
  - vm_compute. lia.
  - vm_compute. reflexivity.
  - exists c', new. by split_and!.
Defined.
End AcceptExamples.
