(* ===== verification/Transport.v ===== *)
(** * The stream transport, and a client of this code against a server of this code
      ([io/transport/kernel.rs])

    The kernel's TCP is a parameter: what making, binding and connecting a socket
    yields.  Over it, the bare client stream and the one-shot DNS query over TCP.  The
    theorems put the two ends together: the one-shot query against the TCP listener,
    and exchanges over a kept DNS-over-TLS stream against the DoT listener. *)
From S2P Require Import Prelude Hickory Reference Net Cache TtlCaches ClientPolicy Tunnel Handler Service Listeners.

Module Transport.
Import Handler Service Listeners.

(** [tokio::net::TcpSocket] and [TcpStream]. *)
Class TcpStack := {
  Socket : Type;
  new_v4 : result Socket;
  new_v6 : result Socket;
  sock_bind : Socket → SocketAddr → result Socket;
  sock_connect : Socket → SocketAddr → result Chan;
  stream_connect : SocketAddr → result Chan }.

Section Client.
Context `{TcpStack}.

(** [connect_fut], in both functions: a source address pins family and binding. *)
Definition connect_fut (peer : SocketAddr) (source : option IpAddr) : result Chan :=
  match source with
  | Some src_ip =>
      socket ← (if is_ipv4 src_ip then new_v4 else new_v6);
      socket ← sock_bind socket {| sa_ip := src_ip; sa_port := 0 |};
      sock_connect socket peer
  | None => stream_connect peer
  end.
(** [timed_out]: the deadline passed before the connection was there. *)
Definition connect_stream (timed_out : bool) (peer : SocketAddr) (source : option IpAddr) : result Chan :=
  if timed_out then Err "connect timeout" else connect_fut peer source.

(** Which of the deadlines of a one-shot query passed. *)
Record Deadlines := { d_connect : bool; d_write : bool; d_len : bool; d_body : bool }.
Definition tk_timeout {A} (passed : bool) (e : string) (m : IO A) : IO A := λ c,
  let '(r, c') := m c in if passed then (Err e, c') else (r, c').

(** The one-shot query once the stream is connected. *)
Definition query_stream (d : Deadlines) (query : list Z) : IO (list Z) :=
  if 65535 <? Z.of_nat (length query) then bail "query too large"
  else
    _ ← tk_timeout (d_write d) "write timeout"
          (_ ← write_all (to_be16 (Z.of_nat (length query))); _ ← write_all query; flush);
    len_buf ← tk_timeout (d_len d) "read timeout" (read_exact 2);
    let resp_len := from_be16 (nth 0 len_buf 0) (nth 1 len_buf 0) in
    tk_timeout (d_body d) "read timeout" (read_exact (Z.to_nat resp_len)).
(** The result, and the stream as it was when the query hung up. *)
Definition query_tcp_dns_async (d : Deadlines) (peer : SocketAddr) (source : option IpAddr) (query : list Z)
  : result (list Z) * option Chan :=
  match connect_stream (d_connect d) peer source with
  | Err e => (Err e, None)
  | Ok stream => let '(r, stream) := query_stream d query stream in (r, Some stream)
  end.

Definition in_time : Deadlines := {| d_connect := false; d_write := false; d_len := false; d_body := false |}.

(** ** The client against a given answer *)

Lemma query_stream_writes q b i w :
  message_len q →
  query_stream in_time q {| inp := i; out := b; wleft := 3 + w |} =
  (len_buf ← read_exact 2; read_exact (Z.to_nat (from_be16 (nth 0 len_buf 0) (nth 1 len_buf 0))))
    {| inp := i; out := b ++ frame q; wleft := w |}.
Proof.
  intros [L U]. unfold query_stream, MAX_TCP_MESSAGE in *.
  destruct (Z.ltb_spec 65535 (Z.of_nat (length q))); [lia|].
  unfold mbind, io_bind, tk_timeout, flush, write_all. cbn -[read_exact to_be16 frame].
  unfold frame. rewrite app_nil_r, <- app_assoc. destruct (read_exact 2 _) as [[l|e] c1]; [|done].
  by destruct (read_exact _ c1).
Qed.
Lemma read_message_empty o w : ∃ e c, DotClient.read_message {| inp := []; out := o; wleft := w |} = (Err e, c) ∧ out c = o.
Proof. by eexists _, _. Qed.
Lemma read_message_short b o w :
  Z.of_nat (length b) < 12 →
  ∃ e c, DotClient.read_message {| inp := frame b; out := o; wleft := w |} = (Err e, c) ∧ out c = o.
Proof.
  intros L. unfold DotClient.read_message, mbind, io_bind, frame. rewrite (Socks.read_exact_app 2) by done.
  unfold to_be16. rewrite from_to_be16. destruct (Z.ltb_spec (Z.of_nat (length b)) 12); [|lia]. by eexists _, _.
Qed.
Lemma exchange_dot_writes q o i w :
  message_len q →
  DotClient.exchange_dot false q {| inp := i; out := o; wleft := 3 + w |} =
  DotClient.read_message {| inp := i; out := o ++ frame q; wleft := w |}.
Proof.
  intros [L U]. unfold DotClient.exchange_dot.
  assert (Ew : DotClient.write_message q {| inp := i; out := o; wleft := 3 + w |} =
               (Ok (), {| inp := i; out := o ++ frame q; wleft := w |})) by by apply DotClient.write_message_Ok.
  unfold mbind, io_bind. rewrite Ew. by destruct (DotClient.read_message _).
Qed.
End Client.

(** ** The two ends together *)
Section Loop.
Context `{NameOps} {HK : Hickory} `{IpNets} {T : Type} `{!DnsHandler T}.
Context (acl_at : nat → Acl.ClientAcl) (ctx_at : nat → ListenerContext).

(** What the server writes for a reply. *)
Definition written (r : Reply) : list Z :=
  match r with Answer b => if Z.of_nat (length b) <=? MAX_TCP_MESSAGE then frame b else [] | _ => [] end.

(** A connection on which one message arrives. *)
Lemma serve_one fuel fl cnt peer q st r svc :
  inp (c_chan st) = frame q → message_len q → Acl.allows (acl_at (c_tick st)) peer = true →
  (2 ≤ wleft (c_chan st))%nat → handle q peer (ctx_at (S (c_tick st))) (c_svc st) = (r, svc) →
  out (c_chan (serve_frames acl_at ctx_at (S (S fuel)) fl cnt peer st).2) = out (c_chan st) ++ written r.
Proof.
  intros E M A W R. cbn [serve_frames].
  rewrite (serve_query_message _ _ _ _ _ _ q []) by (by rewrite ?app_nil_r). rewrite R. cbv zeta. unfold written.
  destruct r as [b| |]; [|by rewrite app_nil_r..].
  destruct (Z.ltb_spec MAX_TCP_MESSAGE (Z.of_nat (length b))), (Z.leb_spec (Z.of_nat (length b)) MAX_TCP_MESSAGE); try lia;
    [by rewrite app_nil_r|].
  destruct (write_answer_ok fl b {| inp := []; out := out (c_chan st); wleft := wleft (c_chan st) |})
    as (c' & -> & Ei & Eo & _); [done|]. cbn in Ei, Eo. unfold serve_query, read_exact. cbn. by rewrite Ei.
Qed.

(** The client that finds [written r] on its stream. *)
Lemma tcp_client_reads q r w :
  message_len q →
  ∃ rr c', query_stream in_time q {| inp := written r; out := []; wleft := 3 + w |} = (rr, c') ∧ out c' = frame q ∧
    ∀ b, rr = Ok b ↔ r = Answer b ∧ Z.of_nat (length b) ≤ MAX_TCP_MESSAGE.
Proof.
  intros M. rewrite query_stream_writes by done. unfold written.
  assert (No : ∃ rr c', (len_buf ← read_exact 2; read_exact (Z.to_nat (from_be16 (nth 0 len_buf 0) (nth 1 len_buf 0))))
    {| inp := []; out := [] ++ frame q; wleft := w |} = (rr, c') ∧ out c' = frame q ∧ ∃ e, rr = Err e) by eauto 10.
  destruct r as [b| |]; [destruct (Z.leb_spec (Z.of_nat (length b)) MAX_TCP_MESSAGE)|..];
    try (destruct No as (rr & c' & -> & Eo & e & ->); exists (Err e), c'; split_and!; try done;
         intros b'; split; [done|intros [[= <-] ?]; lia]).
  unfold mbind, io_bind. rewrite (read_exact_stream 2 (to_be16 (Z.of_nat (length b))) _ b) by done.
  cbn [nth to_be16]. rewrite from_to_be16, Nat2Z.id, (read_exact_stream (length b) b _ []) by (by rewrite ?app_nil_r).
  eexists _, _. split_and!; [done..|]. intros b'. naive_solver.
Qed.
Lemma dot_client_reads q r w :
  message_len q →
  ∃ rr c', DotClient.exchange_dot false q {| inp := written r; out := []; wleft := 3 + w |} = (rr, c') ∧ out c' = frame q ∧
    ∀ b, rr = Ok b ↔ r = Answer b ∧ 12 ≤ Z.of_nat (length b) ≤ MAX_TCP_MESSAGE.
Proof.
  intros M. rewrite exchange_dot_writes by done. cbn [app]. unfold written. pose proof (read_message_empty (frame q) w) as No.
  destruct r as [b| |]; [destruct (Z.leb_spec (Z.of_nat (length b)) MAX_TCP_MESSAGE)|..];
    try (destruct No as (e & c' & -> & Eo); exists (Err e), c'; split_and!; try done;
         intros b'; split; [done|intros [[= <-] ?]; lia]).
  destruct (Z.lt_ge_cases (Z.of_nat (length b)) 12) as [L|L].
  - destruct (read_message_short b (frame q) w L) as (e & c' & -> & Eo). exists (Err e), c'. split_and!; try done.
    intros b'. split; [done|intros [[= <-] ?]; lia].
  - unfold frame at 1. rewrite <- (app_nil_r (to_be16 _ ++ b)), DotClient.read_message_complete by done.
    eexists _, _. split_and!; [done..|]. intros b'. naive_solver.
Qed.

(** C25. A client of this code that asks a server of this code, over TCP or over DoT, is
    allowed there, meets no deadline and no failing write.  The
    client sends exactly the bytes the server was to read, and it obtains a message if
    and only if that message is the handler's answer to the very query it sent and fits
    a frame (over DoT: and holds a header).  A handler that is silent, panics or
    overflows the frame gives the client an error, never other bytes. *)
Theorem client_meets_server `{TcpStack} peer me source q st r svc w :
  message_len q → inp (c_chan st) = frame q → out (c_chan st) = [] → (2 ≤ wleft (c_chan st))%nat →
  Acl.allows (acl_at (c_tick st)) me = true → handle q me (ctx_at (S (c_tick st))) (c_svc st) = (r, svc) →
  connect_fut peer source =
    Ok {| inp := out (c_chan (serve_connection acl_at ctx_at me st).2); out := []; wleft := 3 + w |} →
  (∃ rr c', query_tcp_dns_async in_time peer source q = (rr, Some c') ∧ out c' = inp (c_chan st) ∧
     ∀ b, rr = Ok b ↔ r = Answer b ∧ Z.of_nat (length b) ≤ MAX_TCP_MESSAGE) ∧
  (∃ rr c', DotClient.exchange_dot false q
       {| inp := out (c_chan (serve_tls acl_at ctx_at me st).2); out := []; wleft := 3 + w |} = (rr, c') ∧
     out c' = inp (c_chan st) ∧
     ∀ b, rr = Ok b ↔ r = Answer b ∧ 12 ≤ Z.of_nat (length b) ≤ MAX_TCP_MESSAGE).
Proof.
  intros M E O W A R C. unfold serve_connection, serve_tls in *.
  assert (∃ n, length (inp (c_chan st)) = S n) as [n En] by (rewrite E; by eexists). rewrite En in *.
  rewrite (serve_one _ _ _ _ q _ r svc), O in C by done. rewrite (serve_one _ _ _ _ q _ r svc), O by done. rewrite E.
  split; [|by apply dot_client_reads].
  destruct (tcp_client_reads q r w M) as (rr & c' & Q & Eo & F). exists rr, c'.
  unfold query_tcp_dns_async, connect_stream. cbn [d_connect in_time]. rewrite C. change ([] ++ written r) with (written r). by rewrite Q.
Qed.

(** Exchanges one after another over one kept stream, as the connection pool makes them. *)
Fixpoint exchanges (qs : list (list Z)) : IO (list (list Z)) :=
  match qs with
  | [] => mret []
  | q :: qs' => b ← DotClient.exchange_dot false q; bs ← exchanges qs'; mret (b :: bs)
  end.
Definition header_and_fits (b : list Z) : Prop := 12 ≤ Z.of_nat (length b) ≤ MAX_TCP_MESSAGE.
Lemma exchanges_read qs bs o w rest :
  length bs = length qs → Forall message_len qs → Forall header_and_fits bs →
  exchanges qs {| inp := concat (map frame bs) ++ rest; out := o; wleft := 3 * length qs + w |} =
    (Ok bs, {| inp := rest; out := o ++ concat (map frame qs); wleft := w |}).
Proof.
  revert bs o. induction qs as [|q qs IH]; intros [|b bs] o L M F; try done; cbn [exchanges].
  { cbn. by rewrite app_nil_r. }
  apply Forall_cons in M as [Mq M], F as [[F1 F2] F]. injection L as L. unfold mbind, io_bind.
  replace (3 * length (q :: qs) + w)%nat with (3 + (3 * length qs + w))%nat by (cbn; lia).
  rewrite exchange_dot_writes by done. cbn [map concat]. rewrite <- app_assoc. unfold frame at 1.
  rewrite DotClient.read_message_complete by done. rewrite IH by done. by rewrite <- app_assoc.
Qed.

(** A kept DoT stream stays in step: as long as the handler answers each query with a
    message that has a header and fits a frame, the exchanges made one after another over
    one connection to the DoT listener obtain, each, the handler's answer to its own
    query, and leave the stream empty for the next. *)
Theorem dot_stream_in_step me qs bs st t w :
  inp (c_chan st) = concat (map frame qs) → out (c_chan st) = [] → Forall message_len qs →
  (∀ n, Acl.allows (acl_at n) me = true) → c_broken st = false → (2 * length qs ≤ wleft (c_chan st))%nat →
  replies ctx_at me qs (c_tick st) (c_svc st) = (map Answer bs, t) → Forall header_and_fits bs →
  exchanges qs {| inp := out (c_chan (serve_tls acl_at ctx_at me st).2); out := []; wleft := 3 * length qs + w |} =
    (Ok bs, {| inp := []; out := inp (c_chan st); wleft := w |}).
Proof.
  intros E O M A Br W R F.
  assert (Lb : length bs = length qs).
  { pose proof (replies_length ctx_at me qs (c_tick st) (c_svc st)) as L. rewrite R in L. cbn in L. by rewrite length_map in L. }
  assert (Or : forallb orderly (map Answer bs) = true).
  { apply forallb_forall. intros r (b & <- & Hb)%in_map_iff. rewrite Forall_forall in F.
    apply Z.leb_le. apply F. by apply list_elem_of_In. }
  unfold serve_tls. edestruct frames_complete as (st' & Es & _ & _ & Eo & _);
    [exact E|by apply frames_longer|exact M|exact A|exact Br|exact W|exact R|exact Or|].
  rewrite Es. cbn [snd]. rewrite Eo, O. replace (omap answer_of (map Answer bs)) with bs by (clear; induction bs; cbn; congruence).
  rewrite E, <- (app_nil_r (concat (map frame bs))). cbn [app]. by apply exchanges_read.
Qed.
End Loop.
End Transport.

(** ** Examples *)
Module TransportExamples.
Import Handler HandlerExamples Service Listeners ListenerExamples Transport.

#[local] Existing Instances HandlerExamples.ExMoka HandlerExamples.ExGovernor.
#[local] Instance ExHickory : Hickory := ex_hickory 4.

Definition ex_query : list Z := ex_q "www.com." RT_A.
(** The listener of the examples, with one query on a fresh connection. *)
Definition ex_conn : TcpSt (T := LiveHandler Recursor) :=
  {| c_chan := {| inp := frame ex_query; out := []; wleft := 10 |};
     c_broken := false; c_svc := ex_live; c_tick := 0; c_metrics := zero_metrics; c_log := [] |}.
Definition ex_far : IpAddr := sa_ip (ex_peer 2).
(** A stack on which every connection leads to that listener. *)
#[local] Instance ExStack : TcpStack :=
  let stream := {| inp := out (c_chan (serve_connection (λ _, ex_acl) (λ _, ex_ctx) ex_far ex_conn).2);
                   out := []; wleft := 3 + 1 |} in
  {| Socket := IpAddr; new_v4 := Ok (V4 [0; 0; 0; 0]); new_v6 := Err "no IPv6";
     sock_bind := λ _ a, Ok (sa_ip a); sock_connect := λ _ _, Ok stream; stream_connect := λ _, Ok stream |}.
Definition ex_asked : result (list Z) * option Chan :=
  query_tcp_dns_async in_time (ex_peer 1) (Some ex_far) ex_query.

Lemma client_meets_server_witness :
  rcode_of (Answer (default [] (match ex_asked.1 with Ok b => Some b | Err _ => None end))) = 0 ∧
  ∃ rr c', ex_asked = (rr, Some c') ∧ out c' = frame ex_query ∧
    ∀ b, rr = Ok b ↔ (handle ex_query ex_far ex_ctx ex_live).1 = Answer b ∧ Z.of_nat (length b) ≤ MAX_TCP_MESSAGE.
Proof.
  split; [vm_compute; reflexivity|].
  destruct (client_meets_server (λ _, ex_acl) (λ _, ex_ctx) (ex_peer 1) ex_far (Some ex_far) ex_query ex_conn
    (handle ex_query ex_far ex_ctx ex_live).1 (handle ex_query ex_far ex_ctx ex_live).2 1) as [X _].
  - vm_compute. done.
  - reflexivity.
  - reflexivity.
  - cbn. lia.
  - vm_compute. reflexivity.
  - apply surjective_pairing.
  - reflexivity.
  - exact X.
Defined.
End TransportExamples.
