(* ===== verification/Doh.v ===== *)
(** * DNS over HTTPS ([io/doh.rs])

    The HTTP/1.1 connection loop, the handling of one request, the responses, and the
    HTTP/2 path over the [h2] crate.  TLS and the [h2] framing are outside: an HTTP/1.1
    connection is a stream of reads and what has been written, an HTTP/2 request its
    method, path, content type and data frames. *)
From Stdlib Require Import Ascii.
From S2P Require Import Prelude Hickory Reference Net Text Cache TtlCaches ClientPolicy Handler Service Http Listeners.

Module Doh.
Import Handler Service Http Listeners.

(** ** Responses *)

(** Head lines, a blank line, the body. *)
Definition http_message (lines : list string) (body : list Z) : list Z :=
  concat (map (λ l, bytes_of_string l ++ CRLF) lines) ++ CRLF ++ body.
Definition connection_line (close : bool) : string :=
  "connection: " +:+ (if close then "close" else "keep-alive").
Definition length_line (body : list Z) : string :=
  "content-length: " +:+ show_uint (Z.of_nat (length body)).
Definition simple_response (status : Z) (reason : string) (body : list Z) (close : bool) : list Z :=
  http_message ["HTTP/1.1 " +:+ show_uint status +:+ " " +:+ reason; "content-type: text/plain";
                length_line body; connection_line close] body.
Definition dns_response (body : list Z) (ttl : Z) (close : bool) : list Z :=
  http_message (["HTTP/1.1 200 OK"; "content-type: application/dns-message"; length_line body]
                ++ (if 0 <? ttl then ["cache-control: max-age=" +:+ show_uint ttl] else [])
                ++ [connection_line close]) body.

(** ** What a client reads back *)

Lemma bytes_of_string_app a b : bytes_of_string (a +:+ b) = bytes_of_string a ++ bytes_of_string b.
Proof.
  unfold bytes_of_string. induction a as [|c a IH]; [done|]. rewrite string_app_cons.
  cbn [String.list_ascii_of_string map app]. by rewrite IH.
Qed.
Lemma string_of_bytes_of_string s : string_of_bytes (bytes_of_string s) = s.
Proof.
  unfold string_of_bytes, bytes_of_string. induction s as [|c s IH]; [done|]. cbn.
  by rewrite N2Z.id, ascii_N_embedding, IH.
Qed.
Lemma digits_no_cr s : string_all is_digit s = true → 13 ∉ bytes_of_string s.
Proof.
  induction s as [|c s IH]; cbn; [set_solver|]. intros [Hc Hs]%andb_true_iff.
  apply not_elem_of_cons. split; [|by apply IH]. intros E. unfold is_digit, digit_of, nat_of_ascii in Hc.
  by rewrite N_nat_Z, <- E in Hc.
Qed.

(** Reads one response: up to the blank line, then as many bytes as announced. *)
Definition client_read (s : list Z) : option (list Z * list Z) :=
  i ← find_subsequence s needle;
  v ← head (omap (strip_prefix (bytes_of_string "content-length: ")) (split_crlf (take i s)));
  n ← parse_uint usize_max (string_of_bytes v);
  let rest := drop (i + 4) s in
  if Z.of_nat (length rest) <? n then None
  else Some (take (Z.to_nat n) rest, drop (Z.to_nat n) rest).
Fixpoint client_read_all (n : nat) (s : list Z) : option (list (list Z) * list Z) :=
  match n with
  | O => Some ([], s)
  | S n' => '(b, s) ← client_read s; '(bs, s) ← client_read_all n' s; Some (b :: bs, s)
  end.

Lemma http_message_lines l0 ls body :
  http_message (l0 :: ls) body = join_lines (bytes_of_string l0) (map bytes_of_string ls) ++ needle ++ body.
Proof.
  unfold http_message, join_lines, needle. cbn [map concat]. rewrite <- !app_assoc. f_equal.
  revert body. induction ls as [|l ls IH]; intros body; [done|]. cbn [map concat].
  rewrite <- !app_assoc, IH. done.
Qed.
Lemma client_read_message l0 ls body rest n :
  Forall (λ l, 13 ∉ bytes_of_string l ∧ l ≠ "") (l0 :: ls) →
  head (omap (strip_prefix (bytes_of_string "content-length: ")) (map bytes_of_string (l0 :: ls)))
    = Some (bytes_of_string (show_uint n)) → n = Z.of_nat (length body) → n ≤ usize_max →
  client_read (http_message (l0 :: ls) body ++ rest) = Some (body, rest).
Proof.
  intros Hl Hv -> Hn. rewrite http_message_lines, <- !app_assoc. unfold client_read.
  set (hd := join_lines (bytes_of_string l0) (map bytes_of_string ls)).
  assert (Hlb : Forall (λ w, 13 ∉ w ∧ w ≠ []) (map bytes_of_string (l0 :: ls))).
  { apply Forall_fmap. eapply Forall_impl; [exact Hl|]. cbn. intros l [? Hne]. split; [done|]. by destruct l. }
  apply Forall_cons in Hlb as [[H0 _] Hlb].
  assert (F : first_at needle (hd ++ needle ++ body ++ rest) (length hd)) by (by apply first_at_join).
  pose proof (find_subsequence_spec (hd ++ needle ++ body ++ rest) needle ltac:(done)) as Fs.
  destruct (find_subsequence _ needle) as [i|]; [|by destruct (Fs (length hd)); apply F].
  rewrite (first_at_unique _ _ _ _ Fs F). cbn [mbind option_bind]. rewrite take_app_length.
  replace (split_crlf hd) with (bytes_of_string l0 :: map bytes_of_string ls).
  2: { symmetry. apply split_crlf_join. constructor; [done|]. eapply Forall_impl; [exact Hlb|]. by intros w [? _]. }
  change (bytes_of_string l0 :: map bytes_of_string ls) with (map bytes_of_string (l0 :: ls)). rewrite Hv.
  cbn [mbind option_bind]. rewrite string_of_bytes_of_string, parse_show_uint by lia. cbn [mbind option_bind].
  rewrite (app_assoc hd needle), drop_app_ge by (rewrite length_app; cbn; lia).
  rewrite length_app. change (length needle) with 4%nat. rewrite Nat.sub_diag, drop_0.
  destruct (Z.ltb_spec (Z.of_nat (length (body ++ rest))) (Z.of_nat (length body))) as [L|L].
  { rewrite length_app in L. lia. }
  by rewrite Nat2Z.id, take_app_length, drop_app_length.
Qed.

Lemma no_cr_digits a n : 13 ∉ bytes_of_string a → 13 ∉ bytes_of_string (a +:+ show_uint n).
Proof.
  intros Ha. rewrite bytes_of_string_app, elem_of_app. intros [?|Hd]; [done|].
  by eapply digits_no_cr; [apply show_uint_digits|].
Qed.
Lemma client_read_dns body ttl close rest :
  Z.of_nat (length body) ≤ usize_max → client_read (dns_response body ttl close ++ rest) = Some (body, rest).
Proof.
  intros Hn. unfold dns_response. cbn [app]. apply (client_read_message _ _ _ _ (Z.of_nat (length body))); [| |done..].
  - unfold length_line. repeat (constructor; [split; [try apply no_cr_digits; vm_compute; set_solver|done]|]).
    destruct (0 <? ttl); cbn [app]; repeat (constructor; [split; [try apply no_cr_digits; vm_compute|done]|]);
      try constructor; try (split; [|by destruct close]); destruct close; vm_compute; set_solver.
  - cbn [map omap list_omap]. unfold length_line. rewrite bytes_of_string_app.
    assert (strip_prefix (bytes_of_string "content-length: ") (bytes_of_string "HTTP/1.1 200 OK") = None) as -> by done.
    assert (strip_prefix (bytes_of_string "content-length: ") (bytes_of_string "content-type: application/dns-message") = None) as -> by done.
    by rewrite (proj2 (strip_prefix_Some (bytes_of_string "content-length: ") _ (bytes_of_string (show_uint (Z.of_nat (length body)))))).
Qed.
Lemma client_reads_all (resp : list Z → list Z) bs :
  (∀ b, ∃ ttl close, resp b = dns_response b ttl close) → Forall (λ b, Z.of_nat (length b) ≤ usize_max) bs →
  client_read_all (length bs) (concat (map resp bs)) = Some (bs, []).
Proof.
  intros Hr. induction 1 as [|b bs Hb _ IH]; [done|]. cbn [length map concat client_read_all].
  destruct (Hr b) as (ttl & close & ->). rewrite client_read_dns by done. cbn [mbind option_bind]. by rewrite IH.
Qed.

Section Ttl.
Context `{NameOps} {HK : Hickory}.
Definition min_ttl_from_response (bytes : list Z) : option Z :=
  msg ← from_bytes bytes;
  match map r_ttl (answers msg) with [] => None | t :: ts => Some (foldl Z.min t ts) end.
End Ttl.

Section Doh.
Context `{NameOps} {HK : Hickory} `{IpNets, Base64Url} {T : Type} `{!DnsHandler T}.
(** What the loads of the allow-list and the context return, and whether the wait for
    the head of the n-th request times out. *)
Context (acl_at : nat → Acl.ClientAcl) (ctx_at : nat → ListenerContext) (late : nat → bool).

(** A call of the handler: after how many loads, for which path, with what bytes. *)
Record Call := { cl_tick : nat; cl_path : list Z; cl_wire : list Z; cl_reply : Reply }.
Record DohSt := {
  d_rx : Rx; d_tx : list Z; d_wleft : nat; d_svc : T; d_tick : nat; d_metrics : Metrics; d_calls : list Call }.
Definition set_rx (rx : Rx) (st : DohSt) : DohSt :=
  {| d_rx := rx; d_tx := d_tx st; d_wleft := d_wleft st; d_svc := d_svc st; d_tick := d_tick st;
     d_metrics := d_metrics st; d_calls := d_calls st |}.
(** A load of a swapped value. *)
Definition load (st : DohSt) : DohSt :=
  {| d_rx := d_rx st; d_tx := d_tx st; d_wleft := d_wleft st; d_svc := d_svc st; d_tick := S (d_tick st);
     d_metrics := d_metrics st; d_calls := d_calls st |}.
Definition count (f : Metrics → Metrics) (st : DohSt) : DohSt :=
  {| d_rx := d_rx st; d_tx := d_tx st; d_wleft := d_wleft st; d_svc := d_svc st; d_tick := d_tick st;
     d_metrics := f (d_metrics st); d_calls := d_calls st |}.
Definition called (c : Call) (svc : T) (st : DohSt) : DohSt :=
  {| d_rx := d_rx st; d_tx := d_tx st; d_wleft := d_wleft st; d_svc := svc; d_tick := d_tick st;
     d_metrics := d_metrics st; d_calls := d_calls st ++ [c] |}.
(** [stream.write_all]; a failed flush is ignored. *)
Definition send (bs : list Z) (st : DohSt) : result unit * DohSt :=
  match d_wleft st with
  | O => (Err "write", st)
  | S n => (Ok (), {| d_rx := d_rx st; d_tx := d_tx st ++ bs; d_wleft := n; d_svc := d_svc st; d_tick := d_tick st;
                      d_metrics := d_metrics st; d_calls := d_calls st |})
  end.
(** [send_simple(..).await?; return Err(..)]. *)
Definition reject {A} (status : Z) (reason : string) (body : string) (e : string) (st : DohSt)
  : result A * DohSt :=
  match send (simple_response status reason (bytes_of_string body) true) st with
  | (Err w, st) => (Err w, st)
  | (Ok _, st) => (Err e, st)
  end.

(** ** One request *)

Definition NL : string := String (ascii_of_nat 10) "".

(** The loop that completes a POST body of [n] bytes. *)
Fixpoint read_body (fuel n : nat) (body : list Z) (s : Rx) : result (list Z) * Rx :=
  if (n <=? length body)%nat then (Ok body, s)
  else
    match fuel with
    | O => (Err "out of fuel", s)
    | S fuel' =>
        match read (n - length body) s with
        | (Err e, s) => (Err e, s)
        | (Ok [], s) => (Err "EOF mid-POST-body", s)
        | (Ok bs, s) => read_body fuel' n (body ++ bs) s
        end
    end.

Definition GET : list Z := bytes_of_string "GET".
Definition POST : list Z := bytes_of_string "POST".

(** The DNS message of a request, and what was read past it. *)
Definition request_wire (method path : list Z) (headers : list Header) (body_seed : list Z) (st : DohSt)
  : result (list Z * list Z) * DohSt :=
  if bool_decide (method = GET) then
    match parse_get_dns_param path with
    | Some b => (Ok (b, body_seed), st)
    | None => reject 400 "Bad Request" ("missing or malformed dns= parameter" +:+ NL) "bad GET" st
    end
  else if bool_decide (method = POST) then
    if negb (content_type_is_dns_message headers)
    then reject 415 "Unsupported Media Type" ("expected application/dns-message" +:+ NL) "bad content-type" st
    else
      match content_length headers with
      | None => (Err "DoH POST missing or invalid Content-Length", st)
      | Some n =>
          if Z.of_nat MAX_BODY_BYTES <? n
          then reject 413 "Payload Too Large" ("DoH body cap" +:+ NL) "body too large" st
          else
            let n := Z.to_nat n in
            if (n <=? length body_seed)%nat then (Ok (take n body_seed, drop n body_seed), st)
            else
              let '(r, rx) := read_body n n body_seed (d_rx st) in
              (body ← r; Ok (body, []), set_rx rx st)
      end
  else reject 405 "Method Not Allowed" ("GET or POST" +:+ NL) "bad method" st.

(** The result is what was read past this request. *)
Definition handle_request (peer : IpAddr) (method path : list Z) (headers : list Header) (body_seed : list Z)
  (close : bool) (st : DohSt) : result (list Z) * DohSt :=
  let acl := acl_at (d_tick st) in
  let st := load st in
  if negb (Acl.allows acl peer)
  then reject 403 "Forbidden" ("ACL" +:+ NL) "ACL denied" (count count_denied st)
  else
    let token := doh_auth_token (ctx_at (d_tick st)) in
    let st := load st in
    if negb (doh_path_authorized (path_only path) token)
    then reject 404 "Not Found" NL "unauthorized DoH path" st
    else
      match request_wire method path headers body_seed st with
      | (Err e, st) => (Err e, st)
      | (Ok (wire, pending), st) =>
          let st := count count_doh st in
          let ctx_snap := ctx_at (d_tick st) in
          let st := load st in
          let '(reply, svc) := handle wire peer ctx_snap (d_svc st) in
          let st := called {| cl_tick := d_tick st; cl_path := path; cl_wire := wire; cl_reply := reply |} svc st in
          match reply with
          | Panic => (Err "panic", st)
          | NoReply => reject 400 "Bad Request" ("malformed DNS query" +:+ NL) "malformed DNS" st
          | Answer response =>
              let ttl := default 0 (min_ttl_from_response response) in
              match send (dns_response response ttl close) st with
              | (Err e, st) => (Err e, st)
              | (Ok _, st) => (Ok pending, st)
              end
          end
      end.

(** ** The connection *)

(** One turn of the loop, with [left'] more requests to come; the first is number 1.  The
    loop goes on with what was read past this request. *)
Definition serve_request (left' : nat) (peer : IpAddr) (pending : list Z) (st : DohSt)
  : (result unit * DohSt) + (list Z * DohSt) :=
  let req_count := (MAX_REQS_PER_CONN - left')%nat in
  if late req_count then
    inl (if (req_count =? 1)%nat then Err "request header timeout" else Ok (), st)
  else
    let '(r, pending, rx) := read_until_double_crlf pending (d_rx st) in
    let st := set_rx rx st in
    match r with
    | Err e =>
        inl (if (1 <? req_count)%nat && String.eqb e "EOF before HTTP/1.1 headers terminated"
             then Ok () else Err e, st)
    | Ok head_end =>
        let post_terminator := drop head_end pending in
        let head := take (head_end - 4) pending in
        match '(m, p, h) ← parse_request_head head; _ ← validate_framing h; Ok (m, p, h) with
        | Err e => inl (Err e, st)
        | Ok (method, path, headers) =>
            let close := asks_close headers || (MAX_REQS_PER_CONN <=? req_count)%nat in
            match handle_request peer method path headers post_terminator close st with
            | (Err e, st) => inl (Err e, st)
            | (Ok pending, st) => if close then inl (Ok (), st) else inr (pending, st)
            end
        end
    end.
(** [left] requests may still be read. *)
Fixpoint serve_requests (left : nat) (peer : IpAddr) (pending : list Z) (st : DohSt) : result unit * DohSt :=
  match left with
  | O => (Ok (), st)
  | S left' =>
      match serve_request left' peer pending st with
      | inl x => x
      | inr (pending, st) => serve_requests left' peer pending st
      end
  end.
Definition serve_one (peer : IpAddr) (st : DohSt) : result unit * DohSt :=
  serve_requests MAX_REQS_PER_CONN peer [] st.

(** ** Well-formed requests *)

(** The bytes of a keep-alive request for the gated path, and its DNS message. *)
Record RequestFor (token : option string) (method head path : list Z) (headers : list Header) : Prop := {
  rf_utf8 : utf8_valid head = true;
  rf_head : RequestHead head method path headers;
  rf_size : (length head + 4 ≤ MAX_HEADER_BYTES)%nat;
  rf_framing : validate_framing headers = Ok ();
  rf_open : asks_close headers = false;
  rf_gate : doh_path_authorized (path_only path) token = true }.
Inductive Request (token : option string) : list Z → list Z → Prop :=
| RGet head path headers wire :
    RequestFor token GET head path headers → parse_get_dns_param path = Some wire →
    Request token (head ++ needle) wire
| RPost head path headers body :
    RequestFor token POST head path headers → content_type_is_dns_message headers = true →
    content_length headers = Some (Z.of_nat (length body)) → (length body ≤ MAX_BODY_BYTES)%nat →
    Request token (head ++ needle ++ body) body.

(** The state after a step that does nothing but read. *)
Definition same_but_rx (st st' : DohSt) : Prop := st' = set_rx (d_rx st') st.

Lemma read_body_ok fuel n body s :
  (n - length body ≤ fuel)%nat → (length body ≤ n ≤ length (body ++ concat (chunks s)))%nat →
  Forall (λ c, c ≠ []) (chunks s) →
  ∃ s', read_body fuel n body s = (Ok (take n (body ++ concat (chunks s))), s') ∧
    concat (chunks s') = drop n (body ++ concat (chunks s)) ∧ Forall (λ c, c ≠ []) (chunks s') ∧
    broken s' = broken s.
Proof.
  revert body s. induction fuel as [|fuel IH]; intros body s Hf Hn Hc; cbn [read_body];
    (destruct (Nat.leb_spec n (length body)) as [L|L];
     [assert (n = length body) as -> by lia; exists s;
      rewrite take_app_length, drop_app_length; done|]); [lia|].
  destruct (read (n - length body) s) as [r s1] eqn:R. apply read_spec in R as (Hc1 & Hr & Hb); [|lia|done].
  destruct r as [bs|e]; [|destruct Hr as (E & _); rewrite E, app_nil_r in Hn; lia].
  destruct Hr as (Hcat & Hnil & Hlen). destruct bs as [|b bs].
  { rewrite (Hnil eq_refl), app_nil_r in Hn. lia. }
  rewrite Hcat, app_assoc in Hn |- *. destruct (IH (body ++ b :: bs) s1) as (s' & E & ? & ? & ?);
    [rewrite length_app; cbn; lia|rewrite !length_app in *; cbn in *; lia|done|].
  exists s'. split; [exact E|]. by rewrite <- Hb.
Qed.

(** The message of a request whose head has been read, wherever its body was cut. *)
Lemma request_wire_post headers body seed path st rest :
  seed ++ concat (chunks (d_rx st)) = body ++ rest → content_type_is_dns_message headers = true →
  content_length headers = Some (Z.of_nat (length body)) → (length body ≤ MAX_BODY_BYTES)%nat →
  Forall (λ c, c ≠ []) (chunks (d_rx st)) →
  ∃ pending rx, request_wire POST path headers seed st = (Ok (body, pending), set_rx rx st) ∧
    pending ++ concat (chunks rx) = rest ∧ Forall (λ c, c ≠ []) (chunks rx) ∧ broken rx = broken (d_rx st).
Proof.
  intros E Ct Cl Lb Hc. unfold request_wire. rewrite Ct, Cl. cbn [bool_decide negb].
  replace (bool_decide (POST = GET)) with false by done. replace (bool_decide (POST = POST)) with true by done.
  destruct (Z.ltb_spec (Z.of_nat MAX_BODY_BYTES) (Z.of_nat (length body))); [lia|]. rewrite Nat2Z.id.
  destruct (Nat.leb_spec (length body) (length seed)) as [L|L].
  - exists (drop (length body) seed), (d_rx st). split_and!; try done.
    + f_equal; [|by destruct st as []]. f_equal. f_equal.
      apply (f_equal (take (length body))) in E. by rewrite take_app_le, take_app_length in E by lia.
    + apply (f_equal (drop (length body))) in E. by rewrite drop_app_le, drop_app_length in E by lia.
  - destruct (read_body_ok (length body) (length body) seed (d_rx st)) as (s' & Er & Es & ? & ?);
      [lia|rewrite E, length_app; lia|done|]. rewrite Er, E, take_app_length. cbn.
    exists [], s'. split_and!; try done. by rewrite Es, E, drop_app_length.
Qed.

(** A request is a head, a blank line and a body; once the head has been read its
    message is found, wherever the body was cut. *)
Lemma request_parts token bytes wire :
  Request token bytes wire →
  ∃ head body m p hs, bytes = head ++ needle ++ body ∧ RequestFor token m head p hs ∧
  ∀ seed st rest, seed ++ concat (chunks (d_rx st)) = body ++ rest → Forall (λ c, c ≠ []) (chunks (d_rx st)) →
    ∃ pending rx, request_wire m p hs seed st = (Ok (wire, pending), set_rx rx st) ∧
      pending ++ concat (chunks rx) = rest ∧ Forall (λ c, c ≠ []) (chunks rx) ∧ broken rx = broken (d_rx st).
Proof.
  intros [head p hs w Hf Hp|head p hs body Hf Ct Cl Lb].
  - exists head, [], GET, p, hs. split_and!; [by rewrite app_nil_r|done|]. intros seed st rest E Hc.
    exists seed, (d_rx st). unfold request_wire. replace (bool_decide (GET = GET)) with true by done.
    rewrite Hp. split_and!; try done. by destruct st.
  - exists head, body, POST, p, hs. split_and!; [done..|]. intros seed st rest E Hc. by apply request_wire_post.
Qed.

(** The head is found where it ends, however the stream is cut. *)
Lemma read_until_found token m head p hs pending s tail :
  RequestFor token m head p hs → pending ++ concat (chunks s) = head ++ needle ++ tail →
  Forall (λ c, c ≠ []) (chunks s) →
  ∃ pend s', read_until_double_crlf pending s = (Ok (length head + 4)%nat, pend, s') ∧
    take (length head + 4 - 4) pend = head ∧ drop (length head + 4) pend ++ concat (chunks s') = tail ∧
    Forall (λ c, c ≠ []) (chunks s') ∧ broken s' = broken s.
Proof.
  intros Hf Htot Hc.
  pose proof (read_head_spec (S (S MAX_HEADER_BYTES)) 0 pending s ltac:(lia) ltac:(lia) ltac:(lia)
    ltac:(lia) Hc) as Hrd.
  unfold read_until_double_crlf. destruct (read_head _ 0 pending s) as [[r pend] rx].
  destruct Hrd as (Et & Hc1 & Hb1 & Hok & Hfound & _). rewrite Htot in *.
  assert (r = Ok (length head + 4)%nat) as ->.
  { apply Hfound; [by eapply request_head_end, rf_head|apply Hf]. }
  destruct (Hok _ eq_refl) as [[_ Le] _]. exists pend, rx. split_and!; try done.
  - replace (length head + 4 - 4)%nat with (length head) by lia.
    apply (f_equal (take (length head))) in Et. rewrite take_app_le in Et by lia. by rewrite Et, take_app_length.
  - apply (f_equal (drop (length head + 4))) in Et. rewrite drop_app_le in Et by lia.
    rewrite Et, (app_assoc head needle). rewrite drop_app_ge by (rewrite length_app; cbn; lia).
    rewrite length_app. change (length needle) with 4%nat. by rewrite Nat.sub_diag.
Qed.

(** One turn of the connection on a request at the front of the stream: the handler's
    answer is sent and the rest of the stream is left, however it was cut. *)
Lemma serve_turn left peer pending st token bytes wire rest b svc :
  let req_count := (MAX_REQS_PER_CONN - left)%nat in
  (1 ≤ left < MAX_REQS_PER_CONN)%nat → late req_count = false →
  pending ++ concat (chunks (d_rx st)) = bytes ++ rest → Forall (λ c, c ≠ []) (chunks (d_rx st)) →
  Request token bytes wire → (∀ n, Acl.allows (acl_at n) peer = true) →
  (∀ n, doh_auth_token (ctx_at n) = token) → (0 < d_wleft st)%nat →
  handle wire peer (ctx_at (S (S (d_tick st)))) (d_svc st) = (Answer b, svc) →
  ∃ pending' st', serve_requests (S left) peer pending st = serve_requests left peer pending' st' ∧
    pending' ++ concat (chunks (d_rx st')) = rest ∧ Forall (λ c, c ≠ []) (chunks (d_rx st')) ∧
    broken (d_rx st') = broken (d_rx st) ∧ d_svc st' = svc ∧ d_tick st' = (3 + d_tick st)%nat ∧
    d_wleft st = S (d_wleft st') ∧
    d_tx st' = d_tx st ++ dns_response b (default 0 (min_ttl_from_response b)) false.
Proof.
  intros req_count Hl Hlate Htot Hc Hreq Hacl Htok Hw Hh. cbn [serve_requests]. unfold serve_request. fold req_count. rewrite Hlate.
  destruct (request_parts _ _ _ Hreq) as (head & body & m & p & hs & -> & Hf & Hwire).
  rewrite <- !app_assoc in Htot.
  destruct (read_until_found _ _ _ _ _ _ _ _ Hf Htot Hc) as (pend & rx & -> & Ehd & Etl & Hc1 & Hb1).
  rewrite Ehd. rewrite (proj2 (parse_head_iff head m p hs)) by (split; apply Hf). cbn.
  rewrite (rf_framing _ _ _ _ _ Hf). cbn. rewrite (rf_open _ _ _ _ _ Hf).
  destruct (Nat.leb_spec MAX_REQS_PER_CONN req_count); [unfold req_count in *; lia|]. cbn [orb].
  unfold handle_request. cbn [d_tick load set_rx]. rewrite Hacl, Htok. cbn [negb].
  rewrite (rf_gate _ _ _ _ _ Hf). cbn [negb].
  destruct (Hwire (drop (length head + 4) pend) (load (load (set_rx rx st))) rest)
    as (pending' & rx' & -> & Er & Hc' & Hb'); [done..|].
  cbn. rewrite Hh. unfold send. cbn. destruct (d_wleft st) as [|wl]; [lia|].
  eexists _, _. split; [reflexivity|]. cbn. rewrite Hb', <- Hb1. done.
Qed.

(** The handler on a sequence of messages; each request loads three times. *)
Fixpoint doh_replies (peer : IpAddr) (wires : list (list Z)) (tick : nat) (t : T) : list Reply * T :=
  match wires with
  | [] => ([], t)
  | w :: ws =>
      let '(r, t) := handle w peer (ctx_at (S (S tick))) t in
      let '(rs, t) := doh_replies peer ws (3 + tick) t in (r :: rs, t)
  end.
Definition response (b : list Z) : list Z := dns_response b (default 0 (min_ttl_from_response b)) false.

Lemma read_head_eof fuel s :
  chunks s = [] → broken s = false →
  read_head (S fuel) 0 [] s = (Err "EOF before HTTP/1.1 headers terminated", [], s).
Proof.
  intros Ec Eb. cbn [read_head]. assert (find_subsequence (drop 0 []) needle = None) as -> by done.
  assert ((MAX_HEADER_BYTES <=? length (@nil Z))%nat = false) as -> by (apply Nat.leb_gt; apply (Z2Nat.inj_lt 0 8192); lia).
  unfold read. by rewrite Ec, Eb.
Qed.
Lemma serve_requests_end left peer pending st :
  (left + 1 < MAX_REQS_PER_CONN)%nat → pending ++ concat (chunks (d_rx st)) = [] →
  Forall (λ c, c ≠ []) (chunks (d_rx st)) → broken (d_rx st) = false →
  late (MAX_REQS_PER_CONN - left)%nat = false →
  ∃ st', serve_requests (S left) peer pending st = (Ok (), st') ∧ d_tx st' = d_tx st ∧ d_svc st' = d_svc st.
Proof.
  intros Hl E Hc Hb Hlate. cbn [serve_requests]. unfold serve_request. rewrite Hlate. apply app_nil in E as [-> E].
  assert (chunks (d_rx st) = []) as Ec.
  { destruct (chunks (d_rx st)) as [|c cs]; [done|]. apply Forall_cons in Hc as [Hc _].
    cbn in E. by apply app_nil in E as [-> _]. }
  unfold read_until_double_crlf. rewrite read_head_eof by done. rewrite (proj2 (Nat.ltb_lt 1 (MAX_REQS_PER_CONN - left))) by lia.
  eexists. split; [reflexivity|done].
Qed.

Lemma serve_pipeline left peer pending st token reqs wires bs t :
  (length reqs < left < MAX_REQS_PER_CONN ∨ reqs ≠ [] ∧ length reqs < left ∧ left = MAX_REQS_PER_CONN)%nat →
  (∀ n, late n = false) →
  pending ++ concat (chunks (d_rx st)) = concat reqs → Forall (λ c, c ≠ []) (chunks (d_rx st)) →
  broken (d_rx st) = false → Forall2 (Request token) reqs wires → (∀ n, Acl.allows (acl_at n) peer = true) →
  (∀ n, doh_auth_token (ctx_at n) = token) → (length reqs ≤ d_wleft st)%nat →
  doh_replies peer wires (d_tick st) (d_svc st) = (map Answer bs, t) →
  ∃ st', serve_requests left peer pending st = (Ok (), st') ∧ d_svc st' = t ∧
    d_tx st' = d_tx st ++ concat (map response bs).
Proof.
  intros Hl Hlate Htot Hc Hb Hreq Hacl Htok Hw Hr.
  revert left pending st bs t Hl Htot Hc Hb Hw Hr.
  induction Hreq as [|bytes wire reqs wires Hq Hreq IH]; intros [|left] pending st bs t Hl Htot Hc Hb Hw Hr; try lia.
  - destruct Hl as [Hl|[? _]]; [|done]. cbn in Hl. cbn in Hr. injection Hr as Hbs <-. destruct bs; [|done].
    destruct (serve_requests_end left peer pending st) as (st' & -> & Ht & Hs); try done; [lia|].
    exists st'. cbn. by rewrite app_nil_r.
  - cbn in Hr. destruct (handle wire peer _ (d_svc st)) as [r svc] eqn:Hh.
    destruct (doh_replies peer wires _ svc) as [rs t'] eqn:Hr'. destruct bs as [|b bs]; [done|].
    cbn in Hr. injection Hr as -> Hrs <-. cbn [length] in *.
    destruct (serve_turn left peer pending st token bytes wire (concat reqs) b svc)
      as (pending' & st' & -> & Et & Hc' & Hb' & Hsv & Htk & Hwl & Htx); try done; [lia|lia|].
    destruct (IH left pending' st' bs t') as (st2 & E2 & Hs2 & Ht2); try done; [lia|congruence|lia| |].
    { rewrite Htk, Hsv, <- Hrs. exact Hr'. }
    exists st2. split_and!; [done..|]. rewrite Ht2, Htx. cbn. by rewrite <- app_assoc.
Qed.

(** ** Arbitrary streams *)

(** A call made three loads after the allow-list permitted the peer and two after the
    token in force admitted the path. *)
Definition gated (peer : IpAddr) (c : Call) : Prop :=
  ∃ n, cl_tick c = S (S (S n)) ∧ Acl.allows (acl_at n) peer = true ∧
    doh_path_authorized (path_only (cl_path c)) (doh_auth_token (ctx_at (S n))) = true.
Inductive ran (peer : IpAddr) : T → list Call → T → Prop :=
| ran_nil t : ran peer t [] t
| ran_cons t c t1 cs t2 :
    handle (cl_wire c) peer (ctx_at (cl_tick c - 1)) t = (cl_reply c, t1) → ran peer t1 cs t2 →
    ran peer t (c :: cs) t2.
Definition carries (b o : list Z) : Prop :=
  ∃ close, o = dns_response b (default 0 (min_ttl_from_response b)) close.
(** Nothing, or one error page that closes the connection. *)
Definition last_page (p : list Z) : Prop :=
  p = [] ∨ ∃ status reason body, 400 ≤ status ∧ p = simple_response status reason body true.
(** From [st] to [st'] the calls were made in order, each gated; written were the
    responses [sent] to the messages [bs], then at most an error page. *)
Record trace (peer : IpAddr) (st : DohSt) (calls : list Call) (bs sent : list (list Z)) (page : list Z) (st' : DohSt)
  : Prop := {
  tr_calls : d_calls st' = d_calls st ++ calls;
  tr_gate : Forall (gated peer) calls;
  tr_run : ran peer (d_svc st) calls (d_svc st');
  tr_sent : Forall2 carries bs sent;
  tr_prefix : bs `prefix_of` omap (answer_of ∘ cl_reply) calls;
  tr_out : d_tx st' = d_tx st ++ concat sent ++ page;
  tr_page : last_page page }.

Lemma trace_none peer st st' :
  d_calls st' = d_calls st → d_svc st' = d_svc st → d_tx st' = d_tx st → trace peer st [] [] [] [] st'.
Proof.
  intros Ec Es Et. split; [by rewrite app_nil_r|done|rewrite Es; constructor|constructor|by eexists|by rewrite app_nil_r|by left].
Qed.
Lemma reject_spec {A} status reason body e st (r : result A) st' :
  reject status reason body e st = (r, st') →
  (∃ x, r = Err x) ∧ d_calls st' = d_calls st ∧ d_svc st' = d_svc st ∧ d_tick st' = d_tick st ∧
  (d_tx st' = d_tx st ∨ d_tx st' = d_tx st ++ simple_response status reason (bytes_of_string body) true).
Proof. unfold reject, send. destruct (d_wleft st); intros [= <- <-]; cbn; eauto 10. Qed.
Lemma trace_reject {A} peer status reason body e st st1 (r : result A) st' :
  400 ≤ status → d_calls st1 = d_calls st → d_svc st1 = d_svc st → d_tx st1 = d_tx st →
  reject status reason body e st1 = (r, st') → ∃ page, trace peer st [] [] [] page st'.
Proof.
  intros Hs Ec Es Et (_ & Hc & Hv & _ & [Ht|Ht])%reject_spec.
  - exists []. apply trace_none; congruence.
  - eexists. split; [by rewrite Hc, Ec, app_nil_r|done|rewrite Hv, Es; constructor|constructor|by eexists| |].
    + rewrite Ht, Et. reflexivity.
    + right. eauto.
Qed.

(** What decoding a request leaves of the state. *)
Lemma request_wire_sound peer m p hs seed st r st' :
  request_wire m p hs seed st = (r, st') →
  (∃ x, r = Ok x) ∧ d_calls st' = d_calls st ∧ d_svc st' = d_svc st ∧ d_tx st' = d_tx st ∧ d_tick st' = d_tick st ∨
  (∃ e, r = Err e) ∧ ∃ page, trace peer st [] [] [] page st'.
Proof.
  assert (N : ∀ e, (Err e, st) = (r, st') → (∃ e', r = Err e') ∧ ∃ page, trace peer st [] [] [] page st').
  { intros e [= <- <-]. split; [eauto|]. exists []. by apply trace_none. }
  assert (J : ∀ status reason body e, reject status reason body e st = (r, st') → 400 ≤ status →
    (∃ e', r = Err e') ∧ ∃ page, trace peer st [] [] [] page st').
  { intros status reason body e E Hs. split; [by apply reject_spec in E as [? _]|]. by eapply trace_reject. }
  unfold request_wire. destruct (bool_decide (m = GET)).
  { destruct (parse_get_dns_param p); [intros [= <- <-]; left; eauto 10|intros E; right; by apply J in E]. }
  destruct (bool_decide (m = POST)); [|intros E; right; by apply J in E].
  destruct (negb _); [intros E; right; by apply J in E|].
  destruct (content_length hs) as [n|]; [|intros E; right; by apply N in E].
  destruct (_ <? n); [intros E; right; by apply J in E|]. destruct (_ <=? _)%nat; [intros [= <- <-]; left; eauto 10|].
  destruct (read_body _ _ _ _) as [[b|e] rx]; intros [= <- <-]; [left; cbn; eauto 10|right].
  split; [eauto|]. exists []. by apply trace_none.
Qed.

Lemma handle_request_sound peer m p hs seed close st r st' :
  handle_request peer m p hs seed close st = (r, st') →
  ∃ calls bs sent page, trace peer st calls bs sent page st' ∧ (length calls ≤ 1)%nat ∧
    ∀ x, r = Ok x → page = [] ∧ bs = omap (answer_of ∘ cl_reply) calls.
Proof.
  assert (F : ∀ status reason body e st1, reject status reason body e st1 = (r, st') → 400 ≤ status →
    d_calls st1 = d_calls st → d_svc st1 = d_svc st → d_tx st1 = d_tx st →
    ∃ calls bs sent page, trace peer st calls bs sent page st' ∧ (length calls ≤ 1)%nat ∧
    ∀ x : list Z, r = Ok x → page = [] ∧ bs = omap (answer_of ∘ cl_reply) calls).
  { intros ????? E Hs Ec Es Et. destruct (trace_reject peer _ _ _ _ st _ _ _ Hs Ec Es Et E) as [page Tr].
    exists [], [], [], page. split_and!; [done|cbn; lia|]. apply reject_spec in E as [[e' ->] _]. done. }
  unfold handle_request. destruct (Acl.allows _ peer) eqn:A; cbn [negb]; [|by intros E; apply F in E].
  destruct (doh_path_authorized _ _) eqn:P; cbn [negb]; [|by intros E; apply F in E].
  destruct (request_wire m p hs seed _) as [[[wire pending]|e] st1] eqn:W; apply (request_wire_sound peer) in W as
    [([? Ex] & Ec & Es & Et & Ek)|([? Ex] & page & Tr)]; try done.
  2: { intros [= <- <-]. exists [], [], [], page. split_and!; [|cbn; lia|done].
       destruct Tr as [T1 T2 T3 T4 T5 T6 T7]. by split. }
  clear Ex. cbn [load d_tick d_svc d_calls d_tx] in *. destruct (handle wire peer _ _) as [reply svc] eqn:Hh.
  set (c := {| cl_tick := _ |}).
  assert (G : gated peer c) by (exists (d_tick st); cbn; rewrite Ek; done).
  assert (R : ran peer (d_svc st) [c] svc).
  { econstructor; [|constructor]. cbn. rewrite Nat.sub_0_r. rewrite <- Es. exact Hh. }
  destruct reply as [response0| |].
  - unfold send. cbn [called d_wleft]. destruct (d_wleft _) as [|wl]; intros [= <- <-].
    + exists [c], [], [], []. split_and!; [|done|done].
      split; cbn; [by rewrite Ec|by repeat constructor|done|constructor|apply prefix_nil|by rewrite app_nil_r|by left].
    + exists [c], [response0], [dns_response response0 (default 0 (min_ttl_from_response response0)) close], [].
      split_and!; [|done|done]. split; cbn; [by rewrite Ec|by repeat constructor|done|repeat constructor; by exists close|done|
        by rewrite !app_nil_r, Et|by left].
  - intros E. pose proof (reject_spec _ _ _ _ _ _ _ E) as ([e' ->] & Hc & Hv & _ & Ht). cbn in Hc, Hv, Ht.
    destruct Ht as [Ht|Ht]; (eexists [c], [], [], _; split_and!; [|done|done];
      split; [by rewrite Hc, Ec|by repeat constructor|by rewrite Hv|constructor|apply prefix_nil|rewrite Ht, Et|]).
    + cbn. by rewrite app_nil_r.
    + by left.
    + reflexivity.
    + right. by eexists 400, _, _.
  - intros [= <- <-]. exists [c], [], [], []. split_and!; [|done|done].
    split; cbn; [by rewrite Ec|by repeat constructor|done|constructor|apply prefix_nil|by rewrite app_nil_r|by left].
Qed.

Lemma trace_then peer st c1 bs1 o1 st1 c2 bs2 o2 page st2 :
  trace peer st c1 bs1 o1 [] st1 → bs1 = omap (answer_of ∘ cl_reply) c1 → trace peer st1 c2 bs2 o2 page st2 →
  trace peer st (c1 ++ c2) (bs1 ++ bs2) (o1 ++ o2) page st2.
Proof.
  intros [C1 G1 R1 S1 _ O1 _] -> [C2 G2 R2 S2 P2 O2 L2]. split.
  - by rewrite C2, C1, <- app_assoc.
  - by apply Forall_app.
  - clear -R1 R2. induction R1; cbn; [done|]. econstructor; [done|]. by apply IHR1.
  - by apply Forall2_app.
  - rewrite omap_app. by apply prefix_app.
  - rewrite O2, O1, concat_app, app_nil_r, <- !app_assoc. done.
  - done.
Qed.
Lemma trace_from peer st0 st c bs o page st' :
  d_calls st0 = d_calls st → d_svc st0 = d_svc st → d_tx st0 = d_tx st →
  trace peer st0 c bs o page st' → trace peer st c bs o page st'.
Proof. intros Ec Es Et [C G R S P O L]. split; congruence. Qed.

Lemma serve_request_sound left peer pending st :
  match serve_request left peer pending st with
  | inl (_, st') => ∃ calls bs sent page, trace peer st calls bs sent page st' ∧ (length calls ≤ 1)%nat
  | inr (_, st') => ∃ calls bs sent, trace peer st calls bs sent [] st' ∧ (length calls ≤ 1)%nat ∧
                      bs = omap (answer_of ∘ cl_reply) calls
  end.
Proof.
  assert (N : ∀ st1, same_but_rx st st1 → ∃ calls bs sent page, trace peer st calls bs sent page st1 ∧ (length calls ≤ 1)%nat).
  { intros st1 ->. exists [], [], [], []. split; [by apply trace_none|cbn; lia]. }
  unfold serve_request. destruct (late _); [apply N; by destruct st|].
  destruct (read_until_double_crlf _ _) as [[[he|e] pend] rx]; [|by apply N].
  destruct (mbind _ (parse_request_head _)) as [[[m p] hs]|e]; [|by apply N].
  destruct (handle_request _ _ _ _ _ _ _) as [r1 st1] eqn:Hq.
  apply handle_request_sound in Hq as (calls & bs & sent & page & Tr & Hl & Hok).
  assert (Tr' : trace peer st calls bs sent page st1) by (by eapply trace_from, Tr).
  destruct r1 as [pending'|e]; [|by exists calls, bs, sent, page].
  destruct (Hok _ eq_refl) as [-> Hbs]. destruct (_ || _); [by exists calls, bs, sent, []|by exists calls, bs, sent].
Qed.
Lemma serve_requests_sound left peer pending st r st' :
  serve_requests left peer pending st = (r, st') →
  ∃ calls bs sent page, trace peer st calls bs sent page st' ∧ (length calls ≤ left)%nat.
Proof.
  revert pending st. induction left as [|left IH]; intros pending st; cbn [serve_requests].
  { intros [= <- <-]. exists [], [], [], []. split; [by apply trace_none|done]. }
  pose proof (serve_request_sound left peer pending st) as S. destruct (serve_request _ _ _ _) as [[r1 st1]|[pending' st1]].
  - destruct S as (calls & bs & sent & page & Tr & Hl). intros [= _ <-]. exists calls, bs, sent, page. split; [done|lia].
  - destruct S as (calls & bs & sent & Tr & Hl & Hbs). intros (c2 & bs2 & s2 & page & Tr2 & Hl2)%IH. eexists _, _, _, page.
    split; [by eapply trace_then|]. rewrite length_app. lia.
Qed.

(** *** The fuel of the read loops is never used up *)
Definition fueled {A} (r : result A) : Prop := r ≠ Err "out of fuel".
Lemma fueled_err {A B} e : fueled (A := A) (Err e) → fueled (A := B) (Err e).
Proof. unfold fueled. congruence. Qed.
Lemma read_fueled n s : fueled (read n s).1.
Proof. unfold read, fueled. destruct (chunks s); [by destruct (broken s)|done]. Qed.
Lemma read_head_fueled fuel sf buf s :
  (0 < fuel)%nat → (MAX_HEADER_BYTES < fuel + length buf)%nat → fueled (read_head fuel sf buf s).1.1.
Proof.
  revert sf buf s. induction fuel as [|fuel IH]; intros sf buf s Hf Hm; [lia|]. cbn [read_head].
  destruct (find_subsequence _ _); [done|].
  destruct (Nat.leb_spec MAX_HEADER_BYTES (length buf)) as [L|L]; [done|].
  pose proof (read_fueled 1024 s) as Hr. destruct (read 1024 s) as [[[|b bs]|e] s']; [done| |].
  - apply IH; [lia|rewrite length_app; cbn [length]; lia].
  - by eapply fueled_err.
Qed.
Lemma read_body_fueled fuel n body s : (n - length body ≤ fuel)%nat → fueled (read_body fuel n body s).1.
Proof.
  revert body s. induction fuel as [|fuel IH]; intros body s Hf; cbn [read_body];
    (destruct (Nat.leb_spec n (length body)) as [L|L]; [done|]); [lia|].
  pose proof (read_fueled (n - length body) s) as Hr. destruct (read _ s) as [[[|b bs]|e] s']; [done| |done].
  apply IH. rewrite length_app. cbn. lia.
Qed.
Lemma bind_fueled {A B} (r : result A) (f : A → result B) : fueled r → (∀ a, fueled (f a)) → fueled (r ≫= f).
Proof. destruct r; cbn; [auto|]. unfold fueled. congruence. Qed.
Lemma parse_request_head_fueled bytes : fueled (parse_request_head bytes).
Proof.
  unfold parse_request_head. destruct (negb _); [done|]. destruct (split_crlf bytes) as [|first lines]; [done|].
  apply bind_fueled.
  - unfold parse_request_line. destruct (split_on 32 first) as [|? [|? [|? [|? ?]]]]; try done.
    by repeat case_match.
  - intros [m p]. apply bind_fueled; [|done]. induction lines as [|l lines IH]; cbn [parse_headers]; [done|].
    apply bind_fueled; [|intros h; by apply bind_fueled]. unfold parse_header. by repeat case_match.
Qed.
Lemma reject_fueled {A} status reason body e st : e ≠ "out of fuel" → fueled (reject (A := A) status reason body e st).1.
Proof. unfold reject, send, fueled. destruct (d_wleft st); cbn; congruence. Qed.
Lemma request_wire_fueled m p hs seed st : fueled (request_wire m p hs seed st).1.
Proof.
  unfold request_wire. repeat case_match; try done; try by apply reject_fueled.
  match goal with E : read_body ?k ?n ?b ?s = _ |- _ =>
    pose proof (read_body_fueled k n b s ltac:(lia)) as Hf; rewrite E in Hf end.
  cbn. by apply bind_fueled.
Qed.
Lemma handle_request_fueled peer m p hs seed close st : fueled (handle_request peer m p hs seed close st).1.
Proof.
  unfold handle_request. destruct (negb _); [by apply reject_fueled|]. destruct (negb _); [by apply reject_fueled|].
  pose proof (request_wire_fueled m p hs seed (load (load st))) as Hw.
  destruct (request_wire _ _ _ _ _) as [[[wire pending]|e] st1]; [|by eapply fueled_err].
  destruct (handle _ _ _ _) as [[b| |] svc]; [|by apply reject_fueled|done].
  unfold send. by destruct (d_wleft _).
Qed.
Lemma serve_requests_fueled left peer pending st : fueled (serve_requests left peer pending st).1.
Proof.
  revert pending st. induction left as [|left IH]; intros pending st; cbn [serve_requests]; [done|].
  unfold serve_request. destruct (late _); [by destruct (_ =? 1)%nat|].
  pose proof (read_head_fueled (S (S MAX_HEADER_BYTES)) 0 pending (d_rx st) ltac:(lia) ltac:(lia)) as Hh.
  unfold read_until_double_crlf. destruct (read_head _ _ _ _) as [[[he|e] pend] rx]; [|destruct (_ && _); [done|cbn in Hh |- *; by eapply fueled_err]].
  set (parsed := mbind _ _). assert (Hp : fueled parsed).
  { apply bind_fueled; [apply parse_request_head_fueled|]. intros [[m p] h]. apply bind_fueled; [|done].
    unfold validate_framing. by repeat case_match. }
  destruct parsed as [[[m p] hs]|e]; [|by eapply fueled_err].
  match goal with |- context [handle_request ?a ?b ?c ?d ?e ?f ?g] =>
    pose proof (handle_request_fueled a b c d e f g) as Hq end.
  destruct (handle_request _ _ _ _ _ _ _) as [[pend'|e] st1]; [|by eapply fueled_err]. destruct (_ || _); [done|apply IH].
Qed.

(** ** HTTP/2 *)

(** A request as the [h2] crate delivers it; each data frame may fail to arrive, or
    fail when its flow-control capacity is given back.  [q_send] and [q_data]: whether
    the head and the data of a response can be sent. *)
Record H2Req := {
  q_method : list Z; q_path : list Z; q_query : option (list Z); q_type : option (list Z);
  q_frames : list (result (list Z) * bool); q_send : bool; q_data : bool }.
(** The data is missing when only the head could be sent. *)
Record H2Resp := { p_status : Z; p_headers : list (string * string); p_body : option (list Z) }.
Record H2St := { e_svc : T; e_tick : nat; e_metrics : Metrics; e_sent : list H2Resp; e_calls : list Call }.
Definition h2_load (st : H2St) : H2St :=
  {| e_svc := e_svc st; e_tick := S (e_tick st); e_metrics := e_metrics st; e_sent := e_sent st; e_calls := e_calls st |}.
Definition h2_count (f : Metrics → Metrics) (st : H2St) : H2St :=
  {| e_svc := e_svc st; e_tick := e_tick st; e_metrics := f (e_metrics st); e_sent := e_sent st; e_calls := e_calls st |}.
Definition h2_called (c : Call) (svc : T) (st : H2St) : H2St :=
  {| e_svc := svc; e_tick := e_tick st; e_metrics := e_metrics st; e_sent := e_sent st; e_calls := e_calls st ++ [c] |}.
Definition h2_emit (r : H2Resp) (st : H2St) : H2St :=
  {| e_svc := e_svc st; e_tick := e_tick st; e_metrics := e_metrics st; e_sent := e_sent st ++ [r]; e_calls := e_calls st |}.

(** [send_response] then [send_data]. *)
Definition h2_send (q : H2Req) (status : Z) (headers : list (string * string)) (body : list Z) (st : H2St)
  : result unit * H2St :=
  if negb (q_send q) then (Err "h2 send_response", st)
  else if negb (q_data q)
  then (Err "h2 send_data", h2_emit {| p_status := status; p_headers := headers; p_body := None |} st)
  else (Ok (), h2_emit {| p_status := status; p_headers := headers; p_body := Some body |} st).
Definition h2_send_status (q : H2Req) (status : Z) (body : list Z) : H2St → result unit * H2St :=
  h2_send q status [("content-type", "text/plain")] body.
Definition h2_reject {A} (q : H2Req) (status : Z) (body : string) (e : string) (st : H2St) : result A * H2St :=
  match h2_send_status q status (bytes_of_string body) st with
  | (Err w, st) => (Err w, st)
  | (Ok _, st) => (Err e, st)
  end.
Fixpoint read_h2_body (frames : list (result (list Z) * bool)) (buf : list Z) : result (list Z) :=
  match frames with
  | [] => Ok buf
  | (Err e, _) :: _ => Err e
  | (Ok chunk, released) :: frames' =>
      if (MAX_BODY_BYTES <? length buf + length chunk)%nat then Err "DoH/h2 body exceeds the cap"
      else if negb released then Err "h2 flow-control release"
      else read_h2_body frames' (buf ++ chunk)
  end.
Definition h2_wire (q : H2Req) (st : H2St) : result (list Z) * H2St :=
  if bool_decide (q_method q = GET) then
    match q_query q ≫= dns_param_from_query with
    | Some b => (Ok b, st)
    | None => h2_reject q 400 ("missing or malformed dns= parameter" +:+ NL) "bad GET" st
    end
  else if bool_decide (q_method q = POST) then
    if negb (bool_decide (q_type q = Some (bytes_of_string "application/dns-message")))
    then h2_reject q 415 ("expected application/dns-message" +:+ NL) "bad content-type" st
    else (read_h2_body (q_frames q) [], st)
  else h2_reject q 405 ("GET or POST" +:+ NL) "bad method" st.
Definition handle_h2_request (peer : IpAddr) (q : H2Req) (st : H2St) : result unit * H2St :=
  let acl := acl_at (e_tick st) in
  let st := h2_load st in
  if negb (Acl.allows acl peer)
  then h2_reject q 403 ("ACL" +:+ NL) "ACL denied" (h2_count count_denied st)
  else
    let token := doh_auth_token (ctx_at (e_tick st)) in
    let st := h2_load st in
    if negb (doh_path_authorized (q_path q) token)
    then h2_reject q 404 NL "unauthorized DoH path" st
    else
      match h2_wire q st with
      | (Err e, st) => (Err e, st)
      | (Ok wire, st) =>
          let st := h2_count count_doh st in
          let ctx_snap := ctx_at (e_tick st) in
          let st := h2_load st in
          let '(reply, svc) := handle wire peer ctx_snap (e_svc st) in
          let st := h2_called {| cl_tick := e_tick st; cl_path := q_path q; cl_wire := wire; cl_reply := reply |} svc st in
          match reply with
          | Panic => (Err "panic", st)
          | NoReply => h2_reject q 400 ("malformed DNS query" +:+ NL) "malformed DNS" st
          | Answer response =>
              let ttl := default 0 (min_ttl_from_response response) in
              h2_send q 200 (("content-type", "application/dns-message") ::
                             (if 0 <? ttl then [("cache-control", "max-age=" +:+ show_uint ttl)] else []))
                response st
          end
      end.
(** The requests [serve_h2] gives a task each: those before the first error. *)
Fixpoint serve_h2 (accepted : list (result H2Req)) : list H2Req :=
  match accepted with Ok q :: rest => q :: serve_h2 rest | _ => [] end.

(** The message a request carries. *)
Definition h2_message (q : H2Req) : option (list Z) :=
  if bool_decide (q_method q = GET) then q_query q ≫= dns_param_from_query
  else if bool_decide (q_method q = POST ∧ q_type q = Some (bytes_of_string "application/dns-message"))
  then match read_h2_body (q_frames q) [] with Ok b => Some b | Err _ => None end
  else None.
Definition h2_gated (peer : IpAddr) (c : Call) : Prop :=
  ∃ n, cl_tick c = S (S (S n)) ∧ Acl.allows (acl_at n) peer = true ∧
    doh_path_authorized (cl_path c) (doh_auth_token (ctx_at (S n))) = true.
(** A refusal, or a response with an answer of one of these calls; its data may be cut. *)
Definition h2_fits (calls : list Call) (r : H2Resp) : Prop :=
  400 ≤ p_status r ∨
  p_status r = 200 ∧ ∃ b, b ∈ omap (answer_of ∘ cl_reply) calls ∧ (p_body r = Some b ∨ p_body r = None).
(** From [st] to [st'] at most one gated call was made, on the message of the request,
    and at most one response was sent, that fits it. *)
Record h2_trace (peer : IpAddr) (q : H2Req) (st : H2St) (calls : list Call) (new : list H2Resp) (st' : H2St) : Prop := {
  ht_calls : e_calls st' = e_calls st ++ calls;
  ht_one : (length calls ≤ 1)%nat;
  ht_gate : Forall (h2_gated peer) calls;
  ht_own : Forall (λ c, cl_path c = q_path q ∧ h2_message q = Some (cl_wire c)) calls;
  ht_run : ran peer (e_svc st) calls (e_svc st');
  ht_sent : e_sent st' = e_sent st ++ new;
  ht_single : (length new ≤ 1)%nat;
  ht_fits : Forall (h2_fits calls) new }.

Lemma h2_send_spec q status headers body st r st' :
  h2_send q status headers body st = (r, st') →
  e_calls st' = e_calls st ∧ e_svc st' = e_svc st ∧ e_tick st' = e_tick st ∧
  (e_sent st' = e_sent st ∨ ∃ b, e_sent st' = e_sent st ++ [{| p_status := status; p_headers := headers; p_body := b |}] ∧
     (b = Some body ∨ b = None)).
Proof. unfold h2_send. repeat case_match; intros [= <- <-]; cbn; eauto 10. Qed.
(** Without a call only a refusal is sent. *)
Lemma h2_trace_reject {A} peer q status body e st st1 (r : result A) st' :
  400 ≤ status → e_calls st1 = e_calls st → e_svc st1 = e_svc st → e_sent st1 = e_sent st →
  h2_reject q status body e st1 = (r, st') → (∃ x, r = Err x) ∧ ∃ new, h2_trace peer q st [] new st'.
Proof.
  intros Hs Ec Ev Es. unfold h2_reject, h2_send_status. destruct (h2_send _ _ _ _ _) as [r1 st2] eqn:S.
  apply h2_send_spec in S as (Ec2 & Ev2 & _ & S). intros E.
  assert (st' = st2 ∧ ∃ x, r = Err x) as [-> Ex] by (destruct r1; injection E as <- <-; eauto). split; [done|].
  destruct S as [S|(b & S & _)]; eexists; (split; [by rewrite Ec2, Ec, app_nil_r|cbn; lia|done|done|rewrite Ev2, Ev; constructor|rewrite S, Es|..]).
  - by rewrite app_nil_r.
  - cbn; lia.
  - constructor.
  - reflexivity.
  - cbn; lia.
  - constructor; [|constructor]. by left.
Qed.
Lemma h2_wire_sound peer q st st0 r st' :
  e_calls st = e_calls st0 → e_svc st = e_svc st0 → e_sent st = e_sent st0 →
  h2_wire q st = (r, st') →
  (∃ x, r = Ok x ∧ h2_message q = Some x) ∧ st' = st ∨ (∃ e, r = Err e) ∧ ∃ new, h2_trace peer q st0 [] new st'.
Proof.
  intros Ec Ev Es. unfold h2_wire, h2_message.
  assert (J : ∀ status body e, h2_reject q status body e st = (r, st') → 400 ≤ status →
    (∃ e', r = Err e') ∧ ∃ new, h2_trace peer q st0 [] new st') by (intros status body e E Hs; by eapply h2_trace_reject).
  destruct (bool_decide (q_method q = GET)).
  { destruct (_ ≫= _) as [b|]; [intros [= <- <-]; left; eauto|intros E; right; by apply J in E]. }
  case_bool_decide as M; [|intros E; right; by apply J in E].
  case_bool_decide as Ty; cbn [negb]; [|intros E; right; by apply J in E].
  rewrite bool_decide_true by done. destruct (read_h2_body _ _) as [b|e]; intros [= <- <-]; [left; eauto|right].
  split; [eauto|]. exists []. split; [by rewrite app_nil_r|cbn; lia|done|done|rewrite Ev; constructor|by rewrite app_nil_r|cbn; lia|constructor].
Qed.
Lemma handle_h2_request_sound peer q st r st' :
  handle_h2_request peer q st = (r, st') → ∃ calls new, h2_trace peer q st calls new st'.
Proof.
  unfold handle_h2_request. destruct (Acl.allows _ peer) eqn:A; cbn [negb].
  2: { intros E. apply (h2_trace_reject peer q 403 _ _ st) in E as [_ [new Tr]]; eauto; lia. }
  destruct (doh_path_authorized _ _) eqn:P; cbn [negb].
  2: { intros E. apply (h2_trace_reject peer q 404 _ _ st) in E as [_ [new Tr]]; eauto; lia. }
  destruct (h2_wire q _) as [r1 st1] eqn:W. apply (h2_wire_sound peer q _ st) in W as
    [((wire & -> & M) & ->)|([e ->] & new & Tr)]; [|intros [= <- <-]; eauto|done..].
  cbn [h2_load h2_count e_tick e_svc e_sent e_calls e_metrics] in *. destruct (handle wire peer _ _) as [reply svc] eqn:Hh.
  set (c := {| cl_tick := _ |}).
  assert (G : h2_gated peer c) by (by exists (e_tick st)).
  assert (R : ran peer (e_svc st) [c] svc) by (econstructor; [exact Hh|constructor]).
  assert (T0 : ∀ st2 new, e_calls st2 = e_calls st ++ [c] → e_svc st2 = svc → e_sent st2 = e_sent st ++ new →
    (length new ≤ 1)%nat → Forall (h2_fits [c]) new → ∃ calls new, h2_trace peer q st calls new st2).
  { intros st2 new Ec Ev Es L F. exists [c], new. split; [done|cbn; lia|by repeat constructor|by repeat constructor|by rewrite Ev|done..]. }
  destruct reply as [b| |].
  - intros E. apply h2_send_spec in E as (Ec & Ev & _ & [Es|(b' & Es & B)]).
    + apply (T0 st' []); [done|done|by rewrite app_nil_r|cbn; lia|constructor].
    + eapply T0; [done|done|exact Es|cbn; lia|]. constructor; [|constructor]. right. split; [done|]. exists b. split; [|done].
      cbn. constructor.
  - unfold h2_reject, h2_send_status. destruct (h2_send _ _ _ _ _) as [r2 st2] eqn:S.
    apply h2_send_spec in S as (Ec & Ev & _ & S). intros E. assert (st' = st2) as -> by (destruct r2; by injection E as _ <-).
    destruct S as [S|(b & S & _)].
    + apply (T0 st2 []); [done|done|by rewrite app_nil_r|cbn; lia|constructor].
    + eapply T0; [done|done|exact S|cbn; lia|]. constructor; [|constructor]. left. cbn. lia.
  - intros [= <- <-]. apply (T0 _ []); [done|done|by rewrite app_nil_r|cbn; lia|constructor].
Qed.

(** What the ALPN of an accepted connection selects. *)
Inductive Alpn : Type := AcmeChallenge | Http2 | Http1.
Definition alpn_route (alpn : option (list Z)) : Alpn :=
  if bool_decide (alpn = Some (bytes_of_string "acme-tls/1")) then AcmeChallenge
  else if bool_decide (alpn = Some (bytes_of_string "h2")) then Http2
  else Http1.

(** *** The two paths agree *)

Definition reason_of (status : Z) : string :=
  if status =? 200 then "OK" else if status =? 400 then "Bad Request" else if status =? 403 then "Forbidden"
  else if status =? 404 then "Not Found" else if status =? 405 then "Method Not Allowed"
  else if status =? 413 then "Payload Too Large" else "Unsupported Media Type".
Definition header_line (h : string * string) : string := h.1 +:+ ": " +:+ h.2.
(** An HTTP/2 response as HTTP/1.1 writes it; errors close the connection. *)
Definition render (close : bool) (r : H2Resp) : list Z :=
  let body := default [] (p_body r) in
  http_message
    (["HTTP/1.1 " +:+ show_uint (p_status r) +:+ " " +:+ reason_of (p_status r)] ++ map header_line (take 1 (p_headers r))
     ++ [length_line body] ++ map header_line (drop 1 (p_headers r))
     ++ [connection_line (close || (400 <=? p_status r))]) body.
(** The same request on both: its target, its content type and, for a POST of a DNS message,
    its body, which HTTP/1.1 announces by its length. *)
Record same_request (m path : list Z) (headers : list Header) (body : list Z) (q : H2Req) : Prop := {
  sr_method : q_method q = m;
  sr_path : q_path q = path_only path;
  sr_query : q_query q = snd <$> split_once 63 path;
  sr_type : content_type_is_dns_message headers =
            bool_decide (q_type q = Some (bytes_of_string "application/dns-message"));
  sr_body : m = POST → content_type_is_dns_message headers = true →
            content_length headers = Some (Z.of_nat (length body)) ∧
            ∃ fs, q_frames q = map (λ f, (Ok f, true)) fs ∧ concat fs = body }.
(** A POST of a DNS message over the cap. *)
Definition over_cap (m : list Z) (headers : list Header) (body : list Z) : Prop :=
  m = POST ∧ content_type_is_dns_message headers = true ∧ (MAX_BODY_BYTES < length body)%nat.
(** Two states that agree on everything but the connection. *)
Record same_state (st : DohSt) (h : H2St) : Prop := {
  ss_svc : e_svc h = d_svc st; ss_tick : e_tick h = d_tick st; ss_metrics : e_metrics h = d_metrics st;
  ss_wires : map cl_wire (e_calls h) = map cl_wire (d_calls st) }.

Lemma read_h2_body_ok fs buf :
  (length buf + length (concat fs) ≤ MAX_BODY_BYTES)%nat →
  read_h2_body (map (λ f, (Ok f, true)) fs) buf = Ok (buf ++ concat fs).
Proof.
  revert buf. induction fs as [|f fs IH]; intros buf Hl; cbn [map read_h2_body concat] in *; [by rewrite app_nil_r|].
  rewrite length_app in Hl. destruct (Nat.ltb_spec MAX_BODY_BYTES (length buf + length f)) as [L|L]; [lia|].
  cbn [negb]. rewrite IH by (rewrite length_app; lia). by rewrite <- app_assoc.
Qed.
Lemma read_h2_body_over fs buf :
  (MAX_BODY_BYTES < length buf + length (concat fs))%nat → (length buf ≤ MAX_BODY_BYTES)%nat →
  is_ok (read_h2_body (map (λ f, (Ok f, true)) fs) buf) = false.
Proof.
  revert buf. induction fs as [|f fs IH]; intros buf Hl Hb; cbn [map read_h2_body concat] in *; [cbn in Hl; lia|].
  rewrite length_app in Hl. destruct (Nat.ltb_spec MAX_BODY_BYTES (length buf + length f)) as [L|L]; [done|].
  apply IH; rewrite length_app; lia.
Qed.
Lemma render_error close status body :
  400 ≤ status →
  render close {| p_status := status; p_headers := [("content-type", "text/plain")]; p_body := Some body |}
    = simple_response status (reason_of status) body true.
Proof.
  intros Hs. unfold render, simple_response. cbn [p_status p_headers p_body default take drop map app].
  by rewrite (proj2 (Z.leb_le 400 status)), orb_true_r by done.
Qed.
Lemma render_answer close ttl body :
  render close {| p_status := 200; p_body := Some body;
    p_headers := ("content-type", "application/dns-message") ::
                 (if 0 <? ttl then [("cache-control", "max-age=" +:+ show_uint ttl)] else []) |}
    = dns_response body ttl close.
Proof.
  unfold render, dns_response. cbn [p_status p_headers p_body default take drop map app].
  change (400 <=? 200) with false. rewrite orb_false_r. by destruct (0 <? ttl).
Qed.

(** After the step both sides have sent the same response and agree again. *)
Definition agree (close : bool) {A} (st : DohSt) (h : H2St) (x : result A * DohSt) (y : result unit * H2St) : Prop :=
  ((λ _, ()) <$> x.1) = y.1 ∧ same_state x.2 y.2 ∧
  ∃ r, e_sent y.2 = e_sent h ++ [r] ∧ is_Some (p_body r) ∧ d_tx x.2 = d_tx st ++ render close r.
Lemma reject_agree {A B} close status reason body e q st0 h0 st h :
  reason = reason_of status → 400 ≤ status → same_state st h → (0 < d_wleft st)%nat → q_send q = true → q_data q = true →
  d_tx st = d_tx st0 → e_sent h = e_sent h0 →
  ∃ st' h', reject (A := A) status reason body e st = (Err e, st') ∧ h2_reject (A := B) q status body e h = (Err e, h') ∧
    agree close (A := A) st0 h0 (Err e, st') (Err e, h').
Proof.
  intros -> Hs [S1 S2 S3 S4] Hw Hq Hd Et Es. unfold reject, h2_reject, h2_send_status, h2_send, send.
  rewrite Hq, Hd. destruct (d_wleft st); [lia|]. cbn [negb]. eexists _, _. split_and!; [reflexivity..|].
  split; [done|]. split; [by split|]. cbn [fst snd d_tx e_sent h2_emit]. eexists.
  split_and!; [by rewrite Es|by eexists|]. by rewrite render_error, Et.
Qed.

(** The message is the same, or both refuse alike. *)
Lemma wire_agree close m path headers body q st0 h0 st h :
  same_request m path headers body q → ~ over_cap m headers body →
  same_state st h → (0 < d_wleft st)%nat → q_send q = true → q_data q = true →
  d_tx st = d_tx st0 → e_sent h = e_sent h0 →
  (∃ wire pending, request_wire m path headers body st = (Ok (wire, pending), st) ∧ h2_wire q h = (Ok wire, h)) ∨
  (∃ e st' h', request_wire m path headers body st = (Err e, st') ∧ h2_wire q h = (Err e, h') ∧
     agree (A := list Z) close st0 h0 (Err e, st') (Err e, h')).
Proof.
  intros [Rm Rp Rq Rt Rb] Nc Ss Hw Hq Hd Et Es. unfold request_wire, h2_wire.
  rewrite Rm, Rq, <- Rt.
  assert (Hg : (snd <$> split_once 63 path) ≫= dns_param_from_query = parse_get_dns_param path).
  { unfold parse_get_dns_param. by destruct (split_once 63 path) as [[]|]. }
  rewrite Hg.
  assert (J : ∀ status reason text e, reason = reason_of status → 400 ≤ status →
    ∃ e' st' h', reject (A := list Z * list Z) status reason text e st = (Err e', st') ∧
      h2_reject (A := list Z) q status text e h = (Err e', h') ∧ agree (A := list Z) close st0 h0 (Err e', st') (Err e', h')).
  { intros status reason text e Hr Hs. destruct (@reject_agree (list Z * list Z) (list Z) close status reason text e q st0 h0 st h)
      as (st' & h' & E1 & E2 & Ag); try done. exists e, st', h'. split_and!; [done..|]. exact Ag. }
  destruct (bool_decide (m = GET)); [destruct (parse_get_dns_param path) as [w|]; [left; eauto|right; by apply J]|].
  destruct (bool_decide (m = POST)) eqn:Mp; [apply bool_decide_eq_true in Mp|right; by apply J].
  destruct (content_type_is_dns_message headers) eqn:Ty; cbn [negb]; [|right; by apply J].
  destruct (Rb Mp eq_refl) as (Rl & fs & Rf & Rc). rewrite Rl, Rf. left.
  destruct (Z.ltb_spec (Z.of_nat MAX_BODY_BYTES) (Z.of_nat (length body))); [by destruct Nc; split_and!; [..|lia]|].
  rewrite Nat2Z.id, Nat.leb_refl, read_h2_body_ok by (rewrite Rc; cbn [length]; lia).
  eexists _, _. split; [reflexivity|]. by rewrite take_ge, Rc by lia.
Qed.

(** One request: unless the handler panics, both paths send the same response. *)
Lemma request_agree close m path headers body q peer st h :
  same_request m path headers body q →
  (Acl.allows (acl_at (d_tick st)) peer = true →
   doh_path_authorized (path_only path) (doh_auth_token (ctx_at (S (d_tick st)))) = true → ~ over_cap m headers body) →
  same_state st h → (0 < d_wleft st)%nat → q_send q = true → q_data q = true →
  let x := handle_request peer m path headers body close st in
  let y := handle_h2_request peer q h in
  agree close st h x y ∨ x.1 = Err "panic" ∧ y.1 = Err "panic" ∧ d_tx x.2 = d_tx st ∧ e_sent y.2 = e_sent h.
Proof.
  intros Rq Nc Ss Hw Hq Hd. cbv zeta. unfold handle_request, handle_h2_request.
  pose proof Ss as [S1 S2 S3 S4]. rewrite S2, (sr_path _ _ _ _ _ Rq).
  destruct (Acl.allows _ _); cbn [negb]; [specialize (Nc eq_refl)|clear Nc].
  2: { left. destruct (@reject_agree (list Z) unit close 403 "Forbidden" ("ACL" +:+ NL) "ACL denied" q st h
        (count count_denied (load st)) (h2_count count_denied (h2_load h))) as (st' & h' & -> & -> & Ag); try done.
       split; cbn; congruence. }
  change (d_tick (load st)) with (S (d_tick st)). change (e_tick (h2_load h)) with (S (e_tick h)). rewrite S2.
  destruct (doh_path_authorized _ _); cbn [negb]; [specialize (Nc eq_refl)|clear Nc].
  2: { left. destruct (@reject_agree (list Z) unit close 404 "Not Found" NL "unauthorized DoH path" q st h
        (load (load st)) (h2_load (h2_load h))) as (st' & h' & -> & -> & Ag); try done.
       split; cbn; congruence. }
  destruct (wire_agree close m path headers body q st h (load (load st)) (h2_load (h2_load h)))
    as [(wire & pending & -> & ->)|(e & st' & h' & -> & -> & Ag)]; try done; [split; cbn; congruence| |by left].
  cbn [load h2_load count h2_count d_tick e_tick d_svc e_svc]. rewrite S1, S2.
  destruct (handle _ _ _ _) as [[b| |] svc].
  - left. unfold send, h2_send. rewrite Hq, Hd. cbn [negb].
    change (d_wleft (called _ _ _)) with (d_wleft st). destruct (d_wleft st); [lia|].
    split; [done|]. split; [split; cbn; rewrite ?map_app; cbn; congruence|]. eexists. split_and!; [reflexivity|by eexists|].
    by rewrite render_answer.
  - left. match goal with |- agree _ _ _ (reject _ _ _ _ ?s) (h2_reject _ _ _ _ ?k) =>
      destruct (@reject_agree (list Z) unit close 400 "Bad Request" ("malformed DNS query" +:+ NL) "malformed DNS" q st h s k)
        as (st' & h' & -> & -> & Ag) end; try done. split; cbn; rewrite ?map_app; cbn; congruence.
  - by right.
Qed.

(** C13. Pipelined requests over HTTP/1.1.  On a connection that meets no deadline and whose
    writes succeed, from a peer that stays allowed under one token, fewer than 1000 well-formed keep-alive
    requests for the admitted path, cut into reads anyhow, each carrying a message that the
    handler answers, are all served in order;
    what is written is one response per request, and a client that reads responses
    by their lengths gets exactly the answers of the handler run on the messages of
    the requests, and nothing more.  (A message the handler is silent on would get a 400
    and end the connection.) *)
Theorem doh_pipeline peer st token reqs wires bs t :
  reqs ≠ [] → (length reqs < MAX_REQS_PER_CONN)%nat → (∀ n, late n = false) →
  concat (chunks (d_rx st)) = concat reqs → Forall (λ c, c ≠ []) (chunks (d_rx st)) → broken (d_rx st) = false →
  Forall2 (Request token) reqs wires → (∀ n, Acl.allows (acl_at n) peer = true) →
  (∀ n, doh_auth_token (ctx_at n) = token) → (length reqs ≤ d_wleft st)%nat →
  doh_replies peer wires (d_tick st) (d_svc st) = (map Answer bs, t) →
  Forall (λ b, Z.of_nat (length b) ≤ usize_max) bs →
  ∃ st' sent, serve_one peer st = (Ok (), st') ∧ d_svc st' = t ∧ d_tx st' = d_tx st ++ sent ∧
    client_read_all (length bs) sent = Some (bs, []).
Proof.
  intros Hne Hlen Hlate Htot Hc Hb Hreq Hacl Htok Hw Hr Hbs.
  destruct (serve_pipeline MAX_REQS_PER_CONN peer [] st token reqs wires bs t) as (st' & E & Hs & Ht); try done; [by right|].
  exists st', (concat (map response bs)). split_and!; [done..|].
  apply client_reads_all; [|done]. intros b. by eexists _, _.
Qed.

(** C14. Arbitrary bytes over HTTP/1.1: the connection ends, after at most 1000 calls of
    the handler; each call was made for a peer the allow-list permitted and a path the
    token admitted, both read for that request; the calls ran in order; and everything
    written is whole responses carrying answers of those calls, in order and none
    skipped, followed by at most one error page. *)
Theorem doh_hostile_stream peer st r st' :
  serve_one peer st = (r, st') →
  r ≠ Err "out of fuel" ∧ ∃ calls bs sent page, trace peer st calls bs sent page st' ∧
    (length calls ≤ MAX_REQS_PER_CONN)%nat.
Proof.
  intros E. split; [|by eapply serve_requests_sound].
  change r with (r, st').1. rewrite <- E. apply serve_requests_fueled.
Qed.

(** The one case in which they differ. *)
Lemma request_over_cap close m path headers body q peer st h :
  same_request m path headers body q → over_cap m headers body → same_state st h → (0 < d_wleft st)%nat →
  Acl.allows (acl_at (d_tick st)) peer = true →
  doh_path_authorized (path_only path) (doh_auth_token (ctx_at (S (d_tick st)))) = true →
  let x := handle_request peer m path headers body close st in
  let y := handle_h2_request peer q h in
  x.1 = Err "body too large" ∧
  d_tx x.2 = d_tx st ++ simple_response 413 "Payload Too Large" (bytes_of_string ("DoH body cap" +:+ NL)) true ∧
  is_ok y.1 = false ∧ e_sent y.2 = e_sent h.
Proof.
  intros [Rm Rp Rq Rt Rb] (-> & Ty & L) [S1 S2 S3 S4] Hw A P. cbv zeta.
  destruct (Rb eq_refl Ty) as (Rl & fs & Rf & Rc).
  unfold handle_request, handle_h2_request, request_wire, h2_wire. rewrite S2, Rp, A.
  change (d_tick (load st)) with (S (d_tick st)). change (e_tick (h2_load h)) with (S (e_tick h)).
  rewrite S2, P, Rm, Ty, Rl, Rf. cbn [negb]. rewrite Rt in Ty. rewrite Ty. cbn [negb].
  destruct (Z.ltb_spec (Z.of_nat MAX_BODY_BYTES) (Z.of_nat (length body))); [|lia].
  rewrite !(bool_decide_true (POST = POST)), !(bool_decide_false (POST = GET)) by done.
  pose proof (read_h2_body_over fs [] ltac:(rewrite Rc; exact L) ltac:(cbn; lia)) as B.
  destruct (read_h2_body _ _); [done|]. unfold reject, send. change (d_wleft (load (load st))) with (d_wleft st).
  destruct (d_wleft st); [lia|]. done.
Qed.

End Doh.
End Doh.

(** ** Examples *)
Module DohExamples.
Import Handler HandlerExamples Service Http Listeners ListenerExamples Doh.

#[local] Existing Instances HandlerExamples.ExMoka HandlerExamples.ExGovernor Base64.b64_rfc4648.
#[local] Instance ExHickory : Hickory := ex_hickory 4.

Definition ex_token : ListenerContext :=
  {| ctx_name := "doh"; ctx_dns64 := false; doh_auth_token := Some "s3cret" |}.
Definition crlf : string := String (Ascii.ascii_of_nat 13) (String (Ascii.ascii_of_nat 10) "").
Definition ex_path (wire : list Z) : list Z :=
  bytes_of_string "/dns-query/s3cret?dns=" ++ b64url_encode wire.
Definition ex_get_head (wire : list Z) : list Z :=
  bytes_of_string "GET " ++ ex_path wire ++ bytes_of_string (" HTTP/1.1" +:+ crlf +:+ "Host: r.example").
Definition ex_post_head (wire : list Z) : list Z :=
  bytes_of_string ("POST /dns-query/s3cret HTTP/1.1" +:+ crlf +:+ "Content-Type: application/dns-message" +:+ crlf
                   +:+ "content-length:  " +:+ show_uint (Z.of_nat (length wire))).
Definition ex_w1 : list Z := ex_q "www.com." RT_A.
Definition ex_w2 : list Z := ex_q "1.0.0.127.in-addr.arpa." RT_PTR.
Definition ex_reqs : list (list Z) := [ex_get_head ex_w1 ++ needle; ex_post_head ex_w2 ++ needle ++ ex_w2].
(** The reads cut the requests in the middle of the blank line and of the body. *)
Definition ex_chunks : list (list Z) :=
  let s := concat ex_reqs in
  let n := (length (ex_get_head ex_w1) + 2)%nat in
  [take n s; take 100 (drop n s); drop 100 (drop n s)].
Definition ex_doh (c : list (list Z)) : DohSt (T := LiveHandler Recursor) :=
  {| d_rx := {| chunks := c; broken := false |}; d_tx := []; d_wleft := 10; d_svc := ex_live; d_tick := 0;
     d_metrics := zero_metrics; d_calls := [] |}.
Definition ex_replies := doh_replies (λ _, ex_token) (sa_ip (ex_peer 2)) [ex_w1; ex_w2] 0 ex_live.
Definition ex_bodies : list (list Z) := omap answer_of ex_replies.1.

Lemma ex_request m head path headers :
  parse_request_head head = Ok (m, path, headers) → (length head + 4 <=? Z.to_nat 8192)%nat = true →
  is_ok (validate_framing headers) = true → asks_close headers = false →
  doh_path_authorized (path_only path) (Some "s3cret") = true → RequestFor (Some "s3cret") m head path headers.
Proof.
  intros [Hu Hh]%parse_head_iff Hs%Nat.leb_le Hf Hc Hg. split; try done.
  by destruct (validate_framing headers) as [[]|].
Qed.
Lemma doh_pipeline_witness :
  map rcode_of ex_replies.1 = [0; 0] ∧ ∃ st' sent,
    serve_one (λ _, ex_acl) (λ _, ex_token) (λ _, false) (sa_ip (ex_peer 2)) (ex_doh ex_chunks) = (Ok (), st') ∧
    client_read_all 2 sent = Some (ex_bodies, []).
Proof.
  split; [vm_compute; reflexivity|].
  assert (R1 : ex_replies.1 = map Answer ex_bodies) by (vm_compute; reflexivity).
  assert (R : ex_replies = (map Answer ex_bodies, ex_replies.2)).
  { rewrite <- R1. apply surjective_pairing. }
  destruct (doh_pipeline (λ _, ex_acl) (λ _, ex_token) (λ _, false) (sa_ip (ex_peer 2)) (ex_doh ex_chunks) (Some "s3cret")
    ex_reqs [ex_w1; ex_w2] ex_bodies ex_replies.2) as (st' & sent & E & _ & _ & C).
  - done.
  - apply (Z2Nat.inj_lt 2 1000); lia.
  - done.
  - vm_compute. reflexivity.
  - repeat constructor; vm_compute; done.
  - done.
  - repeat constructor.
    + eapply (RGet _ _ (ex_path ex_w1)); [apply ex_request|]; vm_compute; reflexivity.
    + eapply (RPost _ _ (bytes_of_string "/dns-query/s3cret")); [apply ex_request|..];
        [vm_compute; reflexivity..|apply Nat2Z.inj_le; vm_compute; discriminate].
  - intros n. vm_compute. reflexivity.
  - done.
  - vm_compute. lia.
  - exact R.
  - apply (bool_decide_unpack (Forall (λ b, Z.of_nat (length b) ≤ usize_max) ex_bodies)). vm_compute. exact I.
  - exists st', sent. by split.
Defined.

(** A good request, then one without the token. *)
Definition ex_bad : list Z :=
  bytes_of_string ("GET /dns-query HTTP/1.1" +:+ crlf +:+ "Host: r.example") ++ needle ++ [1; 2; 3].
Lemma doh_hostile_stream_witness :
  let '(r, st') := serve_one (λ _, ex_acl) (λ _, ex_token) (λ _, false) (sa_ip (ex_peer 2))
                     (ex_doh [ex_get_head ex_w1 ++ needle ++ ex_bad]) in
  r = Err "unauthorized DoH path" ∧ map (rcode_of ∘ cl_reply) (d_calls st') = [0] ∧
  ∃ calls bs sent page, trace (λ _, ex_acl) (λ _, ex_token) (sa_ip (ex_peer 2))
    (ex_doh [ex_get_head ex_w1 ++ needle ++ ex_bad]) calls bs sent page st' ∧ (length calls ≤ MAX_REQS_PER_CONN)%nat.
Proof.
  destruct (serve_one _ _ _ _ _) as [r st'] eqn:E.
  split; [change r with (r, st').1; rewrite <- E; vm_compute; reflexivity|].
  split; [change st' with (r, st').2; rewrite <- E; vm_compute; reflexivity|].
  apply (doh_hostile_stream _ _ _ _ _ _ _ E).
Defined.

(** The same query as a GET over HTTP/1.1 and over HTTP/2. *)
Definition ex_h2 : H2Req := {|
  q_method := GET; q_path := bytes_of_string "/dns-query/s3cret";
  q_query := Some (bytes_of_string "dns=" ++ b64url_encode ex_w1);
  q_type := Some (bytes_of_string "application/dns-message");
  q_frames := [(Ok [7], true); (Ok [8; 9], true)]; q_send := true; q_data := true |}.
Definition ex_h2_st : H2St (T := LiveHandler Recursor) :=
  {| e_svc := ex_live; e_tick := 0; e_metrics := zero_metrics; e_sent := []; e_calls := [] |}.
Definition ex_headers : list Header :=
  [(bytes_of_string "content-type", bytes_of_string "application/dns-message")].
End DohExamples.
