(* ===== verification/DohAccept.v ===== *)
(** * The DoH listener ([io/doh.rs])

    The accept loop of the DoH listener as a machine driven by events, as [Accept] does
    for TCP and DoT: a stream arrives or [accept] fails, a TLS handshake ends and its
    ALPN picks the protocol, an HTTP/1.1 connection takes the next turn of its loop, the
    [h2] crate hands over a stream, the task of some stream runs.  Connections and
    streams are tasks that share the service, the counters and the swapped values. *)
From S2P Require Import Prelude Hickory Reference Net Cache TtlCaches Text ClientPolicy Tunnel Handler Service Http Listeners Doh.

Module DohAccept.
Import Handler Service Http Listeners Doh.

Section DohAccept.
Context `{NameOps} {HK : Hickory} `{IpNets, Base64Url} {T : Type} `{!DnsHandler T}.
Context (acl_at : nat → Acl.ClientAcl) (ctx_at : nat → ListenerContext).

(** [OnHttp1 left pending]: [left] more requests may be read, [pending] was read already.
    [OnHttp2 accepting]: the [h2] crate still hands over streams. *)
Inductive Phase : Type := Handshaking | OnHttp1 (left : nat) (pending : list Z) | OnHttp2 (accepting : bool) | Closed.
(** A finished task of an HTTP/2 stream: its number, the calls it made, what it sent. *)
Record Stream := { s_id : nat; s_calls : list Call; s_sent : list H2Resp }.
(** [k_calls] are the calls made for HTTP/1.1; [k_reqs] are the HTTP/2 requests in the
    order they were handed over, [k_tasks] the numbers of those being worked on. *)
Record Conn := {
  k_peer : SocketAddr; k_phase : Phase; k_rx : Rx; k_tx : list Z; k_wleft : nat; k_calls : list Call;
  k_reqs : list H2Req; k_tasks : list nat; k_streams : list Stream }.
Record AccSt := { a_svc : T; a_tick : nat; a_metrics : Metrics; a_conns : list Conn }.

Inductive Event : Type :=
| AcceptError
| Arrive (peer : SocketAddr)
| Handshake (i : nat) (r : option (option (list Z) * Rx * nat))
| Turn (i : nat) (late : bool)
| Accepted (i : nat) (r : option H2Req)
| Run (i k : nat)
| Other (f : T → T).

Definition no_rx : Rx := {| chunks := []; broken := false |}.
Definition conn_new (peer : SocketAddr) : Conn :=
  {| k_peer := peer; k_phase := Handshaking; k_rx := no_rx; k_tx := []; k_wleft := 0; k_calls := [];
     k_reqs := []; k_tasks := []; k_streams := [] |}.
Definition set_phase (ph : Phase) (c : Conn) : Conn :=
  {| k_peer := k_peer c; k_phase := ph; k_rx := k_rx c; k_tx := k_tx c; k_wleft := k_wleft c; k_calls := k_calls c;
     k_reqs := k_reqs c; k_tasks := k_tasks c; k_streams := k_streams c |}.
Definition with_conns (f : list Conn → list Conn) (a : AccSt) : AccSt :=
  {| a_svc := a_svc a; a_tick := a_tick a; a_metrics := a_metrics a; a_conns := f (a_conns a) |}.
(** Work on connection [i], if there is one. *)
Definition on_conn (i : nat) (f : Conn → AccSt → AccSt) (a : AccSt) : AccSt :=
  match a_conns a !! i with Some c => f c a | None => a end.

(** One pass of [accept_loop]. *)
Definition on_arrive (peer : SocketAddr) (a : AccSt) : AccSt :=
  let '(v, st) := accept acl_at (sa_ip peer)
    {| c_chan := {| inp := []; out := []; wleft := 0 |}; c_broken := false; c_svc := a_svc a; c_tick := a_tick a;
       c_metrics := a_metrics a; c_log := [] |} in
  {| a_svc := c_svc st; a_tick := c_tick st; a_metrics := c_metrics st;
     a_conns := match v with Dropped => a_conns a | Serve => a_conns a ++ [conn_new peer] end |}.
(** [acceptor.accept], then the three ways of the negotiated ALPN. *)
Definition on_handshake (i : nat) (r : option (option (list Z) * Rx * nat)) : AccSt → AccSt :=
  on_conn i (λ c a,
    match k_phase c with
    | Handshaking =>
        let c' := match r with
                  | None => set_phase Closed c
                  | Some (alpn, rx, wl) =>
                      {| k_peer := k_peer c; k_phase := match alpn_route alpn with
                                                        | AcmeChallenge => Closed
                                                        | Http2 => OnHttp2 true
                                                        | Http1 => OnHttp1 MAX_REQS_PER_CONN [] end;
                         k_rx := rx; k_tx := k_tx c; k_wleft := wl; k_calls := k_calls c;
                         k_reqs := k_reqs c; k_tasks := k_tasks c; k_streams := k_streams c |}
                  end in
        with_conns (<[i := c']>) a
    | _ => a
    end).
(** The next turn of the loop of [serve_one]. *)
Definition h1_enter (c : Conn) (a : AccSt) : DohSt :=
  {| d_rx := k_rx c; d_tx := k_tx c; d_wleft := k_wleft c; d_svc := a_svc a; d_tick := a_tick a;
     d_metrics := a_metrics a; d_calls := k_calls c |}.
Definition h1_leave (i : nat) (ph : Phase) (c : Conn) (st : DohSt (T := T)) (a : AccSt) : AccSt :=
  {| a_svc := d_svc st; a_tick := d_tick st; a_metrics := d_metrics st;
     a_conns := <[i := {| k_peer := k_peer c; k_phase := ph; k_rx := d_rx st; k_tx := d_tx st; k_wleft := d_wleft st;
                          k_calls := d_calls st; k_reqs := k_reqs c; k_tasks := k_tasks c;
                          k_streams := k_streams c |}]> (a_conns a) |}.
Definition on_turn (i : nat) (late : bool) : AccSt → AccSt :=
  on_conn i (λ c a,
    match k_phase c with
    | OnHttp1 (S left') pending =>
        match serve_request acl_at ctx_at (λ _, late) left' (sa_ip (k_peer c)) pending (h1_enter c a) with
        | inl (_, st) => h1_leave i Closed c st a
        | inr (pending, st) => h1_leave i (OnHttp1 left' pending) c st a
        end
    | OnHttp1 O _ => with_conns (<[i := set_phase Closed c]>) a
    | _ => a
    end).
(** [conn.accept] in [serve_h2]; [None]: it ended or failed, as does a failed handshake. *)
Definition on_accepted (i : nat) (r : option H2Req) : AccSt → AccSt :=
  on_conn i (λ c a,
    match k_phase c, r with
    | OnHttp2 true, Some q =>
        with_conns (<[i := {| k_peer := k_peer c; k_phase := OnHttp2 true; k_rx := k_rx c; k_tx := k_tx c; k_wleft := k_wleft c;
                              k_calls := k_calls c; k_reqs := k_reqs c ++ [q];
                              k_tasks := k_tasks c ++ [length (k_reqs c)]; k_streams := k_streams c |}]>) a
    | OnHttp2 true, None => with_conns (<[i := set_phase (OnHttp2 false) c]>) a
    | _, _ => a
    end).
(** Some task of the connection runs. *)
Definition on_run (i k : nat) : AccSt → AccSt :=
  on_conn i (λ c a,
    match n ← k_tasks c !! k; q ← k_reqs c !! n; Some (n, q) with
    | Some (n, q) =>
        let '(_, st) := handle_h2_request acl_at ctx_at (sa_ip (k_peer c)) q
          {| e_svc := a_svc a; e_tick := a_tick a; e_metrics := a_metrics a; e_sent := []; e_calls := [] |} in
        {| a_svc := e_svc st; a_tick := e_tick st; a_metrics := e_metrics st;
           a_conns := <[i := {| k_peer := k_peer c; k_phase := k_phase c; k_rx := k_rx c; k_tx := k_tx c;
                                k_wleft := k_wleft c; k_calls := k_calls c; k_reqs := k_reqs c;
                                k_tasks := delete k (k_tasks c);
                                k_streams := k_streams c ++ [{| s_id := n; s_calls := e_calls st; s_sent := e_sent st |}] |}]>
                        (a_conns a) |}
    | None => a
    end).
Definition acc_step (a : AccSt) (e : Event) : AccSt :=
  match e with
  | AcceptError => a
  | Arrive peer => on_arrive peer a
  | Handshake i r => on_handshake i r a
  | Turn i late => on_turn i late a
  | Accepted i r => on_accepted i r a
  | Run i k => on_run i k a
  | Other f => {| a_svc := f (a_svc a); a_tick := a_tick a; a_metrics := a_metrics a; a_conns := a_conns a |}
  end.
Definition accept_loop (evs : list Event) (a : AccSt) : AccSt := foldl acc_step a evs.
Definition acc_new (svc : T) (m : Metrics) : AccSt := {| a_svc := svc; a_tick := 0; a_metrics := m; a_conns := [] |}.

(** ** Every connection and every stream sees its own requests only *)

(** The handler was called with this message for this peer and gave this reply. *)
Definition handled (peer : IpAddr) (c : Call) : Prop :=
  ∃ t, (handle (cl_wire c) peer (ctx_at (cl_tick c - 1)) t).1 = cl_reply c.
Definition h1_call (peer : IpAddr) (c : Call) : Prop := gated acl_at ctx_at peer c ∧ handled peer c.
Definition h2_call (peer : IpAddr) (q : H2Req) (c : Call) : Prop :=
  h2_gated acl_at ctx_at peer c ∧ handled peer c ∧ cl_path c = q_path q ∧ h2_message q = Some (cl_wire c).
(** What was written: responses to the messages [bs], then at most an error page. *)
Definition written (c : Conn) (bs : list (list Z)) (page : list Z) : Prop :=
  ∃ sent, Forall2 carries bs sent ∧ k_tx c = concat sent ++ page ∧ last_page page.
Definition answers (c : Conn) : list (list Z) := omap (answer_of ∘ cl_reply) (k_calls c).
Record stream_ok (c : Conn) (s : Stream) : Prop := {
  so_request : ∃ q, k_reqs c !! s_id s = Some q ∧ Forall (h2_call (sa_ip (k_peer c)) q) (s_calls s);
  so_calls : (length (s_calls s) ≤ 1)%nat;
  so_sent : (length (s_sent s) ≤ 1)%nat;
  so_fits : Forall (h2_fits (s_calls s)) (s_sent s) }.
Record conn_ok (c : Conn) : Prop := {
  ok_admitted : ∃ n, Acl.allows (acl_at n) (sa_ip (k_peer c)) = true;
  ok_calls : Forall (h1_call (sa_ip (k_peer c))) (k_calls c);
  ok_bound : (length (k_calls c) ≤ MAX_REQS_PER_CONN)%nat;
  ok_left : ∀ left p, k_phase c = OnHttp1 left p → (length (k_calls c) + left ≤ MAX_REQS_PER_CONN)%nat;
  ok_written : ∃ bs page, written c bs page ∧ bs `prefix_of` answers c ∧
                 (∀ left p, k_phase c = OnHttp1 left p → bs = answers c ∧ page = []);
  ok_once : NoDup (k_tasks c ++ map s_id (k_streams c));
  ok_known : Forall (λ n, (n < length (k_reqs c))%nat) (k_tasks c ++ map s_id (k_streams c));
  ok_streams : Forall (stream_ok c) (k_streams c);
  ok_silent : k_phase c = Handshaking → k_tx c = [] ∧ k_calls c = [] ∧ k_reqs c = [] }.
Definition acc_ok (a : AccSt) : Prop := Forall conn_ok (a_conns a).

Lemma ran_handled peer t cs t' : ran ctx_at peer t cs t' → Forall (handled peer) cs.
Proof.
  induction 1 as [|t c t1 cs t2 Hh _ IH]; constructor; [|exact IH]. exists t. by rewrite Hh.
Qed.
Lemma conn_new_ok peer n : Acl.allows (acl_at n) (sa_ip peer) = true → conn_ok (conn_new peer).
Proof.
  intros A. split; cbn; try done; try (by constructor); [by exists n|lia|].
  exists [], []. split_and!; [|done|done]. exists []. split_and!; [constructor|done|by left].
Qed.
(** A change of phase that opens no HTTP/1.1 connection. *)
Lemma set_phase_ok ph c :
  ph ≠ Handshaking → (∀ left p, ph ≠ OnHttp1 left p) → conn_ok c → conn_ok (set_phase ph c).
Proof.
  intros Nh N1 [Ad Ca Bo _ (bs & page & W & P & _) On Kn St _]. split; try done.
  - intros left p E. by apply N1 in E.
  - exists bs, page. split_and!; [done..|]. intros left p E. by apply N1 in E.
  - eapply Forall_impl; [exact St|]. by intros s [? ? ? ?].
Qed.
(** Replacing a connection by one that is in order. *)
Lemma insert_ok i c l : Forall conn_ok l → conn_ok c → Forall conn_ok (<[i := c]> l).
Proof. intros L C. by apply Forall_insert. Qed.
Lemma on_conn_ok i f a :
  acc_ok a → (∀ c, a_conns a !! i = Some c → conn_ok c → acc_ok (f c a)) → acc_ok (on_conn i f a).
Proof.
  intros A F. unfold on_conn. destruct (a_conns a !! i) as [c|] eqn:C; [|done]. apply F; [done|]. by eapply Forall_lookup_1.
Qed.

Lemma doh_arrive_ok peer a : acc_ok a → acc_ok (on_arrive peer a).
Proof.
  intros A. unfold acc_ok, on_arrive, accept. cbn. destruct (Acl.allows (acl_at (a_tick a)) (sa_ip peer)) eqn:Al; cbn; [|done].
  destruct (is_ready _); [|done]. apply Forall_app. split; [done|]. constructor; [by eapply conn_new_ok|constructor].
Qed.
Lemma doh_handshake_ok i r a : acc_ok a → acc_ok (on_handshake i r a).
Proof.
  intros A. apply on_conn_ok; [done|]. intros c _ C. destruct (k_phase c) eqn:Ph; try done. apply insert_ok; [done|].
  destruct r as [[[alpn rx] wl]|]; [|by apply set_phase_ok].
  destruct C as [Ad Ca Bo _ (bs & page & W & P & _) On Kn St Si]. destruct (Si Ph) as (Et & Ec & Er).
  split; cbn; try done.
  - rewrite Ec. intros left p E. destruct (alpn_route alpn); try done. injection E as <- _. cbn. lia.
  - exists [], []. split_and!; [|apply prefix_nil|].
    + exists []. split_and!; [constructor|by rewrite Et|by left].
    + intros left p _. unfold answers. cbn. by rewrite Ec.
  - eapply Forall_impl; [exact St|]. by intros s [? ? ? ?].
Qed.
Lemma h1_leave_ok i ph c calls bs sent page st a :
  acc_ok a → conn_ok c → ph ≠ Handshaking → (∃ left p, k_phase c = OnHttp1 (S left) p ∧ ∀ l p', ph = OnHttp1 l p' → l = left) →
  trace acl_at ctx_at (sa_ip (k_peer c)) (h1_enter c a) calls bs sent page st → (length calls ≤ 1)%nat →
  (∀ l p, ph = OnHttp1 l p → page = [] ∧ bs = omap (answer_of ∘ cl_reply) calls) → acc_ok (h1_leave i ph c st a).
Proof.
  intros A [Ad Ca Bo Le (bs0 & pg0 & (s0 & F0 & T0 & _) & _ & W0) On Kn St _] Nh (left & p & Ph & Pl)
    [Tc Tg Tr Ts Tp To Tl] Ln Op.
  destruct (W0 _ _ Ph) as [-> ->]. specialize (Le _ _ Ph). cbn in Tc, To. rewrite app_nil_r in T0.
  apply insert_ok; [done|]. split; cbn; try done.
  - rewrite Tc. apply Forall_app. split; [done|]. apply Forall_and. split; [done|]. by eapply ran_handled.
  - rewrite Tc, length_app. lia.
  - intros l p' E. rewrite (Pl _ _ E), Tc, length_app. lia.
  - exists (answers c ++ bs), page. split_and!.
    + exists (s0 ++ sent). split_and!; [by apply Forall2_app| |done]. cbn. by rewrite To, T0, concat_app, <- app_assoc.
    + unfold answers. cbn. rewrite Tc, omap_app. by apply prefix_app.
    + intros l p' E. destruct (Op _ _ E) as [-> ->]. unfold answers. cbn. by rewrite Tc, omap_app.
  - eapply Forall_impl; [exact St|]. by intros s [? ? ? ?].
Qed.
Lemma doh_turn_ok i late a : acc_ok a → acc_ok (on_turn i late a).
Proof.
  intros A. apply on_conn_ok; [done|]. intros c _ C. destruct (k_phase c) as [|[|left] p| |] eqn:Ph; try done.
  { apply insert_ok; [done|]. by apply set_phase_ok. }
  pose proof (serve_request_sound acl_at ctx_at (λ _, late) left (sa_ip (k_peer c)) p (h1_enter c a)) as S.
  destruct (serve_request _ _ _ _ _ _ _) as [[r st]|[p' st]].
  - destruct S as (calls & bs & sent & page & Tr & L). eapply h1_leave_ok; [done|done|done| |exact Tr|done|done]. by exists left, p.
  - destruct S as (calls & bs & sent & Tr & L & B). eapply h1_leave_ok; [done|done|done| |exact Tr|done|done].
    exists left, p. split; [done|]. by intros l q [= -> _].
Qed.
Lemma on_accepted_ok i r a : acc_ok a → acc_ok (on_accepted i r a).
Proof.
  intros A. apply on_conn_ok; [done|]. intros c _ C. destruct (k_phase c) as [| |[]|] eqn:Ph; try done.
  destruct r as [q|]; [|apply insert_ok; [done|]; by apply set_phase_ok]. apply insert_ok; [done|].
  destruct C as [Ad Ca Bo _ (bs & page & W & P & _) On Kn St _].
  assert (Fr : length (k_reqs c) ∉ k_tasks c ++ map s_id (k_streams c)).
  { intros E. rewrite Forall_forall in Kn. apply Kn in E. lia. }
  split; cbn; try done.
  - by exists bs, page.
  - rewrite <- app_assoc. apply NoDup_Permutation_proper with (x := length (k_reqs c) :: k_tasks c ++ map s_id (k_streams c)).
    + by rewrite Permutation_middle.
    + by constructor.
  - rewrite <- app_assoc, length_app. cbn. apply Forall_app in Kn as [K1 K2].
    apply Forall_app; split; [|constructor; [lia|]]; (eapply Forall_impl; [eassumption|]); cbn; lia.
  - eapply Forall_impl; [exact St|]. intros s [(q' & E & F) ? ? ?]. split; try done. exists q'. split; [|done].
    cbn. by apply lookup_app_l_Some.
Qed.
Lemma on_run_ok i k a : acc_ok a → acc_ok (on_run i k a).
Proof.
  intros A. apply on_conn_ok; [done|]. intros c _ [Ad Ca Bo Le W On Kn St Si].
  destruct (k_tasks c !! k) as [n|] eqn:Tk; cbn; [|done]. destruct (k_reqs c !! n) as [q|] eqn:Rq; cbn; [|done].
  destruct (handle_h2_request _ _ _ _ _) as [r st] eqn:E.
  apply handle_h2_request_sound in E as (calls & new & [Hc Hone Hg Ho Hr Hs Hsg Hf]). cbn in Hc, Hs.
  apply insert_ok; [done|].
  assert (Pm : delete k (k_tasks c) ++ map s_id (k_streams c) ++ [n] ≡ₚ k_tasks c ++ map s_id (k_streams c)).
  { rewrite app_assoc, Permutation_app_comm. cbn. rewrite app_comm_cons. f_equiv. symmetry. by apply delete_Permutation. }
  split; cbn; try done.
  - rewrite map_app. cbn. by rewrite Pm.
  - rewrite map_app. cbn. by rewrite Pm.
  - apply Forall_app. split; [eapply Forall_impl; [exact St|]; by intros s [? ? ? ?]|]. constructor; [|constructor].
    rewrite Hc, Hs. split; cbn; try done. exists q. split; [done|].
    apply ran_handled in Hr. clear -Hg Ho Hr. induction calls as [|x xs IH]; [done|].
    apply Forall_cons in Hg as [? ?], Ho as [[? ?] ?], Hr as [? ?]. constructor; [done|]. by apply IH.
Qed.
Lemma doh_loop_ok evs a : acc_ok a → acc_ok (accept_loop evs a).
Proof.
  revert a. induction evs as [|e evs IH]; intros a A; [done|]. apply IH. destruct e; cbn; try done.
  - by apply doh_arrive_ok.
  - by apply doh_handshake_ok.
  - by apply doh_turn_ok.
  - by apply on_accepted_ok.
  - by apply on_run_ok.
Qed.
End DohAccept.

Section Theorems.
Context `{NameOps} {HK : Hickory} `{IpNets, Base64Url} {T : Type} `{!DnsHandler T}.

(** C17. The DoH listener keeps connections and streams apart.  Whatever arrives and
    however handshakes, turns, HTTP/2 streams, reloads and other work interleave: every
    connection was allowed when it was accepted, and nothing is read or written before
    its handshake is over; every call of the handler was made for its own peer while
    the allow-list permitted it and the token admitted the path; over HTTP/1.1 at most
    1000 calls are made and what is written are whole responses with the answers
    of those calls, in order, all of them while the connection is open, then at
    most one error page; over HTTP/2 every stream is worked on once, hands the handler at
    most the message of its own request, and gets at most one response, a refusal or
    the answer of that call. *)
Theorem doh_streams_apart acl_at ctx_at evs (svc : T) m :
  Forall (conn_ok acl_at ctx_at) (a_conns (accept_loop acl_at ctx_at evs (acc_new svc m))).
Proof. apply doh_loop_ok. by apply Forall_nil. Qed.
End Theorems.
End DohAccept.

(** ** Examples *)
Module DohAcceptExamples.
Import Handler HandlerExamples Service Http Listeners ListenerExamples Doh DohExamples DohAccept.

#[local] Existing Instances HandlerExamples.ExMoka HandlerExamples.ExGovernor Base64.b64_rfc4648.
#[local] Existing Instance DohExamples.ExHickory.

(** Three peers, one of them not allowed.  The first connection speaks HTTP/1.1 and
    sends two requests in awkward pieces; the second speaks HTTP/2, and the
    second of its two streams, which has no query, is worked on first. *)
Definition ex_bad_stream : H2Req := {|
  q_method := GET; q_path := bytes_of_string "/dns-query/s3cret"; q_query := None; q_type := None;
  q_frames := []; q_send := true; q_data := true |}.
Definition ex_evs : list (Event (T := LiveHandler Recursor)) :=
  [AcceptError; Arrive (ex_peer 2); Arrive {| sa_ip := V4 [203; 0; 113; 9]; sa_port := 4000 |}; Arrive (ex_peer 3);
   Handshake 1 (Some (Some (bytes_of_string "h2"), no_rx, 0%nat)); Accepted 1 (Some ex_h2);
   Handshake 0 (Some (None, {| chunks := ex_chunks; broken := false |}, 10%nat)); Turn 0 false;
   Accepted 1 (Some ex_bad_stream); Run 1 1; Turn 0 false; Accepted 1 None; Run 1 0; Accepted 1 (Some ex_h2); Turn 0 false].
Definition ex_acc : AccSt (T := LiveHandler Recursor) :=
  accept_loop (λ _, ex_acl) (λ _, ex_token) ex_evs (acc_new ex_live zero_metrics).

Lemma doh_streams_apart_witness :
  map (λ c, map (rcode_of ∘ cl_reply) (k_calls c)) (a_conns ex_acc) = [[0; 0]; []] ∧
  map (λ c, map (λ s, (s_id s, map (rcode_of ∘ cl_reply) (s_calls s), map p_status (s_sent s))) (k_streams c))
    (a_conns ex_acc) = [[]; [(1%nat, [], [400]); (0%nat, [0], [200])]] ∧
  acl_denied (a_metrics ex_acc) = 1 ∧ Forall (conn_ok (T := LiveHandler Recursor) (λ _, ex_acl) (λ _, ex_token)) (a_conns ex_acc).
Proof.
  split; [vm_compute; reflexivity|]. split; [vm_compute; reflexivity|]. split; [vm_compute; reflexivity|].
  exact (doh_streams_apart (λ _, ex_acl) (λ _, ex_token) ex_evs ex_live zero_metrics).
Defined.
End DohAcceptExamples.
