(* ===== verification/EndToEnd.v ===== *)
(** * From the socket to the anchors

    The transports are proved against the interface [DnsHandler]; the resolver is one
    instance of it.  A contract is what a handler keeps of its own state and what holds
    of each of its replies.  Here contracts are carried through the wrappers and
    through the listeners, under any interleaving of their tasks, to the bytes that
    leave the sockets; and the resolver's contract about the AD bit is discharged
    by [Provenance]. *)
From S2P Require Import Prelude Hickory Reference Net Dns64 Cache TtlCaches Text LocalZones.
From S2P Require Import Anchor Dnssec Validator Iterative ClientPolicy Tunnel Forwarder Handler Provenance.
From S2P Require Import Service Http Listeners Accept Doh DohAccept.

Module EndToEnd.
Import Anchor Dnssec Validator Handler Provenance Service Listeners Accept.

(** [J] holds of the handler between calls, [Q] of every query and its reply. *)
Class Contract `{NameOps} {HK : Hickory} (T : Type) `{!DnsHandler T} (J : T → Prop) (Q : list Z → Reply → Prop) : Prop := {
  contract_handle q peer ctx t r t' : J t → handle q peer ctx t = (r, t') → J t' ∧ Q q r;
  contract_refused q : Q q (reply_of (build_refused q));
  contract_silent q : Q q NoReply }.

(** ** Wrappers *)
Section Wrappers.
Context `{NameOps} {HK : Hickory} {T : Type} `{!DnsHandler T} (J : T → Prop) (Q : list Z → Reply → Prop).

#[export] Instance live_contract : Contract T J Q → Contract (LiveHandler T) (λ l, J (inner l)) Q.
Proof.
  intros C. split; [|apply contract_refused|apply contract_silent].
  intros q peer ctx [t] r t' HJ. cbn. destruct (handle q peer ctx t) as [r1 t1] eqn:E. intros [= <- <-].
  by apply contract_handle in E.
Qed.
#[export] Instance dispatch_contract : Contract T J Q → Contract (MainDispatchHandler T) (λ m, J (md_inner m)) Q.
Proof.
  intros C. split; [|apply contract_refused|apply contract_silent].
  intros q peer ctx [t d] r t' HJ. cbn. destruct d; [intros [= <- <-]; split; [done|apply contract_silent]|].
  destruct (handle q peer ctx t) as [r1 t1] eqn:E. apply contract_handle in E as [HJ' HQ]; [|done].
  intros [= <- <-]. split; [done|]. destruct r1; try done. apply contract_silent.
Qed.
End Wrappers.

(** ** Listeners *)
Section Listeners.
Context `{NameOps} {HK : Hickory} `{IpNets} {T : Type} `{!DnsHandler T}.
Context (J : T → Prop) (Q : list Z → Reply → Prop) `{C : !Contract T J Q}.

Definition logged (l : list (list Z * Reply)) : Prop := Forall (λ p, Q p.1 p.2) l.
Lemma logged_snoc l q r : logged l → Q q r → logged (l ++ [(q, r)]).
Proof. intros L HQ. apply Forall_app. split; [done|]. by repeat constructor. Qed.

Lemma serve_query_contract acl_at ctx_at fl cnt peer (st : TcpSt (T := T)) :
  J (c_svc st) → logged (c_log st) →
  match serve_query acl_at ctx_at fl cnt peer st with
  | inl (_, st') | inr st' => J (c_svc st') ∧ logged (c_log st')
  end.
Proof.
  intros HJ HL. unfold serve_query. destruct (read_exact 2 _) as [[lb|e] c1]; [|done]. destruct (_ || _); [done|].
  destruct (read_exact _ (c_chan _)) as [[q|e] c2]; [|done]. destruct (negb _); [done|]. cbn [c_svc c_tick c_log set_chan].
  destruct (handle q peer _ (c_svc st)) as [r svc] eqn:E. apply contract_handle in E as [HJ' HQ]; [|done].
  pose proof (logged_snoc _ _ _ HL HQ) as HL'.
  destruct r as [b| |]; [|done..]. destruct (_ <? _); [done|]. by destruct (write_answer _ _ _) as [[u|e] c3].
Qed.

(** What other work does to the handler keeps the contract. *)
Definition benign (e : Event (T := T)) : Prop := match e with Accept.Other f => ∀ t, J t → J (f t) | _ => True end.
Definition udp_benign (e : UdpEvent (T := T)) : Prop := match e with Elsewhere f => ∀ t, J t → J (f t) | _ => True end.

Lemma streams_contract tls acl_at ctx_at evs (a : AccSt (T := T)) :
  Forall benign evs → J (a_svc a) → Forall (λ c, logged (cn_log c)) (a_conns a) →
  J (a_svc (accept_loop tls acl_at ctx_at evs a)) ∧
  Forall (λ c, logged (cn_log c)) (a_conns (accept_loop tls acl_at ctx_at evs a)).
Proof.
  revert a. induction evs as [|e evs IH]; intros a B HJ HL; [done|]. apply Forall_cons in B as [Be B].
  cut (J (a_svc (acc_step tls acl_at ctx_at a e)) ∧ Forall (λ c, logged (cn_log c)) (a_conns (acc_step tls acl_at ctx_at a e)));
    [intros [? ?]; by apply IH|]. destruct e as [|peer ch br|i r|i|f]; cbn; [done| | | |].
  - unfold on_arrive, accept. cbn. destruct (negb _); cbn; [done|]. destruct (is_ready _); [|done].
    split; [done|]. apply Forall_app. split; [done|]. by repeat constructor.
  - unfold on_handshake. destruct (a_conns a !! i) as [c|]; [|done]. destruct (cn_phase c); [|done..]. split; [done|].
    apply Forall_insert; [done|]. by destruct r as [[ch br]|]; apply Forall_nil.
  - unfold on_turn. destruct (a_conns a !! i) as [c|] eqn:Ci; [|done]. destruct (cn_phase c); [done| |done].
    pose proof (serve_query_contract acl_at ctx_at tls (if tls then count_dot else count_tcp) (sa_ip (cn_peer c)) (enter c a)
      HJ (Forall_lookup_1 _ _ _ _ HL Ci)) as S.
    destruct (serve_query _ _ _ _ _ _) as [[r st]|st]; destruct S as [HJ' HL']; (split; [done|]); by apply Forall_insert.
  - split; [by apply Be|done].
Qed.

Context `{!NameLaws, !HickoryLaws, !HandlerLaws T}.
Definition sent_well (log : list Arrival) (s : Sent) : Prop :=
  ∃ q, came_from log (s_no s) q (s_peer s) ∧ Q q (Answer (s_bytes s)).
Lemma sent_well_app log x s : sent_well log s → sent_well (log ++ x) s.
Proof. intros (q & F & HQ). exists q. split; [by apply came_from_app|done]. Qed.
Lemma send_well log sends no q peer o l :
  came_from log no q peer → (∀ b, o = Some b → Q q (Answer b)) → Forall (sent_well log) l →
  Forall (sent_well log) (send_to sends no o peer l).
Proof.
  intros F HQ L. unfold send_to. destruct o as [b|]; [|done]. destruct sends; [|done]. apply Forall_app. split; [done|].
  constructor; [|constructor]. exists q. split; [done|]. by apply HQ.
Qed.
Lemma udp_contract max evs log (st : UdpSt (T := T)) :
  Forall udp_benign evs → udp_inv max log st → J (u_svc st) → Forall (sent_well log) (u_sent st) →
  J (u_svc (serve_loop evs st)) ∧ Forall (sent_well (log ++ arrivals (u_acl st) evs)) (u_sent (serve_loop evs st)).
Proof.
  unfold serve_loop. revert log st. induction evs as [|e evs IH]; intros log st B I HJ HS; cbn; [by rewrite app_nil_r|].
  apply Forall_cons in B as [Be B]. destruct e as [d peer sends|i sends|acl ctx|f]; cbn.
  - rewrite cons_middle, app_assoc. pose proof (on_datagram_inv max log d peer sends st I) as I1.
    assert (u_acl (on_datagram d peer sends st) = u_acl st) as E by (unfold on_datagram; by repeat case_match).
    rewrite <- E at 2. apply IH; [done|done|unfold on_datagram; by repeat case_match|].
    assert (HS' : Forall (sent_well (log ++ [(take UDP_BUF_SIZE d, peer, u_acl st)])) (u_sent st))
      by (eapply Forall_impl; [exact HS|]; intros s; apply sent_well_app).
    unfold on_datagram. destruct (Acl.allows (u_acl st) (sa_ip peer)) eqn:A; cbn [negb]; [|exact HS'].
    destruct (u_permits st); [|exact HS']. cbn [u_sent]. apply (send_well _ _ _ (take UDP_BUF_SIZE d)); [| |exact HS'].
    + exists (u_acl st). split; [|done]. rewrite (ui_recv _ _ _ I). by apply list_lookup_middle.
    + intros b Hb. pose proof (contract_refused (T := T) (J := J) (Q := Q) (take UDP_BUF_SIZE d)) as R. by rewrite Hb in R.
  - assert (E : u_acl (on_finish i sends st) = u_acl st) by (unfold on_finish; by repeat case_match).
    pose proof (on_finish_inv max log i sends st I) as I1. rewrite <- E. clear E. revert I1. unfold on_finish.
    destruct (u_tasks st !! i) as [tk|] eqn:Tk; [|intros I1; by apply IH].
    destruct (handle _ _ _ _) as [r svc] eqn:Eh. apply contract_handle in Eh as [HJ' HQ]; [|done]. intros I1.
    apply IH; [done|exact I1|exact HJ'|]. cbn [u_sent]. apply (send_well _ _ _ (t_query tk)); [| |exact HS].
    + exact (Forall_lookup_1 _ _ _ _ (ui_tasks _ _ _ I) Tk).
    + intros b Hb. destruct r; simplify_eq. exact HQ.
  - apply (IH log {| u_svc := u_svc st; u_acl := acl; u_ctx := ctx; u_permits := u_permits st;
      u_tasks := u_tasks st; u_recv := u_recv st; u_sent := u_sent st; u_metrics := u_metrics st |}); try done. by destruct I.
  - apply (IH log {| u_svc := f (u_svc st); u_acl := u_acl st; u_ctx := u_ctx st; u_permits := u_permits st;
      u_tasks := u_tasks st; u_recv := u_recv st; u_sent := u_sent st; u_metrics := u_metrics st |}); try done;
      [by destruct I|by apply Be].
Qed.

(** A finished run of calls. *)
Definition kept (l : list Doh.Call) : Prop := Forall (λ c, Q (Doh.cl_wire c) (Doh.cl_reply c)) l.
Lemma ran_contract ctx_at peer (t t' : T) calls : Doh.ran ctx_at peer t calls t' → J t → J t' ∧ kept calls.
Proof.
  induction 1 as [t|t c t1 cs t2 Hh _ IH]; intros HJ; [by split; [|constructor]|].
  apply contract_handle in Hh as [HJ1 HQ]; [|done]. destruct (IH HJ1) as [? ?]. split; [done|]. by constructor.
Qed.
Definition conn_kept (c : DohAccept.Conn) : Prop :=
  kept (DohAccept.k_calls c) ∧ Forall (λ s, kept (DohAccept.s_calls s)) (DohAccept.k_streams c).
Definition doh_benign (e : DohAccept.Event (T := T)) : Prop :=
  match e with DohAccept.Other f => ∀ t, J t → J (f t) | _ => True end.
Definition doh_kept (a : DohAccept.AccSt (T := T)) : Prop :=
  J (DohAccept.a_svc a) ∧ Forall conn_kept (DohAccept.a_conns a).
Context `{!Http.Base64Url}.
Lemma doh_step_contract acl_at ctx_at e (a : DohAccept.AccSt (T := T)) :
  doh_benign e → doh_kept a → doh_kept (DohAccept.acc_step acl_at ctx_at a e).
Proof.
  assert (Put : ∀ i (f : DohAccept.Conn → DohAccept.AccSt (T := T) → _), doh_kept a →
    (∀ c, conn_kept c → doh_kept (f c a)) → doh_kept (DohAccept.on_conn i f a)).
  { intros i f K F. unfold DohAccept.on_conn. destruct (_ !! i) as [c|] eqn:Ci; [|done]. apply F.
    by eapply Forall_lookup_1; [apply K|]. }
  intros B [HJ HL]. destruct e as [|peer|i r|i late|i r|i k|f]; cbn; [done| | | | | |].
  - unfold DohAccept.on_arrive, accept. cbn. destruct (negb _); cbn; [done|]. split; [done|]. cbn. destruct (is_ready _); [|done].
    apply Forall_app. split; [done|]. by repeat constructor.
  - apply Put; [done|]. intros c K. destruct (DohAccept.k_phase c); try done. split; [done|]. apply Forall_insert; [done|].
    by destruct r as [[[alpn rx] wl]|].
  - apply Put; [done|]. intros c [K1 K2]. destruct (DohAccept.k_phase c) as [|[|left] p| |]; try done.
    { split; [done|]. by apply Forall_insert. }
    pose proof (Doh.serve_request_sound acl_at ctx_at (λ _, late) left (sa_ip (DohAccept.k_peer c)) p (DohAccept.h1_enter c a)) as S.
    destruct (Doh.serve_request _ _ _ _ _ _ _) as [[r st]|[p' st]];
      [destruct S as (calls & bs & sent & page & [Tc _ Tr _ _ _ _] & _)|destruct S as (calls & bs & sent & [Tc _ Tr _ _ _ _] & _)];
      (destruct (ran_contract _ _ _ _ _ Tr HJ) as [HJ' HK']; split; [done|]; apply Forall_insert; [done|]; split; [|done];
       cbn in Tc |- *; rewrite Tc; by apply Forall_app).
  - apply Put; [done|]. intros c K. destruct (DohAccept.k_phase c) as [| |[]|]; try done.
    destruct r; (split; [done|]); by apply Forall_insert.
  - apply Put; [done|]. intros c [K1 K2]. destruct (_ ≫= _) as [[n q]|]; [|done].
    destruct (Doh.handle_h2_request _ _ _ _ _) as [r st] eqn:E.
    apply Doh.handle_h2_request_sound in E as (calls & new & Tr). destruct (ran_contract _ _ _ _ _ (Doh.ht_run _ _ _ _ _ _ _ _ Tr) HJ) as [HJ' HK'].
    split; [done|]. apply Forall_insert; [done|]. split; [done|]. cbn. apply Forall_app. split; [done|]. constructor; [|constructor].
    cbn. by rewrite (Doh.ht_calls _ _ _ _ _ _ _ _ Tr).
  - split; [by apply B|done].
Qed.
Lemma doh_contract acl_at ctx_at evs (a : DohAccept.AccSt (T := T)) :
  Forall doh_benign evs → doh_kept a → doh_kept (DohAccept.accept_loop acl_at ctx_at evs a).
Proof.
  revert a. induction evs as [|e evs IH]; intros a B K; [done|]. apply Forall_cons in B as [Be B].
  apply IH; [done|]. by apply doh_step_contract.
Qed.
End Listeners.

(** ** The resolver behind the listeners *)
Section Resolver.
Context `{NameOps} {HK : Hickory} `{IpNets, !Moka, !MapIter, Rrl.Governor}.
Context `{!NameLaws, !HickoryLaws, !WireLaws}.
Context (Cs : HConfig → Prop) (w : HWorld) (A : TrustAnchors) (t0 : nat).

(** A resolver with one of these configurations whose cache and keys are in order, and stay
    so while a query waits for its lock. *)
Definition sound_resolver (t : Recursor) : Prop :=
  Cs (r_self t) ∧ r_world t = w ∧ (∀ st, inv Cs w A t0 st → inv Cs w A t0 (r_between t st)) ∧ inv Cs w A t0 (r_st t).

Context (HC : ∀ self, Cs self → h_validator self = true ∧ h_dnssec self = Validate).
Lemma refused_well q : answers_well Cs w A t0 q (reply_of (build_refused q)).
Proof.
  apply answers_well_none. intros b Hb. destruct (build_refused q) as [b'|] eqn:B; [|done].
  injection Hb as <-. by eapply build_refused_no_ad.
Qed.
#[export] Instance resolver_contract : Contract Recursor sound_resolver (answers_well Cs w A t0).
Proof.
  split; [|apply refused_well|intros q; by apply answers_well_none].
  intros q peer ctx [s w0 bt st] r t' (Es & Ew & Bt & I). cbn in Es, Ew, Bt, I. subst w0. cbn. unfold recursor_handle.
  unfold handle_bytes. cbn [r_self r_world r_between r_st].
  destruct (before_lock s w q peer ctx st) as [p st1] eqn:B. apply (before_lock_ok Cs w A t0 HC s Es) in B as [I1 P]; [|done].
  destruct p as [r1|msg qq l]; [intros [= <- <-]; by split|]. destruct P as [F Q].
  destruct (after_lock s w q msg qq ctx (bt st1)) as [r2 st2] eqn:Al.
  apply (after_lock_ok Cs w A t0 HC s Es) in Al as [I2 R]; [|done|by apply Bt]. intros [= <- <-].
  split; [done|]. by eapply answers_well_reply.
Qed.
End Resolver.

Section OnTheWire.
Context `{NameOps} {HK : Hickory} `{IpNets, !Moka, !MapIter, Rrl.Governor}.
Context `{!NameLaws, !HickoryLaws, !WireLaws}.

(** The answer [b] is among the replies of these calls. *)
Lemma answered_by (calls : list Doh.Call) b :
  b ∈ omap (answer_of ∘ Doh.cl_reply) calls → ∃ c, c ∈ calls ∧ Doh.cl_reply c = Answer b.
Proof.
  intros (c & Hc & E)%list_elem_of_omap. exists c. split; [done|]. unfold compose in E.
  destruct (Doh.cl_reply c) as [b'| |]; [|discriminate E..]. by injection E as ->.
Qed.
Section Transports.
Context (Cs : HConfig → Prop) (w : HWorld) (A : TrustAnchors) (t0 : nat).
Context (HC : ∀ self, Cs self → h_validator self = true ∧ h_dnssec self = Validate).
Let J (l : LiveHandler Recursor) : Prop := sound_resolver Cs w A t0 (inner l).
Let Q := answers_well Cs w A t0.

Lemma udp_ad t acl ctx max evs s :
  sound_resolver Cs w A t0 t → Forall (udp_benign J) evs →
  s ∈ u_sent (serve_loop evs (udp_spawn (live_new t) acl ctx max)) → wire_ad (s_bytes s) = true →
  ∃ q, came_from (arrivals acl evs) (s_no s) q (s_peer s) ∧ earned Cs w A t0 q (s_bytes s).
Proof.
  intros S B Hs W. pose proof (resolver_contract Cs w A t0 HC) as C.
  destruct (udp_contract J Q max evs [] (udp_spawn (live_new t) acl ctx max) B) as [_ F];
    [split; cbn; try done; try lia; constructor|exact S|constructor|].
  pose proof (proj1 (Forall_forall _ _) F s Hs) as (q & Fr & HQ). exists q. split; [exact Fr|]. exact (HQ _ eq_refl W).
Qed.
Lemma streams_ad t tls acl_at ctx_at m evs c :
  sound_resolver Cs w A t0 t → Forall event_ok evs → Forall (benign J) evs →
  c ∈ a_conns (accept_loop tls acl_at ctx_at evs (acc_new (live_new t) m)) →
  ∃ bs, out (cn_chan c) = concat (map frame bs) ∧
    ∀ b, b ∈ bs → wire_ad b = true → ∃ q, q ∈ (cn_log c).*1 ∧ earned Cs w A t0 q b.
Proof.
  intros S Ok B Hc. pose proof (resolver_contract Cs w A t0 HC) as C.
  destruct (streams_contract J Q tls acl_at ctx_at evs (acc_new (live_new t) m) B S) as [_ L0]; [constructor|].
  pose proof (proj1 (Forall_forall _ _) L0 c Hc) as L. clear L0.
  assert (K : conn_ok c).
  { eapply Forall_forall; [|exact Hc]. apply accept_loop_ok; [exact Ok|constructor]. }
  destruct (ok_out c K) as (bs & Eo & Pre & _). exists bs. split; [exact Eo|]. intros b Hb W.
  assert (Hin : b ∈ omap answer_of (cn_log c).*2) by (destruct Pre as [k ->]; apply elem_of_app; by left).
  apply list_elem_of_omap in Hin as (r & Hr & Eb). apply list_elem_of_fmap in Hr as ([q r'] & -> & Hr).
  destruct r' as [b'| |]; try done. injection Eb as ->. exists q. split; [by apply (list_elem_of_fmap_2 fst _ _ Hr)|].
  exact (proj1 (Forall_forall _ _) L _ Hr b eq_refl W).
Qed.
(** Over HTTP/1.1 the written responses, over HTTP/2 the data of the streams. *)
Lemma doh_ad `{!Http.Base64Url} t acl_at ctx_at m evs c :
  sound_resolver Cs w A t0 t → Forall (doh_benign J) evs →
  c ∈ DohAccept.a_conns (DohAccept.accept_loop acl_at ctx_at evs (DohAccept.acc_new (live_new t) m)) →
  (∃ bs page, DohAccept.written c bs page ∧
     ∀ b, b ∈ bs → wire_ad b = true → ∃ call, call ∈ DohAccept.k_calls c ∧ earned Cs w A t0 (Doh.cl_wire call) b) ∧
  ∀ s r b, s ∈ DohAccept.k_streams c → r ∈ DohAccept.s_sent s → Doh.p_status r = 200 → Doh.p_body r = Some b →
    wire_ad b = true → ∃ call, call ∈ DohAccept.s_calls s ∧ earned Cs w A t0 (Doh.cl_wire call) b.
Proof.
  intros S B Hc. pose proof (resolver_contract Cs w A t0 HC) as C.
  destruct (doh_contract J Q acl_at ctx_at evs (DohAccept.acc_new (live_new t) m) B) as [_ L0]; [by split; [|constructor]|].
  destruct (proj1 (Forall_forall _ _) L0 c Hc) as [L1 L2]. clear L0.
  assert (K : DohAccept.conn_ok (T := LiveHandler Recursor) acl_at ctx_at c).
  { eapply Forall_forall; [|exact Hc]. apply DohAccept.doh_loop_ok. constructor. }
  assert (E : ∀ calls b, kept Q calls → b ∈ omap (answer_of ∘ Doh.cl_reply) calls → wire_ad b = true →
    ∃ call, call ∈ calls ∧ earned Cs w A t0 (Doh.cl_wire call) b).
  { intros calls b Kc (call & Hin & Er)%answered_by W. exists call. split; [done|].
    pose proof (proj1 (Forall_forall _ _) Kc call Hin) as HQ. exact (HQ b Er W). }
  split.
  - destruct (DohAccept.ok_written acl_at ctx_at c K) as (bs & page & Wr & Pre & _). exists bs, page. split; [done|].
    intros b Hb W. apply E; [exact L1| |exact W]. destruct Pre as [k Pre]. unfold DohAccept.answers in Pre. rewrite Pre. apply elem_of_app. by left.
  - intros s r b Hs Hr St Bo W. apply E; [exact (proj1 (Forall_forall _ _) L2 s Hs)| |exact W].
    pose proof (proj1 (Forall_forall _ _) (DohAccept.ok_streams acl_at ctx_at c K) s Hs) as [_ _ _ Fi].
    destruct (proj1 (Forall_forall _ _) Fi r Hr) as [|(_ & b' & Hb & [E'|E'])]; [lia| |]; congruence.
Qed.
End Transports.

(** C2. AD on the wire.  Put a validating resolver, with nothing cached that was not
    checked, behind the listeners for UDP, TCP, DoT and DoH, and let datagrams,
    connections, handshakes, turns, HTTP/2 streams, reloads of the listener settings and any
    other work on the handler that leaves a resolver of this kind interleave as they will;
    a reload may put in a resolver with another of the configurations [Cs], all of which
    validate, on the same caches and the same clock.  Every message with
    AD set that leaves a socket, as a datagram, in a frame, or as the body of a response
    over HTTP/1.1 or HTTP/2, is an authenticated answer to the question
    of a query that came in where it goes out (a datagram of that very peer, allowed at that
    time; that very connection; that very HTTP/2 stream): its records, or the denial of the
    very name and type asked, lead back to the anchors by signatures in their windows
    since the reading [t0]; or it is one of the two kinds the code stores unchecked. *)
Theorem ad_on_the_wire `{!Http.Base64Url} Cs w A t0 (t : Recursor) :
  (∀ self, Cs self → h_validator self = true ∧ h_dnssec self = Validate) → sound_resolver Cs w A t0 t →
  (∀ acl ctx max evs, Forall (udp_benign (λ l, sound_resolver Cs w A t0 (inner l))) evs →
     ∀ s, s ∈ u_sent (serve_loop evs (udp_spawn (live_new t) acl ctx max)) → wire_ad (s_bytes s) = true →
     ∃ q, came_from (arrivals acl evs) (s_no s) q (s_peer s) ∧ earned Cs w A t0 q (s_bytes s)) ∧
  (∀ tls acl_at ctx_at m evs, Forall event_ok evs → Forall (benign (λ l, sound_resolver Cs w A t0 (inner l))) evs →
     ∀ c, c ∈ a_conns (accept_loop tls acl_at ctx_at evs (acc_new (live_new t) m)) →
     ∃ bs, out (cn_chan c) = concat (map frame bs) ∧
       ∀ b, b ∈ bs → wire_ad b = true → ∃ q, q ∈ (cn_log c).*1 ∧ earned Cs w A t0 q b) ∧
  (∀ acl_at ctx_at m evs, Forall (doh_benign (λ l, sound_resolver Cs w A t0 (inner l))) evs →
     ∀ c, c ∈ DohAccept.a_conns (DohAccept.accept_loop acl_at ctx_at evs (DohAccept.acc_new (live_new t) m)) →
     (∃ bs page, DohAccept.written c bs page ∧
        ∀ b, b ∈ bs → wire_ad b = true → ∃ call, call ∈ DohAccept.k_calls c ∧ earned Cs w A t0 (Doh.cl_wire call) b) ∧
     ∀ s r b, s ∈ DohAccept.k_streams c → r ∈ DohAccept.s_sent s → Doh.p_status r = 200 → Doh.p_body r = Some b →
       wire_ad b = true → ∃ call, call ∈ DohAccept.s_calls s ∧ earned Cs w A t0 (Doh.cl_wire call) b).
Proof.
  intros HC S. split_and!; intros.
  - by eapply udp_ad.
  - by eapply streams_ad.
  - by eapply doh_ad.
Qed.
End OnTheWire.
End EndToEnd.

(** ** Examples *)
Module EndToEndExamples.
Import Anchor Dnssec Validator ValidatorExamples Handler HandlerExamples Provenance ProvenanceExamples.
Import Service Listeners ListenerExamples Accept EndToEnd.

#[local] Existing Instances HandlerExamples.ExMoka HandlerExamples.ExGovernor Base64.b64_rfc4648.
#[local] Existing Instance ProvenanceExamples.ExHickory.
#[local] Existing Instance ProvenanceExamples.ExWireLaws.

Definition ex_resolver : Recursor :=
  {| r_self := ex_self; r_world := ex_hworld; r_between := λ st, st; r_st := ex_hst |}.
(** A second configuration, without DNS64, and the reload that puts it in. *)
Definition ex_self2 : HConfig :=
  {| h_dns64 := None; h_dnssec := Validate; h_validator := true; h_iterative := Some ex_icfg; h_nesting := 2;
     h_ddr := []; h_forwarders := []; h_client := h_client ex_self |}.
Definition ex_both (self : HConfig) : Prop := self = ex_self ∨ self = ex_self2.
Definition ex_reload (l : LiveHandler Recursor) : LiveHandler Recursor :=
  swap {| r_self := ex_self2; r_world := r_world (inner l); r_between := r_between (inner l); r_st := r_st (inner l) |} l.
(** A query answered with AD, a reload, the same query answered with AD from the cache. *)
Definition ex_udp_evs : list (UdpEvent (T := LiveHandler Recursor)) :=
  [Datagram ex_www (ListenerExamples.ex_peer 2) true; Finish 0 true; Elsewhere ex_reload;
   Datagram ex_www (ListenerExamples.ex_peer 3) true; Finish 0 true].
Definition ex_sent : list Sent := u_sent (serve_loop ex_udp_evs (udp_spawn (live_new ex_resolver) ex_acl ex_ctx 1)).

(** The same query on an HTTP/2 stream. *)
Definition ex_stream : Doh.H2Req := {|
  Doh.q_method := Doh.POST; Doh.q_path := bytes_of_string "/dns-query"; Doh.q_query := None;
  Doh.q_type := Some (bytes_of_string "application/dns-message");
  Doh.q_frames := [(Ok ex_www, true)]; Doh.q_send := true; Doh.q_data := true |}.
Definition ex_doh_evs : list (DohAccept.Event (T := LiveHandler Recursor)) :=
  [DohAccept.Arrive (ListenerExamples.ex_peer 2); DohAccept.Handshake 0 (Some (Some (bytes_of_string "h2"), DohAccept.no_rx, 0%nat));
   DohAccept.Accepted 0 (Some ex_stream); DohAccept.Run 0 0].
Definition ex_streams : list DohAccept.Stream :=
  concat (map DohAccept.k_streams (DohAccept.a_conns (DohAccept.accept_loop (λ _, ex_acl) (λ _, ex_ctx) ex_doh_evs
    (DohAccept.acc_new (live_new ex_resolver) zero_metrics)))).

Lemma elem_of_concat_map {X Y} (f : X → list Y) l y : y ∈ concat (map f l) → ∃ x, x ∈ l ∧ y ∈ f x.
Proof.
  induction l as [|x l IH]; cbn; [by intros ?%elem_of_nil|]. intros [Hy|Hy]%elem_of_app; [exists x; by split; [left|]|].
  destruct (IH Hy) as (x' & ? & ?). exists x'. by split; [right|].
Qed.
Lemma ad_on_the_wire_witness :
  map (wire_ad ∘ s_bytes) ex_sent = [true; true] ∧
  (∀ s, s ∈ ex_sent → wire_ad (s_bytes s) = true →
    ∃ q, came_from (arrivals ex_acl ex_udp_evs) (s_no s) q (s_peer s) ∧ earned ex_both ex_hworld ex_anchors 0 q (s_bytes s)) ∧
  concat (map (λ s, map (λ r, wire_ad <$> Doh.p_body r) (DohAccept.s_sent s)) ex_streams) = [Some true] ∧
  (∀ s r b, s ∈ ex_streams → r ∈ DohAccept.s_sent s → Doh.p_status r = 200 → Doh.p_body r = Some b → wire_ad b = true →
    ∃ call, call ∈ DohAccept.s_calls s ∧ earned ex_both ex_hworld ex_anchors 0 (Doh.cl_wire call) b).
Proof.
  pose proof (handler_hickory_laws 4) as Hlaws.
  destruct (ad_on_the_wire ex_both ex_hworld ex_anchors 0 ex_resolver) as (U & _ & D).
  - intros self [-> | ->]; by split.
  - split; [by left|]. split; [reflexivity|]. split; [done|]. apply initial_inv. split; [reflexivity|]. split; [reflexivity|]. by split.
  - split; [vm_compute; reflexivity|]. split.
    { apply (U ex_acl ex_ctx 1%nat ex_udp_evs). unfold ex_udp_evs.
      repeat first [apply Forall_nil; exact Logic.I | apply Forall_cons; split]; try exact Logic.I.
      intros l (_ & W & B & J). split; [by right|]. by split. }
    split; [vm_compute; reflexivity|]. intros s r b Hs.
    unfold ex_streams in Hs. destruct (elem_of_concat_map _ _ _ Hs) as (c & Hc & Hs'). clear Hs. revert Hs'.
    refine (proj2 (D (λ _, ex_acl) (λ _, ex_ctx) zero_metrics ex_doh_evs _ c Hc) s r b). by repeat constructor.
Defined.
End EndToEndExamples.
