(* ===== verification/Config.v ===== *)
(** * Configuration ([config.rs], [worker.rs])

    The [dns:] block of [router.yaml] with its defaults, the loaders for the
    default instance and for a VRF, the resolved DNSSEC mode, and the sizing of the
    worker pools.  The YAML parser is outside: it turns text into [RouterYaml], filling
    absent fields with the defaults given here. *)
From Stdlib Require Import Ascii.
From S2P Require Import Prelude Hickory Reference Net Dns64 Text Dnssec ClientPolicy Forwarder.

Module Config.

(** ** Data *)

Inductive DnssecMode : Type := MPassThrough | MStrip | MValidate.
#[export] Instance DnssecMode_eq_dec : EqDecision DnssecMode.
Proof. solve_decision. Defined.

Record Listener := {
  lc_name : string; lc_address : IpAddr; lc_port : Z; lc_interface : option string; lc_protocols : list string;
  lc_allow_from : list IpNet; lc_dns64 : bool; lc_max_inflight : option Z; lc_auth_token : option string }.
Record Recursion := {
  rc_enabled : bool; rc_dnssec : DnssecMode; rc_dnssec_validate : bool; rc_trust_anchor : option string;
  rc_serve_stale_seconds : option Z; rc_upstream_timeout_ms : option Z; rc_max_cname_depth : option Z;
  rc_ipv6_upstream : bool; rc_source_v6 : option Ipv6Addr }.
Record Cache := {
  cc_max_entries : option Z; cc_min_ttl : option Z; cc_max_ttl : option Z; cc_negative_ttl : option Z;
  cc_max_negative_ttl : option Z }.
Record AcmeDns01 := {
  ad_provider : string; ad_endpoint : option string; ad_tsig_key_name : option string;
  ad_tsig_key_secret : option string; ad_api_token : option string; ad_zone : option string }.
Record Acme := {
  ac_directory : string; ac_email : string; ac_domains : list string; ac_challenge : string;
  ac_dns01 : option AcmeDns01 }.
Record Tls := {
  tc_cert_source : string; tc_acme : option Acme; tc_cert_path : option string; tc_key_path : option string }.

(** What a DNS instance is configured with. *)
Record DnsBlock := {
  b_enabled : bool; b_listeners : list Listener; b_forwarders : list ForwarderCfg.Forwarder;
  b_recursion : option Recursion; b_cache : option Cache; b_dns64 : option Dns64.Dns64Cfg; b_tls : option Tls;
  b_rate_limit : option Rrl.RateLimit; b_sfw : option bool; b_tcp_workers : option Z }.
Record DnsVrfConfig := { v_name : string; v_block : DnsBlock }.
Record DnsConfig := { c_block : DnsBlock; c_tor_socks : SocketAddr; c_vrfs : list DnsVrfConfig }.
Record VrfYaml := {
  vy_name : string; vy_table_id_v4 : Z; vy_table_id_v6 : Z; vy_description : option string }.
Record RouterYaml := { y_dns : option DnsConfig; y_vrfs : list VrfYaml }.

(** ** Defaults *)

Definition default_port : Z := 53.
Definition DEFAULT_MAX_INFLIGHT : Z := 1024.
Definition default_tor_socks : SocketAddr := {| sa_ip := V4 [127; 0; 0; 1]; sa_port := 9050 |}.
Definition default_recursion : Recursion := {|
  rc_enabled := true; rc_dnssec := MPassThrough; rc_dnssec_validate := false; rc_trust_anchor := None;
  rc_serve_stale_seconds := None; rc_upstream_timeout_ms := None; rc_max_cname_depth := None;
  rc_ipv6_upstream := true; rc_source_v6 := None |}.
Definition default_cache : Cache := {|
  cc_max_entries := None; cc_min_ttl := None; cc_max_ttl := None; cc_negative_ttl := None; cc_max_negative_ttl := None |}.
Definition default_config : DnsConfig := {|
  c_block := {| b_enabled := false; b_listeners := []; b_forwarders := []; b_recursion := None; b_cache := None;
                b_dns64 := None; b_tls := None; b_rate_limit := None; b_sfw := None; b_tcp_workers := None |};
  c_tor_socks := default_tor_socks; c_vrfs := [] |}.

(** ** Loading *)

Section Load.
(** [fs::read_to_string] and [serde_yaml::from_str]. *)
Context (read_file : string → result string) (from_yaml : string → result RouterYaml).

Definition read_router (path : string) : result RouterYaml := raw ← read_file path; from_yaml raw.
Definition load (path : string) : result DnsConfig :=
  doc ← read_router path; Ok (default default_config (y_dns doc)).
Definition load_for_vrf (path vrf_name : string) : result DnsConfig :=
  doc ← read_router path;
  if negb (existsb (λ v, String.eqb (vy_name v) vrf_name) (y_vrfs doc))
  then Err "VRF not declared in router.yaml's vrfs: block"
  else
    let dns := default default_config (y_dns doc) in
    v ← ok_or "no matching dns.vrfs[] block in config"
          (List.find (λ v, String.eqb (v_name v) vrf_name) (c_vrfs dns));
    Ok {| c_block := v_block v; c_tor_socks := c_tor_socks dns; c_vrfs := [] |}.
(** What [main] starts with. *)
Definition load_initial (path : string) (vrf : option string) : result DnsConfig :=
  match vrf with None => load path | Some name => load_for_vrf path name end.
End Load.

(** ** Derived settings *)

Definition effective_dnssec (r : Recursion) : DnssecMode :=
  if bool_decide (rc_dnssec r = MPassThrough) && rc_dnssec_validate r then MValidate else rc_dnssec r.
Definition from_recursion (r : option Recursion) : Dnssec.DnssecPolicy :=
  match default MPassThrough (effective_dnssec <$> r) with
  | MPassThrough => Dnssec.PassThrough
  | MStrip => Dnssec.Strip
  | MValidate => Dnssec.Validate
  end.
(** [str::eq_ignore_ascii_case]. *)
Definition same_ascii (a b : string) : bool :=
  bool_decide (map to_ascii_lowercase (bytes_of_string a) = map to_ascii_lowercase (bytes_of_string b)).
Definition has_protocol (l : Listener) (proto : string) : bool := existsb (λ p, same_ascii p proto) (lc_protocols l).

(** ** Worker pools *)

(** [cap] is [available_parallelism], if known; [env] the variable [DNSD_TCP_WORKERS]. *)
Definition effective_worker_count (available : option Z) (env : option string) (cfg_value : option Z) : Z :=
  let cap := default 1 available in
  let raw := match env ≫= parse_uint u32_max with Some n => Some n | None => cfg_value end in
  let n := match raw with Some n => if n =? 0 then cap else n | None => 1 end in
  Z.min (Z.max n 1) cap.


Lemma effective_worker_count_range available env cfg :
  0 < default 1 available → 1 ≤ effective_worker_count available env cfg ≤ default 1 available.
Proof. unfold effective_worker_count. lia. Qed.
(** ** Isolation of the instances *)

Lemma find_filter {A} (f : A → bool) l : List.find f l = head (List.filter f l).
Proof. induction l as [|x l IH]; cbn; [done|]. by destruct (f x). Qed.
Lemma existsb_filter {A} (f : A → bool) l : existsb f l = match List.filter f l with [] => false | _ => true end.
Proof. induction l as [|x l IH]; cbn; [done|]. by destruct (f x). Qed.

Definition entries_for (name : string) (doc : RouterYaml) : list DnsVrfConfig :=
  List.filter (λ v, String.eqb (v_name v) name) (c_vrfs (default default_config (y_dns doc))).
Definition declared (name : string) (doc : RouterYaml) : list VrfYaml :=
  List.filter (λ v, String.eqb (vy_name v) name) (y_vrfs doc).

(** A VRF instance is configured from its own block alone: two files that declare the VRF
    alike, have the same [dns.vrfs] entries of its name and the same SOCKS endpoint
    give the same result, error or configuration, whatever they say about the default
    instance and about other VRFs; and a configuration that loads is the first entry of
    that name, without nested instances. *)
Theorem vrf_isolation read_file from_yaml path path' name doc doc' :
  read_router read_file from_yaml path = Ok doc → read_router read_file from_yaml path' = Ok doc' →
  declared name doc = declared name doc' → entries_for name doc = entries_for name doc' →
  c_tor_socks (default default_config (y_dns doc)) = c_tor_socks (default default_config (y_dns doc')) →
  load_for_vrf read_file from_yaml path name = load_for_vrf read_file from_yaml path' name ∧
  ∀ c, load_for_vrf read_file from_yaml path name = Ok c →
    declared name doc ≠ [] ∧ c_vrfs c = [] ∧ ∃ v, head (entries_for name doc) = Some v ∧ c_block c = v_block v.
Proof.
  intros Hd Hd' Hy Hv Hs. unfold load_for_vrf. rewrite Hd, Hd'. cbn [mbind result_bind].
  rewrite !existsb_filter, !find_filter. fold (declared name doc) (declared name doc').
  fold (entries_for name doc) (entries_for name doc'). rewrite <- Hy, <- Hv, <- Hs. split; [done|].
  intros c. destruct (declared name doc); [done|]. cbn [negb]. intros (e & Hf%ok_or_Ok & [= <-])%result_bind_Ok.
  split_and!; [done..|]. by exists e.
Qed.
End Config.

Module ConfigExamples.
Import Config.
Definition ex_block (n : Z) : DnsBlock := {|
  b_enabled := true; b_listeners := []; b_forwarders := []; b_recursion := None; b_cache := None; b_dns64 := None;
  b_tls := None; b_rate_limit := None; b_sfw := None; b_tcp_workers := Some n |}.
(** Two documents: the VRF [blue] is the same, everything else is not. *)
Definition ex_doc (b : bool) : RouterYaml := {|
  y_dns := Some {| c_block := if b then ex_block 1 else c_block default_config; c_tor_socks := default_tor_socks;
                   c_vrfs := [{| v_name := "red"; v_block := ex_block (if b then 3 else 4) |};
                              {| v_name := "blue"; v_block := ex_block 7 |}] |};
  y_vrfs := [{| vy_name := if b then "green" else "red"; vy_table_id_v4 := 1; vy_table_id_v6 := 1; vy_description := None |};
             {| vy_name := "blue"; vy_table_id_v4 := 2; vy_table_id_v6 := 2; vy_description := None |}] |}.
Definition ex_yaml (s : string) : result RouterYaml := Ok (ex_doc (String.eqb s "a")).
Lemma vrf_isolation_witness :
  load_for_vrf Ok ex_yaml "a" "blue" = load_for_vrf Ok ex_yaml "b" "blue" ∧
  (b_tcp_workers ∘ c_block) <$> load_for_vrf Ok ex_yaml "a" "blue" = Ok (Some 7) ∧
  load_for_vrf Ok ex_yaml "a" "red" = Err "VRF not declared in router.yaml's vrfs: block".
Proof.
  split; [|vm_compute; done].
  destruct (vrf_isolation Ok ex_yaml "a" "b" "blue" (ex_doc true) (ex_doc false)) as [E _]; [vm_compute; reflexivity..|exact E].
Defined.
End ConfigExamples.
