(* ===== verification/Workers.v ===== *)
(** * The pool of I/O threads ([worker.rs])

    [VclIoExecutor]: spawning its threads one by one, the choice of a worker, and
    shutting down.  The operating system's threads are a store: a thread serves until its
    shutdown channel fires or is dropped, then exits; joining a thread that has not been
    told to exit blocks for ever. *)
From S2P Require Import Prelude.

Module Workers.

(** What becomes of thread [id] when it is started: no thread at all, an error of the
    runtime or of the reactor, a panic before it reported, or a parked worker. *)
Inductive Boot : Type := NoThread | RuntimeError | ReactorError | EarlyPanic | Ready.

(** [th_told]: the shutdown sender has fired or was dropped. *)
Record Thread := { th_serving : bool; th_told : bool }.
Abbreviation Threads := (list Thread).
Record VclIoWorker := { wk_thread : nat; wk_join : bool; wk_shutdown_tx : bool }.
Record VclIoExecutor := { workers : list VclIoWorker; next : Z }.

Definition tell (i : nat) (ts : Threads) : Threads :=
  alter (λ t, {| th_serving := th_serving t; th_told := true |}) i ts.
(** Dropping a worker drops its sender; the thread is not joined. *)
Definition drop_workers (ws : list VclIoWorker) (ts : Threads) : Threads :=
  foldl (λ ts w, if wk_shutdown_tx w then tell (wk_thread w) ts else ts) ts ws.
(** Every thread that was told to exit gets to do so. *)
Definition settle (ts : Threads) : Threads :=
  map (λ t, {| th_serving := th_serving t && negb (th_told t); th_told := th_told t |}) ts.

(** [vcl_io_thread_main] up to its report: [None] when it panics before. *)
Definition vcl_io_thread_main (b : Boot) : option (result unit) * Thread :=
  let gone := {| th_serving := false; th_told := false |} in
  match b with
  | Ready => (Some (Ok ()), {| th_serving := true; th_told := false |})
  | RuntimeError => (Some (Err "vcl-io tokio runtime"), gone)
  | ReactorError => (Some (Err "vcl-io reactor"), gone)
  | _ => (None, gone)
  end.

(** The [for] loop of [spawn] with [n] threads left. *)
Fixpoint spawn_loop (boot : nat → Boot) (n : nat) (ws : list VclIoWorker) (ts : Threads)
  : result (list VclIoWorker) * Threads :=
  match n with
  | O => (Ok ws, ts)
  | S n' =>
      let id := length ws in
      match boot id with
      | NoThread => (Err "spawning dnsd-vcl-io", drop_workers ws ts)
      | b =>
          let '(report, th) := vcl_io_thread_main b in
          let ts := ts ++ [th] in
          match report with
          | Some (Ok _) =>
              spawn_loop boot n' (ws ++ [{| wk_thread := length ts - 1; wk_join := true; wk_shutdown_tx := true |}]) ts
          | Some (Err e) => (Err e, drop_workers ws ts)
          | None => (Err "vcl-io panicked before reporting ready", drop_workers ws ts)
          end
      end
  end.
Definition spawn (boot : nat → Boot) (n : nat) : result VclIoExecutor * Threads :=
  let '(r, ts) := spawn_loop boot (Nat.max n 1) [] [] in
  (ws ← r; Ok {| workers := ws; next := 0 |}, ts).

(** [None]: the index is out of range, which would panic. *)
Definition upstream_workers (e : VclIoExecutor) : option nat := wk_thread <$> workers e !! 0%nat.
Definition pick_listener (e : VclIoExecutor) : option nat * VclIoExecutor :=
  let n := length (workers e) in
  let '(idx, next') :=
    if (1 <? n)%nat then (S (Z.to_nat (next e mod Z.of_nat (n - 1))), (next e + 1) mod 18446744073709551616)
    else (0%nat, next e) in
  (wk_thread <$> workers e !! idx, {| workers := workers e; next := next' |}).
Definition len (e : VclIoExecutor) : nat := length (workers e).

(** Joining thread [i]: [None] when it would block for ever. *)
Definition join (i : nat) (ts : Threads) : option Threads :=
  t ← ts !! i;
  if th_serving t && negb (th_told t) then None
  else Some (<[i := {| th_serving := false; th_told := th_told t |}]> ts).
Fixpoint signal_all (ws : list VclIoWorker) (ts : Threads) : list VclIoWorker * Threads :=
  match ws with
  | [] => ([], ts)
  | w :: ws' =>
      let ts := if wk_shutdown_tx w then tell (wk_thread w) ts else ts in
      let '(ws', ts) := signal_all ws' ts in
      ({| wk_thread := wk_thread w; wk_join := wk_join w; wk_shutdown_tx := false |} :: ws', ts)
  end.
Fixpoint join_all (ws : list VclIoWorker) (ts : Threads) : option (list VclIoWorker * Threads) :=
  match ws with
  | [] => Some ([], ts)
  | w :: ws' =>
      ts ← (if wk_join w then join (wk_thread w) ts else Some ts);
      '(ws', ts) ← join_all ws' ts;
      Some ({| wk_thread := wk_thread w; wk_join := false; wk_shutdown_tx := wk_shutdown_tx w |} :: ws', ts)
  end.
(** [shutdown], also run by [Drop]. *)
Definition shutdown (e : VclIoExecutor) (ts : Threads) : option (VclIoExecutor * Threads) :=
  let '(ws, ts) := signal_all (workers e) ts in
  '(ws, ts) ← join_all ws ts;
  Some ({| workers := ws; next := next e |}, ts).

(** ** What the loops do to the threads *)

Definition told (t : Thread) : Thread := {| th_serving := th_serving t; th_told := true |}.
Definition gone (t : Thread) : Thread := {| th_serving := false; th_told := th_told t |}.
Definition clear_tx (w : VclIoWorker) : VclIoWorker :=
  {| wk_thread := wk_thread w; wk_join := wk_join w; wk_shutdown_tx := false |}.
Definition clear_join (w : VclIoWorker) : VclIoWorker :=
  {| wk_thread := wk_thread w; wk_join := false; wk_shutdown_tx := wk_shutdown_tx w |}.
(** Some worker with this right holds thread [j]. *)
Definition held (f : VclIoWorker → bool) (j : nat) (ws : list VclIoWorker) : bool :=
  existsb (λ w, f w && (wk_thread w =? j)%nat) ws.

Lemma held_cons f j w ws : held f j (w :: ws) = (f w && (wk_thread w =? j)%nat) || held f j ws.
Proof. done. Qed.
Lemma tell_lookup i j ts : tell i ts !! j = (λ t, if (i =? j)%nat then told t else t) <$> ts !! j.
Proof.
  unfold tell. destruct (Nat.eqb_spec i j) as [-> |Ne]; [by rewrite list_lookup_alter_eq|].
  rewrite list_lookup_alter_ne by done. by destruct (ts !! j).
Qed.
Lemma drop_workers_lookup ws ts j :
  drop_workers ws ts !! j = (λ t, if held wk_shutdown_tx j ws then told t else t) <$> ts !! j.
Proof.
  revert ts. induction ws as [|w ws IH]; intros ts; [by cbn; destruct (ts !! j)|].
  change (drop_workers (w :: ws) ts) with (drop_workers ws (if wk_shutdown_tx w then tell (wk_thread w) ts else ts)).
  rewrite IH, held_cons. destruct (wk_shutdown_tx w); cbn; [|done]. rewrite tell_lookup. destruct (ts !! j) as [t|]; cbn; [|done].
  by destruct (wk_thread w =? j)%nat, (held wk_shutdown_tx j ws).
Qed.
Lemma signal_all_eq ws ts : signal_all ws ts = (map clear_tx ws, drop_workers ws ts).
Proof.
  revert ts. induction ws as [|w ws IH]; intros ts; cbn; [done|]. by rewrite IH.
Qed.
(** Joining succeeds when every thread to be joined exists and has been told. *)
Lemma join_all_spec ws ts :
  (∀ w, w ∈ ws → ∃ t, ts !! wk_thread w = Some t ∧ (th_serving t = true → th_told t = true)) →
  ∃ ts', join_all ws ts = Some (map clear_join ws, ts') ∧
    ∀ j, ts' !! j = (λ t, if held wk_join j ws then gone t else t) <$> ts !! j.
Proof.
  revert ts. induction ws as [|w ws IH]; intros ts Hw.
  { exists ts. split; [done|]. intros j. cbn. by destruct (ts !! j). }
  cbn [join_all map].
  destruct (Hw w) as (t & Et & Ht); [left|].
  assert (∃ ts1, (if wk_join w then join (wk_thread w) ts else Some ts) = Some ts1 ∧
    ∀ j, ts1 !! j = (λ t, if wk_join w && (wk_thread w =? j)%nat then gone t else t) <$> ts !! j) as (ts1 & -> & E1).
  { destruct (wk_join w); cbn; [|exists ts; split; [done|]; intros j; by destruct (ts !! j)].
    unfold join. rewrite Et. cbn. assert (th_serving t && negb (th_told t) = false) as ->.
    { destruct (th_serving t); [|done]. by rewrite (Ht eq_refl). }
    eexists; split; [done|]. intros j. destruct (Nat.eqb_spec (wk_thread w) j) as [<- |Ne].
    - rewrite list_lookup_insert_eq by (by eapply lookup_lt_Some). by rewrite Et.
    - rewrite list_lookup_insert_ne by done. by destruct (ts !! j). }
  cbn [mbind option_bind]. destruct (IH ts1) as (ts' & -> & E2).
  { intros w' Hin. destruct (Hw w') as (t' & Et' & Ht'); [by right|]. rewrite E1, Et'. cbn.
    destruct (_ && _); eexists; split; [done|done|done|exact Ht']. }
  exists ts'. split; [done|]. intros j. rewrite E2, E1, held_cons.
  destruct (ts !! j) as [t'|]; cbn; [|done]. by destruct (_ && _), (held wk_join j ws).
Qed.

(** ** Spawning *)

Definition worker (i : nat) : VclIoWorker := {| wk_thread := i; wk_join := true; wk_shutdown_tx := true |}.
Definition parked : Thread := {| th_serving := true; th_told := false |}.
(** Nothing goes on serving without a way to be told. *)
Definition no_leak (ts : Threads) : Prop := Forall (λ t, th_serving t = true → th_told t = true) ts.

Lemma held_workers f k j : (∀ i, f (worker i) = true) → held f j (map worker (seq 0 k)) = (j <? k)%nat.
Proof.
  intros F. apply eq_true_iff_eq. unfold held. rewrite existsb_exists, Nat.ltb_lt. split.
  - intros (w & (i & <- & Hi%in_seq)%in_map_iff & [_ E%Nat.eqb_eq]%andb_true_iff). cbn in E. lia.
  - intros L. exists (worker j). split; [apply in_map, in_seq; lia|]. rewrite F. cbn. apply Nat.eqb_refl.
Qed.
Lemma drop_no_leak k th : (∀ t, t ∈ th → th_serving t = false) → no_leak (drop_workers (map worker (seq 0 k)) (replicate k parked ++ th)).
Proof.
  intros Hth. apply Forall_lookup. intros j t. rewrite drop_workers_lookup, held_workers by done.
  intros (t0 & E & ->)%fmap_Some. destruct (Nat.ltb_spec j k); [done|].
  rewrite lookup_app_r in E by (rewrite length_replicate; lia). apply list_elem_of_lookup_2 in E.
  rewrite (Hth _ E). done.
Qed.
Lemma spawn_loop_spec boot n k r ts :
  spawn_loop boot n (map worker (seq 0 k)) (replicate k parked) = (r, ts) →
  match r with
  | Ok ws => ws = map worker (seq 0 (k + n)) ∧ ts = replicate (k + n) parked
  | Err _ => no_leak ts
  end.
Proof.
  revert k. induction n as [|n IH]; intros k; cbn [spawn_loop].
  { intros [= <- <-]. by rewrite Nat.add_0_r. }
  assert (Dead : ∀ th, th_serving th = false → no_leak (drop_workers (map worker (seq 0 k)) (replicate k parked ++ [th]))).
  { intros th Hth. apply drop_no_leak. by intros t ->%list_elem_of_singleton. }
  destruct (boot _); cbn; try (intros [= <- <-]; by apply Dead).
  - intros [= <- <-]. rewrite <- (app_nil_r (replicate k parked)). apply drop_no_leak. by intros t ?%elem_of_nil.
  - rewrite length_app, length_replicate. cbn. replace (k + 1 - 1)%nat with k by lia.
    replace (map worker (seq 0 k) ++ [_]) with (map worker (seq 0 (S k))) by (by rewrite seq_S, map_app).
    replace (replicate k parked ++ [_]) with (replicate (S k) parked) by (by rewrite replicate_S_end).
    intros E%IH. by rewrite <- Nat.add_succ_comm.
Qed.

(** ** Round robin *)

Fixpoint picks (n : nat) (e : VclIoExecutor) : list (option nat) :=
  match n with O => [] | S n' => let '(o, e) := pick_listener e in o :: picks n' e end.

Definition pool (n : nat) (x : Z) : VclIoExecutor := {| workers := map worker (seq 0 n); next := x |}.
Lemma pick_pool n x :
  (2 ≤ n)%nat → 0 ≤ x → x + 1 < 18446744073709551616 →
  pick_listener (pool n x) = (Some (S (Z.to_nat (x mod Z.of_nat (n - 1)))), pool n (x + 1)).
Proof.
  intros N X W. unfold pick_listener. cbn [workers next pool]. rewrite length_map, length_seq.
  destruct (Nat.ltb_spec 1 n); [|lia]. rewrite (Z.mod_small (x + 1)) by lia.
  pose proof (Z.mod_pos_bound x (Z.of_nat (n - 1)) ltac:(lia)).
  change (map worker (seq 0 n)) with (worker <$> seq 0 n). rewrite list_lookup_fmap, lookup_seq_lt by lia. done.
Qed.
Lemma picks_pool n x m :
  (2 ≤ n)%nat → 0 ≤ x → x + Z.of_nat m < 18446744073709551616 →
  picks m (pool n x) = map (λ i, Some (S (Z.to_nat ((x + Z.of_nat i) mod Z.of_nat (n - 1))))) (seq 0 m).
Proof.
  intros N. revert x. induction m as [|m IH]; intros x X W; [done|]. cbn [picks]. rewrite pick_pool by lia.
  rewrite IH by lia. cbn [seq map]. rewrite Z.add_0_r. f_equal. rewrite <- seq_shift, map_map.
  apply map_ext. intros i. do 4 f_equal. lia.
Qed.

(** Listeners are spread evenly, and never onto the worker of the upstream sockets:
    in a pool of [n], any [n - 1] picks in a row name each of the workers [1 .. n - 1]
    exactly once. *)
Theorem picks_round_robin n x :
  (2 ≤ n)%nat → 0 ≤ x → x + Z.of_nat n < 18446744073709551616 →
  picks (n - 1) (pool n x) ≡ₚ map Some (seq 1 (n - 1)) ∧ upstream_workers (pool n x) = Some 0%nat.
Proof.
  intros N X W. split; [|destruct n; [lia|done]].
  rewrite picks_pool by lia. rewrite <- (map_map (λ i, S (Z.to_nat ((x + Z.of_nat i) mod Z.of_nat (n - 1)))) Some).
  apply Permutation_map. apply submseteq_length_Permutation; [|by rewrite length_map, !length_seq].
  apply NoDup_submseteq.
  - apply NoDup_fmap_2_strong; [|apply NoDup_seq]. intros i j Hi%elem_of_seq Hj%elem_of_seq E.
    pose proof (Z.mod_pos_bound (x + Z.of_nat i) (Z.of_nat (n - 1)) ltac:(lia)).
    pose proof (Z.mod_pos_bound (x + Z.of_nat j) (Z.of_nat (n - 1)) ltac:(lia)).
    assert (Em : (x + Z.of_nat i) mod Z.of_nat (n - 1) = (x + Z.of_nat j) mod Z.of_nat (n - 1)) by lia.
    pose proof (Z.div_mod (x + Z.of_nat i) (Z.of_nat (n - 1)) ltac:(lia)) as Di.
    pose proof (Z.div_mod (x + Z.of_nat j) (Z.of_nat (n - 1)) ltac:(lia)) as Dj. rewrite Em in Di.
    assert (Eq : (x + Z.of_nat i) / Z.of_nat (n - 1) = (x + Z.of_nat j) / Z.of_nat (n - 1)).
    { generalize dependent ((x + Z.of_nat i) / Z.of_nat (n - 1)). generalize dependent ((x + Z.of_nat j) / Z.of_nat (n - 1)).
      intros q1 D1 q2 D2. assert (Z.of_nat i - Z.of_nat j = Z.of_nat (n - 1) * (q2 - q1)) as D by lia.
      destruct (Z.lt_trichotomy (q2 - q1) 0) as [?|[?|?]]; [nia|lia|nia]. }
    rewrite Eq in Di. lia.
  - intros y (i & -> & _)%list_elem_of_fmap. apply elem_of_seq.
    pose proof (Z.mod_pos_bound (x + Z.of_nat i) (Z.of_nat (n - 1)) ltac:(lia)). lia.
Qed.

Lemma existsb_map {A B} (f : B → bool) (g : A → B) l : existsb f (map g l) = existsb (λ x, f (g x)) l.
Proof. induction l as [|x l IH]; cbn; [done|]. by rewrite IH. Qed.
(** With all rights spent, shutting down does nothing. *)
Lemma shutdown_again ws n ts :
  (∀ w, w ∈ ws → wk_join w = false ∧ wk_shutdown_tx w = false) →
  shutdown {| workers := ws; next := n |} ts = Some ({| workers := ws; next := n |}, ts).
Proof.
  intros Hw. unfold shutdown. cbn [workers next].
  assert (S : signal_all ws ts = (ws, ts)).
  { clear n. induction ws as [|[i j x] ws IH]; cbn; [done|]. destruct (Hw {| wk_thread := i; wk_join := j; wk_shutdown_tx := x |}) as [E1 E2]; [left|].
    cbn in E1, E2. subst j x. rewrite IH; [done|]. intros w Hin. apply Hw. by right. }
  assert (J : join_all ws ts = Some (ws, ts)).
  { clear n S. induction ws as [|[i j x] ws IH]; cbn; [done|]. destruct (Hw {| wk_thread := i; wk_join := j; wk_shutdown_tx := x |}) as [E1 E2]; [left|].
    cbn in E1, E2. subst j x. cbn. rewrite IH; [done|]. intros w Hin. apply Hw. by right. }
  by rewrite S, J.
Qed.

(** The life of the pool.  A failed start leaves no thread behind that nobody can stop:
    every thread that still serves has lost its sender and exits by itself.  A pool that
    started has [max n 1] serving threads; it can always be shut down, which
    returns, leaves no thread serving, and done again changes nothing. *)
Theorem pool_lifecycle boot n r ts :
  spawn boot n = (r, ts) →
  match r with
  | Err _ => Forall (λ t, th_serving t = false) (settle ts)
  | Ok e =>
      len e = Nat.max n 1 ∧ length ts = Nat.max n 1 ∧ Forall (λ t, th_serving t = true) ts ∧
      ∃ e' ts', shutdown e ts = Some (e', ts') ∧ Forall (λ t, th_serving t = false) ts' ∧
        shutdown e' ts' = Some (e', ts')
  end.
Proof.
  unfold spawn. destruct (spawn_loop boot (Nat.max n 1) [] []) as [r0 ts0] eqn:E.
  apply (spawn_loop_spec boot (Nat.max n 1) 0) in E. destruct r0 as [ws|e]; intros [= <- <-].
  2: { apply Forall_forall. intros t (t0 & -> & Hin)%list_elem_of_fmap. unfold no_leak in E. rewrite Forall_forall in E.
       specialize (E _ Hin). cbn. destruct (th_serving t0); [by rewrite E|done]. }
  cbn in E. destruct E as [-> ->]. set (k := Nat.max n 1). unfold len. cbn. rewrite length_map, length_seq, length_replicate.
  split_and!; [done..|by apply Forall_replicate|].
  set (ws := map worker (seq 0 k)). set (ts1 := drop_workers ws (replicate k parked)).
  assert (L1 : ∀ j, ts1 !! j = (if (j <? k)%nat then Some (told parked) else None)).
  { intros j. unfold ts1, ws. rewrite drop_workers_lookup, held_workers by done.
    destruct (Nat.ltb_spec j k); [by rewrite lookup_replicate_2|].
    destruct (replicate k parked !! j) eqn:X; [apply lookup_replicate in X as [_ ?]; lia|done]. }
  destruct (join_all_spec (map clear_tx ws) ts1) as (ts2 & J & L2).
  { intros w (w0 & -> & (i & -> & Hi)%list_elem_of_fmap)%list_elem_of_fmap. apply elem_of_seq in Hi.
    exists (told parked). split; [|done]. rewrite L1. cbn [wk_thread clear_tx worker]. destruct (Nat.ltb_spec i k); [done|lia]. }
  assert (G : ∀ j t, ts2 !! j = Some t → th_serving t = false).
  { intros j t. rewrite L2, L1. assert (held wk_join j (map clear_tx ws) = held wk_join j ws) as ->.
    { unfold held. rewrite existsb_map. done. }
    unfold ws. rewrite held_workers by done. destruct (j <? k)%nat; [by intros [= <-]|done]. }
  exists {| workers := map clear_join (map clear_tx ws); next := 0 |}, ts2. split_and!.
  - unfold shutdown. cbn [workers next]. rewrite signal_all_eq. fold ts1. by rewrite J.
  - apply Forall_lookup. exact G.
  - apply shutdown_again. intros w (w0 & -> & (w1 & -> & _)%list_elem_of_fmap)%list_elem_of_fmap. done.
Qed.
End Workers.

(** ** Examples *)
Module WorkersExamples.
Import Workers.

(** The third of four threads fails to build its reactor. *)
Definition ex_boot (id : nat) : Boot := if (id =? 2)%nat then ReactorError else Ready.
Lemma pool_lifecycle_witness :
  (spawn ex_boot 4).1 = Err "vcl-io reactor" ∧ Forall (λ t, th_serving t = false) (settle (spawn ex_boot 4).2) ∧
  ∃ e' ts', shutdown (pool 2 0) (replicate 2 parked) = Some (e', ts') ∧ Forall (λ t, th_serving t = false) ts'.
Proof.
  split; [reflexivity|]. split.
  - exact (pool_lifecycle ex_boot 4 (Err "vcl-io reactor") (spawn ex_boot 4).2 eq_refl).
  - destruct (pool_lifecycle ex_boot 2 (Ok (pool 2 0)) (replicate 2 parked)) as (_ & _ & _ & e' & ts' & E & F & _);
      [reflexivity|]. exists e', ts'. by split.
Defined.
Lemma picks_round_robin_witness : picks 3 (pool 4 5) ≡ₚ map Some [1; 2; 3]%nat.
Proof. apply (picks_round_robin 4 5); lia. Defined.
End WorkersExamples.
