(* ===== verification/IpText.v ===== *)
(** * IP addresses as text

    [Display] and [FromStr] of [std::net::IpAddr], as the root-hints file and the
    control socket use them: dotted quads, colon-separated hexadecimal groups with
    the longest run of zeros compressed, and IPv4-mapped addresses. *)
From Stdlib Require Import Ascii.
From S2P Require Import Prelude Hickory Text.

Module IpText.

(** ** Writing *)

Definition hex_char (d : Z) : ascii := ascii_of_N (Z.to_N (if d <? 10 then 48 + d else 87 + d)).
(** [{:x}] of a [u16]. *)
Fixpoint hex_go (fuel : nat) (n : Z) (acc : string) : string :=
  match fuel with
  | O => acc
  | S fuel' => if n <? 16 then String (hex_char n) acc else hex_go fuel' (n / 16) (String (hex_char (n mod 16)) acc)
  end.
Definition show_hex (n : Z) : string := hex_go 4 n "".

Definition show_v4 (a : Ipv4Addr) : string :=
  match a with
  | [a; b; c; d] => show_uint a +:+ "." +:+ show_uint b +:+ "." +:+ show_uint c +:+ "." +:+ show_uint d
  | _ => ""
  end.

Definition of_segments (l : list Z) : list Z := concat (map to_be16 l).

(** A run of zero groups: where it starts, how long it is. *)
Definition Span : Type := nat * nat.
Fixpoint zero_span (i : nat) (segs : list Z) (longest current : Span) : Span :=
  match segs with
  | [] => longest
  | s :: segs' =>
      if s =? 0 then
        let current := (if (current.2 =? 0)%nat then i else current.1, S current.2) in
        zero_span (S i) segs' (if (longest.2 <? current.2)%nat then current else longest) current
      else zero_span (S i) segs' longest (0%nat, 0%nat)
  end.
Fixpoint fmt_subslice (chunk : list Z) : string :=
  match chunk with
  | [] => ""
  | [s] => show_hex s
  | s :: chunk' => show_hex s +:+ ":" +:+ fmt_subslice chunk'
  end.
Definition show_v6 (a : Ipv6Addr) : string :=
  let segs := segments a in
  if bool_decide (take 6 segs = [0; 0; 0; 0; 0; 0xffff]) then "::ffff:" +:+ show_v4 (drop 12 a)
  else
    let '(start, len) := zero_span 0 segs (0%nat, 0%nat) (0%nat, 0%nat) in
    if (1 <? len)%nat
    then fmt_subslice (take start segs) +:+ "::" +:+ fmt_subslice (drop (start + len) segs)
    else fmt_subslice segs.
Definition show_ip (a : IpAddr) : string := match a with V4 a => show_v4 a | V6 a => show_v6 a end.

(** ** Reading *)

(** [char::to_digit]. *)
Definition to_digit (radix : Z) (c : ascii) : option Z :=
  let n := Z.of_N (N_of_ascii c) in
  let d := if (48 <=? n) && (n <=? 57) then n - 48 else if (97 <=? n) && (n <=? 102) then n - 87
           else if (65 <=? n) && (n <=? 70) then n - 55 else radix in
  if d <? radix then Some d else None.
Fixpoint read_digits (radix : Z) (s : string) : list Z * string :=
  match s with
  | "" => ([], "")
  | String c s' =>
      match to_digit radix c with
      | Some d => let '(ds, r) := read_digits radix s' in (d :: ds, r)
      | None => ([], s)
      end
  end.
Definition digits_value (radix : Z) (ds : list Z) : Z := foldl (λ r d, r * radix + d) 0 ds.
Definition read_number (radix : Z) (max_digits : nat) (allow_zero_prefix : bool) (max : Z) (s : string)
  : option (Z * string) :=
  let '(ds, r) := read_digits radix s in
  if (max_digits <? length ds)%nat then None
  else if (length ds =? 0)%nat then None
  else if negb allow_zero_prefix && bool_decide (head ds = Some 0) && (1 <? length ds)%nat then None
  else if max <? digits_value radix ds then None
  else Some (digits_value radix ds, r).
Definition read_given_char (c : ascii) (s : string) : option string :=
  match s with String d s' => if Ascii.eqb c d then Some s' else None | "" => None end.
(** The separator precedes every item but the first. *)
Definition read_separator {A} (sep : ascii) (index : nat) (inner : string → option A) (s : string) : option A :=
  match index with O => inner s | S _ => s ← read_given_char sep s; inner s end.

Definition DOT : ascii := ascii_of_nat 46.
Definition COLON : ascii := ascii_of_nat 58.
Definition read_octet : string → option (Z * string) := read_number 10 3 false 255.
Definition read_ipv4_addr (s : string) : option (Ipv4Addr * string) :=
  '(a, s) ← read_octet s;
  '(b, s) ← read_separator DOT 1 read_octet s;
  '(c, s) ← read_separator DOT 2 read_octet s;
  '(d, s) ← read_separator DOT 3 read_octet s;
  Some ([a; b; c; d], s).
(** [left] groups may still be read; the result says whether they end in a dotted quad. *)
Fixpoint read_groups (left : nat) (i : nat) (s : string) : list Z * bool * string :=
  match left with
  | O => ([], false, s)
  | S left' =>
      match (if (0 <? left')%nat then read_separator COLON i read_ipv4_addr s else None) with
      | Some (v4, s') => (segments v4, true, s')
      | None =>
          match read_separator COLON i (read_number 16 4 true 65535) s with
          | Some (g, s') => let '(gs, v4, r) := read_groups left' (S i) s' in (g :: gs, v4, r)
          | None => ([], false, s)
          end
      end
  end.
Definition read_ipv6_addr (s : string) : option (Ipv6Addr * string) :=
  let '(head, head_ipv4, s) := read_groups 8 0 s in
  if (length head =? 8)%nat then Some (of_segments head, s)
  else if head_ipv4 then None
  else
    s ← read_given_char COLON s;
    s ← read_given_char COLON s;
    let '(tail, _, s) := read_groups (8 - (length head + 1)) 0 s in
    Some (of_segments (head ++ replicate (8 - length head - length tail) 0 ++ tail), s).
(** [str::parse::<IpAddr>]: the whole text must be read. *)
Definition parse_ip (s : string) : option IpAddr :=
  '(a, r) ← match read_ipv4_addr s with
            | Some (a, r) => Some (V4 a, r)
            | None => '(a, r) ← read_ipv6_addr s; Some (V6 a, r)
            end;
  match r with "" => Some a | _ => None end.

Example parse_ip_examples :
  map parse_ip ["198.41.0.4"; "2001:503:ba3e::2:30"; "::"; "::ffff:1.2.3.4"; "1::2::3"; "01.2.3.4"; "1.2.3.256"; "1:2:3:4:5:6:7:8"]
  = [Some (V4 [198; 41; 0; 4]); Some (V6 [32; 1; 5; 3; 186; 62; 0; 0; 0; 0; 0; 0; 0; 2; 0; 48]); Some (V6 (replicate 16 0));
     Some (V6 [0; 0; 0; 0; 0; 0; 0; 0; 0; 0; 255; 255; 1; 2; 3; 4]); None; None; None;
     Some (V6 [0; 1; 0; 2; 0; 3; 0; 4; 0; 5; 0; 6; 0; 7; 0; 8])] ∧
  map show_ip [V6 [32; 1; 5; 3; 186; 62; 0; 0; 0; 0; 0; 0; 0; 2; 0; 48]; V6 (replicate 16 0);
     V6 [0; 0; 0; 0; 0; 0; 0; 0; 0; 0; 255; 255; 1; 2; 3; 4]; V6 [0; 1; 0; 0; 0; 3; 0; 0; 0; 0; 0; 6; 0; 7; 0; 0]]
  = ["2001:503:ba3e::2:30"; "::"; "::ffff:1.2.3.4"; "1:0:3::6:7:0"].
Proof. vm_compute. split; reflexivity. Qed.

(** ** Reading back what was written *)

#[local] Arguments to_digit : simpl never.
(** The text after a number: nothing, or no further digit. *)
Definition stops (radix : Z) (s : string) : Prop := match s with "" => True | String c _ => to_digit radix c = None end.
Lemma read_digits_app radix s ds rest :
  read_digits radix s = (ds, "") → stops radix rest → read_digits radix (s +:+ rest) = (ds, rest).
Proof.
  intros Hs Hr. revert ds Hs. induction s as [|c s IH]; intros ds; cbn [read_digits].
  - intros [= <-]. change ("" +:+ rest) with rest. destruct rest as [|c rest]; [done|]. cbn in *. by rewrite Hr.
  - rewrite string_app_cons. cbn [read_digits]. destruct (to_digit radix c) as [d|]; [|done].
    destruct (read_digits radix s) as [ds' r]. intros [= <- ->]. by rewrite (IH ds').
Qed.
Lemma read_digits_rest f radix s : string_all f s = true → string_all f (read_digits radix s).2 = true.
Proof.
  induction s as [|c s IH]; [done|]. cbn. intros [Hc Hs]%andb_true_iff.
  destruct (to_digit radix c); [|cbn; by rewrite Hc]. specialize (IH Hs). by destruct (read_digits radix s).
Qed.

(** What [read_number] sees of a number alone. *)
Definition reads (radix : Z) (max_digits : nat) (zero : bool) (max n : Z) (s : string) : bool :=
  match read_number radix max_digits zero max s with
  | Some (m, "") => (m =? n) && (String.eqb (read_digits radix s).2 "")
  | _ => false
  end.
Lemma reads_app radix md zero max n s rest :
  reads radix md zero max n s = true → stops radix rest →
  read_number radix md zero max (s +:+ rest) = Some (n, rest).
Proof.
  unfold reads, read_number. destruct (read_digits radix s) as [ds r] eqn:E. intros Hr Hst.
  destruct (md <? length ds)%nat eqn:E1; [done|]. destruct (length ds =? 0)%nat eqn:E2; [done|].
  destruct (negb zero && _ && _) eqn:E3; [done|]. destruct (max <? _) eqn:E4; [done|].
  destruct r; [|done]. apply andb_true_iff in Hr as [Hn _]. apply Z.eqb_eq in Hn.
  rewrite (read_digits_app _ _ ds) by done. by rewrite E1, E2, E3, E4, Hn.
Qed.

Fixpoint below (n : nat) (from : Z) (f : Z → bool) : bool :=
  match n with O => true | S n' => f from && below n' (from + 1) f end.
Lemma below_spec n from f z : below n from f = true → from ≤ z < from + Z.of_nat n → f z = true.
Proof.
  revert from. induction n as [|n IH]; intros from; cbn [below]; [lia|]. intros [Hf Hb]%andb_true_iff Hz.
  destruct (decide (z = from)) as [->|]; [done|]. apply (IH (from + 1)); [done|lia].
Qed.
Definition octet_ok (n : Z) : bool :=
  reads 10 3 false 255 n (show_uint n) && string_all (λ c, negb (is_whitespace c)) (show_uint n).
Definition no_dot (c : ascii) : bool := negb (Ascii.eqb c DOT) && negb (is_whitespace c).
Definition group_ok (n : Z) : bool := reads 16 4 true 65535 n (show_hex n) && string_all no_dot (show_hex n).
Lemma octets_ok n : is_byte n → octet_ok n = true.
Proof. apply (below_spec 256 0). vm_compute. reflexivity. Qed.
Lemma hex_char_ok d : 0 ≤ d < 16 → to_digit 16 (hex_char d) = Some d ∧ no_dot (hex_char d) = true.
Proof.
  intros Hd.
  pose proof (below_spec 16 0 (λ d, bool_decide (to_digit 16 (hex_char d) = Some d) && no_dot (hex_char d)) d eq_refl Hd) as C.
  apply andb_true_iff in C as [?%bool_decide_eq_true ?]. done.
Qed.
Lemma digits_value_app radix ds d : digits_value radix (ds ++ [d]) = digits_value radix ds * radix + d.
Proof. unfold digits_value. by rewrite foldl_app. Qed.
(** The digits written before [acc]. *)
Lemma hex_go_ok k n acc ds0 r0 :
  (0 < k)%nat → 0 ≤ n < 16 ^ Z.of_nat k → read_digits 16 acc = (ds0, r0) →
  ∃ ds, read_digits 16 (hex_go k n acc) = (ds ++ ds0, r0) ∧ digits_value 16 ds = n ∧ (1 ≤ length ds ≤ k)%nat ∧
    string_all no_dot (hex_go k n acc) = string_all no_dot acc.
Proof.
  revert n acc ds0. induction k as [|k IH]; intros n acc ds0 Hk Hn Ha; [lia|]. cbn [hex_go].
  destruct (Z.ltb_spec n 16) as [L|L].
  - destruct (hex_char_ok n ltac:(lia)) as [Hd Hp]. exists [n]. cbn [read_digits string_all]. rewrite Hd, Ha, Hp.
    split_and!; try done; cbn; lia.
  - assert (0 < k)%nat. { destruct k; [cbn in Hn; lia|lia]. }
    assert (Hm := Z.mod_pos_bound n 16 ltac:(lia)). destruct (hex_char_ok (n mod 16) Hm) as [Hd Hp].
    rewrite Nat2Z.inj_succ, Z.pow_succ_r in Hn by lia.
    destruct (IH (n / 16) (String (hex_char (n mod 16)) acc) (n mod 16 :: ds0)) as (ds & Hr & Hv & Hl & Hs); [done| | |].
    + split; [apply Z.div_pos; lia|apply Z.div_lt_upper_bound; lia].
    + cbn [read_digits]. by rewrite Hd, Ha.
    + exists (ds ++ [n mod 16]). rewrite <- app_assoc, digits_value_app, Hv, length_app. split_and!; [done|..].
      * pose proof (Z.div_mod n 16 ltac:(lia)). lia.
      * cbn. lia.
      * cbn. lia.
      * rewrite Hs. cbn [string_all]. by rewrite Hp.
Qed.
Lemma groups_ok n : is_u16 n → group_ok n = true.
Proof.
  intros [Hn1 Hn2]. destruct (hex_go_ok 4 n "" [] "") as (ds & Hr & Hv & Hl & Hs); [lia|by split|done|].
  unfold group_ok, reads, read_number, show_hex. rewrite Hr, Hs, app_nil_r.
  destruct (Nat.ltb_spec 4 (length ds)); [lia|]. destruct (Nat.eqb_spec (length ds) 0); [lia|]. cbn [negb andb].
  rewrite Hv. destruct (Z.ltb_spec 65535 n); [lia|]. by rewrite Z.eqb_refl.
Qed.
Lemma read_octet_show n rest : is_byte n → stops 10 rest → read_octet (show_uint n +:+ rest) = Some (n, rest).
Proof. intros Hn%octets_ok Hr. apply andb_true_iff in Hn as [Hn _]. by apply reads_app. Qed.
Lemma read_group_show n rest :
  is_u16 n → stops 16 rest → read_number 16 4 true 65535 (show_hex n +:+ rest) = Some (n, rest).
Proof. intros Hn%groups_ok Hr. apply andb_true_iff in Hn as [Hn _]. by apply reads_app. Qed.

Lemma read_ipv4_show a rest :
  is_v4_addr a → stops 10 rest → read_ipv4_addr (show_v4 a +:+ rest) = Some (a, rest).
Proof.
  intros [L Hb] Hr. destruct a as [|a [|b [|c [|d [|? ?]]]]]; try done.
  repeat (apply Forall_cons in Hb as [? Hb]). unfold read_ipv4_addr, show_v4. rewrite !string_app_assoc.
  rewrite read_octet_show by done. cbn [mbind option_bind read_separator].
  repeat (change (read_given_char DOT ("." +:+ ?x)) with (Some x); cbn [mbind option_bind];
    rewrite read_octet_show by done; cbn [mbind option_bind]).
  done.
Qed.
(** Text without a dot is no dotted quad. *)
Lemma read_ipv4_no_dot s : string_all no_dot s = true → read_ipv4_addr s = None.
Proof.
  intros Hs. unfold read_ipv4_addr. destruct (read_octet s) as [[a r]|] eqn:E; [|done]. cbn [mbind option_bind read_separator].
  assert (Hr : string_all no_dot r = true).
  { pose proof (read_digits_rest no_dot 10 s Hs) as Hr. unfold read_octet, read_number in E.
    destruct (read_digits 10 s) as [ds r']. repeat case_match; try done. by injection E as _ <-. }
  destruct r as [|c r]; [done|]. cbn in Hr. apply andb_true_iff in Hr as [Hc _].
  apply andb_true_iff in Hc as [Hc _]. cbn [read_given_char]. rewrite Ascii.eqb_sym. by destruct (Ascii.eqb c DOT).
Qed.

(** *** Groups *)
Lemma fmt_subslice_plain gs : Forall is_u16 gs → string_all no_dot (fmt_subslice gs) = true.
Proof.
  induction 1 as [|g gs Hg _ IH]; [done|]. apply groups_ok, andb_true_iff in Hg as [_ Hg].
  destruct gs; [done|]. cbn [fmt_subslice]. rewrite !string_all_app, Hg. exact IH.
Qed.
(** After the groups: nothing, or the double colon. *)
Definition group_end (s : string) : Prop := s = "" ∨ ∃ r, s = "::" +:+ r.
(** The groups after the first are each preceded by a colon. *)
Definition more_groups (gs : list Z) : string := foldr (λ g r, ":" +:+ show_hex g +:+ r) "" gs.
Lemma fmt_subslice_cons g gs : fmt_subslice (g :: gs) = show_hex g +:+ more_groups gs.
Proof.
  revert g. induction gs as [|h gs IH]; intros g; [cbn; by rewrite string_app_nil_r|].
  change (fmt_subslice (g :: h :: gs)) with (show_hex g +:+ ":" +:+ fmt_subslice (h :: gs)). by rewrite IH.
Qed.
Lemma group_end_stops gs s : group_end s → stops 16 (more_groups gs +:+ s).
Proof. intros [->|[r ->]]; destruct gs; done. Qed.
Lemma more_groups_no_dot gs s : Forall is_u16 gs → string_all no_dot s = true → string_all no_dot (more_groups gs +:+ s) = true.
Proof.
  intros Hg Hs. induction Hg as [|g gs Hg _ IH]; [done|]. apply groups_ok, andb_true_iff in Hg as [_ Hg].
  rewrite string_all_app in IH. cbn [more_groups foldr]. fold (more_groups gs).
  rewrite !string_app_assoc, !string_all_app, Hg. exact IH.
Qed.
Lemma read_sep_v4_none i s : string_all no_dot s = true → read_separator COLON i read_ipv4_addr s = None.
Proof.
  intros Hs. destruct i as [|i]; cbn [read_separator]; [by apply read_ipv4_no_dot|].
  destruct s as [|c s]; [done|]. cbn [read_given_char]. destruct (Ascii.eqb COLON c); [|done]. cbn [mbind option_bind].
  apply read_ipv4_no_dot. cbn in Hs. by apply andb_true_iff in Hs as [_ Hs].
Qed.
Lemma read_more left i gs rest :
  Forall is_u16 gs → (length gs ≤ left)%nat → group_end rest → string_all no_dot rest = true →
  read_groups left (S i) (more_groups gs +:+ rest) = (gs, false, rest).
Proof.
  intros Hg. revert left i. induction Hg as [|g gs Hg Hgs IH]; intros [|left] i L He Hd; cbn [length] in L; try lia.
  - done.
  - change (more_groups [] +:+ rest) with rest. cbn [read_groups]. rewrite read_sep_v4_none by done.
    replace (if (0 <? left)%nat then _ else _) with (@None (Ipv4Addr * string)) by (by destruct (0 <? left)%nat).
    destruct He as [->|[r ->]]; done.
  - cbn [more_groups foldr read_groups]. fold (more_groups gs). rewrite !string_app_assoc.
    rewrite read_sep_v4_none.
    2: { apply (more_groups_no_dot (g :: gs)) in Hd; [|by constructor]. cbn in Hd. by rewrite !string_app_assoc in Hd. }
    replace (if (0 <? left)%nat then _ else _) with (@None (Ipv4Addr * string)) by (by destruct (0 <? left)%nat).
    cbn [read_separator]. change (read_given_char COLON (":" +:+ ?x)) with (Some x). cbn [mbind option_bind].
    rewrite read_group_show by (done || by apply group_end_stops). rewrite IH by (done || lia). done.
Qed.
Lemma read_groups_show left gs rest :
  Forall is_u16 gs → (length gs ≤ left)%nat → group_end rest →
  string_all no_dot rest = true → read_groups left 0 (fmt_subslice gs +:+ rest) = (gs, false, rest).
Proof.
  intros Hg L He Hd. destruct Hg as [|g gs Hg Hgs].
  - change (fmt_subslice [] +:+ rest) with rest. destruct left as [|left]; [done|]. cbn [read_groups].
    rewrite read_sep_v4_none by done.
    replace (if (0 <? left)%nat then _ else _) with (@None (Ipv4Addr * string)) by (by destruct (0 <? left)%nat).
    destruct He as [->|[r ->]]; done.
  - destruct left as [|left]; [cbn in L; lia|]. rewrite fmt_subslice_cons, string_app_assoc. cbn [read_groups].
    rewrite read_sep_v4_none.
    2: { apply groups_ok, andb_true_iff in Hg as [_ Hg]. rewrite string_all_app, Hg. by apply more_groups_no_dot. }
    replace (if (0 <? left)%nat then _ else _) with (@None (Ipv4Addr * string)) by (by destruct (0 <? left)%nat).
    cbn [read_separator]. rewrite read_group_show by (done || by apply group_end_stops).
    rewrite read_more by (done || cbn in L; lia). done.
Qed.

(** *** The compressed run *)
Definition zero_run (segs : list Z) (s : Span) : Prop :=
  (s.1 + s.2 ≤ length segs)%nat ∧ take s.2 (drop s.1 segs) = replicate s.2 0.
Lemma zero_run_app p q s : zero_run p s → zero_run (p ++ q) s.
Proof.
  intros [L E]. split; [rewrite length_app; lia|]. rewrite drop_app_le, take_app_le by (rewrite ?length_drop; lia). done.
Qed.
Lemma zero_span_run p segs longest current :
  zero_run p longest → zero_run p current → (current.2 ≠ 0 → current.1 + current.2 = length p)%nat →
  zero_run (p ++ segs) (zero_span (length p) segs longest current).
Proof.
  revert p longest current. induction segs as [|s segs IH]; intros p longest current Hl Hc He; cbn [zero_span].
  { by rewrite app_nil_r. }
  replace (S (length p)) with (length (p ++ [s])) by (rewrite length_app; cbn; lia).
  replace (p ++ s :: segs) with ((p ++ [s]) ++ segs) by (by rewrite <- app_assoc).
  destruct (Z.eqb_spec s 0) as [->|Hs].
  - set (cur := (_, S current.2)). assert (Hcur : zero_run (p ++ [0]) cur ∧ (cur.1 + cur.2 = length (p ++ [0%Z]))%nat).
    { rewrite length_app. cbn [length]. destruct (Nat.eqb_spec current.2 0) as [E|E]; subst cur; cbn [fst snd].
      - rewrite E. split; [|lia]. split; cbn [fst snd]; [rewrite length_app; cbn; lia|]. by rewrite drop_app_length.
      - specialize (He E). split; [|lia]. destruct Hc as [Hc1 Hc2]. split; cbn [fst snd]; [rewrite length_app; cbn; lia|].
        rewrite drop_app_le by lia. rewrite take_ge by (rewrite length_app, length_drop; cbn; lia).
        rewrite <- (take_ge (drop current.1 p) current.2) by (rewrite length_drop; lia).
        rewrite Hc2, <- (replicate_S_end current.2). done. }
    apply IH; [|by apply Hcur|intros _; apply Hcur]. destruct (_ <? _)%nat; [apply Hcur|by apply zero_run_app].
  - apply IH; [by apply zero_run_app| |done]. split; cbn; [lia|]. by rewrite take_0.
Qed.

Lemma segments_length a : is_v6_addr a → length (segments a) = 8%nat ∧ Forall is_u16 (segments a) ∧ of_segments (segments a) = a.
Proof.
  intros [L Hb]. do 16 (destruct a as [|? a]; [done|]). destruct a; [|done].
  repeat (apply Forall_cons in Hb as [? Hb]). unfold segments, of_segments. cbn [pair_octets map concat].
  rewrite !to_from_be16 by done. split_and!; [done| |done].
  repeat constructor; unfold is_u16, from_be16, is_byte in *; lia.
Qed.

Lemma read_mapped v4 :
  is_v4_addr v4 →
  read_groups 8 0 ("::ffff:" +:+ show_v4 v4) = ([], false, "::ffff:" +:+ show_v4 v4) ∧
  read_groups 7 0 ("ffff:" +:+ show_v4 v4) = (0xffff :: segments v4, true, "").
Proof.
  intros Hv. split; [reflexivity|].
  change (read_groups 7 0 ("ffff:" +:+ show_v4 v4))
    with (let '(gs, b, r) := read_groups 6 1 (":" +:+ show_v4 v4) in (0xffff :: gs, b, r)).
  cbn [read_groups Nat.ltb Nat.leb read_separator]. change (read_given_char COLON (":" +:+ ?x)) with (Some x).
  cbn [mbind option_bind]. rewrite <- (string_app_nil_r (show_v4 v4)) at 1. by rewrite read_ipv4_show.
Qed.
Lemma read_ipv6_show a : is_v6_addr a → read_ipv6_addr (show_v6 a) = Some (a, "").
Proof.
  intros Ha. destruct (segments_length a Ha) as (L & Hu & Hof). unfold show_v6.
  case_bool_decide as Hm.
  { destruct Ha as [La Hb]. do 16 (destruct a as [|? a]; [done|]). destruct a; [|done].
    unfold segments in Hm, Hof. cbn [pair_octets take] in Hm.
    assert (E : ∀ hi lo k, is_byte hi → is_byte lo → 0 ≤ k → from_be16 hi lo = k → hi = k / 256 ∧ lo = k mod 256).
    { intros hi lo k Hh Hl _ <-. unfold from_be16, is_byte in *. Z.to_euclidean_division_equations; lia. }
    repeat (apply Forall_cons in Hb as [? Hb]).
    injection Hm as E1 E2 E3 E4 E5 E6.
    apply E in E1 as [-> ->], E2 as [-> ->], E3 as [-> ->], E4 as [-> ->], E5 as [-> ->], E6 as [-> ->]; try done.
    cbn [drop]. unfold read_ipv6_addr. 
    destruct (read_mapped [z11; z12; z13; z14]) as [-> M]; [split; [done|by repeat (constructor; [assumption|])]|].
    cbn [length Nat.eqb Nat.sub Nat.add]. change (read_given_char COLON ("::ffff:" +:+ ?x)) with (Some (":ffff:" +:+ x)).
    cbn [mbind option_bind]. change (read_given_char COLON (":ffff:" +:+ ?x)) with (Some ("ffff:" +:+ x)).
    cbn [mbind option_bind]. rewrite M. unfold segments, of_segments. cbn [pair_octets length Nat.sub replicate app map concat].
    rewrite !to_from_be16 by done. done. }
  pose proof (zero_span_run [] (segments a) (0, 0)%nat (0, 0)%nat) as Hz. cbn [length app] in Hz.
  destruct (zero_span 0 (segments a) _ _) as [start len]. destruct Hz as [Hz1 Hz2]; [by split..|done|]. cbn [fst snd] in *.
  unfold read_ipv6_addr. destruct (Nat.ltb_spec 1 len) as [Hlen|_].
  2: { rewrite <- (string_app_nil_r (fmt_subslice _)), read_groups_show; [|done|lia|by left|done].
       rewrite L. cbn. by rewrite Hof. }
  assert (Hh : length (take start (segments a)) = start) by (rewrite length_take; lia).
  rewrite read_groups_show; [|by apply Forall_take|lia|by right; eexists|].
  2: { change (string_all no_dot ("::" +:+ ?x)) with (string_all no_dot x). apply fmt_subslice_plain. by apply Forall_drop. }
  rewrite Hh. destruct (Nat.eqb_spec start 8); [lia|]. change (read_given_char COLON ("::" +:+ ?x)) with (Some (":" +:+ x)).
  cbn [mbind option_bind]. change (read_given_char COLON (":" +:+ ?x)) with (Some x). cbn [mbind option_bind].
  rewrite <- (string_app_nil_r (fmt_subslice _)).
  rewrite read_groups_show; [|by apply Forall_drop|rewrite length_drop; lia|by left|done].
  rewrite length_drop, L. replace (8 - start - (8 - (start + len)))%nat with len by lia.
  rewrite <- Hz2, <- drop_drop, take_drop, take_drop, Hof. done.
Qed.
Lemma no_dot_no_ws s : string_all no_dot s = true → string_all (λ c, negb (is_whitespace c)) s = true.
Proof. apply string_all_impl. intros c. unfold no_dot. by intros [_ ?]%andb_true_iff. Qed.
Lemma show_v4_no_ws a : is_v4_addr a → string_all (λ c, negb (is_whitespace c)) (show_v4 a) = true.
Proof.
  intros [L Hb]. destruct a as [|a [|b [|c [|d [|? ?]]]]]; try done. unfold show_v4. rewrite !string_all_app.
  repeat (apply Forall_cons in Hb as [Hx%octets_ok Hb]; apply andb_true_iff in Hx as [_ Hx]; rewrite Hx; clear Hx). done.
Qed.
Lemma show_v6_text a :
  is_v6_addr a → read_ipv4_addr (show_v6 a) = None ∧ string_all (λ c, negb (is_whitespace c)) (show_v6 a) = true.
Proof.
  intros Ha. destruct (segments_length a Ha) as (_ & Hu & _). unfold show_v6. case_bool_decide.
  { split; [reflexivity|]. change (string_all ?f ("::ffff:" +:+ ?x)) with (string_all f x). apply show_v4_no_ws.
    destruct Ha as [La Hb]. split; [rewrite length_drop; lia|by apply Forall_drop]. }
  destruct (zero_span _ _ _ _) as [start len].
  assert (Hp : string_all no_dot (if (1 <? len)%nat
    then fmt_subslice (take start (segments a)) +:+ "::" +:+ fmt_subslice (drop (start + len) (segments a))
    else fmt_subslice (segments a)) = true).
  { destruct (1 <? len)%nat; [|by apply fmt_subslice_plain]. rewrite !string_all_app.
    rewrite !fmt_subslice_plain by (by apply Forall_take || by apply Forall_drop). done. }
  split; [by apply read_ipv4_no_dot|by apply no_dot_no_ws].
Qed.
(** Reading inverts writing. *)
Lemma parse_show_ip a : is_ip_addr a → parse_ip (show_ip a) = Some a.
Proof.
  destruct a as [a|a]; cbn; intros Ha; unfold parse_ip.
  - rewrite <- (string_app_nil_r (show_v4 a)), read_ipv4_show by done. done.
  - destruct (show_v6_text a Ha) as [-> _]. by rewrite read_ipv6_show.
Qed.
Lemma show_ip_inj a b : is_ip_addr a → is_ip_addr b → show_ip a = show_ip b → a = b.
Proof. intros Ha Hb E. apply (f_equal parse_ip) in E. rewrite !parse_show_ip in E by done. congruence. Qed.
Lemma show_ip_no_ws a : is_ip_addr a → string_all (λ c, negb (is_whitespace c)) (show_ip a) = true ∧ show_ip a ≠ "".
Proof.
  intros Ha. split; [destruct a as [a|a]; [by apply show_v4_no_ws|by apply show_v6_text]|].
  intros E. pose proof (parse_show_ip a Ha) as P. by rewrite E in P.
Qed.
End IpText.
