(* ===== verification/Hints.v ===== *)
(** * The root-hints file ([recursor/iterative.rs])

    The compiled-in root servers, the file the primed set is kept in across restarts,
    and the set a new resolver starts from. *)
From Stdlib Require Import Ascii.
From S2P Require Import Prelude Hickory Reference Text IpText Cache Anchor Iterative.

Module RootHints.
Import IpText.

Definition root_server_texts : list string :=
  ["198.41.0.4"; "2001:503:ba3e::2:30"; "170.247.170.2"; "2801:1b8:10::b"; "192.33.4.12"; "2001:500:2::c";
   "199.7.91.13"; "2001:500:2d::d"; "192.203.230.10"; "2001:500:a8::e"; "192.5.5.241"; "2001:500:2f::f";
   "192.112.36.4"; "2001:500:12::d0d"; "198.97.190.53"; "2001:500:1::53"; "192.36.148.17"; "2001:7fe::53";
   "192.58.128.30"; "2001:503:c27::2:30"; "193.0.14.129"; "2001:7fd::1"; "199.7.83.42"; "2001:500:9f::42";
   "202.12.27.33"; "2001:dc3::35"].
Definition default_root_hints : list IpAddr := omap parse_ip root_server_texts.

(** [str::trim]. *)
Fixpoint trim_front (s : string) : string :=
  match s with "" => "" | String c s' => if is_whitespace c then trim_front s' else s end.
Fixpoint trim_back (s : string) : string :=
  match s with
  | "" => ""
  | String c s' => match trim_back s' with "" => if is_whitespace c then "" else String c "" | r => String c r end
  end.
Definition str_trim (s : string) : string := trim_back (trim_front s).
Definition is_comment (l : string) : bool := match l with String c _ => Ascii.eqb c "#"%char | "" => false end.

(** The file's text, if it can be read. *)
Definition read_root_hints_file (text : option string) : result (list IpAddr) :=
  text ← ok_or "reading root hints" text;
  let ls := List.filter (λ l, negb (String.eqb l "") && negb (is_comment l)) (map str_trim (str_lines text)) in
  match omap parse_ip ls with
  | [] => Err "no parseable IP addresses"
  | ips => Ok ips
  end.
Definition hints_header : list string :=
  ["# dnsd primed root hints — machine-generated, do not edit";
   "# Refreshed on each successful `./NS` priming query."].
(** The text the temporary file gets before it is renamed. *)
Definition render_hints (ips : list IpAddr) : string :=
  foldr Anchor.push_line "" (hints_header ++ map show_ip ips).
Definition write_root_hints_file (write_ok : bool) (ips : list IpAddr) (file : option string)
  : result unit * option string :=
  if write_ok then (Ok (), Some (render_hints ips)) else (Err "writing root hints", file).

(** The set [IterativeResolver::new] starts from. *)
Definition initial_roots (file : option string) (ipv6_upstream : bool) : list IpAddr :=
  let roots := match read_root_hints_file file with Ok (ip :: ips) => ip :: ips | _ => default_root_hints end in
  if ipv6_upstream then roots else List.filter is_ipv4 roots.

Lemma default_root_hints_ok :
  length default_root_hints = 26%nat ∧ length (List.filter is_ipv4 default_root_hints) = 13%nat.
Proof. vm_compute. done. Qed.

(** ** Reading back *)

Lemma trim_word l : string_all (λ c, negb (is_whitespace c)) l = true → str_trim l = l.
Proof.
  intros Hl. unfold str_trim.
  assert (F : trim_front l = l) by (destruct l as [|c l]; [done|]; cbn in *; by destruct (is_whitespace c)).
  rewrite F. clear F. induction l as [|c l IH]; [done|]. cbn in *. apply andb_true_iff in Hl as [Hc Hl].
  rewrite (IH Hl). destruct l; [|done]. by destruct (is_whitespace c).
Qed.
Lemma newline_ws l : string_all (λ c, negb (is_whitespace c)) l = true → string_all (λ c, negb (is_newline c)) l = true.
Proof.
  apply string_all_impl. intros c. unfold is_whitespace, is_newline. destruct (nat_of_ascii c =? 10)%nat eqn:E; [|done].
  apply Nat.eqb_eq in E. by rewrite E.
Qed.
Lemma show_ip_line a :
  is_ip_addr a → str_trim (show_ip a) = show_ip a ∧
    (negb (String.eqb (show_ip a) "") && negb (is_comment (show_ip a))) = true.
Proof.
  intros Ha. destruct (show_ip_no_ws a Ha) as [Hw Hn]. split; [by apply trim_word|].
  destruct (String.eqb_spec (show_ip a) ""); [done|]. cbn. destruct (show_ip a) as [|c s] eqn:E; [done|]. cbn.
  destruct (Ascii.eqb_spec c "#"%char) as [->|]; [|done]. pose proof (parse_show_ip a Ha) as P. rewrite E in P. done.
Qed.
Lemma read_written ips :
  ips ≠ [] → Forall is_ip_addr ips → read_root_hints_file (Some (render_hints ips)) = Ok ips.
Proof.
  intros Hne Hv. unfold read_root_hints_file, render_hints. cbn [ok_or mbind result_bind].
  rewrite Anchor.str_lines_push.
  2: { apply Forall_app. split; [by repeat constructor|]. apply Forall_fmap. eapply Forall_impl; [exact Hv|].
       intros a Ha. by apply newline_ws, show_ip_no_ws. }
  rewrite map_app, List.filter_app.
  replace (List.filter _ (map str_trim hints_header)) with (@nil string) by (vm_compute; reflexivity). cbn [app].
  assert (E : omap parse_ip (List.filter (λ l, negb (String.eqb l "") && negb (is_comment l))
    (map str_trim (map show_ip ips))) = ips).
  { clear Hne. induction Hv as [|a ips Ha _ IH]; [done|]. cbn [map List.filter].
    destruct (show_ip_line a Ha) as [-> ->]. cbn [omap list_omap]. rewrite parse_show_ip by done. f_equal. exact IH. }
  rewrite E. by destruct ips.
Qed.

(** ** Priming and restarting *)

(** A file that is missing, or in which every line is a comment or no address. *)
Definition no_address (file : option string) : Prop :=
  ∀ text l, file = Some text → l ∈ map str_trim (str_lines text) → is_comment l = true ∨ parse_ip l = None.
Lemma no_address_unread file : no_address file → ∃ e, read_root_hints_file file = Err e.
Proof.
  intros No. destruct file as [text|]; [|by eexists]. unfold read_root_hints_file. cbn [ok_or mbind result_bind].
  specialize (No text). induction (map str_trim (str_lines text)) as [|l ls IH]; [by eexists|]. cbn [List.filter].
  assert (IH' := IH ltac:(intros l' _ Hl; apply No; [done|by right])). clear IH.
  destruct (No l eq_refl ltac:(left)) as [C|P]; destruct (negb (String.eqb l "")); cbn [andb]; try done.
  - by rewrite C.
  - destruct (is_comment l); [done|]. cbn [negb omap list_omap]. by rewrite P.
Qed.
Lemma initial_roots_default other v6 :
  no_address other →
  initial_roots other v6 = (if v6 then default_root_hints else List.filter is_ipv4 default_root_hints) ∧
  initial_roots other v6 ≠ [].
Proof.
  intros [e No]%no_address_unread. assert (initial_roots other v6 = if v6 then default_root_hints else List.filter is_ipv4 default_root_hints) as ->.
  { unfold initial_roots. by rewrite No. }
  split; [done|]. by destruct v6.
Qed.

Section Prime.
Context `{NameOps} {HK : Hickory} `{!Moka} (cfg : Iterative.Config) (w : Iterative.IWorld).

(** [prime], with the file it leaves; a failed write is only logged. *)
Definition prime_and_save (write_ok : bool) (file : option string) (st : Iterative.ISt)
  : result unit * Iterative.ISt * option string :=
  match Iterative.prime cfg w st with
  | (Ok _, st) => (Ok (), st, (write_root_hints_file write_ok (Iterative.roots st) file).2)
  | (Err e, st) => (Err e, st, file)
  end.

Lemma prime_roots st st' :
  Iterative.prime cfg w st = (Ok (), st') →
  Iterative.roots st' ≠ [] ∧
  (Iterative.ipv6_upstream cfg = false → Forall (λ ip, is_ipv4 ip = true) (Iterative.roots st')).
Proof.
  unfold Iterative.prime. destruct (match find is_ipv4 _ with Some _ => _ | None => _ end) as [seed|]; [|done].
  destruct (Iterative.build_query _ _ _ _ _) as [wire|]; [|done]. destruct (Iterative.ask _ _ _ _) as [r st1].
  destruct (if Iterative.late w _ then _ else r) as [b|]; [|done]. destruct (from_bytes b) as [resp|]; [|done].
  destruct (map to_lowercase _) as [|n ns]; [done|].
  destruct (List.filter _ (concat _)) as [|ip ips] eqn:E; [done|]. intros [= <-]. cbn [Iterative.set_roots Iterative.roots].
  split; [done|]. intros Hv6. rewrite <- E, Hv6. apply List.Forall_forall. intros a [_ Ha]%filter_In. by destruct a.
Qed.

(** C39. Root hints survive a restart: after a successful priming whose file could be
    written, a resolver built from that file starts with exactly the primed set, in
    order.  If there is no such file, or if no line of it outside its comments is an
    address, the resolver starts with the compiled-in servers, the IPv4 ones
    only if it may not use IPv6, and so with at least one. *)
Theorem primed_roots_survive file st st' file' :
  prime_and_save true file st = (Ok (), st', file') → Forall is_ip_addr (Iterative.roots st') →
  initial_roots file' (Iterative.ipv6_upstream cfg) = Iterative.roots st' ∧
  ∀ other v6, no_address other →
    initial_roots other v6 = (if v6 then default_root_hints else List.filter is_ipv4 default_root_hints) ∧
    initial_roots other v6 ≠ [].
Proof.
  unfold prime_and_save. destruct (Iterative.prime cfg w st) as [[[]|e] st1] eqn:P; [|done].
  intros [= <- <-] Hv. apply prime_roots in P as [Hne H4]. split; [|by intros other v6; apply initial_roots_default].
  cbn [write_root_hints_file snd]. unfold initial_roots. rewrite read_written by done.
  destruct (Iterative.roots st1) as [|ip ips]; [done|].
  destruct (Iterative.ipv6_upstream cfg); [done|]. specialize (H4 eq_refl). clear -H4.
  induction H4 as [|a l Ha _ IH]; [done|]. cbn [List.filter]. by rewrite Ha, IH.
Qed.
End Prime.
End RootHints.

Module HintsExamples.
Import Iterative IterativeExamples RootHints.
#[local] Existing Instance IterativeExamples.ExMoka.

(** A priming response with two root servers, one of them with an IPv6 address. *)
Definition ex_primed : Message :=
  set_additionals [ex_rr "a.root-servers.net." (RD_A [198; 41; 0; 4]);
                   ex_rr "b.root-servers.net." (RD_AAAA [40; 1; 1; 184; 0; 16; 0; 0; 0; 0; 0; 0; 0; 0; 0; 11]);
                   ex_rr "b.root-servers.net." (RD_A [170; 247; 170; 2])]
    (add_answer (ex_rr "." (RD_NS (rn "b.root-servers.net.")))
       (add_answer (ex_rr "." (RD_NS (rn "a.root-servers.net."))) (message_response 7 OC_Query))).
#[local] Instance ExHickory : Hickory :=
  {| from_bytes b := if bool_decide (b = ex_wire 3) then Some ex_primed else None;
     to_vec := ref_to_vec; message_new := message_new;
     record_from_rdata := record_from_rdata; query_query := query_query; record_type := record_type;
     verify_rrsig := verify_rrsig; ds_covers := ds_covers; calculate_key_tag := calculate_key_tag;
     nsec3_hash := nsec3_hash; record_type_cmp := record_type_cmp; class_cmp := class_cmp;
     base32hex_decode := base32hex_decode |}.
Definition ex_iworld : IWorld :=
  {| iup := λ _ _ _, Ok (ex_wire 3); iinstant := λ n, Z.of_nat n; irnd := λ _, 7; shuffle := λ _ l, l; pick := λ n, n;
     late := λ _, false |}.
Definition ex_icfg : Config :=
  {| Iterative.dnssec_ok := true; ipv6_upstream := true; max_depth := DEFAULT_MAX_DEPTH;
     max_queries := DEFAULT_MAX_QUERIES; max_cname := clamp_max_cname 8 |}.
Definition ex_saved := prime_and_save ex_icfg ex_iworld true None ex_st.
Lemma primed_roots_survive_witness :
  length (Iterative.roots ex_saved.1.2) = 3%nat ∧ initial_roots ex_saved.2 true = Iterative.roots ex_saved.1.2 ∧
  initial_roots (Some "nonsense") false = List.filter is_ipv4 default_root_hints.
Proof.
  split; [vm_compute; reflexivity|].
  destruct (primed_roots_survive ex_icfg ex_iworld None ex_st ex_saved.1.2 ex_saved.2) as [E D]; [| |split; [exact E|apply (D (Some "nonsense")); intros text l [= <-] Hl; right; apply list_elem_of_singleton in Hl; subst l; reflexivity]].
  - assert (E : ex_saved.1.1 = Ok ()) by (vm_compute; reflexivity). fold ex_saved. rewrite <- E.
    by destruct ex_saved as [[? ?] ?].
  - repeat constructor; vm_compute; congruence.
Defined.

(** An IPv6-only file leaves a resolver that may not use IPv6 without any root: the
    compiled-in servers are considered before the families are filtered. *)
Lemma v6_hints_leave_no_roots :
  initial_roots (Some (render_hints [V6 [32; 1; 13; 195; 0; 0; 0; 0; 0; 0; 0; 0; 0; 0; 0; 53]])) false = [].
Proof. vm_compute. reflexivity. Qed.
End HintsExamples.
