(* ===== verification/Build.v ===== *)
(** * Construction of the resolver ([recursor/mod.rs], [recursor/forwarder.rs])

    Source addresses and upstream sockets, the handler built from a configuration, and
    the prewarm that opens the readiness gate.  Files, socket binds, clocks and the
    interfaces VPP reports are inputs. *)
From S2P Require Import Prelude Hickory Reference Net Dns64 Cache TtlCaches Text LocalZones Anchor Dnssec Validator Iterative ClientPolicy Forwarder Handler Config Hints.

(** ** Upstream sockets *)
Module Sources.

Definition DEFAULT_UPSTREAM_TIMEOUT_MS : Z := 2500.
Definition DEFAULT_TOR_UPSTREAM_TIMEOUT_MS : Z := 8000.

Definition is_globally_routable_v4 (v4 : Ipv4Addr) : bool :=
  if v4_is_unspecified v4 || v4_is_loopback v4 || v4_is_multicast v4 || v4_is_broadcast v4 then false
  else if v4_is_link_local v4 then false
  else if v4_is_private v4 then false
  else true.
Definition is_globally_routable_v6 (v6 : Ipv6Addr) : bool :=
  if v6_is_unspecified v6 || v6_is_loopback v6 || v6_is_multicast v6 then false
  else
    let high := nth 0 (segments v6) 0 in
    if Z.land high 0xffc0 =? 0xfe80 then false
    else if Z.land high 0xfe00 =? 0xfc00 then false
    else if bool_decide (is_Some (to_ipv4_mapped v6)) then false
    else true.

(** An interface as VPP lists it: whether it is up, and its addresses of each family
    with the family each entry names ([true]: IPv6) and its sixteen octets. *)
Record Iface := { if_up : bool; if_v4 : result (list (bool * list Z)); if_v6 : result (list (bool * list Z)) }.
(** [unwrap_or_default]. *)
Definition entries (r : result (list (bool * list Z))) : list (bool * list Z) := match r with Ok l => l | Err _ => [] end.
Definition discover_v6_source (dump : result (list Iface)) : result (option Ipv6Addr) :=
  ifaces ← dump;
  Ok (head (List.filter is_globally_routable_v6
    (concat (map (λ i, map snd (List.filter (λ e, e.1) (entries (if_v6 i)))) (List.filter if_up ifaces))))).
Definition discover_v4_source (dump : result (list Iface)) : result (option Ipv4Addr) :=
  ifaces ← dump;
  Ok (head (List.filter is_globally_routable_v4
    (concat (map (λ i, map (λ e, take 4 e.2) (List.filter (λ e, negb e.1) (entries (if_v4 i)))) (List.filter if_up ifaces))))).

(** The first listener address of each family. *)
Fixpoint listener_sources (ls : list Config.Listener) (v4 : option Ipv4Addr) (v6 : option Ipv6Addr)
  : option Ipv4Addr * option Ipv6Addr :=
  match ls with
  | [] => (v4, v6)
  | l :: ls' =>
      match Config.lc_address l with
      | V4 a => listener_sources ls' (match v4 with None => Some a | _ => v4 end) v6
      | V6 a => listener_sources ls' v4 (match v6 with None => Some a | _ => v6 end)
      end
  end.
Definition or_else {A} (a b : option A) : option A := match a with Some _ => a | None => b end.
Definition choose_sources (cfg : Config.DnsConfig) (discovered_v6 : option Ipv6Addr) (discovered_v4 : option Ipv4Addr)
  : option Ipv4Addr * option Ipv6Addr :=
  let '(listener_v4, listener_v6) := listener_sources (Config.b_listeners (Config.c_block cfg)) None None in
  let configured_v6 := Config.b_recursion (Config.c_block cfg) ≫= Config.rc_source_v6 in
  (or_else discovered_v4 listener_v4, or_else (or_else configured_v6 discovered_v6) listener_v6).

Section Sockets.
(** The backend, the ports [random_range] draws, and which binds succeed. *)
Context (kernel_sockets : bool) (port : nat → Z) (binds : nat → SocketAddr → bool).

Definition LOW : Z := 32768.
Definition HIGH : Z := 60999.
(** Draw [i] and at most [n] more. *)
Fixpoint bind_tries (n i : nat) (source : IpAddr) : result SocketAddr * nat :=
  match n with
  | O => (Err "ephemeral source bind exhausted", i)
  | S n' =>
      let addr := {| sa_ip := source; sa_port := port i |} in
      if binds i addr then (Ok addr, S i) else bind_tries n' (S i) source
  end.
Definition bind_ephemeral_with_source (source : IpAddr) (i : nat) : result SocketAddr * nat := bind_tries 8 i source.

Record UdpChannel := { ch_v4 : option SocketAddr; ch_v6 : option SocketAddr }.
Definition bind_source (source : option IpAddr) (i : nat) : result (option SocketAddr) * nat :=
  match source with
  | None => (Ok None, i)
  | Some ip => let '(r, i) := bind_ephemeral_with_source ip i in (Some <$> r, i)
  end.
(** One channel per worker. *)
Fixpoint udp_channels (workers : nat) (v4 v6 : option IpAddr) (i : nat) : result (list UdpChannel) * nat :=
  match workers with
  | O => (Ok [], i)
  | S n =>
      let '(a, i) := bind_source v4 i in
      match a with
      | Err e => (Err e, i)
      | Ok a =>
          let '(b, i) := bind_source v6 i in
          match b with
          | Err e => (Err e, i)
          | Ok b =>
              let '(r, i) := udp_channels n v4 v6 i in
              (cs ← r; Ok ({| ch_v4 := a; ch_v6 := b |} :: cs), i)
          end
      end
  end.
Definition unspecified_v4 : Ipv4Addr := [0; 0; 0; 0].
Definition unspecified_v6 : Ipv6Addr := replicate 16 0.
Definition udp_new (workers : nat) (source_v4 : option Ipv4Addr) (source_v6 : option Ipv6Addr) (i : nat)
  : result (list UdpChannel) * nat :=
  let v4 := if kernel_sockets then Some (V4 (default unspecified_v4 source_v4)) else V4 <$> source_v4 in
  let v6 := if kernel_sockets then Some (V6 (default unspecified_v6 source_v6)) else V6 <$> source_v6 in
  let '(r, i) := udp_channels (if kernel_sockets then 1 else workers) v4 v6 i in
  (channels ← r; if bool_decide (length channels = 0%nat) then Err "no worker channels built" else Ok channels, i).

(** The client, its timeouts in milliseconds, its sockets, and how many DoT pools it keeps. *)
Record Client := {
  cl_client : Upstream.UpstreamClient; cl_timeout : Z; cl_tor_timeout : Z; cl_channels : list UdpChannel; cl_pools : nat }.
Definition client_new (timeout_ms : option Z) (source_v4 : option Ipv4Addr) (source_v6 : option Ipv6Addr)
  (tor_socks : option SocketAddr) (workers i : nat) : result Client * nat :=
  let timeout := default DEFAULT_UPSTREAM_TIMEOUT_MS timeout_ms in
  let '(r, i) := udp_new workers source_v4 source_v6 i in
  (channels ← r;
   Ok {| cl_client := {| Upstream.source_v4 := source_v4; Upstream.source_v6 := source_v6; Upstream.c_tor_socks := tor_socks |};
         cl_timeout := timeout; cl_tor_timeout := Z.max timeout DEFAULT_TOR_UPSTREAM_TIMEOUT_MS;
         cl_channels := channels; cl_pools := if kernel_sockets then 1 else workers |}, i).
(** [self.next.fetch_add(1) % self.channels.len()]. *)
Definition pick_channel (next : Z) (channels : list UdpChannel) : option UdpChannel * Z :=
  (channels !! Z.to_nat (next mod Z.of_nat (length channels)), (next + 1) mod 18446744073709551616).

(** *** What a built client is bound to *)
Lemma bind_tries_Ok n i ip a i' :
  bind_tries n i ip = (Ok a, i') → sa_ip a = ip ∧ ∃ j, sa_port a = port j ∧ binds j a = true.
Proof.
  revert i. induction n as [|n IH]; intros i; cbn [bind_tries]; [done|].
  destruct (binds i _) eqn:E; [|apply IH]. intros [= <- _]. split; [done|]. by exists i.
Qed.
Definition bound_to (source : option IpAddr) (s : option SocketAddr) : Prop :=
  sa_ip <$> s = source ∧ ∀ a, s = Some a → ∃ j, sa_port a = port j ∧ binds j a = true.
Lemma bind_source_Ok source i s i' : bind_source source i = (Ok s, i') → bound_to source s.
Proof.
  unfold bind_source. destruct source as [ip|]; [|by intros [= <- _]].
  destruct (bind_ephemeral_with_source ip i) as [[a|e] j] eqn:E; [|done]. intros [= <- _].
  apply bind_tries_Ok in E as [<- E]. split; [done|]. by intros a' [= <-].
Qed.
Lemma udp_channels_Ok n v4 v6 i cs i' :
  udp_channels n v4 v6 i = (Ok cs, i') →
  length cs = n ∧ Forall (λ c, bound_to v4 (ch_v4 c) ∧ bound_to v6 (ch_v6 c)) cs.
Proof.
  revert i cs i'. induction n as [|n IH]; intros i cs i'; cbn [udp_channels]; [intros [= <- _]; by split|].
  destruct (bind_source v4 i) as [[a|e] i1] eqn:E1; [|done]. destruct (bind_source v6 i1) as [[b|e] i2] eqn:E2; [|done].
  destruct (udp_channels n v4 v6 i2) as [[cs'|e] i3] eqn:E3; [|done]. intros [= <- _].
  destruct (IH _ _ _ E3) as [L F]. split; [cbn; lia|]. constructor; [|done]. split; by eapply bind_source_Ok.
Qed.
End Sockets.
End Sources.

(** ** The handler *)
Module Build.
Import Dnssec Config Handler Sources.

Section Build.
Context `{NameOps} {HK : Hickory} `{IpNets, !Moka, !MapIter, Rrl.Governor, !Base64, !Anchor.Serde}.

Definition build_cache_from_config (b : DnsBlock) : DnsCache.DnsCache :=
  let c := default default_cache (b_cache b) in
  DnsCache.new (default 10000 (cc_max_entries c)) (default 0 (cc_min_ttl c)) (default 604800 (cc_max_ttl c))
    (default 3600 (cc_negative_ttl c)) (default 600 (cc_max_negative_ttl c)).
Definition build_forwarders_from_config (display : Name → string) (b : DnsBlock) : result (list Forwarders.ForwarderEntry) :=
  Forwarders.new display (b_forwarders b).

(** What construction finds outside: sockets, the hints file, the anchor files under
    each path, the clock and which writes succeed, and how many workers carry the
    upstream sockets. *)
Record BuildEnv := {
  be_kernel : bool; be_port : nat → Z; be_binds : nat → SocketAddr → bool; be_workers : nat;
  be_disk : string → Anchor.Disk; be_read_ok : bool; be_now : Z; be_state_ok : bool; be_anchor_ok : bool;
  be_nesting : nat }.
Context (env : BuildEnv).

Definition anchor_path (b : DnsBlock) (anchor_dir : option string) : option string :=
  or_else (b_recursion b ≫= rc_trust_anchor) ((λ d, d +:+ "/active.key") <$> anchor_dir).
(** The anchors in force at start, and the files as they are left. *)
Definition load_anchors (path : option string) : Anchor.TrustAnchors * option Anchor.Disk :=
  let none := {| Anchor.anchor_keys := [] |} in
  match path with
  | None => (none, None)
  | Some path =>
      let d := be_disk env path in
      match Anchor.anchor_text d with
      | Some raw =>
          (match (if be_read_ok env then Anchor.parse_presentation_format raw else Err "reading trust anchor file") with
           | Ok a => a | Err _ => none end, Some d)
      | None =>
          let '(r, d) := Anchor.bootstrap_self_managed (be_now env) (be_state_ok env) (be_anchor_ok env) d in
          (match r with Ok a => a | Err _ => none end, Some d)
      end
  end.
Definition dns64_policy (b : DnsBlock) : result (option Dns64.Dns64Policy) :=
  if existsb lc_dns64 (b_listeners b) || bool_decide (is_Some (b_dns64 b)) then
    match Dns64.from_config (default {| Dns64.cfg_prefix := None; Dns64.cfg_exclusions := [] |} (b_dns64 b)) with
    | Ok p => Ok (Some p)
    | Err _ => p ← ok_or "panic" Dns64.default_wkp; Ok (Some p)
    end
  else Ok None.
Definition dot_addrs (b : DnsBlock) : list IpAddr := map lc_address (List.filter (λ l, has_protocol l "dot") (b_listeners b)).
Definition doh_addrs (b : DnsBlock) : list IpAddr :=
  map lc_address (List.filter (λ l, bool_decide (lc_auth_token l = None))
    (List.filter (λ l, has_protocol l "doh") (b_listeners b))).
Definition ddr_svcb (b : DnsBlock) : list SVCB :=
  match t ← b_tls b; a ← tc_acme t; d ← head (ac_domains a); from_ascii d with
  | Some name => Ddr.build_ddr_records name (dot_addrs b) (doh_addrs b)
  | None => []
  end.
Definition iterative_config (b : DnsBlock) (dnssec_ok : bool) : option Iterative.Config :=
  if default true (rc_enabled <$> b_recursion b) then
    Some {| Iterative.dnssec_ok := dnssec_ok;
            Iterative.ipv6_upstream := default true (rc_ipv6_upstream <$> b_recursion b);
            Iterative.max_depth := Iterative.DEFAULT_MAX_DEPTH; Iterative.max_queries := Iterative.DEFAULT_MAX_QUERIES;
            Iterative.max_cname := Iterative.clamp_max_cname
              (default Iterative.DEFAULT_MAX_CNAME (b_recursion b ≫= rc_max_cname_depth)) |}
  else None.

(** A built handler, the client under it, and the anchor files; the refresh task runs
    when there is a path. *)
Record Built := {
  bu_self : HConfig; bu_st : HSt; bu_client : Client; bu_disk : option Anchor.Disk; bu_refresh : bool }.
Definition from_parts (cfg : DnsConfig) (cache : DnsCache.DnsCache) (forwarders : list Forwarders.ForwarderEntry)
  (hints : option string) (discovered_v6 : option Ipv6Addr) (discovered_v4 : option Ipv4Addr)
  (anchor_dir : option string) : result Built :=
  let b := c_block cfg in
  let '(source_v4, source_v6) := choose_sources cfg discovered_v6 discovered_v4 in
  client ← (client_new (be_kernel env) (be_port env) (be_binds env) (b_recursion b ≫= rc_upstream_timeout_ms)
              source_v4 source_v6 (Some (c_tor_socks cfg)) (be_workers env) 0).1;
  dns64 ← dns64_policy b;
  let dnssec := from_recursion (b_recursion b) in
  let validate := match dnssec with Validate => true | _ => false end in
  let iterative := iterative_config b validate in
  let path := if validate then anchor_path b anchor_dir else None in
  let '(anchors, disk) := load_anchors path in
  Ok {| bu_self := {| h_dns64 := dns64; h_dnssec := dnssec; h_validator := validate; h_iterative := iterative;
                      h_nesting := be_nesting env; h_ddr := ddr_svcb b; h_forwarders := forwarders;
                      h_client := cl_client client |};
        bu_st := {| h_ready := false;
                    h_it := {| Iterative.rcache := cache; Iterative.delegations := ∅;
                               Iterative.roots := match iterative with
                                 | Some i => RootHints.initial_roots hints (Iterative.ipv6_upstream i) | None => [] end;
                               Iterative.itick := 0; Iterative.sent := 0 |};
                    h_val := {| Validator.cache := DnskeyCache.new; Validator.tick := 0 |};
                    h_anchors := anchors; h_neg := NegResolveCache.new; h_fly := InFlight.new;
                    h_rrl := Rrl.keyed <$> Rrl.from_config (b_rate_limit b);
                    h_up := {| Upstream.pool := DotPool.pool_new; Upstream.utick := 0; Upstream.trace := [] |} |};
        bu_client := client; bu_disk := disk; bu_refresh := bool_decide (is_Some path) |}.

(** ** The readiness gate *)

Definition PREWARM_NAMES : list string :=
  ["iana.org."; "cloudflare.com."; "internic.net."; "nominet.uk."; "denic.de."; "nic.io."; "google.dev."; "google.app."].
Definition set_ready (st : HSt) : HSt :=
  {| h_ready := true; h_it := h_it st; h_val := h_val st; h_anchors := h_anchors st; h_neg := h_neg st;
     h_fly := h_fly st; h_rrl := h_rrl st; h_up := h_up st |}.

Section Prewarm.
Context (self : HConfig) (w : HWorld).
(** What other tasks do to the state between two sub-resolves, and the order in which
    the sub-resolves of a pass get to run; neither touches the flag. *)
Context (between : nat → nat → HSt → HSt) (order : nat → list string).

Definition prewarm_query (n : Name) : Message := set_rd true (add_query (query_query n RT_A) (message_new 0 MT_Query OC_Query)).
(** One sub-resolve; [true]: it counts as a success. *)
Definition prewarm_one (icfg : Iterative.Config) (name : string) (st : HSt) : bool * HSt :=
  match from_ascii name with
  | None => (false, st)
  | Some parsed =>
      let '(r, it) := Iterative.resolve_with_chain icfg (w_it w) (h_nesting self) (prewarm_query parsed) (h_it st) in
      let st := set_it it st in
      match r with
      | Err _ => (false, st)
      | Ok (bytes, chain) =>
          match from_bytes bytes with
          | None => (false, st)
          | Some resp =>
              let '(_, validated, v) :=
                Validator.validate_walk (w_val w) (h_anchors st) (Iterative.roots (h_it st)) chain resp [] (h_val st) in
              let st := set_val v st in
              (true, set_it (Iterative.cache_validated_delegations icfg (w_it w) chain validated (h_it st)) st)
          end
      end
  end.
Fixpoint prewarm_names (icfg : Iterative.Config) (attempt i : nat) (names : list string) (ok : nat) (st : HSt) : nat * HSt :=
  match names with
  | [] => (ok, st)
  | n :: names' =>
      let '(b, st) := prewarm_one icfg n (between attempt i st) in
      prewarm_names icfg attempt (S i) names' (if b then S ok else ok) st
  end.
(** The state after the pass [attempt]; the task ends with the first pass that had a
    success. *)
Definition prewarm_pass (icfg : Iterative.Config) (attempt : nat) (st : HSt) : bool * HSt :=
  let '(ok, st) := prewarm_names icfg attempt 0 (order attempt) 0 st in
  if (0 <? ok)%nat then (true, set_ready st) else (false, st).
Fixpoint prewarm_passes (icfg : Iterative.Config) (passes attempt : nat) (st : HSt) : bool * HSt :=
  match passes with
  | O => (false, st)
  | S n =>
      let '(d, st) := prewarm_pass icfg attempt st in
      if d then (true, st) else prewarm_passes icfg n (S attempt) st
  end.
(** [spawn_dnssec_prewarm], after [passes] passes of its task. *)
Definition spawn_dnssec_prewarm (passes : nat) (st : HSt) : HSt :=
  match h_iterative self with
  | None => set_ready st
  | Some icfg => if negb (h_validator self) then set_ready st else (prewarm_passes icfg passes 0 st).2
  end.

(** Some sub-resolve of the pass, run on what the earlier ones left, succeeds. *)
Definition pass_succeeds (icfg : Iterative.Config) (attempt : nat) (st : HSt) : Prop :=
  ∃ pre n post, order attempt = pre ++ n :: post ∧
    (prewarm_one icfg n (between attempt (length pre) (prewarm_names icfg attempt 0 pre 0 st).2)).1 = true.

Lemma prewarm_names_ok icfg attempt i names ok st :
  (ok < (prewarm_names icfg attempt i names ok st).1)%nat ↔
  ∃ pre n post, names = pre ++ n :: post ∧
    (prewarm_one icfg n (between attempt (i + length pre) (prewarm_names icfg attempt i pre 0 st).2)).1 = true.
Proof.
  assert (M : ∀ names i ok st, (ok ≤ (prewarm_names icfg attempt i names ok st).1)%nat ∧
    ∀ ok', (prewarm_names icfg attempt i names ok' st).2 = (prewarm_names icfg attempt i names ok st).2).
  { clear. induction names as [|n names IH]; intros i ok st; cbn [prewarm_names]; [done|].
    destruct (prewarm_one _ _ _) as [b st1]. split; [|intros ok'; apply (proj2 (IH (S i) (if b then S ok else ok) st1))].
    pose proof (proj1 (IH (S i) (if b then S ok else ok) st1)). destruct b; lia. }
  revert i ok st. induction names as [|n names IH]; intros i ok st; cbn [prewarm_names].
  - split; [cbn; lia|]. by intros ([|? pre] & n & post & ? & _).
  - destruct (prewarm_one icfg n (between attempt i st)) as [b st1] eqn:E. split.
    + destruct b.
      * intros _. exists [], n, names. split; [done|]. cbn. by rewrite Nat.add_0_r, E.
      * intros (pre & m & post & -> & Hm)%IH. exists (n :: pre), m, post. split; [done|]. cbn [length prewarm_names].
        by rewrite E, Nat.add_succ_r.
    + intros ([|x pre] & m & post & He & Hm); injection He as <- ->.
      * cbn in Hm. rewrite Nat.add_0_r, E in Hm. cbn in Hm. subst b. pose proof (proj1 (M post (S i) (S ok) st1)). lia.
      * cbn [length prewarm_names] in Hm. rewrite E, Nat.add_succ_r in Hm.
        rewrite (proj2 (M pre (S i) 0%nat st1)) in Hm.
        assert (H' : (ok < (prewarm_names icfg attempt (S i) (pre ++ m :: post) ok st1).1)%nat) by (apply IH; eauto 10).
        destruct b; [|done]. pose proof (proj1 (M (pre ++ m :: post) (S i) (S ok) st1)). lia.
Qed.
Lemma prewarm_pass_spec icfg attempt st :
  (prewarm_pass icfg attempt st).1 = true ↔ pass_succeeds icfg attempt st.
Proof.
  unfold prewarm_pass, pass_succeeds. pose proof (prewarm_names_ok icfg attempt 0 (order attempt) 0 st) as P.
  destruct (prewarm_names icfg attempt 0 (order attempt) 0 st) as [ok st1]. rewrite <- P. cbn [fst].
  destruct (Nat.ltb_spec 0 ok); cbn; split; try done; lia.
Qed.
(** The state before the pass [k], all earlier ones having failed. *)
Fixpoint before_pass (icfg : Iterative.Config) (k attempt : nat) (st : HSt) : HSt :=
  match k with O => st | S k' => before_pass icfg k' (S attempt) (prewarm_pass icfg attempt st).2 end.

Hypothesis between_flag : ∀ a i st, h_ready (between a i st) = h_ready st.
Lemma prewarm_one_flag icfg n st : h_ready (prewarm_one icfg n st).2 = h_ready st.
Proof.
  unfold prewarm_one. destruct (from_ascii n); [|done]. destruct (Iterative.resolve_with_chain _ _ _ _ _) as [[[bytes chain]|e] it];
    [|done]. destruct (from_bytes bytes); [|done]. by destruct (Validator.validate_walk _ _ _ _ _ _ _) as [[? ?] ?].
Qed.
Lemma prewarm_names_flag icfg a i names ok st : h_ready (prewarm_names icfg a i names ok st).2 = h_ready st.
Proof.
  revert i ok st. induction names as [|n names IH]; intros i ok st; cbn [prewarm_names]; [done|].
  pose proof (prewarm_one_flag icfg n (between a i st)) as F. destruct (prewarm_one _ _ _) as [b st1].
  rewrite IH. cbn in F. by rewrite F, between_flag.
Qed.
Lemma prewarm_pass_flag icfg a st :
  h_ready (prewarm_pass icfg a st).2 = h_ready st || (prewarm_pass icfg a st).1.
Proof.
  unfold prewarm_pass. pose proof (prewarm_names_flag icfg a 0 (order a) 0 st) as F.
  destruct (prewarm_names _ _ _ _ _ _) as [ok st1]. cbn in F. destruct (0 <? ok)%nat; cbn; [by rewrite orb_true_r|by rewrite orb_false_r].
Qed.
Lemma prewarm_passes_flag icfg passes a st :
  h_ready st = false →
  h_ready (prewarm_passes icfg passes a st).2 = true ↔
  ∃ k, (k < passes)%nat ∧ pass_succeeds icfg (a + k) (before_pass icfg k a st).
Proof.
  revert a st. induction passes as [|n IH]; intros a st Hr; cbn [prewarm_passes].
  - split; [|intros (k & ? & _); lia]. cbn. by rewrite Hr.
  - pose proof (prewarm_pass_spec icfg a st) as Sp. pose proof (prewarm_pass_flag icfg a st) as F. rewrite Hr in F.
    destruct (prewarm_pass icfg a st) as [[] st1] eqn:E; cbn [fst snd orb] in Sp, F.
    + split; [|done]. intros _. exists 0%nat. split; [lia|]. rewrite Nat.add_0_r. by apply Sp.
    + rewrite (IH (S a) st1 F). split.
      * intros (k & Hk & Hp). exists (S k). split; [lia|]. cbn [before_pass]. by rewrite E, Nat.add_succ_r.
      * intros ([|k] & Hk & Hp); [rewrite Nat.add_0_r in Hp; by apply Sp in Hp|]. exists k. split; [lia|].
        cbn [before_pass] in Hp. by rewrite E, Nat.add_succ_r in Hp.
Qed.

(** The readiness gate opens exactly when it should: a fresh resolver becomes
    ready at once when it does not iterate or does not validate; otherwise after
    [passes] passes of the prewarm it is ready exactly when in one of them some
    sub-resolve got an answer that parses, so one reachable name suffices however
    long the earlier passes failed; and until then every query is refused and
    changes nothing. *)
Theorem readiness_gate passes st :
  h_ready st = false →
  (h_ready (spawn_dnssec_prewarm passes st) = true ↔
   match h_iterative self with
   | Some icfg => h_validator self = false ∨
       ∃ k, (k < passes)%nat ∧ pass_succeeds icfg k (before_pass icfg k 0 st)
   | None => True
   end) ∧
  ∀ st' others q peer ctx, h_ready st' = false → handle_bytes self w others q peer ctx st' = (reply_of (build_refused q), st').
Proof.
  intros Hr. split.
  - unfold spawn_dnssec_prewarm. destruct (h_iterative self) as [icfg|]; [|done].
    destruct (h_validator self); cbn [negb]; [|by split; [left|]].
    rewrite prewarm_passes_flag by done. split; [intros ?; by right|]. by intros [?|?].
  - intros st' others q peer ctx Hn. unfold handle_bytes, before_lock. by rewrite Hn.
Qed.
End Prewarm.

(** ** What construction guarantees *)

Lemma ddr_hints_from name dots dohs r ip :
  r ∈ Ddr.build_ddr_records name dots dohs → ip ∈ Ddr.hints r →
  svc_priority r = 1 ∧ ip ∈ dots ∨ svc_priority r = 2 ∧ ip ∈ dohs.
Proof.
  unfold Ddr.build_ddr_records. pose proof (Ddr.split_global_hints_spec dots ip) as S1.
  pose proof (Ddr.split_global_hints_spec dohs ip) as S2.
  destruct (Ddr.split_global_hints dots) as [v4 v6], (Ddr.split_global_hints dohs) as [w4 w6]. cbn [fst snd] in *.
  intros Hr Hip. apply elem_of_app in Hr as [Hr|Hr]; case_match; try (by apply elem_of_nil in Hr);
    apply list_elem_of_singleton in Hr as ->; unfold Ddr.hints in Hip; cbn [svc_params] in Hip.
  - left. split; [done|]. apply S1. rewrite <- Ddr.hint_params_hints. exact Hip.
  - right. split; [done|]. apply S2. rewrite <- Ddr.hint_params_hints. cbn in Hip.
    rewrite map_app, concat_app in Hip. cbn in Hip. by rewrite app_nil_r in Hip.
Qed.
Lemma in_listener_addrs (f : Listener → bool) ls ip :
  ip ∈ map lc_address (List.filter f ls) ↔ ∃ l, l ∈ ls ∧ f l = true ∧ lc_address l = ip.
Proof.
  rewrite list_elem_of_fmap. split.
  - intros (l & -> & [Hl Hf]%list_elem_of_In%filter_In). exists l. by rewrite list_elem_of_In.
  - intros (l & Hl & Hf & <-). exists l. split; [done|]. rewrite list_elem_of_In, filter_In, <- list_elem_of_In. done.
Qed.
Lemma doh_addrs_open b ip :
  ip ∈ doh_addrs b → ∃ l, l ∈ b_listeners b ∧ has_protocol l "doh" = true ∧ lc_auth_token l = None ∧ lc_address l = ip.
Proof.
  unfold doh_addrs. intros (l & Hl & Ht%bool_decide_eq_true & <-)%in_listener_addrs.
  apply list_elem_of_In, filter_In in Hl as [Hl Hp]. exists l. by rewrite list_elem_of_In.
Qed.
Lemma initial_roots_v4 file :
  Forall (λ ip, is_ipv4 ip = true) (RootHints.initial_roots file false).
Proof. unfold RootHints.initial_roots. apply List.Forall_forall. by intros ip [_ ?]%filter_In. Qed.
Lemma clamp_max_cname_range n : 1 ≤ Iterative.clamp_max_cname n ≤ 16.
Proof. unfold Iterative.clamp_max_cname, Iterative.DEFAULT_MAX_CNAME. lia. Qed.
Lemma client_new_Ok kernel port binds ms v4 v6 tor workers i c j :
  client_new kernel port binds ms v4 v6 tor workers i = (Ok c, j) →
  cl_timeout c ≤ cl_tor_timeout c ∧ cl_channels c ≠ [] ∧ cl_pools c = length (cl_channels c) ∧
  Upstream.source_v4 (cl_client c) = v4 ∧ Upstream.source_v6 (cl_client c) = v6 ∧ Upstream.c_tor_socks (cl_client c) = tor ∧
  Forall (λ ch, bound_to port binds (if kernel then Some (V4 (default unspecified_v4 v4)) else V4 <$> v4) (ch_v4 ch) ∧
                bound_to port binds (if kernel then Some (V6 (default unspecified_v6 v6)) else V6 <$> v6) (ch_v6 ch))
    (cl_channels c).
Proof.
  unfold client_new, udp_new. destruct (udp_channels _ _ _ _ _ _) as [[cs|e] k] eqn:E; [|done]. cbn [mbind result_bind].
  case_bool_decide as Hl; [done|]. intros [= <- _]. apply udp_channels_Ok in E as [L F]. cbn.
  split_and!; [lia|by destruct cs|by rewrite L; destruct kernel|done..].
Qed.

(** C38. A handler that could be built is well formed: it starts unready; it validates
    exactly when the resolved policy is [Validate], and then its resolver asks for
    signatures; the CNAME limit is within 1 and 16 whatever was configured; without IPv6 no root
    is an IPv6 address; its upstream sockets are bound to the chosen source addresses,
    one channel and one DoT pool per worker; and the DoH endpoints it advertises for
    discovery are addresses of DoH listeners that ask for no token. *)
Theorem construction_well_formed cfg cache forwarders hints v6 v4 dir bt :
  from_parts cfg cache forwarders hints v6 v4 dir = Ok bt →
  let self := bu_self bt in let st := bu_st bt in let client := bu_client bt in
  h_ready st = false ∧ Iterative.rcache (h_it st) = cache ∧ h_forwarders self = forwarders ∧
  (h_validator self = true ↔ h_dnssec self = Validate) ∧
  (∀ i, h_iterative self = Some i →
     Iterative.dnssec_ok i = h_validator self ∧ 1 ≤ Iterative.max_cname i ≤ 16 ∧
     (Iterative.ipv6_upstream i = false → Forall (λ ip, is_ipv4 ip = true) (Iterative.roots (h_it st)))) ∧
  h_client self = cl_client client ∧ cl_pools client = length (cl_channels client) ∧ cl_channels client ≠ [] ∧
  (let '(s4, s6) := choose_sources cfg v6 v4 in
   Forall (λ ch, bound_to (be_port env) (be_binds env)
                   (if be_kernel env then Some (V4 (default unspecified_v4 s4)) else V4 <$> s4) (ch_v4 ch) ∧
                 bound_to (be_port env) (be_binds env)
                   (if be_kernel env then Some (V6 (default unspecified_v6 s6)) else V6 <$> s6) (ch_v6 ch))
     (cl_channels client)) ∧
  (∀ r ip, r ∈ h_ddr self → svc_priority r = 2 → ip ∈ Ddr.hints r →
     ∃ l, l ∈ b_listeners (c_block cfg) ∧ has_protocol l "doh" = true ∧ lc_auth_token l = None ∧ lc_address l = ip).
Proof.
  unfold from_parts. destruct (choose_sources cfg v6 v4) as [s4 s6].
  destruct (client_new _ _ _ _ _ _ _ _ _) as [[c|e] k] eqn:C; [|done]. cbn [fst mbind result_bind].
  apply client_new_Ok in C as (_ & Cne & Cp & _ & _ & _ & Cb).
  destruct (dns64_policy _) as [pol|e]; [|done]. cbn [mbind result_bind].
  destruct (load_anchors _) as [anchors disk]. intros [= <-]. cbn. split_and!; try done.
  - by destruct (from_recursion _).
  - intros i. unfold iterative_config. destruct (default true _) eqn:Hen; [|done]. intros [= <-]. cbn.
    split; [done|]. split; [apply clamp_max_cname_range|]. intros ->. apply initial_roots_v4.
  - intros r ip Hr Hp Hip. apply doh_addrs_open. unfold ddr_svcb in Hr.
    destruct (_ ≫= _) as [name|] in Hr; [|by apply elem_of_nil in Hr].
    destruct (ddr_hints_from _ _ _ _ _ Hr Hip) as [[? _]|[_ ?]]; [congruence|done].
Qed.
End Build.
End Build.

(** ** Examples *)
Module BuildExamples.
Import Dnssec Config Handler HandlerExamples Sources Build.
#[local] Existing Instances HandlerExamples.ExMoka HandlerExamples.ExGovernor.
#[local] Instance ExHickory : Hickory := ex_hickory 4.

(** The network comes up late: upstream queries fail before the clock reads 100. *)
Definition ex_slow : HWorld :=
  {| w_it := {| Iterative.iup := λ t ips q, if (t <? 100)%nat then Err "unreachable" else Iterative.iup (w_it ex_hworld) t ips q;
                Iterative.iinstant := λ n, Z.of_nat n; Iterative.irnd := λ _, 7;
                Iterative.shuffle := λ _ l, l; Iterative.pick := λ n, n; Iterative.late := λ _, false |};
     w_val := w_val ex_hworld; w_up := w_up ex_hworld; w_strong := w_strong ex_hworld |}.
Definition ex_unready : HSt :=
  {| h_ready := false; h_it := h_it ex_hst; h_val := h_val ex_hst; h_anchors := h_anchors ex_hst; h_neg := h_neg ex_hst;
     h_fly := h_fly ex_hst; h_rrl := None; h_up := h_up ex_hst |}.
Definition ex_prewarmed (passes : nat) : HSt :=
  spawn_dnssec_prewarm ex_self ex_slow (λ _ _ st, st) (λ _, PREWARM_NAMES) passes ex_unready.
Lemma readiness_gate_witness :
  map (λ n, h_ready (ex_prewarmed n)) [0; 4; 5]%nat = [false; false; true] ∧
  ∃ k, (k < 5)%nat ∧ pass_succeeds ex_self ex_slow (λ _ _ st, st) (λ _, PREWARM_NAMES) ex_icfg k
    (before_pass ex_self ex_slow (λ _ _ st, st) (λ _, PREWARM_NAMES) ex_icfg k 0 ex_unready).
Proof.
  split; [vm_compute; reflexivity|].
  destruct (readiness_gate ex_self ex_slow (λ _ _ st, st) (λ _, PREWARM_NAMES) ltac:(done) 5 ex_unready eq_refl)
    as [[R _] _]. cbn [h_iterative ex_self] in R. destruct R as [R|R]; [vm_compute; reflexivity|discriminate R|exact R].
Defined.

(** A validating resolver with a gated and an open DoH listener. *)
Definition ex_listener (n : string) (d : Z) (token : option string) : Listener := {|
  lc_name := n; lc_address := V4 [8; 8; 8; d]; lc_port := 443; lc_interface := None; lc_protocols := ["DoH"];
  lc_allow_from := []; lc_dns64 := true; lc_max_inflight := None; lc_auth_token := token |}.
Definition ex_cfg : DnsConfig := {|
  c_block := {|
    b_enabled := true; b_listeners := [ex_listener "wan" 1 (Some "s3cret"); ex_listener "lan" 2 None]; b_forwarders := [];
    b_recursion := Some {| rc_enabled := true; rc_dnssec := MPassThrough; rc_dnssec_validate := true; rc_trust_anchor := None;
      rc_serve_stale_seconds := None; rc_upstream_timeout_ms := Some 9000; rc_max_cname_depth := Some 99;
      rc_ipv6_upstream := false; rc_source_v6 := None |};
    b_cache := None; b_dns64 := None;
    b_tls := Some {| tc_cert_source := "acme"; tc_cert_path := None; tc_key_path := None;
      tc_acme := Some {| ac_directory := ""; ac_email := ""; ac_domains := ["dns.example."]; ac_challenge := ""; ac_dns01 := None |} |};
    b_rate_limit := None; b_sfw := None; b_tcp_workers := None |};
  c_tor_socks := default_tor_socks; c_vrfs := [] |}.
Definition ex_env : BuildEnv := {|
  be_kernel := false; be_port := λ i, 40000 + Z.of_nat i; be_binds := λ i _, (1 <? i)%nat; be_workers := 1;
  be_disk := λ _, {| Anchor.state_text := None; Anchor.anchor_text := Some (Anchor.render_anchor_file
    [Anchor.from_observed "." (ex_ksk 1) Anchor.Active; Anchor.from_observed "." (ex_ksk 2) Anchor.Active] 3600) |}; be_read_ok := true; be_now := 0;
  be_state_ok := true; be_anchor_ok := true; be_nesting := 2 |}.
Definition ex_built : result Built :=
  from_parts ex_env ex_cfg (build_cache_from_config (c_block ex_cfg)) [] None None (Some [192; 0; 2; 9]) (Some "/data/anchor").
(** Validation, how many anchors, the CNAME limit, the advertised addresses, the socket. *)
Definition ex_view (bt : Built) : bool * nat * option Z * list IpAddr * list (option SocketAddr) :=
  (h_validator (bu_self bt), length (Anchor.anchor_keys (h_anchors (bu_st bt))),
   Iterative.max_cname <$> h_iterative (bu_self bt), concat (map Ddr.hints (h_ddr (bu_self bt))),
   map ch_v4 (cl_channels (bu_client bt))).
Lemma construction_well_formed_witness :
  ∃ bt, ex_built = Ok bt ∧
    ex_view bt = (true, 2%nat, Some 16, [V4 [8; 8; 8; 2]], [Some {| sa_ip := V4 [192; 0; 2; 9]; sa_port := 40002 |}]) ∧
    (h_validator (bu_self bt) = true ↔ h_dnssec (bu_self bt) = Validate).
Proof.
  assert (F : ex_view <$> ex_built = Ok (true, 2%nat, Some 16, [V4 [8; 8; 8; 2]],
    [Some {| sa_ip := V4 [192; 0; 2; 9]; sa_port := 40002 |}])) by (vm_compute; reflexivity).
  destruct ex_built as [bt|e] eqn:E; [|discriminate F]. exists bt. split; [done|]. apply (f_equal res_ok) in F. cbn [fmap result_fmap res_ok] in F. split; [congruence|].
  unfold ex_built in E. destruct (construction_well_formed _ _ _ _ _ _ _ _ _ E) as (_ & _ & _ & V & _). exact V.
Defined.
End BuildExamples.
