(* ===== verification/AnchorLife.v ===== *)
(** * The life of the trust anchors ([recursor/anchor.rs], [recursor/mod.rs])

    The refresh task over a real file system: ticks that write the state file and then the
    anchor file with [atomic_write], starts and reloads that read them back or bootstrap,
    several tasks on the same files (a reload starts another one), and crashes at any
    moment.  [tick_fs] and [start_fs] are the operations; they agree with [Anchor.tick]
    and [Build.load_anchors], which see the files only as texts. *)
From S2P Require Import Prelude Hickory Reference Text Anchor Files Build.

Module AnchorLife.
Import Anchor Files.

Section Ops.
Context `{NameOps} {HK : Hickory} `{!Base64, !Serde}.
Context (anchor_path : string).
Definition state_path : string := anchor_path +:+ ".state".

Definition disk_of (fs : FS) : Disk := {| state_text := read fs state_path; anchor_text := read fs anchor_path |}.

(** [AnchorRefresh::tick]; the last component are the states passed through. *)
Definition tick_fs (env : RefreshEnv) (io_state io_anchor : Io) (hold_down : Z) (a : TrustAnchors) (fs : FS)
  : result RefreshDiff * TrustAnchors * FS * list FS :=
  match fetch_observed env a with
  | Err e => (Err e, a, fs, [])
  | Ok observed =>
      match prior_keys env a (disk_of fs) with
      | Err e => (Err e, a, fs, [])
      | Ok prior =>
          let '(next, diff) := apply_refresh prior observed (env_now env) hold_down in
          let '(r, fs1, mid1) := atomic_write io_state state_path
            (to_json {| version := 1; last_refresh := env_now' env; state_keys := next |}) fs in
          match r with
          | Err e => (Err e, a, fs1, mid1)
          | Ok _ =>
              let '(r, fs2, mid2) := atomic_write io_anchor anchor_path (render_anchor_file next DEFAULT_ANCHOR_TTL) fs1 in
              match r with
              | Err e => (Err e, a, fs2, mid1 ++ fs1 :: mid2)
              | Ok _ =>
                  match from_managed_keys next with
                  | Err e => (Err e, a, fs2, mid1 ++ fs1 :: mid2)
                  | Ok new_anchors => (Ok diff, new_anchors, fs2, mid1 ++ fs1 :: mid2)
                  end
              end
          end
      end
  end.

(** [bootstrap_self_managed] and the choice before it in [from_parts]. *)
Definition start_fs (read_ok : bool) (now : Z) (io_anchor io_state : Io) (fs : FS) : TrustAnchors * FS * list FS :=
  let none := {| anchor_keys := [] |} in
  match read fs anchor_path with
  | Some raw =>
      (match (if read_ok then parse_presentation_format raw else Err "reading trust anchor file") with
       | Ok a => a | Err _ => none end, fs, [])
  | None =>
      match parse_presentation_format EMBEDDED_ROOT_KSKS with
      | Err _ => (none, fs, [])
      | Ok anchors =>
          let managed := map (λ p, from_observed (to_ascii p.1) p.2 Active) (anchor_keys anchors) in
          let '(r, fs1, mid1) := atomic_write io_anchor anchor_path (render_anchor_file managed DEFAULT_ANCHOR_TTL) fs in
          match r with
          | Err _ => (none, fs1, mid1)
          | Ok _ =>
              let '(r, fs2, mid2) := atomic_write io_state state_path
                (to_json {| version := 1; last_refresh := now; state_keys := managed |}) fs1 in
              (match r with Ok _ => anchors | Err _ => none end, fs2, mid1 ++ fs1 :: mid2)
          end
      end
  end.

(** ** The system *)

(** The anchors in force for each running task, and the files. *)
Record Sys := { cells : list TrustAnchors; files_now : FS }.
Context (hold_down : Z).
Inductive Step : Sys → Sys → Prop :=
| S_tick cs i a env ios ioa fs r a' fs' mid :
    cs !! i = Some a → tick_fs env ios ioa hold_down a fs = (r, a', fs', mid) →
    Step {| cells := cs; files_now := fs |} {| cells := <[i := a']> cs; files_now := fs' |}
| S_start cs ok now ioa ios fs a fs' mid :
    start_fs ok now ioa ios fs = (a, fs', mid) →
    Step {| cells := cs; files_now := fs |} {| cells := cs ++ [a]; files_now := fs' |}
| S_crash cs fs fs' : Crash fs fs' → Step {| cells := cs; files_now := fs |} {| cells := []; files_now := fs' |}
| S_crash_tick cs i a env ios ioa fs r a' fs1 mid s fs' :
    cs !! i = Some a → tick_fs env ios ioa hold_down a fs = (r, a', fs1, mid) → s ∈ mid → Crash s fs' →
    Step {| cells := cs; files_now := fs |} {| cells := []; files_now := fs' |}
| S_crash_start cs ok now ioa ios fs a fs1 mid s fs' :
    start_fs ok now ioa ios fs = (a, fs1, mid) → s ∈ mid → Crash s fs' →
    Step {| cells := cs; files_now := fs |} {| cells := []; files_now := fs' |}.

(** ** Keys that have earned their place *)

(** A key is its owner, its algorithm and its bytes; flags may change. *)
Definition kid (p : Name * DNSKEY) : Name * Z * list Z := (p.1, key_algorithm p.2, public_bytes p.2).
(** A refresh that was written: what the world answered, the trusted key that signed it,
    and what it published when. *)
Record Entry := { en_env : RefreshEnv; en_signer : Name * DNSKEY; en_refresh : Refresh }.
(** The DNSKEY set was received, and verifies under the key. *)
Definition authentic (e : Entry) : Prop :=
  ∃ ips wire bytes resp records keys sig,
    env_roots (en_env e) = Some ips ∧ build_dnskey_query (env_txid (en_env e)) root = Ok wire ∧
    env_query (en_env e) ips wire = Ok bytes ∧ from_bytes bytes = Some resp ∧
    extract_dnskey_response resp = (records, keys, Some sig) ∧ verify_rrset records sig (en_signer e).2 = true ∧
    en_refresh e = {| rf_time := env_now (en_env e); rf_observed := map (λ k, (".", k)) keys |}.

Context (initial : Name * DNSKEY → Prop).
(** Trusted at the start; or a root key that two refreshes at least the hold-down apart
    and all in between published unrevoked, every refresh of that history being signed
    by a key that has earned its place itself. *)
Inductive Earned : Name * Z * list Z → Prop :=
| E_initial p : initial p → Earned (kid p)
| E_held alg pk h :
    (∀ e, e ∈ h → Earned (kid (en_signer e))) → Forall authentic h →
    held_down hold_down (".", alg, pk) (map en_refresh h) → Earned (root, alg, pk).
Definition genuine (h : list Entry) : Prop := (∀ e, e ∈ h → Earned (kid (en_signer e))) ∧ Forall authentic h.

(** A name that the files can hold. *)
Definition named (n : Name) : Prop := plain (to_ascii n) = true ∧ to_ascii n ≠ "" ∧ from_ascii (to_ascii n) = Some n.
Definition alg_ok (k : DNSKEY) : Prop := 0 ≤ key_algorithm k ≤ 255.
(** Anchors in order: every key has earned its place. *)
Definition cell_ok (a : TrustAnchors) : Prop :=
  ∀ p, p ∈ anchor_keys a → Earned (kid p) ∧ named p.1 ∧ alg_ok p.2.
Definition well (e : ManagedKey) : Prop := textual e ∧ ∃ n, named n ∧ zone e = to_ascii n.
Definition earned_entry (e : ManagedKey) : Prop :=
  ∃ n, named n ∧ zone e = to_ascii n ∧ Earned (n, algorithm e, default [] (b64_decode (public_key e))).
(** Managed keys that a genuine history of refreshes leads to, from keys that had
    earned their place. *)
Definition base (e : ManagedKey) : Prop :=
  well e ∧ (∀ a, status e ≠ PendingAdd a) ∧ (status e = Active → earned_entry e).
Definition lineage (keys : list ManagedKey) : Prop :=
  ∃ init h, Forall base init ∧ genuine h ∧ keys = run hold_down init (map en_refresh h).
End Ops.

(** Documented behaviour of [hickory-proto]: the root's text, and that the algorithm of a
    key on the wire is one byte. *)
Class KeyLaws `{NameOps} {HK : Hickory} := {
  root_ascii : to_ascii root = ".";
  ascii_root : from_ascii "." = Some root;
  wire_algorithm b m r k : from_bytes b = Some m → r ∈ answers m → r_data r = RD_DNSKEY k → 0 ≤ key_algorithm k ≤ 255 }.

Section Custody.
Context `{NameOps} {HK : Hickory} `{!Base64, !Serde, !KeyLaws}.
Context (hd : Z) (initial : Name * DNSKEY → Prop) (Hd : 0 < hd).
Context (Hin : ∀ p, initial p → named p.1 ∧ alg_ok p.2).
Local Abbreviation Earned := (Earned hd initial).
Local Abbreviation genuine := (genuine hd initial).
Local Abbreviation lineage := (lineage hd initial).
Local Abbreviation cell_ok := (cell_ok hd initial).
Local Abbreviation earned_entry := (earned_entry hd initial).

(** ** Keys *)
Lemma named_root : named root.
Proof. unfold named. by rewrite root_ascii, ascii_root. Qed.
Lemma extract_keys P at_zone rs records keys sig records' keys' sig' :
  extract_dnskey_answers at_zone rs records keys sig = (records', keys', sig') →
  Forall P keys → (∀ r k, r ∈ rs → r_data r = RD_DNSKEY k → P k) → Forall P keys'.
Proof.
  revert records keys sig. induction rs as [|r rs IH]; intros records keys sig; cbn; [by intros [= _ <- _]|].
  intros E K R. assert (R' : ∀ r0 k, r0 ∈ rs → r_data r0 = RD_DNSKEY k → P k) by (intros r0 k Hr; apply R; by right).
  destruct (negb _); [by eapply IH|]. destruct (r_data r) as [] eqn:D;
    try (by eapply IH); [|case_bool_decide; by eapply IH].
  eapply IH; [exact E| |done]. apply Forall_app. split; [done|]. constructor; [|constructor]. apply (R r); [left|done].
Qed.
Lemma authentic_observed e :
  authentic e → ∀ o, o ∈ rf_observed (en_refresh e) → o.1 = "." ∧ alg_ok o.2.
Proof.
  intros (ips & wire & bytes & resp & records & keys & sig & _ & _ & _ & B & X & _ & ->) o (k & -> & Hk)%list_elem_of_fmap.
  split; [done|]. apply (extract_keys alg_ok) in X as K; [|constructor|intros r k' Hr Hd'; by eapply wire_algorithm].
  rewrite Forall_forall in K. by apply K.
Qed.
Lemma from_observed_well n k st : named n → alg_ok k → well (from_observed (to_ascii n) k st).
Proof.
  intros Nm A. destruct Nm as (Np & Ne & Na). split; [|by exists n]. split; cbn; try done; [apply b64_plain|].
  unfold observed_flags. by destruct (zone_key k), (secure_entry_point k), (revoke k).
Qed.
Lemma lor_revoke_range n : 0 ≤ n ≤ 65535 → 0 ≤ Z.lor n 0x0080 ≤ 65535.
Proof.
  intros R. assert (0 ≤ Z.lor n 0x0080) by (apply Z.lor_nonneg; lia). split; [done|].
  destruct (Z.eq_dec (Z.lor n 128) 0); [lia|]. cut (Z.lor n 128 < 2 ^ 16); [lia|].
  apply Z.log2_lt_pow2; [lia|]. rewrite Z.log2_lor by lia. apply Z.max_lub_lt; [|done].
  destruct (Z.eq_dec n 0) as [-> |]; [done|]. apply Z.log2_lt_pow2; lia.
Qed.
Lemma entry_next_well obs now e e' : entry_next obs now hd e = Some e' → well e → well e'.
Proof.
  intros E [[Tz Tn Tp Tf Ta] W]. assert (e' = e ∨ e' = set_status Active e ∨
    e' = set_flags (Z.lor (flags e) 0x0080) (set_status (Revoked now) e)) as [-> |[-> | ->]].
  { unfold entry_next in E. repeat case_match; simplify_eq; auto. }
  - by split.
  - by split.
  - split; [|done]. split; cbn; try done. by apply lor_revoke_range.
Qed.
Lemma run_well init h : Forall well init → Forall authentic h → Forall well (run hd init (map en_refresh h)).
Proof.
  intros W A. induction A as [|e h Ae _ IH]; [done|]. cbn [map run]. rewrite Forall_forall in IH |- *. intros x Hx.
  apply apply_refresh_elem in Hx as [(x0 & Hx0 & E)|(i & z & k & Ho & _ & _ & _ & ->)].
  - eapply entry_next_well; [exact E|]. by apply IH.
  - apply list_elem_of_lookup_2 in Ho. destruct (authentic_observed _ Ae _ Ho) as [Ez Ek]. cbn in Ez, Ek. subst z.
    rewrite <- root_ascii. apply from_observed_well; [apply named_root|done].
Qed.
Lemma lineage_well keys : lineage keys → Forall well keys.
Proof.
  intros (init & h & B & [_ A] & ->). apply run_well; [|done]. eapply Forall_impl; [exact B|]. by intros e [? _].
Qed.
(** An Active key of a lineage has earned its place. *)
Lemma lineage_earned keys e : lineage keys → e ∈ keys → status e = Active → earned_entry e.
Proof.
  intros (init & h & B & [G A] & ->) He St. rewrite Forall_forall in B. apply active_run in He; [|done| |done].
  2: { apply Forall_forall. intros x Hx. by apply B. }
  destruct He as [(e0 & He0 & St0 & Eid)|Hh].
  - destruct (B _ He0) as (_ & _ & X). destruct (X St0) as (n & Nm & Zn & En). unfold entry_id, key_id in Eid.
    injection Eid as Ez Ea Ep. exists n. by rewrite <- Ez, <- Ea, <- Ep.
  - assert (zone e = ".") as Ez.
    { destruct Hh as (newer & r1 & bt & r0 & older & Eh & _ & [(o & Ho & Eo & _) _]%Forall_cons).
      assert (Hr : r1 ∈ map en_refresh h) by (rewrite Eh; apply elem_of_app; right; left).
      apply list_elem_of_fmap in Hr as (x & -> & Hx). rewrite Forall_forall in A.
      destruct (authentic_observed _ (A _ Hx) _ Ho) as [Ez _]. unfold observed_id, entry_id, key_id in Eo. by injection Eo as <- _ _. }
    exists root. rewrite root_ascii. split_and!; [apply named_root|done|]. eapply E_held; [exact G|exact A|].
    rewrite <- Ez. exact Hh.
Qed.

(** ** Anchors and files *)
Lemma seeds_lineage a :
  cell_ok a → lineage (map (λ p, from_observed (to_ascii p.1) p.2 Active) (anchor_keys a)).
Proof.
  intros C. eexists _, []. split_and!; [|split; [by intros e ?%elem_of_nil|constructor]|reflexivity].
  apply Forall_forall. intros e (p & -> & Hp)%list_elem_of_fmap. destruct (C _ Hp) as (Ep & Np & Ap). split_and!.
  - by apply from_observed_well.
  - done.
  - intros _. exists p.1. split_and!; [done..|]. cbn. rewrite b64_decode_encode. exact Ep.
Qed.
(** A key read for an entry that has earned its place is that key. *)
Lemma entry_cell e p pk :
  earned_entry e → textual e → b64_decode (public_key e) = Some pk → from_ascii (zone e) = Some p.1 →
  key_algorithm p.2 = algorithm e → public_bytes p.2 = pk → Earned (kid p) ∧ named p.1 ∧ alg_ok p.2.
Proof.
  intros (n & Nm & Zn & En) T B Fz Ea Ep. rewrite B in En. cbn in En.
  assert (p.1 = n) as Pn by (rewrite Zn in Fz; destruct Nm as (_ & _ & Na); congruence).
  unfold kid, alg_ok. rewrite Pn, Ea, Ep. split; [exact En|]. split; [exact Nm|]. apply T.
Qed.
Lemma is_active_spec e : is_active e = true ↔ status e = Active.
Proof. unfold is_active. by destruct (status e). Qed.
Lemma managed_cell_ok keys a : lineage keys → from_managed_keys keys = Ok a → cell_ok a.
Proof.
  intros L. pose proof (lineage_well _ L) as W. rewrite Forall_forall in W.
  intros (out & Eo%result_all_Ok & [= <-])%result_bind_Ok p Hp. cbn in Hp.
  assert (Hm : Ok p ∈ map from_managed_key (filter (λ k, is_active k = true) keys))
    by (rewrite Eo; by apply (list_elem_of_fmap_2 Ok)).
  apply list_elem_of_fmap in Hm as (e & Ee & [Ae He]%list_elem_of_filter). destruct (W _ He) as [T _].
  unfold from_managed_key, to_dnskey in Ee. destruct (b64_decode (public_key e)) as [pk|] eqn:B; [|done]. cbn in Ee.
  destruct (from_ascii (zone e)) as [n|] eqn:Fz; [|done]. cbn in Ee. injection Ee as ->.
  eapply (entry_cell e); try done. eapply lineage_earned; [done..|]. by apply is_active_spec.
Qed.
Definition anchor_ok (t : string) : Prop := ∀ a, parse_presentation_format t = Ok a → cell_ok a.
Definition state_ok (t : string) : Prop := ∀ st, from_json t = Some st → version st = 1 → lineage (state_keys st).
Lemma rendered_ok keys ttl : lineage keys → anchor_ok (render_anchor_file keys ttl).
Proof.
  intros L a E p Hp. pose proof (lineage_well _ L) as W. eapply parse_rendered in E as (e & pk & He & Ae & B & Fz & Ea & Ep); [| |exact Hp].
  2: { eapply Forall_impl; [exact W|]. by intros e [T _]. }
  rewrite Forall_forall in W. destruct (W _ He) as [T _]. eapply (entry_cell e); try done.
  eapply lineage_earned; [done..|]. by apply is_active_spec.
Qed.
Lemma json_ok now keys : lineage keys → state_ok (to_json {| version := 1; last_refresh := now; state_keys := keys |}).
Proof. intros L st E _. rewrite from_to_json in E. by injection E as <-. Qed.

(** One refresh extends the lineage. *)
Lemma fetch_authentic env a observed :
  cell_ok a → fetch_observed env a = Ok observed →
  ∃ s, Earned (kid s) ∧
    authentic {| en_env := env; en_signer := s; en_refresh := {| rf_time := env_now env; rf_observed := observed |} |}.
Proof.
  intros C. unfold fetch_observed. intros (ips & Hips%ok_or_Ok & Hr)%result_bind_Ok. case_bool_decide; [done|].
  apply result_bind_Ok in Hr as (wire & Hw & (bytes & Hb & (resp & Hresp%ok_or_Ok & Hr)%result_bind_Ok)%result_bind_Ok).
  destruct (extract_dnskey_response resp) as [[records keys] sig] eqn:E.
  apply result_bind_Ok in Hr as (s & Hs%ok_or_Ok & Hr). subst sig.
  destruct (existsb _ _) eqn:Hex; [|done]. injection Hr as <-. apply existsb_exists in Hex as (p & Hp & Hv).
  apply list_elem_of_In in Hp. exists p. split; [by apply C|]. by exists ips, wire, bytes, resp, records, keys, s.
Qed.
Lemma refresh_lineage env a observed prior :
  cell_ok a → lineage prior → fetch_observed env a = Ok observed →
  lineage (apply_refresh prior observed (env_now env) hd).1.
Proof.
  intros C (init & h & B & [G A] & ->) F. destruct (fetch_authentic _ _ _ C F) as (s & Es & As).
  exists init, ({| en_env := env; en_signer := s; en_refresh := {| rf_time := env_now env; rf_observed := observed |} |} :: h).
  split_and!; [done| |reflexivity]. split; [|by constructor].
  intros e [-> |He]%elem_of_cons; [exact Es|by apply G].
Qed.

(** ** The file system *)
Context (ap : string).
Local Abbreviation sp := (state_path ap).
Lemma string_app_inj a b c : (a +:+ b = a +:+ c → b = c)%string.
Proof. induction a as [|x a IH]; cbn; [done|]. intros E. by injection E as ?%IH. Qed.
Lemma paths_apart : apart sp ap ∧ apart ap sp.
Proof.
  assert (X : sp ≠ ap ∧ sp ≠ tmp_sibling ap ∧ ap ≠ tmp_sibling sp ∧ tmp_sibling sp ≠ tmp_sibling ap).
  { assert (Z : ∀ b, b ≠ "" → ap +:+ b ≠ ap) by (intros b Hb E; apply Hb, (string_app_inj ap); by rewrite E, string_app_nil_r).
    unfold state_path, tmp_sibling. rewrite !string_app_assoc. split_and!; [by apply Z|by intros ?%string_app_inj| |by intros ?%string_app_inj].
    intros E. by apply (Z (".state" +:+ ".tmp")). }
  destruct X as (? & ? & ? & ?). unfold apart. by split_and!; try apply not_eq_sym.
Qed.
(** Both files can be written safely, and whatever a crash may leave there is in order. *)
Definition fs_ok (fs : FS) : Prop :=
  safe sp fs ∧ safe ap fs ∧ (∀ t, survives sp fs (Some t) → state_ok t) ∧ (∀ t, survives ap fs (Some t) → anchor_ok t).
Lemma crash_ok fs c : fs_ok fs → Crash fs c → fs_ok c.
Proof.
  intros (Ss & Sa & Os & Oa) C. destruct (crash_safe _ _ _ Ss C) as [Ss' Rs], (crash_safe _ _ _ Sa C) as [Sa' Ra].
  assert (One : ∀ p o, survives p c o → o = read c p).
  { intros p o (D & HD & ->). unfold possible in HD. rewrite (cr_dirs _ _ C) in HD. by apply list_elem_of_singleton in HD as ->. }
  split_and!; [done|done| |]; intros t Et%One; [apply Os; by rewrite Et|apply Oa; by rewrite Et].
Qed.
Lemma write_state_ok io t fs r fs' mid :
  fs_ok fs → state_ok t → atomic_write io sp t fs = (r, fs', mid) → Forall fs_ok (mid ++ [fs']).
Proof.
  intros (Ss & Sa & Os & Oa) Ot E. pose proof (atomic_write_still _ _ (proj1 paths_apart) _ _ _ _ _ _ Ss Sa E) as St.
  apply atomic_write_steps in E as [W _]; [|done]. apply Forall_cons in W as [_ W].
  assert (WS : Forall (λ s, within sp t fs s ∧ still ap fs s) (mid ++ [fs'])) by (apply Forall_and; by split).
  eapply Forall_impl; [exact WS|]. intros s [[S1 V1] [S2 _ V2]]. split_and!; [done|done| |].
  - intros x [[= ->]|Hx]%V1; [done|by apply Os].
  - intros x Hx%V2. by apply Oa.
Qed.
Lemma write_anchor_ok io t fs r fs' mid :
  fs_ok fs → anchor_ok t → atomic_write io ap t fs = (r, fs', mid) → Forall fs_ok (mid ++ [fs']).
Proof.
  intros (Ss & Sa & Os & Oa) Ot E. pose proof (atomic_write_still _ _ (proj2 paths_apart) _ _ _ _ _ _ Sa Ss E) as St.
  apply atomic_write_steps in E as [W _]; [|done]. apply Forall_cons in W as [_ W].
  assert (WS : Forall (λ s, within ap t fs s ∧ still sp fs s) (mid ++ [fs'])) by (apply Forall_and; by split).
  eapply Forall_impl; [exact WS|]. intros s [[S1 V1] [S2 _ V2]]. split_and!; [done|done| |].
  - intros x Hx%V2. by apply Os.
  - intros x [[= ->]|Hx]%V1; [done|by apply Oa].
Qed.
Lemma now_anchor_ok fs raw : fs_ok fs → read fs ap = Some raw → anchor_ok raw.
Proof. intros (_ & _ & _ & Oa) E. apply Oa. rewrite <- E. apply survives_now. Qed.
Lemma prior_lineage env a fs prior :
  fs_ok fs → cell_ok a → prior_keys env a (disk_of ap fs) = Ok prior → lineage prior.
Proof.
  intros (_ & _ & Os & _) C. intros (st & L & [= <-])%result_bind_Ok. destruct st as [st|]; [|by apply seeds_lineage].
  unfold load_state in L. destruct (env_read_ok env); [|done]. cbn in L. destruct (read fs sp) as [raw|] eqn:E; [|done].
  apply result_bind_Ok in L as (st' & P%ok_or_Ok & L). destruct (Z.eqb_spec (version st') 1); [|done]. injection L as ->.
  apply (Os raw); [|done..]. rewrite <- E. apply survives_now.
Qed.

(** ** Every step *)
Lemma tick_ok env ios ioa a fs r a' fs' mid :
  fs_ok fs → cell_ok a → tick_fs ap env ios ioa hd a fs = (r, a', fs', mid) →
  cell_ok a' ∧ Forall fs_ok (mid ++ [fs']).
Proof.
  intros F C. unfold tick_fs. assert (N : Forall fs_ok ([] ++ [fs])) by by apply Forall_singleton.
  destruct (fetch_observed env a) as [observed|e] eqn:Fe; [|intros [= <- <- <- <-]; by split].
  destruct (prior_keys env a (disk_of ap fs)) as [prior|e] eqn:Pe; [|intros [= <- <- <- <-]; by split].
  pose proof (refresh_lineage _ _ _ _ C (prior_lineage _ _ _ _ F C Pe) Fe) as L.
  destruct (apply_refresh prior observed (env_now env) hd) as [next diff] eqn:An. cbn in L.
  destruct (atomic_write ios sp _ fs) as [[r1 fs1] mid1] eqn:W1.
  apply write_state_ok in W1 as F1; [|done|by apply json_ok]. destruct r1 as [u|e]; [|intros [= <- <- <- <-]; by split].
  apply Forall_app in F1 as [M1 [F1 _]%Forall_cons].
  destruct (atomic_write ioa ap _ fs1) as [[r2 fs2] mid2] eqn:W2.
  apply write_anchor_ok in W2 as F2; [|done|by apply rendered_ok].
  assert (Fs : Forall fs_ok ((mid1 ++ fs1 :: mid2) ++ [fs2])).
  { rewrite <- app_assoc. apply Forall_app. split; [done|]. by constructor. }
  destruct r2 as [u'|e]; [|intros [= <- <- <- <-]; by split].
  destruct (from_managed_keys next) as [na|e] eqn:Nk; intros [= <- <- <- <-]; split; try done. by eapply managed_cell_ok.
Qed.
Context (Emb : ∀ a p, parse_presentation_format EMBEDDED_ROOT_KSKS = Ok a → p ∈ anchor_keys a → initial p).
Lemma cell_none : cell_ok {| anchor_keys := [] |}.
Proof. by intros p ?%elem_of_nil. Qed.
Lemma initial_cell a : (∀ p, p ∈ anchor_keys a → initial p) → cell_ok a.
Proof. intros I p Hp. destruct (Hin _ (I _ Hp)). split_and!; [|done..]. by apply E_initial, I. Qed.
Lemma start_ok ok now ioa ios fs a fs' mid :
  fs_ok fs → start_fs ap ok now ioa ios fs = (a, fs', mid) → cell_ok a ∧ Forall fs_ok (mid ++ [fs']).
Proof.
  intros F. unfold start_fs. pose proof cell_none as C0. assert (N : Forall fs_ok ([] ++ [fs])) by by apply Forall_singleton.
  destruct (read fs ap) as [raw|] eqn:R.
  { intros [= <- <- <-]. split; [|done]. destruct ok; [|done]. destruct (parse_presentation_format raw) as [x|] eqn:P; [|done].
    exact (now_anchor_ok _ _ F R x P). }
  destruct (parse_presentation_format EMBEDDED_ROOT_KSKS) as [x|] eqn:P; [|intros [= <- <- <-]; by split].
  assert (Cx : cell_ok x) by (apply initial_cell; intros p; by apply Emb). pose proof (seeds_lineage _ Cx) as L.
  destruct (atomic_write ioa ap _ fs) as [[r1 fs1] mid1] eqn:W1.
  apply write_anchor_ok in W1 as F1; [|done|by apply rendered_ok]. destruct r1 as [u|e]; [|intros [= <- <- <-]; by split].
  apply Forall_app in F1 as [M1 [F1 _]%Forall_cons].
  destruct (atomic_write ios sp _ fs1) as [[r2 fs2] mid2] eqn:W2.
  apply write_state_ok in W2 as F2; [|done|by apply json_ok]. intros [= <- <- <-]. split; [by destruct r2|].
  rewrite <- app_assoc. apply Forall_app. split; [done|]. by constructor.
Qed.
Definition sys_ok (s : Sys) : Prop := Forall cell_ok (cells s) ∧ fs_ok (files_now s).
Lemma anchor_step_ok s s' : sys_ok s → Step ap hd s s' → sys_ok s'.
Proof.
  intros [C F] St. destruct St as [cs i a env ios ioa fs r a' fs' mid Ci E|cs ok now ioa ios fs a fs' mid E|cs fs fs' Cr
    |cs i a env ios ioa fs r a' fs1 mid s0 fs' Ci E Hs Cr|cs ok now ioa ios fs a fs1 mid s0 fs' E Hs Cr]; cbn in C, F.
  - apply tick_ok in E as [Ca [_ [? _]%Forall_cons]%Forall_app]; [|done|by eapply Forall_lookup_1]. split; [|done].
    by apply Forall_insert.
  - apply start_ok in E as [Ca [_ [? _]%Forall_cons]%Forall_app]; [|done]. split; [|done]. cbn.
    apply Forall_app. split; [done|]. by apply Forall_singleton.
  - split; [constructor|]. by eapply crash_ok.
  - apply tick_ok in E as [_ [M _]%Forall_app]; [|done|by eapply Forall_lookup_1]. split; [constructor|].
    rewrite Forall_forall in M. eapply crash_ok; [|exact Cr]. by apply M.
  - apply start_ok in E as [_ [M _]%Forall_app]; [|done]. split; [constructor|].
    rewrite Forall_forall in M. eapply crash_ok; [|exact Cr]. by apply M.
Qed.
Lemma anchor_steps_ok s s' : sys_ok s → rtc (Step ap hd) s s' → sys_ok s'.
Proof. intros S R. induction R as [|s s1 s2 St _ IH]; [done|]. apply IH. by eapply anchor_step_ok. Qed.
End Custody.

(** ** The model with texts instead of files *)
Section Refinement.
Context `{NameOps} {HK : Hickory} `{!Base64, !Serde} (ap : string).

Definition with_writes (state_ok anchor_ok : bool) (env : RefreshEnv) : RefreshEnv :=
  {| env_roots := env_roots env; env_txid := env_txid env; env_query := env_query env; env_now := env_now env;
     env_now' := env_now' env; env_read_ok := env_read_ok env; env_save_state_ok := state_ok; env_save_anchor_ok := anchor_ok |}.
Lemma write_disk io path q bytes fs r fs' mid :
  apart path q → safe path fs → safe q fs → atomic_write io path bytes fs = (r, fs', mid) →
  safe path fs' ∧ safe q fs' ∧ read fs' q = read fs q ∧
  read fs' path = match r with Ok _ => Some bytes | Err _ => read fs path end.
Proof.
  intros A Sp Sq E. pose proof (atomic_write_still _ _ A _ _ _ _ _ _ Sp Sq E) as [_ [[Sq' Rq _] _]%Forall_cons]%Forall_app.
  apply atomic_write_steps in E as [W R]; [|done]. rewrite Forall_forall in W.
  destruct (W fs') as [Sp' _]; [right; apply elem_of_app; right; left|]. split_and!; [done..|].
  destruct r; [apply R|apply R, tmp_sibling_ne].
Qed.

(** A tick that gets as far as writing. *)
Lemma tick_written env b1 b2 hd a d observed prior next diff :
  fetch_observed env a = Ok observed → prior_keys env a d = Ok prior →
  apply_refresh prior observed (env_now env) hd = (next, diff) →
  tick (with_writes b1 b2 env) hd a d =
    if negb b1 then (Err "writing state file", a, d)
    else
      let st := Some (to_json {| version := 1; last_refresh := env_now' env; state_keys := next |}) in
      if negb b2 then (Err "writing anchor file", a, {| state_text := st; anchor_text := anchor_text d |})
      else
        let d' := {| state_text := st; anchor_text := Some (render_anchor_file next DEFAULT_ANCHOR_TTL) |} in
        match from_managed_keys next with Err e => (Err e, a, d') | Ok na => (Ok diff, na, d') end.
Proof.
  intros F P A. unfold tick. change (fetch_observed (with_writes b1 b2 env) a) with (fetch_observed env a).
  change (prior_keys (with_writes b1 b2 env) a d) with (prior_keys env a d). rewrite F, P. cbn [with_writes env_now]. rewrite A.
  by destruct b1, b2.
Qed.
Lemma tick_unread env b1 b2 hd a d e :
  (fetch_observed env a = Err e ∨ is_ok (fetch_observed env a) = true ∧ prior_keys env a d = Err e) →
  tick (with_writes b1 b2 env) hd a d = (Err e, a, d).
Proof.
  intros C. unfold tick. change (fetch_observed (with_writes b1 b2 env) a) with (fetch_observed env a).
  change (prior_keys (with_writes b1 b2 env) a d) with (prior_keys env a d).
  destruct C as [-> |[F ->]]; [done|]. by destruct (fetch_observed env a).
Qed.

(** C21. The refresh over a file system implements the refresh over texts: whichever
    operations on the files fail, the anchors and the two texts afterwards are those of
    [tick] in a world where the same two writes succeed or fail, and both report
    success or failure alike. *)
Theorem tick_fs_refines env ios ioa hd a fs r a' fs' mid :
  safe (state_path ap) fs → safe ap fs → tick_fs ap env ios ioa hd a fs = (r, a', fs', mid) →
  ∃ b1 b2 r', tick (with_writes b1 b2 env) hd a (disk_of ap fs) = (r', a', disk_of ap fs') ∧ is_ok r' = is_ok r ∧
    safe (state_path ap) fs' ∧ safe ap fs'.
Proof.
  intros Ss Sa. unfold tick_fs.
  destruct (fetch_observed env a) as [observed|e] eqn:Fe.
  2: { intros [= <- <- <- <-]. exists true, true, (Err e). rewrite (tick_unread _ _ _ _ _ _ e) by (by left). done. }
  destruct (prior_keys env a (disk_of ap fs)) as [prior|e] eqn:Pe.
  2: { intros [= <- <- <- <-]. exists true, true, (Err e). rewrite (tick_unread _ _ _ _ _ _ e) by (right; by rewrite Fe). done. }
  destruct (apply_refresh prior observed (env_now env) hd) as [next diff] eqn:An.
  pose proof (λ b1 b2, tick_written env b1 b2 _ _ _ _ _ _ _ Fe Pe An) as T.
  destruct (atomic_write ios _ _ fs) as [[r1 fs1] mid1] eqn:W1.
  destruct (write_disk _ _ _ _ _ _ _ _ (proj1 (paths_apart ap)) Ss Sa W1) as (Ss1 & Sa1 & Ra1 & Rs1).
  destruct r1 as [u|e].
  2: { intros [= <- <- <- <-]. exists false, true, (Err "writing state file"). rewrite T. split_and!; [|done..]. cbn. unfold disk_of. by rewrite Ra1, Rs1. }
  destruct (atomic_write ioa _ _ fs1) as [[r2 fs2] mid2] eqn:W2.
  destruct (write_disk _ _ _ _ _ _ _ _ (proj2 (paths_apart ap)) Sa1 Ss1 W2) as (Sa2 & Ss2 & Rs2 & Ra2).
  destruct r2 as [u'|e].
  2: { intros [= <- <- <- <-]. exists true, false, (Err "writing anchor file"). rewrite T. split_and!; [|done..]. cbn. unfold disk_of.
       by rewrite Ra2, Ra1, Rs2, Rs1. }
  destruct (from_managed_keys next) as [na|e] eqn:Nk; intros [= <- <- <- <-]; exists true, true; [exists (Ok diff)|exists (Err e)]; rewrite T, ?Nk;
    (split_and!; [|done..]); cbn [negb]; unfold disk_of; by rewrite Ra2, Rs2, Rs1.
Qed.

(** So with a start: it is [load_anchors] where the same writes succeed. *)
Lemma start_fs_refines ok now ioa ios fs a fs' mid :
  safe (state_path ap) fs → safe ap fs → start_fs ap ok now ioa ios fs = (a, fs', mid) →
  ∃ b1 b2, (∀ kernel port binds workers nesting,
    Build.load_anchors {| Build.be_kernel := kernel; Build.be_port := port; Build.be_binds := binds; Build.be_workers := workers;
      Build.be_disk := λ p, disk_of p fs; Build.be_read_ok := ok; Build.be_now := now; Build.be_state_ok := b1; Build.be_anchor_ok := b2;
      Build.be_nesting := nesting |} (Some ap) = (a, Some (disk_of ap fs'))) ∧
    safe (state_path ap) fs' ∧ safe ap fs'.
Proof.
  intros Ss Sa. unfold start_fs, Build.load_anchors. cbn [Build.be_disk Build.be_read_ok Build.be_now Build.be_state_ok Build.be_anchor_ok disk_of anchor_text].
  destruct (read fs ap) as [raw|] eqn:R.
  { intros [= <- <- <-]. by exists true, true. }
  unfold bootstrap_self_managed. destruct (parse_presentation_format EMBEDDED_ROOT_KSKS) as [x|].
  2: { intros [= <- <- <-]. by exists true, true. }
  destruct (atomic_write ioa ap _ fs) as [[r1 fs1] mid1] eqn:W1.
  destruct (write_disk _ _ _ _ _ _ _ _ (proj2 (paths_apart ap)) Sa Ss W1) as (Sa1 & Ss1 & Rs1 & Ra1).
  destruct r1 as [u|e].
  2: { intros [= <- <- <-]. exists true, false. cbn. unfold disk_of. by rewrite Ra1, Rs1. }
  destruct (atomic_write ios _ _ fs1) as [[r2 fs2] mid2] eqn:W2.
  destruct (write_disk _ _ _ _ _ _ _ _ (proj1 (paths_apart ap)) Ss1 Sa1 W2) as (Ss2 & Sa2 & Ra2 & Rs2).
  destruct r2 as [u'|e]; intros [= <- <- <-]; [exists true, true|exists false, true]; cbn; unfold disk_of;
    by rewrite Ra2, Rs2, Ra1, ?Rs1.
Qed.
End Refinement.

(** ** The loop of the refresh task *)
Section Loop.
Context `{NameOps} {HK : Hickory} `{!Base64, !Serde} (hd : Z).

(** [AnchorRefresh::spawn]: a tick that fails is reported, and the loop goes on. *)
Fixpoint refresh_loop (envs : list RefreshEnv) (a : TrustAnchors) (d : Disk) : TrustAnchors * Disk :=
  match envs with
  | [] => (a, d)
  | env :: envs' => let '(_, a, d) := tick env hd a d in refresh_loop envs' a d
  end.

Context (alg : Z) (pk : list Z).
(** Whatever DNSKEY set verifies in this world publishes the key, as an unrevoked KSK. *)
Definition publishes (env : RefreshEnv) : Prop :=
  ∀ a observed, fetch_observed env a = Ok observed →
    (∃ k, (".", k) ∈ observed ∧ key_algorithm k = alg ∧ public_bytes k = pk) ∧
    ∀ o, o ∈ observed → observed_id o = (".", alg, pk) → revoke o.2 = false ∧ secure_entry_point o.2 = true.
(** The state file lists the key as Active, or as waiting since [t0]. *)
Definition listed (t0 : Z) (e : ManagedKey) : Prop :=
  entry_id e = (".", alg, pk) ∧ (status e = Active ∨ status e = PendingAdd t0).
Definition waiting (t0 : Z) (d : Disk) : Prop :=
  ∃ st e, load_state true d = Ok (Some st) ∧ e ∈ state_keys st ∧ listed t0 e.

(** The fate of the key in a refresh that publishes it. *)
Lemma published_next env a observed e t0 :
  publishes env → fetch_observed env a = Ok observed → listed t0 e →
  ∃ e', entry_next observed (env_now env) hd e = Some e' ∧ listed t0 e' ∧
    (hd ≤ env_now env - t0 → status e' = Active).
Proof.
  intros P F [Eid St]. destruct (P _ _ F) as [(k & Hk & Ea & Ep) R].
  destruct (observed_match observed e) as [[i [z k']]|] eqn:M.
  2: { exfalso. eapply observed_match_None; [exact M|exact Hk|]. rewrite Eid. unfold observed_id, key_id. cbn. by rewrite Ea, Ep. }
  apply observed_match_Some in M as M'. destruct M' as [Hin Hid]. destruct (R _ Hin) as [Rk _]; [by rewrite Hid|]. cbn in Rk.
  unfold entry_next. rewrite M. destruct St as [Sa|Sp].
  - rewrite Sa, Rk. exists e. by split_and!; [|split; [|left]|].
  - rewrite Sp, Rk. case_bool_decide as B.
    + exists (set_status Active e). by split_and!; [|split; [|left]|].
    + exists e. split_and!; [done|split; [done|by right]|]. intros L. exfalso. apply B. unfold saturating_sub. lia.
Qed.
(** The key is listed after the refresh that first publishes it. *)
Lemma published_new env a observed prior :
  publishes env → fetch_observed env a = Ok observed → (∀ e, e ∈ prior → entry_id e ≠ (".", alg, pk)) →
  ∃ e, e ∈ (apply_refresh prior observed (env_now env) hd).1 ∧ listed (env_now env) e.
Proof.
  intros P F N. destruct (P _ _ F) as [(k & Hk & Ea & Ep) R].
  assert (Eo : observed_id (".", k) = (".", alg, pk)) by (unfold observed_id, key_id; cbn; by rewrite Ea, Ep).
  destruct (R _ Hk Eo) as [Rk Sk]. cbn in Rk, Sk. apply list_elem_of_lookup_1 in Hk as [i Hi].
  exists (from_observed "." k (PendingAdd (env_now env))). split; [|split; [by rewrite entry_id_from_observed|by right]].
  apply apply_refresh_elem. right. exists i, ".", k. split_and!; [done| |done..].
  intros (e & [z' k'] & He & M). apply (N _ He). unfold observed_match in M. apply list_find_Some in M as (Hi' & Hid & _).
  rewrite Hi in Hi'. injection Hi' as <- <-. cbn in Hid. by rewrite <- Hid.
Qed.
(** What a tick does to the state file. *)
Lemma tick_state env a d r a' d' :
  tick env hd a d = (r, a', d') →
  state_text d' = state_text d ∧ (∃ e, r = Err e) ∨
  ∃ observed prior, fetch_observed env a = Ok observed ∧ prior_keys env a d = Ok prior ∧
    let next := (apply_refresh prior observed (env_now env) hd).1 in
    (∃ st, load_state true d' = Ok (Some st) ∧ state_keys st = next) ∧ (∀ df, r = Ok df → from_managed_keys next = Ok a').
Proof.
  unfold tick, save_state, save_anchor_file. destruct (fetch_observed env a) as [observed|e]; [|intros [= <- <- <-]; left; eauto].
  destruct (prior_keys env a d) as [prior|e]; [|intros [= <- <- <-]; left; eauto].
  destruct (apply_refresh prior observed (env_now env) hd) as [next diff] eqn:An.
  destruct (env_save_state_ok env); [|intros [= <- <- <-]; left; eauto].
  assert (L : ∀ t, ∃ st, load_state true {| state_text := Some (to_json {| version := 1; last_refresh := env_now' env; state_keys := next |});
    anchor_text := t |} = Ok (Some st) ∧ state_keys st = next).
  { intros t. eexists. unfold load_state. cbn. rewrite from_to_json. by split. }
  destruct (env_save_anchor_ok env); [destruct (from_managed_keys next) as [na|e] eqn:Nk|]; intros [= <- <- <-]; right;
    exists observed, prior; rewrite An; (split_and!; [done..|apply L|]); by intros df [= _].
Qed.
Lemma waiting_state t0 d d' : state_text d' = state_text d → waiting t0 d → waiting t0 d'.
Proof. intros E (st & e & L & X). exists st, e. split; [|done]. unfold load_state in *. by rewrite E. Qed.
Lemma waiting_prior t0 env a d prior : waiting t0 d → prior_keys env a d = Ok prior → ∃ e, e ∈ prior ∧ listed t0 e.
Proof.
  intros (st & e & L & He & X) (o & Lo & [= <-])%result_bind_Ok. destruct (env_read_ok env); [|done].
  rewrite L in Lo. injection Lo as <-. by exists e.
Qed.
Lemma waiting_tick t0 env a d r a' d' : publishes env → waiting t0 d → tick env hd a d = (r, a', d') → waiting t0 d'.
Proof.
  intros P W [[E _]|(observed & prior & F & Pr & (st & L & Es) & _)]%tick_state; [by eapply waiting_state|].
  destruct (waiting_prior _ _ _ _ _ W Pr) as (e & He & Le). destruct (published_next _ _ _ _ _ P F Le) as (e' & En & Le' & _).
  exists st, e'. split_and!; [done| |done]. rewrite Es. apply apply_refresh_elem. left. eauto.
Qed.
Lemma waiting_loop t0 envs a d a' d' :
  Forall publishes envs → waiting t0 d → refresh_loop envs a d = (a', d') → waiting t0 d'.
Proof.
  intros P. revert a d. induction P as [|env envs Pe _ IH]; intros a d W; cbn; [by intros [= _ <-]|].
  destruct (tick env hd a d) as [[r a1] d1] eqn:T. apply IH. by eapply waiting_tick.
Qed.

(** C22. A rollover completes.  Say the root publishes a new KSK, unrevoked, in every DNSKEY
    set that verifies from some time on.  Let a tick that succeeds see it first, let the
    refresh loop go on with any number of ticks, of which any may fail at the
    network, at reading or at writing, and let a last tick, at least the hold-down after the first,
    succeed.  Then the new key is in force. *)
Theorem rollover_completes env0 envs env1 a d df0 a0 d0 a1 d1 df1 a2 d2 :
  publishes env0 → Forall publishes envs → publishes env1 →
  (∀ prior e, prior_keys env0 a d = Ok prior → e ∈ prior → entry_id e ≠ (".", alg, pk)) →
  tick env0 hd a d = (Ok df0, a0, d0) → refresh_loop envs a0 d0 = (a1, d1) → tick env1 hd a1 d1 = (Ok df1, a2, d2) →
  hd ≤ env_now env1 - env_now env0 →
  ∃ p, p ∈ anchor_keys a2 ∧ key_algorithm p.2 = alg ∧ public_bytes p.2 = pk.
Proof.
  intros P0 Ps P1 N T0 L T1 Hh.
  apply tick_state in T0 as [[_ [e ?]]|(observed & prior & F & Pr & (st & Ld & Es) & _)]; [done|].
  destruct (published_new _ _ _ prior P0 F) as (e & He & Le); [by eauto|].
  assert (W0 : waiting (env_now env0) d0) by (exists st, e; by rewrite Es).
  pose proof (waiting_loop _ _ _ _ _ _ Ps W0 L) as W1.
  apply tick_state in T1 as [[_ [x ?]]|(observed1 & prior1 & F1 & Pr1 & _ & Nk)]; [done|].
  destruct (waiting_prior _ _ _ _ _ W1 Pr1) as (e1 & He1 & Le1).
  destruct (published_next _ _ _ _ _ P1 F1 Le1) as (e2 & En & [Id2 _] & Act). specialize (Act Hh). specialize (Nk _ eq_refl).
  assert (He2 : e2 ∈ (apply_refresh prior1 observed1 (env_now env1) hd).1) by (apply apply_refresh_elem; left; eauto).
  apply result_bind_Ok in Nk as (out & Eo%result_all_Ok & [= <-]).
  assert (Hm : from_managed_key e2 ∈ map Ok out).
  { rewrite <- Eo. apply (list_elem_of_fmap_2 from_managed_key). apply list_elem_of_filter. split; [|done]. by apply is_active_spec. }
  apply list_elem_of_fmap in Hm as (p & Ep & Hp). exists p. split; [done|].
  unfold from_managed_key, to_dnskey in Ep. unfold entry_id, key_id in Id2. injection Id2 as _ Ia Ipk.
  destruct (b64_decode (public_key e2)) as [b|]; [|done]. cbn in Ep, Ipk. destruct (from_ascii (zone e2)); [|done]. by injection Ep as <-.
Qed.
End Loop.

(** ** Custody and rollover *)
Section Theorems.
Context `{NameOps} {HK : Hickory} `{!Base64, !Serde, !KeyLaws}.

(** Before the first start: no state file, and an anchor file only with [initial] keys;
    so are the keys built into the program. *)
Definition pristine (ap : string) (initial : Name * DNSKEY → Prop) (fs : FS) : Prop :=
  safe (state_path ap) fs ∧ safe ap fs ∧ (∀ t, ¬ survives (state_path ap) fs (Some t)) ∧
  (∀ raw a p, survives ap fs (Some raw) → parse_presentation_format raw = Ok a → p ∈ anchor_keys a → initial p) ∧
  (∀ a p, parse_presentation_format EMBEDDED_ROOT_KSKS = Ok a → p ∈ anchor_keys a → initial p).

(** C19. Custody of the trust anchors.  From the first start on, through any sequence of
    ticks of any number of refresh tasks, starts and reloads, failing file operations
    and crashes at any moment: every key in force anywhere is one of the initial keys, or a
    root key that was held down: refreshes of a history published it unrevoked over at
    least the hold-down, each of them signed by a key that itself has such a
    pedigree.  And whatever state file is found holds what the state machine makes of
    such a history. *)
Theorem anchors_keep_custody hd initial ap fs s :
  0 < hd → (∀ p, initial p → named p.1 ∧ alg_ok p.2) → pristine ap initial fs →
  rtc (Step ap hd) {| cells := []; files_now := fs |} s →
  (∀ a p, a ∈ cells s → p ∈ anchor_keys a → Earned hd initial (kid p)) ∧
  (∀ t st, read (files_now s) (state_path ap) = Some t → from_json t = Some st → version st = 1 →
     lineage hd initial (state_keys st)).
Proof.
  intros Hd Hin (Ss & Sa & Ns & Ia & Em) R.
  assert (S0 : sys_ok hd initial ap {| cells := []; files_now := fs |}).
  { split; [constructor|]. split_and!; [done|done|by intros t ?%Ns|].
    intros raw Hr a Ea. apply (initial_cell hd initial Hin). intros p. by eapply Ia. }
  destruct (anchor_steps_ok hd initial Hd Hin ap Em _ _ S0 R) as [C (_ & _ & Os & _)]. split.
  - intros a p Ha Hp. rewrite Forall_forall in C. by apply (C a Ha).
  - intros t st E. apply (Os t). rewrite <- E. apply survives_now.
Qed.
End Theorems.
End AnchorLife.

(** ** Examples *)
Module AnchorLifeExamples.
Import Anchor Files AnchorLife.

Definition ex_revoked (b : Z) : DNSKEY :=
  {| zone_key := true; secure_entry_point := true; revoke := true; key_algorithm := 8; public_bytes := [b] |}.
(** A DNSKEY set with a signature by key [by]; it was valid from 50 to 200. *)
Definition ex_set (by_key : Z) (ks : list DNSKEY) : Message :=
  add_answers (map (record_from_rdata root 172800)
    (map RD_DNSKEY ks ++ [RD_RRSIG {| type_covered := RT_DNSKEY; sig_algorithm := 8; sig_num_labels := 0; sig_expiration := 200;
       sig_inception := 50; sig_key_tag := by_key; signer_name := root; signature := [by_key] |}]))
    (message_response 7 OC_Query).
(** What the root says in turn: both keys, the first one revoked, only the second. *)
Definition ex_answer (b : list Z) : option Message :=
  match b with
  | [1] => Some (ex_set 1 [ex_ksk 1; ex_ksk 2])
  | [2] => Some (ex_set 2 [ex_ksk 1; ex_ksk 2])
  | [3] => Some (ex_set 2 [ex_revoked 1; ex_ksk 2])
  | [4] => Some (ex_set 2 [ex_ksk 2])
  | _ => None
  end.
#[local] Instance ExHickory : Hickory :=
  {| from_bytes := ex_answer; to_vec := ref_to_vec; message_new := message_new;
     record_from_rdata := record_from_rdata; query_query := query_query; record_type := record_type;
     verify_rrsig := verify_rrsig; ds_covers := ds_covers; calculate_key_tag := calculate_key_tag;
     nsec3_hash := nsec3_hash; record_type_cmp := record_type_cmp; class_cmp := class_cmp;
     base32hex_decode := base32hex_decode |}.
Lemma ex_answer_alg b m : ex_answer b = Some m → Forall (λ r, ∀ k, r_data r = RD_DNSKEY k → key_algorithm k = 8) (answers m).
Proof.
  unfold ex_answer. intros E. repeat case_match; simplify_eq;
    repeat (apply Forall_cons_2; [intros k D; cbn in D; by simplify_eq|]); apply Forall_nil_2.
Qed.
#[local] Instance ExKeyLaws : KeyLaws.
Proof.
  split; [vm_compute; reflexivity..|]. intros b m r k E Hr D. apply ex_answer_alg in E. rewrite Forall_forall in E.
  rewrite (E r Hr k D). done.
Qed.

Definition ex_says (says : list Z) (now : Z) : RefreshEnv :=
  {| env_roots := Some [V4 [198; 41; 0; 4]]; env_txid := 7; env_query := λ _ _, Ok says; env_now := now; env_now' := now;
     env_read_ok := true; env_save_state_ok := true; env_save_anchor_ok := true |}.
Definition ex_day : Z := 86400.
Definition ex_trust (bs : list Z) : TrustAnchors := {| anchor_keys := map (λ b, (root, ex_ksk b)) bs |}.
Definition ex_no_files : Disk := {| state_text := None; anchor_text := None |}.
Definition trusted_bytes (a : TrustAnchors) : list (list Z) := map (λ p, public_bytes p.2) (anchor_keys a).

(** A revoked key comes back.  The signature on the DNSKEY set is checked without its
    validity period, and a revoked key is forgotten as soon as a set lacks it; so an old set,
    signed by a key that is still in use, replayed for thirty days,
    makes the revoked key an anchor again. *)
Lemma replay_resurrects_revoked :
  let after says := refresh_loop DEFAULT_HOLD_DOWN says (ex_trust [1; 2]) ex_no_files in
  trusted_bytes (after [ex_says [3] 100]).1 = [[2]] ∧
  trusted_bytes (after [ex_says [3] 100; ex_says [4] 5000; ex_says [2] (ex_day * 400); ex_says [2] (ex_day * 430)]).1 = [[2]; [1]].
Proof. split; vm_compute; reflexivity. Qed.

(** Key 2 replaces nothing yet, but comes in after thirty days, a failed tick in between. *)
Definition ex_silent (now : Z) : RefreshEnv := ex_says [9] now.
Definition ex_t0 := tick (ex_says [1] 100) DEFAULT_HOLD_DOWN (ex_trust [1]) ex_no_files.
Definition ex_l1 := refresh_loop DEFAULT_HOLD_DOWN [ex_says [1] 4000; ex_silent 8000] ex_t0.1.2 ex_t0.2.
Definition ex_t1 := tick (ex_says [1] (100 + 30 * ex_day)) DEFAULT_HOLD_DOWN ex_l1.1 ex_l1.2.
Lemma ex_publishes now : publishes 8 [2] (ex_says [1] now).
Proof.
  intros a obs E. assert (obs = [(".", ex_ksk 1); (".", ex_ksk 2)]) as ->.
  { vm_compute in E. case_match; [|done]. by injection E as <-. }
  split; [exists (ex_ksk 2); split; [right; left|done]|]. intros o [-> |[-> |?%elem_of_nil]%elem_of_cons]%elem_of_cons Eo; done.
Qed.
Lemma ex_silent_publishes now : publishes 8 [2] (ex_silent now).
Proof. by intros a obs E. Qed.
Lemma rollover_completes_witness : ∃ p, p ∈ anchor_keys ex_t1.1.2 ∧ key_algorithm p.2 = 8 ∧ public_bytes p.2 = [2].
Proof.
  destruct ex_t0 as [[r0 a0] d0] eqn:T0.
  assert (R0 : is_ok r0 = true) by (change r0 with (r0, a0, d0).1.1; rewrite <- T0; vm_compute; reflexivity).
  destruct ex_t1 as [[r1 a1] d1] eqn:T1.
  assert (R1 : is_ok r1 = true) by (change r1 with (r1, a1, d1).1.1; rewrite <- T1; vm_compute; reflexivity).
  destruct r0 as [df0|]; [|discriminate R0]. destruct r1 as [df1|]; [|discriminate R1].
  apply (rollover_completes DEFAULT_HOLD_DOWN 8 [2] (ex_says [1] 100) [ex_says [1] 4000; ex_silent 8000] (ex_says [1] (100 + 30 * ex_day))
    (ex_trust [1]) ex_no_files df0 a0 d0 ex_l1.1 ex_l1.2 df1 a1 d1).
  - apply ex_publishes.
  - constructor; [apply ex_publishes|]. constructor; [apply ex_silent_publishes|constructor].
  - apply ex_publishes.
  - intros prior e Ep He. change (Ok [from_observed "." (ex_ksk 1) Active] = Ok prior) in Ep. injection Ep as <-.
    apply list_elem_of_singleton in He as ->. rewrite entry_id_from_observed. discriminate.
  - exact T0.
  - unfold ex_l1. rewrite T0. apply surjective_pairing.
  - exact T1.
  - vm_compute. congruence.
Defined.

(** ** Files *)
Definition ex_io (rename_ok : bool) : Io :=
  {| io_mkdir := true; io_create := true; io_write := true; io_written := ""; io_sync := true; io_rename := rename_ok; io_sync_dir := true |}.
Definition ex_anchor_text : string :=
  render_anchor_file (map (λ p, from_observed (to_ascii p.1) p.2 Active) (anchor_keys (ex_trust [1]))) DEFAULT_ANCHOR_TTL.
Definition ex_fs : FS :=
  {| dir := {["key" := 0%nat]}; dirs := []; files := {[0%nat := {| text := ex_anchor_text; synced := true |}]} |}.
Lemma ex_lookup q i : ({["key" := 0%nat]} : Dir) !! q = Some i → q = "key" ∧ i = 0%nat.
Proof. by intros [<- <-]%lookup_singleton_Some. Qed.
Lemma ex_anchor_safe path : path = "key" ∨ path = "key.state" → safe path ex_fs.
Proof.
  intros Hp D q i ->%list_elem_of_singleton [-> ->]%ex_lookup. eexists. split_and!; [done|done|].
  intros _. destruct Hp as [-> | ->]; split; vm_compute; congruence.
Qed.

(** The state file is written, the anchor file is not: the key is pending, the anchors stay. *)
Definition ex_half := tick_fs "key" (ex_says [1] 100) (ex_io true) (ex_io false) DEFAULT_HOLD_DOWN (ex_trust [1]) ex_fs.
Lemma tick_fs_refines_witness :
  is_ok ex_half.1.1.1 = false ∧ trusted_bytes ex_half.1.1.2 = [[1]] ∧ bool_decide (is_Some (read ex_half.1.2 "key.state")) = true ∧
  ∃ b1 b2 r', tick (with_writes b1 b2 (ex_says [1] 100)) DEFAULT_HOLD_DOWN (ex_trust [1]) (disk_of "key" ex_fs)
      = (r', ex_half.1.1.2, disk_of "key" ex_half.1.2) ∧
    is_ok r' = is_ok ex_half.1.1.1 ∧ safe "key.state" ex_half.1.2 ∧ safe "key" ex_half.1.2.
Proof.
  split; [vm_compute; reflexivity|]. split; [vm_compute; reflexivity|]. split; [vm_compute; reflexivity|].
  apply (tick_fs_refines "key" (ex_says [1] 100) (ex_io true) (ex_io false) DEFAULT_HOLD_DOWN (ex_trust [1]) ex_fs
    ex_half.1.1.1 ex_half.1.1.2 ex_half.1.2 ex_half.2); [apply ex_anchor_safe; right; reflexivity|apply ex_anchor_safe; left; reflexivity|].
  unfold ex_half. by destruct (tick_fs _ _ _ _ _ _ _) as [[[? ?] ?] ?].
Defined.

(** A start, a tick that sees key 2, a crash, another start, and a tick thirty days later. *)
Definition ex_initial (p : Name * DNSKEY) : Prop := p = (root, ex_ksk 1).
Definition ex_start (fs : FS) := start_fs "key" true 0 (ex_io true) (ex_io true) fs.
Definition ex_tick (now : Z) (a : TrustAnchors) (fs : FS) :=
  tick_fs "key" (ex_says [1] now) (ex_io true) (ex_io true) DEFAULT_HOLD_DOWN a fs.
Definition ex_crash (fs : FS) : FS := {| dir := dir fs; dirs := []; files := files fs |}.
Definition ex_fs1 := (ex_tick 100 (ex_start ex_fs).1.1 (ex_start ex_fs).1.2).1.2.
Definition ex_start2 := ex_start (ex_crash ex_fs1).
Definition ex_tick2 := ex_tick (100 + 30 * ex_day) ex_start2.1.1 ex_start2.1.2.
Lemma ex_start_step fs :
  Step "key" DEFAULT_HOLD_DOWN {| cells := []; files_now := fs |} {| cells := [(ex_start fs).1.1]; files_now := (ex_start fs).1.2 |}.
Proof. destruct (ex_start fs) as [[a fs'] mid] eqn:E. exact (S_start _ _ [] _ _ _ _ _ _ _ _ E). Qed.
Lemma ex_tick_step now a fs :
  Step "key" DEFAULT_HOLD_DOWN {| cells := [a]; files_now := fs |} {| cells := [(ex_tick now a fs).1.1.2]; files_now := (ex_tick now a fs).1.2 |}.
Proof. destruct (ex_tick now a fs) as [[[r a'] fs'] mid] eqn:E. by eapply (S_tick _ _ [a] 0 a). Qed.
Lemma ex_crash_step cs fs :
  Step "key" DEFAULT_HOLD_DOWN {| cells := cs; files_now := fs |} {| cells := []; files_now := ex_crash fs |}.
Proof. apply S_crash. split; [by left|done|]. intros i f E. by split. Qed.
Lemma ex_anchor_run :
  rtc (Step "key" DEFAULT_HOLD_DOWN) {| cells := []; files_now := ex_fs |} {| cells := [ex_tick2.1.1.2]; files_now := ex_tick2.1.2 |}.
Proof.
  eapply rtc_l; [apply ex_start_step|]. eapply rtc_l; [apply (ex_tick_step 100)|]. eapply rtc_l; [apply ex_crash_step|].
  eapply rtc_l; [apply ex_start_step|]. eapply rtc_l; [apply (ex_tick_step (100 + 30 * ex_day))|]. apply rtc_refl.
Qed.
Lemma ex_pristine : pristine "key" ex_initial ex_fs.
Proof.
  split_and!; [apply ex_anchor_safe; by right|apply ex_anchor_safe; by left| | |].
  - intros t (D & ->%list_elem_of_singleton & E). vm_compute in E. congruence.
  - intros raw a p (D & ->%list_elem_of_singleton & E) Ep Hp. change (Some raw = Some ex_anchor_text) in E.
    assert (a = ex_trust [1]) as ->.
    { assert (X : parse_presentation_format ex_anchor_text = Ok (ex_trust [1])) by (vm_compute; reflexivity).
      injection E as ->. pose proof (eq_trans (eq_sym X) Ep) as Y. by injection Y. }
    by apply list_elem_of_singleton in Hp as ->.
  - intros a p E. assert (X : is_ok (parse_presentation_format EMBEDDED_ROOT_KSKS) = false) by (vm_compute; reflexivity).
    rewrite E in X. discriminate X.
Qed.
Lemma ex_initial_ok p : ex_initial p → named p.1 ∧ alg_ok p.2.
Proof. intros ->. split; [|done]. by split_and!. Qed.
Lemma anchors_keep_custody_witness :
  (root, ex_ksk 2) ∈ anchor_keys ex_tick2.1.1.2 ∧ Earned DEFAULT_HOLD_DOWN ex_initial (kid (root, ex_ksk 2)).
Proof.
  assert (Hp : (root, ex_ksk 2) ∈ anchor_keys ex_tick2.1.1.2) by (vm_compute; right; left). split; [exact Hp|].
  apply (proj1 (anchors_keep_custody DEFAULT_HOLD_DOWN ex_initial "key" ex_fs _ eq_refl ex_initial_ok ex_pristine ex_anchor_run) ex_tick2.1.1.2);
    [left|exact Hp].
Defined.
End AnchorLifeExamples.
