(* ===== verification/Tls.v ===== *)
(** * TLS materials ([acme/mod.rs])

    What [dns.tls] turns into: the server configuration DoT and DoH listeners accept
    with, and the summary for operators with its RFC 3339 expiry date.  Files, PEM and
    X.509 parsing and [rustls] are outside. *)
From Stdlib Require Import Ascii.
From S2P Require Import Prelude Hickory Reference Text IpText Config.

Module Tls.
Import Config.

(** ** RFC 3339 *)

(** [{n:0w}]: at least [w] digits. *)
Definition pad (w : nat) (n : Z) : string :=
  let s := show_uint n in
  String.string_of_list_ascii (repeat "0"%char (w - String.length s)) +:+ s.
Record Civil := { year : Z; month : Z; day : Z }.
(** The date of a number of days after 1970-01-01. *)
Definition civil_of_days (days : Z) : Civil :=
  let days := days + 719468 in
  let era := days / 146097 in
  let doe := days mod 146097 in
  let yoe := (doe - doe / 1460 + doe / 36524 - doe / 146096) / 365 in
  let y := yoe + era * 400 in
  let doy := doe - (365 * yoe + yoe / 4 - yoe / 100) in
  let mp := (5 * doy + 2) / 153 in
  let d := doy - (153 * mp + 2) / 5 + 1 in
  let m := if mp <? 10 then mp + 3 else mp - 9 in
  {| year := if m <=? 2 then y + 1 else y; month := m; day := d |}.
Definition chrono_rfc3339 (unix : Z) : option string :=
  if unix <? 0 then None
  else
    let c := civil_of_days (unix / 86400) in
    let secs_of_day := unix mod 86400 in
    let hh := secs_of_day / 3600 in
    let mm := secs_of_day mod 3600 / 60 in
    let ss := secs_of_day mod 60 in
    Some (pad 4 (year c) +:+ "-" +:+ pad 2 (month c) +:+ "-" +:+ pad 2 (day c) +:+ "T" +:+
          pad 2 hh +:+ ":" +:+ pad 2 mm +:+ ":" +:+ pad 2 ss +:+ "Z").

Example rfc3339_examples :
  map chrono_rfc3339 [0; 1778716800; 1709210096; -1] =
  [Some "1970-01-01T00:00:00Z"; Some "2026-05-14T00:00:00Z"; Some "2024-02-29T12:34:56Z"; None].
Proof. vm_compute. reflexivity. Qed.

(** *** The calendar, by counting *)

Definition leap (y : Z) : bool := (y mod 4 =? 0) && (negb (y mod 100 =? 0) || (y mod 400 =? 0)).
Definition month_length (y m : Z) : Z :=
  if m =? 2 then if leap y then 29 else 28
  else if (m =? 4) || (m =? 6) || (m =? 9) || (m =? 11) then 30 else 31.
Definition year_length (y : Z) : Z := if leap y then 366 else 365.
(** Days in the [n] years from 1970, and in the first [n] months of a year. *)
Fixpoint days_in_years (n : nat) : Z :=
  match n with O => 0 | S n' => days_in_years n' + year_length (1970 + Z.of_nat n') end.
Fixpoint days_in_months (y : Z) (n : nat) : Z :=
  match n with O => 0 | S n' => days_in_months y n' + month_length y (Z.of_nat n) end.
Definition valid_date (c : Civil) : Prop :=
  1970 ≤ year c ∧ 1 ≤ month c ≤ 12 ∧ 1 ≤ day c ≤ month_length (year c) (month c).
Definition day_number (c : Civil) : Z :=
  days_in_years (Z.to_nat (year c - 1970)) + days_in_months (year c) (Z.to_nat (month c - 1)) + (day c - 1).

Lemma leap_spec y : leap y = true ↔ y mod 4 = 0 ∧ (y mod 100 ≠ 0 ∨ y mod 400 = 0).
Proof. unfold leap. rewrite andb_true_iff, orb_true_iff, negb_true_iff, !Z.eqb_eq, Z.eqb_neq. done. Qed.
(** The leap years before a year, as the code counts them. *)
Definition leaps (y : Z) : Z := y / 4 - y / 100 + y / 400.
Lemma leaps_step y : leaps y - leaps (y - 1) = if leap y then 1 else 0.
Proof.
  pose proof (leap_spec y) as L. unfold leaps. destruct (leap y).
  - destruct L as [L _]. specialize (L eq_refl). Z.to_euclidean_division_equations. lia.
  - assert (N : ¬ (y mod 4 = 0 ∧ (y mod 100 ≠ 0 ∨ y mod 400 = 0))) by (intros Hn; by apply L in Hn).
    clear L. Z.to_euclidean_division_equations. lia.
Qed.
Lemma days_in_years_closed n :
  days_in_years n = 365 * Z.of_nat n + leaps (1969 + Z.of_nat n) - 477.
Proof.
  induction n as [|n IH]; [vm_compute; reflexivity|]. cbn [days_in_years]. rewrite IH.
  pose proof (leaps_step (1970 + Z.of_nat n)) as S. unfold year_length.
  replace (1969 + Z.of_nat (Datatypes.S n)) with (1970 + Z.of_nat n) by lia.
  replace (1970 + Z.of_nat n - 1) with (1969 + Z.of_nat n) in S by lia. destruct (leap _); lia.
Qed.

(** The year of an era starting in March, and the day in it. *)
Lemma year_of_era doe :
  0 ≤ doe < 146097 →
  let yoe := (doe - doe / 1460 + doe / 36524 - doe / 146096) / 365 in
  let doy := doe - (365 * yoe + yoe / 4 - yoe / 100) in
  0 ≤ yoe ≤ 399 ∧ 0 ≤ doy ≤ 365 ∧ (doy = 365 → (yoe + 1) mod 4 = 0 ∧ ((yoe + 1) mod 100 ≠ 0 ∨ (yoe + 1) mod 400 = 0)).
Proof. intros Hd yoe doy. subst doy yoe. Z.to_euclidean_division_equations. lia. Qed.
Lemma leaps_era yoe era : 0 ≤ yoe ≤ 399 → leaps (yoe + era * 400) = yoe / 4 - yoe / 100 + 97 * era.
Proof. unfold leaps. Z.to_euclidean_division_equations. lia. Qed.
Lemma leap_era yoe era :
  (yoe + 1) mod 4 = 0 ∧ ((yoe + 1) mod 100 ≠ 0 ∨ (yoe + 1) mod 400 = 0) → leap (yoe + era * 400 + 1) = true.
Proof. intros Hl. apply leap_spec. Z.to_euclidean_division_equations. lia. Qed.

Ltac closed_tests :=
  repeat match goal with
  | |- context [?a =? ?b] =>
      match eval vm_compute in (a =? b) with
      | true => change (a =? b) with true | false => change (a =? b) with false
      end
  end; cbn [orb].
(** Months counted from March. *)
Lemma month_of_year doy y :
  0 ≤ doy ≤ 365 → (doy = 365 → leap (y + 1) = true) →
  let mp := (5 * doy + 2) / 153 in
  let d := doy - (153 * mp + 2) / 5 + 1 in
  let m := if mp <? 10 then mp + 3 else mp - 9 in
  let y' := if m <=? 2 then y + 1 else y in
  1 ≤ m ≤ 12 ∧ 1 ≤ d ≤ month_length y' m ∧
  days_in_months y' (Z.to_nat (m - 1)) + (d - 1) =
    if m <=? 2 then doy - 306 else doy + 59 + (if leap y then 1 else 0).
Proof.
  intros Hd Hl mp d m y'.
  assert (Hmp : 0 ≤ mp ≤ 11 ∧ 153 * mp ≤ 5 * doy + 2 < 153 * mp + 153) by (subst mp; Z.to_euclidean_division_equations; lia).
  destruct Hmp as [Hmp Hr]. clearbody mp. subst d m y'.
  assert (mp = 0 ∨ mp = 1 ∨ mp = 2 ∨ mp = 3 ∨ mp = 4 ∨ mp = 5 ∨ mp = 6 ∨ mp = 7 ∨ mp = 8 ∨ mp = 9 ∨ mp = 10 ∨ mp = 11) as C by lia.
  repeat (destruct C as [->|C]); [..|subst mp];
    match goal with |- context [(153 * ?k + 2) / 5] =>
      let m := eval vm_compute in (if k <? 10 then k + 3 else k - 9) in
      let q := eval vm_compute in ((153 * k + 2) / 5) in let b := eval vm_compute in (m <=? 2) in
      let n := eval vm_compute in (Z.to_nat (m - 1)) in
      change ((153 * k + 2) / 5) with q; change (if k <? 10 then k + 3 else k - 9) with m;
      change (m <=? 2) with b; change (Z.to_nat (m - 1)) with n
    end; cbn [days_in_months]; unfold month_length; closed_tests;
    try (destruct (leap y)); try (destruct (leap (y + 1))); lia.
Qed.
Lemma civil_of_days_spec n : 0 ≤ n → valid_date (civil_of_days n) ∧ day_number (civil_of_days n) = n.
Proof.
  intros Hn. unfold civil_of_days.
  set (era := (n + 719468) / 146097). set (doe := (n + 719468) mod 146097).
  assert (Hdoe : 0 ≤ doe < 146097) by (apply Z.mod_pos_bound; lia).
  assert (Hera : n + 719468 = 146097 * era + doe) by (apply Z.div_mod; lia). clearbody era doe.
  pose proof (year_of_era doe Hdoe) as Y. cbv zeta in Y.
  set (yoe := (doe - doe / 1460 + doe / 36524 - doe / 146096) / 365) in *.
  set (doy := doe - (365 * yoe + yoe / 4 - yoe / 100)) in *. destruct Y as (Hy & Hd & Hl).
  assert (Hs : n + 719468 = 365 * (yoe + era * 400) + leaps (yoe + era * 400) + doy).
  { rewrite leaps_era by done. subst doy. lia. }
  pose proof (month_of_year doy (yoe + era * 400) Hd (λ E, leap_era _ _ (Hl E))) as M. cbv zeta in M.
  assert (Hy0 : 1969 ≤ yoe + era * 400).
  { clear - Hn Hs Hd. unfold leaps in Hs. clearbody yoe doy. Z.to_euclidean_division_equations. lia. }
  clearbody yoe doy. set (y := yoe + era * 400) in *. clearbody y.
  set (m := if (5 * doy + 2) / 153 <? 10 then (5 * doy + 2) / 153 + 3 else (5 * doy + 2) / 153 - 9) in *.
  set (d := doy - (153 * ((5 * doy + 2) / 153) + 2) / 5 + 1) in *.
  destruct M as (Mm & Md & Ms). unfold valid_date, day_number. cbn [year month day].
  pose proof (leaps_step y) as Ls.
  destruct (Z.leb_spec m 2) as [L|L].
  - rewrite days_in_years_closed, Z2Nat.id by lia. split; [lia|].
    replace (1969 + (y + 1 - 1970)) with y by lia. lia.
  - assert (1970 ≤ y).
    { destruct (Z.eq_dec y 1969) as [->|]; [|lia]. change (leaps 1969) with 477 in Hs.
      assert (Hm : m = 3 ∨ 3 < m) by lia. unfold leap in Ms. cbn in Ms.
      exfalso. subst m. destruct (Z.ltb_spec ((5 * doy + 2) / 153) 10); Z.to_euclidean_division_equations; lia. }
    rewrite days_in_years_closed, Z2Nat.id by lia. split; [lia|].
    replace (1969 + (y - 1970)) with (y - 1) by lia. lia.
Qed.

(** ** Certificates *)

Record TlsInfo := {
  ti_present : bool; ti_cert_source : string; ti_subject : option string; ti_issuer : option string;
  ti_not_after : option string; ti_sans : list string; ti_alpn : list string }.
Definition default_info : TlsInfo := {|
  ti_present := false; ti_cert_source := ""; ti_subject := None; ti_issuer := None; ti_not_after := None;
  ti_sans := []; ti_alpn := [] |}.
Inductive GeneralName : Type := DNSName (s : string) | IPAddress (b : list Z) | OtherName.
(** What the X.509 parser reports of a certificate; the alternative names may fail to parse. *)
Record X509 := {
  x_subject : string; x_issuer : string; x_not_after : Z; x_san : result (option (list GeneralName)) }.

Definition san_entry (e : GeneralName) : option string :=
  match e with
  | DNSName s => Some ("DNS:" +:+ s)
  | IPAddress b =>
      if (length b =? 4)%nat then Some ("IP:" +:+ IpText.show_v4 b)
      else if (length b =? 16)%nat then Some ("IP:" +:+ IpText.show_v6 b)
      else None
  | OtherName => None
  end.

Section Build.
(** A certificate and a key, as [rustls] holds them; file access; PEM and X.509 parsing;
    whether [rustls] accepts the pair; whether the ACME cache directory can be made. *)
Context {Cert Key : Type} (read : string → result (list Z)) (pem_certs : list Z → result (list Cert))
  (pem_key : list Z → result Key) (accepts : list Cert → Key → bool) (x509 : Cert → option X509) (mkdir : result unit).

Inductive CertSource : Type := FilePair (certs : list Cert) (key : Key) | AcmeResolver (a : Acme).
Record ServerConfig := { sc_source : CertSource; sc_alpn : list string }.
Record TlsSetup := { ts_config : ServerConfig; ts_driver : bool; ts_info : TlsInfo }.

Definition fill_cert_fields (leaf : Cert) (info : TlsInfo) : TlsInfo :=
  match x509 leaf with
  | None => info
  | Some c => {|
      ti_present := ti_present info; ti_cert_source := ti_cert_source info; ti_subject := Some (x_subject c);
      ti_issuer := Some (x_issuer c); ti_not_after := chrono_rfc3339 (x_not_after c);
      ti_sans := ti_sans info ++ match x_san c with Ok (Some names) => omap san_entry names | _ => [] end;
      ti_alpn := ti_alpn info |}
  end.
Definition load_file_pair (cert_path key_path : string) : result (ServerConfig * Cert) :=
  cert_pem ← read cert_path;
  key_pem ← read key_path;
  certs ← pem_certs cert_pem;
  leaf ← ok_or "no certificates found" (head certs);
  key ← pem_key key_pem;
  if accepts certs key then Ok ({| sc_source := FilePair certs key; sc_alpn := ["dot"; "h2"; "http/1.1"] |}, leaf)
  else Err "building ServerConfig".
Definition build_acme_tls_alpn_01 (acme : Acme) : result (option TlsSetup) :=
  _ ← mkdir;
  let alpn := ["dot"; "h2"; "http/1.1"; "acme-tls/1"] in
  Ok (Some {| ts_config := {| sc_source := AcmeResolver acme; sc_alpn := alpn |}; ts_driver := true;
              ts_info := {| ti_present := true; ti_cert_source := "acme"; ti_subject := None; ti_issuer := None;
                            ti_not_after := None; ti_sans := map (λ d, "DNS:" +:+ d) (ac_domains acme); ti_alpn := alpn |} |}).
Definition build_tls (cfg : DnsConfig) : result (option TlsSetup) :=
  match b_tls (c_block cfg) with
  | None => Ok None
  | Some tls =>
      if String.eqb (tc_cert_source tls) "file" then
        cert_path ← ok_or "cert_source=file requires dns.tls.cert_path" (tc_cert_path tls);
        key_path ← ok_or "cert_source=file requires dns.tls.key_path" (tc_key_path tls);
        '(config, leaf) ← load_file_pair cert_path key_path;
        let info := {| ti_present := true; ti_cert_source := "file"; ti_subject := None; ti_issuer := None;
                       ti_not_after := None; ti_sans := []; ti_alpn := sc_alpn config |} in
        Ok (Some {| ts_config := config; ts_driver := false; ts_info := fill_cert_fields leaf info |})
      else if String.eqb (tc_cert_source tls) "acme" then
        acme ← ok_or "cert_source=acme requires dns.tls.acme" (tc_acme tls);
        if bool_decide (ac_domains acme = []) then Err "dns.tls.acme.domains must not be empty"
        else if String.eqb (ac_challenge acme) "tls-alpn-01" || String.eqb (ac_challenge acme) ""
        then build_acme_tls_alpn_01 acme
        else if String.eqb (ac_challenge acme) "dns-01" then Err "challenge=dns-01 is not yet wired"
        else Err "unknown ACME challenge"
      else Err "unknown dns.tls.cert_source"
  end.

(** What is reported is what is served. *)
Lemma build_tls_info cfg s :
  build_tls cfg = Ok (Some s) →
  ti_present (ts_info s) = true ∧ ti_alpn (ts_info s) = sc_alpn (ts_config s) ∧
  (∃ tls, b_tls (c_block cfg) = Some tls ∧ ti_cert_source (ts_info s) = tc_cert_source tls) ∧
  match sc_source (ts_config s) with
  | FilePair certs key => accepts certs key = true ∧ ts_driver s = false ∧
      ∃ leaf, head certs = Some leaf ∧ ∀ c, x509 leaf = Some c →
        ti_subject (ts_info s) = Some (x_subject c) ∧ ti_not_after (ts_info s) = chrono_rfc3339 (x_not_after c)
  | AcmeResolver a => ac_domains a ≠ [] ∧ ts_driver s = true ∧ "acme-tls/1" ∈ sc_alpn (ts_config s)
  end.
Proof.
  unfold build_tls. destruct (b_tls (c_block cfg)) as [tls|] eqn:T; [|done].
  destruct (String.eqb_spec (tc_cert_source tls) "file") as [Ef|_].
  - intros (cp & _ & (kp & _ & ([config leaf] & L & [= <-])%result_bind_Ok)%result_bind_Ok)%result_bind_Ok.
    unfold load_file_pair in L.
    apply result_bind_Ok in L as (cpem & _ & (kpem & _ & (certs & _ & (lf & Hh%ok_or_Ok & (key & _ & L)%result_bind_Ok)%result_bind_Ok)%result_bind_Ok)%result_bind_Ok).
    destruct (accepts certs key) eqn:A; [|done]. injection L as <- <-. unfold fill_cert_fields.
    destruct (x509 lf) as [c|] eqn:X; cbn; (split_and!; [done..|by exists tls|done|done|exists lf; split; [done|]; rewrite X;
      intros c'; by try intros [= <-]]).
  - destruct (String.eqb_spec (tc_cert_source tls) "acme") as [Ea|_]; [|done].
    intros (acme & _ & E)%result_bind_Ok. case_bool_decide as Hd; [done|].
    destruct (_ || _); [|by destruct (String.eqb _ _)]. unfold build_acme_tls_alpn_01 in E.
    apply result_bind_Ok in E as ([] & _ & [= <-]). cbn. split_and!; [done..|by exists tls|done|done|set_solver].
Qed.
End Build.

(** The expiry date shown to operators is right: for every second from the epoch on
    it is a date of the Gregorian calendar and a time of day, and counting the days of
    the years and months before that date, and the seconds before that time, gives
    back the second; earlier times have no rendering. *)
Theorem rfc3339_counts_days unix :
  0 ≤ unix →
  ∃ c hh mm ss,
    chrono_rfc3339 unix = Some (pad 4 (year c) +:+ "-" +:+ pad 2 (month c) +:+ "-" +:+ pad 2 (day c) +:+ "T" +:+
                                pad 2 hh +:+ ":" +:+ pad 2 mm +:+ ":" +:+ pad 2 ss +:+ "Z") ∧
    valid_date c ∧ 0 ≤ hh < 24 ∧ 0 ≤ mm < 60 ∧ 0 ≤ ss < 60 ∧
    86400 * day_number c + 3600 * hh + 60 * mm + ss = unix ∧ ∀ past, past < 0 → chrono_rfc3339 past = None.
Proof.
  intros Hu. destruct (civil_of_days_spec (unix / 86400)) as [Hv Hn]; [apply Z.div_pos; lia|].
  exists (civil_of_days (unix / 86400)), (unix mod 86400 / 3600), (unix mod 86400 mod 3600 / 60), (unix mod 86400 mod 60).
  split.
  - unfold chrono_rfc3339. by destruct (Z.ltb_spec unix 0); [lia|].
  - rewrite Hn. split; [done|]. clear Hv Hn. split_and!; try (Z.to_euclidean_division_equations; lia).
    intros past Hp. unfold chrono_rfc3339. by destruct (Z.ltb_spec past 0); [|lia].
Qed.
Lemma rfc3339_counts_days_witness :
  chrono_rfc3339 1709210096 = Some "2024-02-29T12:34:56Z" ∧
  ∃ c, valid_date c ∧ 86400 * day_number c ≤ 1709210096.
Proof.
  split; [vm_compute; reflexivity|].
  destruct (rfc3339_counts_days 1709210096 ltac:(lia)) as (c & hh & mm & ss & _ & V & H1 & H2 & H3 & E & _).
  exists c. split; [exact V|lia].
Defined.
End Tls.
