(* ===== verification/Daemon.v ===== *)
(** * The daemon ([main.rs])

    Start-up, the set of bound listeners and its reload, shutdown.  A listener task
    reads its allow-list and its context through cells that [main] replaces; the cells
    are shared between the protocols of one configured listener, so they are kept in a
    store and listeners hold their numbers.  Tasks are numbered; aborting one removes it. *)
From stdpp Require Import sorting.
From S2P Require Import Prelude Hickory Reference Net Dns64 Cache TtlCaches Text IpText LocalZones Anchor Dnssec Validator Iterative ClientPolicy Forwarder Handler Service Config Hints Build Tls.

Module Daemon.
Import Config Handler Service Build Tls.

(** ** Listeners *)

Record ListenerKey := { k_addr : IpAddr; k_port : Z; k_proto : string }.
#[export] Instance ListenerKey_eq_dec : EqDecision ListenerKey.
Proof. solve_decision. Defined.
#[export] Instance ListenerKey_countable : Countable ListenerKey.
Proof.
  refine (inj_countable' (λ k, (k_addr k, k_port k, k_proto k))
    (λ p, {| k_addr := p.1.1; k_port := p.1.2; k_proto := p.2 |}) _). by intros [].
Defined.
Definition key_of (lc : Listener) (proto : string) : ListenerKey :=
  {| k_addr := lc_address lc; k_port := lc_port lc; k_proto := proto |}.

(** [LiveListener]: the numbers of its cells and of its tasks. *)
Record LiveListener := { ll_name : string; ll_acl : nat; ll_ctx : nat; ll_handles : list nat }.
(** The cells: [ArcSwap]s of an allow-list and of a context. *)
Record Cells := { acls : gmap nat Acl.ClientAcl; ctxs : gmap nat ListenerContext; next_cell : nat }.
Definition context_of (lc : Listener) : ListenerContext :=
  {| ctx_name := lc_name lc; ctx_dns64 := lc_dns64 lc; doh_auth_token := lc_auth_token lc |}.
Definition make_acl_swap (lc : Listener) (c : Cells) : nat * Cells :=
  (next_cell c, {| acls := <[next_cell c := Acl.new (lc_allow_from lc)]> (acls c); ctxs := ctxs c; next_cell := S (next_cell c) |}).
Definition make_ctx_swap (lc : Listener) (c : Cells) : nat * Cells :=
  (next_cell c, {| acls := acls c; ctxs := <[next_cell c := context_of lc]> (ctxs c); next_cell := S (next_cell c) |}).
(** [live.acl.store] and [live.ctx.store]. *)
Definition store_acl (n : nat) (a : Acl.ClientAcl) (c : Cells) : Cells :=
  {| acls := <[n := a]> (acls c); ctxs := ctxs c; next_cell := next_cell c |}.
Definition store_ctx (n : nat) (x : ListenerContext) (c : Cells) : Cells :=
  {| acls := acls c; ctxs := <[n := x]> (ctxs c); next_cell := next_cell c |}.

Definition PROTOS : list string := ["udp"; "tcp"; "dot"; "doh"].

Section Daemon.
Context {Sc : Type}.

(** A running listener task: what it is bound to and the cells it reads. *)
Record LTask := { tk_key : ListenerKey; tk_acl : nat; tk_ctx : nat; tk_inflight : Z; tk_tls : option Sc }.
Record Net := {
  n_cells : Cells; n_tasks : gmap nat LTask; n_next : nat; n_tries : nat; n_live : gmap ListenerKey LiveListener }.
Definition set_cells (c : Cells) (s : Net) : Net :=
  {| n_cells := c; n_tasks := n_tasks s; n_next := n_next s; n_tries := n_tries s; n_live := n_live s |}.

Section Bind.
(** Which binds of a free address succeed, by the number of the try. *)
Context (binds : nat → ListenerKey → bool).

(** An address somebody listens on cannot be bound again. *)
Definition in_use (k : ListenerKey) (tasks : gmap nat LTask) : bool :=
  existsb (λ p : nat * LTask, bool_decide (tk_key p.2 = k)) (map_to_list tasks).
Inductive BindOutcome : Type := Bound (handles : list nat) | Skipped.
Definition spawn_task (lc : Listener) (proto : string) (tls : option Sc) (acl ctx : nat) (s : Net) : result BindOutcome * Net :=
  let k := key_of lc proto in
  let s' := {| n_cells := n_cells s; n_tasks := n_tasks s; n_next := n_next s; n_tries := S (n_tries s); n_live := n_live s |} in
  if in_use k (n_tasks s) || negb (binds (n_tries s) k) then (Err "bind", s')
  else
    (Ok (Bound [n_next s]),
     {| n_cells := n_cells s; n_next := S (n_next s); n_tries := S (n_tries s); n_live := n_live s;
        n_tasks := <[n_next s := {| tk_key := k; tk_acl := acl; tk_ctx := ctx; tk_tls := tls;
                      tk_inflight := default DEFAULT_MAX_INFLIGHT (lc_max_inflight lc) |}]> (n_tasks s) |}).
Definition try_bind_one (lc : Listener) (proto : string) (tls : option Sc) (acl ctx : nat) (s : Net) : result BindOutcome * Net :=
  if String.eqb proto "udp" || String.eqb proto "tcp" then spawn_task lc proto None acl ctx s
  else if String.eqb proto "dot" || String.eqb proto "doh" then
    match tls with Some _ => spawn_task lc proto tls acl ctx s | None => (Ok Skipped, s) end
  else (Ok Skipped, s).

Record Pending := { p_lc : Listener; p_proto : string; p_acl : nat; p_ctx : nat }.
Definition p_key (p : Pending) : ListenerKey := key_of (p_lc p) (p_proto p).
(** The protocols of a configured listener that are not bound yet. *)
Definition unbound (lc : Listener) (live : gmap ListenerKey LiveListener) : list string :=
  List.filter (λ proto, has_protocol lc proto && negb (bool_decide (is_Some (live !! key_of lc proto)))) PROTOS.
(** The pairs to bind: one allow-list cell and one context cell per configured listener. *)
Fixpoint plan (ls : list Listener) (s : Net) : list Pending * Net :=
  match ls with
  | [] => ([], s)
  | lc :: ls' =>
      let '(acl, c) := make_acl_swap lc (n_cells s) in
      let '(ctx, c) := make_ctx_swap lc c in
      let here := map (λ proto, {| p_lc := lc; p_proto := proto; p_acl := acl; p_ctx := ctx |}) (unbound lc (n_live s)) in
      let '(rest, s) := plan ls' (set_cells c s) in (here ++ rest, s)
  end.
(** One pass over the pending pairs; the failed ones stay pending. *)
Fixpoint bind_pass (tls : option Sc) (pending : list Pending) (s : Net) : list Pending * Net :=
  match pending with
  | [] => ([], s)
  | p :: pending' =>
      match try_bind_one (p_lc p) (p_proto p) tls (p_acl p) (p_ctx p) s with
      | (Ok (Bound handles), s) =>
          bind_pass tls pending'
            {| n_cells := n_cells s; n_tasks := n_tasks s; n_next := n_next s; n_tries := n_tries s;
               n_live := <[p_key p := {| ll_name := lc_name (p_lc p); ll_acl := p_acl p; ll_ctx := p_ctx p; ll_handles := handles |}]>
                           (n_live s) |}
      | (Ok Skipped, s) => bind_pass tls pending' s
      | (Err _, s) => let '(still, s) := bind_pass tls pending' s in (p :: still, s)
      end
  end.
(** [clock n]: milliseconds from the start to the end of pass [n]. *)
Fixpoint bind_loop (fuel pass : nat) (clock : nat → Z) (deadline : Z) (tls : option Sc) (pending : list Pending) (s : Net)
  : bool * list Pending * Net :=
  match pending with
  | [] => (true, [], s)
  | _ =>
      match fuel with
      | O => (false, pending, s)
      | S fuel' =>
          let '(pending, s) := bind_pass tls pending s in
          match pending with
          | [] => (true, [], s)
          | _ => if deadline <=? clock pass then (true, pending, s)
                 else bind_loop fuel' (S pass) clock deadline tls pending s
          end
      end
  end.
(** Passes are 200 ms apart. *)
Definition bind_fuel (deadline : Z) : nat := Z.to_nat (deadline / 200 + 2).
Definition bind_listener_set_with_retry (cfg : DnsConfig) (clock : nat → Z) (deadline : Z) (tls : option Sc) (s : Net)
  : bool * list Pending * Net :=
  let '(pending, s) := plan (b_listeners (c_block cfg)) s in
  bind_loop (bind_fuel deadline) 0 clock deadline tls pending s.
End Bind.

(** ** Snapshots *)

Record ListenerInfo := {
  li_name : string; li_address : string; li_port : Z; li_protocol : string; li_allow_from : list string; li_dns64 : bool }.
Section Snapshot.
(** [Display] of a network, and the order in which a map is traversed. *)
Context (show_net : IpNet → string) (iter : ∀ V, gmap ListenerKey V → list (ListenerKey * V)).

Definition info_of (c : Cells) (p : ListenerKey * LiveListener) : ListenerInfo :=
  {| li_name := ll_name p.2; li_address := IpText.show_ip (k_addr p.1); li_port := k_port p.1; li_protocol := k_proto p.1;
     li_allow_from := match acls c !! ll_acl p.2 with Some a => map show_net (Acl.allow a) | None => [] end;
     li_dns64 := match ctxs c !! ll_ctx p.2 with Some x => ctx_dns64 x | None => false end |}.
(** The order of [(&str, u16, &str)]. *)
Definition row_le (a b : ListenerInfo) : bool :=
  match String.compare (li_address a) (li_address b) with
  | Lt => true | Gt => false
  | Eq => if li_port a <? li_port b then true else if li_port b <? li_port a then false
          else String.leb (li_protocol a) (li_protocol b)
  end.
Fixpoint insert_row (r : ListenerInfo) (l : list ListenerInfo) : list ListenerInfo :=
  match l with [] => [r] | x :: l' => if row_le r x then r :: l else x :: insert_row r l' end.
Definition sort_rows (l : list ListenerInfo) : list ListenerInfo := foldr insert_row [] l.
Definition snapshot_listeners (s : Net) : list ListenerInfo := sort_rows (map (info_of (n_cells s)) (iter _ (n_live s))).

(** ** Reload: the listener set *)

Definition desire (lc : Listener) (m : gmap ListenerKey Listener) (proto : string) : gmap ListenerKey Listener :=
  if has_protocol lc proto then <[key_of lc proto := lc]> m else m.
Fixpoint desired_of (ls : list Listener) (m : gmap ListenerKey Listener) : gmap ListenerKey Listener :=
  match ls with
  | [] => m
  | lc :: ls' => desired_of ls' (foldl (desire lc) m PROTOS)
  end.
Definition desired (cfg : DnsConfig) : gmap ListenerKey Listener := desired_of (b_listeners (c_block cfg)) ∅.

(** [handle.abort()], as if it took effect at once: the listener's socket is free for the
    binds that follow.  A connection that an aborted listener had already handed to a task of
    its own is served on by that task, in [Accept] and [DohAccept]; it is not a task of
    this table. *)
Definition abort_handles (hs : list nat) (tasks : gmap nat LTask) : gmap nat LTask := foldr delete tasks hs.
(** [listeners.retain]: the others are aborted. *)
Definition retain (want : gmap ListenerKey Listener) (s : Net) : Net :=
  let gone := List.filter (λ p : ListenerKey * LiveListener, negb (bool_decide (is_Some (want !! p.1)))) (iter _ (n_live s)) in
  {| n_cells := n_cells s; n_next := n_next s; n_tries := n_tries s;
     n_tasks := abort_handles (concat (map (λ p, ll_handles p.2) gone)) (n_tasks s);
     n_live := filter (λ p, is_Some (want !! p.1)) (n_live s) |}.
(** The in-place update of the kept listeners. *)
Definition update_one (s : Net) (p : ListenerKey * Listener) : Net :=
  match n_live s !! p.1 with
  | None => s
  | Some live =>
      {| n_cells := store_ctx (ll_ctx live) (context_of p.2) (store_acl (ll_acl live) (Acl.new (lc_allow_from p.2)) (n_cells s));
         n_tasks := n_tasks s; n_next := n_next s; n_tries := n_tries s;
         n_live := <[p.1 := {| ll_name := lc_name p.2; ll_acl := ll_acl live; ll_ctx := ll_ctx live; ll_handles := ll_handles live |}]>
                     (n_live s) |}
  end.
Definition update_kept (want : gmap ListenerKey Listener) (s : Net) : Net := foldl update_one s (iter _ want).
Definition reload_listeners (binds : nat → ListenerKey → bool) (clock : nat → Z) (cfg : DnsConfig) (tls : option Sc) (s : Net)
  : bool * list Pending * Net :=
  let want := desired cfg in
  bind_listener_set_with_retry binds cfg clock 5000 tls (update_kept want (retain want s)).
(** Clean shutdown. *)
Definition shutdown (s : Net) : Net :=
  {| n_cells := n_cells s; n_next := n_next s; n_tries := n_tries s;
     n_tasks := abort_handles (concat (map (λ p, ll_handles p.2) (iter _ (n_live s)))) (n_tasks s); n_live := ∅ |}.

(** ** The listener set is what runs

    Every listed listener has one running task, bound to its key and reading its cells;
    every running task is listed. *)
Record net_ok (s : Net) : Prop := {
  no_listed k live : n_live s !! k = Some live →
    ∃ h t, ll_handles live = [h] ∧ n_tasks s !! h = Some t ∧ tk_key t = k ∧ tk_acl t = ll_acl live ∧ tk_ctx t = ll_ctx live;
  no_running h t : n_tasks s !! h = Some t → ∃ live, n_live s !! tk_key t = Some live ∧ ll_handles live = [h];
  no_fresh h : is_Some (n_tasks s !! h) → (h < n_next s)%nat;
  no_cells k live : n_live s !! k = Some live →
    (ll_acl live < next_cell (n_cells s) ∧ ll_ctx live < next_cell (n_cells s))%nat }.

Hypothesis iter_perm : ∀ V (m : gmap ListenerKey V), iter V m ≡ₚ map_to_list m.
Lemma iter_elem {V} (m : gmap ListenerKey V) k v : (k, v) ∈ iter V m ↔ m !! k = Some v.
Proof. rewrite iter_perm. apply elem_of_map_to_list. Qed.

Lemma in_use_spec k tasks : in_use k tasks = true ↔ ∃ h t, tasks !! h = Some t ∧ tk_key t = k.
Proof.
  unfold in_use. rewrite existsb_exists. split.
  - intros ([h t] & Hin & Hk%bool_decide_eq_true). exists h, t. split; [|done].
    by apply elem_of_map_to_list, list_elem_of_In.
  - intros (h & t & Ht & Hk). exists (h, t). rewrite <- list_elem_of_In, elem_of_map_to_list, bool_decide_eq_true. done.
Qed.
Lemma abort_lookup hs tasks h : abort_handles hs tasks !! h = if bool_decide (h ∈ hs) then None else tasks !! h.
Proof.
  induction hs as [|x hs IH]; cbn [abort_handles foldr]; [done|]. fold (abort_handles hs tasks).
  destruct (decide (x = h)) as [->|Hx].
  - rewrite lookup_delete_eq. by rewrite bool_decide_eq_true_2 by set_solver.
  - rewrite lookup_delete_ne by done. rewrite IH. repeat case_bool_decide; set_solver.
Qed.

Lemma net_empty n : net_ok {| n_cells := n; n_tasks := ∅; n_next := 0; n_tries := 0; n_live := ∅ |}.
Proof. split; cbn; [by intros ??|by intros ??|intros h [? ?]|by intros ??]; done. Qed.

(** A handle belongs to one key. *)
Lemma handle_key s k live h t :
  net_ok s → n_live s !! k = Some live → h ∈ ll_handles live → n_tasks s !! h = Some t → tk_key t = k.
Proof.
  intros Ok Hk Hh Ht. destruct (no_listed s Ok k live Hk) as (h' & t' & Hh' & Ht' & <- & _).
  rewrite Hh' in Hh. apply list_elem_of_singleton in Hh as ->. congruence.
Qed.
Lemma retain_task want s h t :
  net_ok s → n_tasks (retain want s) !! h = Some t ↔ n_tasks s !! h = Some t ∧ is_Some (want !! tk_key t).
Proof.
  intros Ok. unfold retain. cbn [n_tasks]. rewrite abort_lookup. case_bool_decide as Hin.
  - split; [done|]. intros [Ht Hw]. exfalso. apply list_elem_of_In, in_concat in Hin as (hs & Hhs & Hin).
    apply in_map_iff in Hhs as ([k live] & <- & [Hk Hn]%filter_In). apply negb_true_iff, bool_decide_eq_false in Hn.
    apply Hn. cbn [fst snd] in *. apply list_elem_of_In, iter_elem in Hk.
    rewrite <- (handle_key s k live h t Ok Hk); [done|by apply list_elem_of_In|done].
  - split; [|by intros [? _]]. intros Ht. split; [done|].
    destruct (decide (is_Some (want !! tk_key t))) as [|Hw]; [done|]. exfalso. apply Hin.
    destruct (no_running s Ok h t Ht) as (live & Hl & Hh). apply list_elem_of_In, in_concat. exists (ll_handles live).
    rewrite Hh. split; [|by left]. rewrite <- Hh. apply in_map_iff. exists (tk_key t, live). split; [done|].
    apply filter_In. split; [by apply list_elem_of_In, iter_elem|]. by apply negb_true_iff, bool_decide_eq_false.
Qed.
Lemma retain_live want s k live :
  n_live (retain want s) !! k = Some live ↔ n_live s !! k = Some live ∧ is_Some (want !! k).
Proof. unfold retain. cbn [n_live]. by rewrite map_lookup_filter_Some. Qed.
Lemma retain_ok want s : net_ok s → net_ok (retain want s).
Proof.
  intros Ok. split.
  - intros k live [Hl Hw]%retain_live. destruct (no_listed s Ok k live Hl) as (h & t & Hh & Ht & <- & ? & ?).
    exists h, t. split_and!; try done. by apply retain_task.
  - intros h t [Ht Hw]%retain_task; [|done]. destruct (no_running s Ok h t Ht) as (live & Hl & Hh).
    exists live. split; [|done]. by apply retain_live.
  - intros h [t [Ht _]%retain_task]; [|done]. apply (no_fresh s Ok). by eexists.
  - intros k live [Hl _]%retain_live. by apply (no_cells s Ok k).
Qed.

(** *** The in-place update *)

(** The same listeners with the same cells and tasks; names may differ. *)
Record same_shape (s s' : Net) : Prop := {
  sh_tasks : n_tasks s' = n_tasks s; sh_next : n_next s' = n_next s; sh_cell : next_cell (n_cells s') = next_cell (n_cells s);
  sh_live k : (λ l, (ll_acl l, ll_ctx l, ll_handles l)) <$> n_live s' !! k = (λ l, (ll_acl l, ll_ctx l, ll_handles l)) <$> n_live s !! k }.
#[local] Instance same_shape_preorder : PreOrder same_shape.
Proof.
  split; [done|]. intros s1 s2 s3 [A1 A2 A3 A4] [B1 B2 B3 B4]. split; [congruence..|]. intros k. by rewrite B4, A4.
Qed.
Lemma shape_live s s' k live :
  same_shape s s' → n_live s !! k = Some live →
  ∃ live', n_live s' !! k = Some live' ∧ ll_acl live' = ll_acl live ∧ ll_ctx live' = ll_ctx live ∧ ll_handles live' = ll_handles live.
Proof.
  intros Sh Hl. pose proof (sh_live s s' Sh k) as E. rewrite Hl in E. destruct (n_live s' !! k) as [l'|]; [|done].
  cbn in E. injection E as E1 E2 E3. by exists l'.
Qed.
Lemma shape_live_inv s s' k live' :
  same_shape s s' → n_live s' !! k = Some live' →
  ∃ live, n_live s !! k = Some live ∧ ll_acl live' = ll_acl live ∧ ll_ctx live' = ll_ctx live ∧ ll_handles live' = ll_handles live.
Proof.
  intros Sh Hl. pose proof (sh_live s s' Sh k) as E. rewrite Hl in E. destruct (n_live s !! k) as [l'|]; [|done].
  cbn in E. injection E as E1 E2 E3. by exists l'.
Qed.
Lemma shape_ok s s' : same_shape s s' → net_ok s → net_ok s'.
Proof.
  intros Sh Ok. split.
  - intros k live' (live & Hl & -> & -> & ->)%(shape_live_inv s s'); [|done]. rewrite (sh_tasks s s' Sh). by apply (no_listed s Ok).
  - intros h t. rewrite (sh_tasks s s' Sh). intros (live & Hl & Hh)%(no_running s Ok).
    destruct (shape_live s s' _ _ Sh Hl) as (live' & Hl' & _ & _ & E). exists live'. by rewrite E.
  - intros h. rewrite (sh_tasks s s' Sh), (sh_next s s' Sh). apply (no_fresh s Ok).
  - intros k live' (live & Hl & -> & -> & _)%(shape_live_inv s s'); [|done]. rewrite (sh_cell s s' Sh). by apply (no_cells s Ok k).
Qed.
Lemma update_one_shape s p : same_shape s (update_one s p).
Proof.
  unfold update_one. destruct (n_live s !! p.1) as [live|] eqn:E; [|done]. split; [done..|]. intros k. cbn [n_live].
  destruct (decide (k = p.1)) as [->|]; [by rewrite lookup_insert_eq, E|by rewrite lookup_insert_ne].
Qed.
Lemma update_shape l s : same_shape s (foldl update_one s l).
Proof.
  revert s. induction l as [|p l IH]; intros s; cbn [foldl]; [done|]. etrans; [apply update_one_shape|apply IH].
Qed.

(** What the cells of a listener hold. *)
Definition enforces (s : Net) (k : ListenerKey) (lc : Listener) : Prop :=
  ∃ live, n_live s !! k = Some live ∧ ll_name live = lc_name lc ∧
    acls (n_cells s) !! ll_acl live = Some (Acl.new (lc_allow_from lc)) ∧
    ctxs (n_cells s) !! ll_ctx live = Some (context_of lc).
(** Kept listeners that share a cell are wanted with the same settings. *)
Definition coherent (want : gmap ListenerKey Listener) (s : Net) : Prop :=
  ∀ k1 k2 l1 l2 c1 c2, n_live s !! k1 = Some l1 → n_live s !! k2 = Some l2 → want !! k1 = Some c1 → want !! k2 = Some c2 →
    (ll_acl l1 = ll_acl l2 → lc_allow_from c1 = lc_allow_from c2) ∧ (ll_ctx l1 = ll_ctx l2 → context_of c1 = context_of c2).

Lemma update_one_enforces want s p k lc :
  coherent want s → want !! p.1 = Some p.2 → want !! k = Some lc → k ≠ p.1 → enforces s k lc → enforces (update_one s p) k lc.
Proof.
  intros Co Hp Hk Hne (live & Hl & Hn & Ha & Hc). unfold update_one, enforces.
  destruct (n_live s !! p.1) as [live'|] eqn:E; [|by exists live]. cbn [n_live n_cells acls ctxs store_acl store_ctx].
  exists live. rewrite lookup_insert_ne by done. destruct (Co k p.1 live live' lc p.2 Hl E Hk Hp) as [Ca Cc].
  split_and!; [done..| |].
  - destruct (decide (ll_acl live' = ll_acl live)) as [Eq|]; [|by rewrite lookup_insert_ne].
    rewrite Eq, lookup_insert_eq. by rewrite Ca.
  - destruct (decide (ll_ctx live' = ll_ctx live)) as [Eq|]; [|by rewrite lookup_insert_ne].
    rewrite Eq, lookup_insert_eq. by rewrite Cc.
Qed.
Lemma update_one_sets s p live : n_live s !! p.1 = Some live → enforces (update_one s p) p.1 p.2.
Proof.
  intros E. unfold update_one, enforces. rewrite E. cbn. eexists. rewrite lookup_insert_eq. split; [done|]. cbn.
  by rewrite !lookup_insert_eq.
Qed.
Lemma coherent_shape want s s' : same_shape s s' → coherent want s → coherent want s'.
Proof.
  intros Sh Co k1 k2 l1 l2 c1 c2 (m1 & H1 & A1 & C1 & _)%(shape_live_inv s s') (m2 & H2 & A2 & C2 & _)%(shape_live_inv s s') W1 W2;
    [|done..]. rewrite A1, A2, C1, C2. by apply (Co k1 k2 m1 m2).
Qed.
Lemma update_enforces want l s k lc live :
  coherent want s → (∀ p, p ∈ l → want !! p.1 = Some p.2) → NoDup (fst <$> l) → (k, lc) ∈ l → n_live s !! k = Some live →
  enforces (foldl update_one s l) k lc.
Proof.
  intros Co Hw Hnd Hin. revert s live Co. induction l as [|p l IH]; intros s live Co Hl; [by apply elem_of_nil in Hin|].
  cbn [foldl fmap list_fmap] in *. apply NoDup_cons in Hnd as [Hp Hnd].
  assert (Co' : coherent want (update_one s p)) by (eapply coherent_shape; [apply update_one_shape|done]).
  assert (Hkeep : ∀ l s, (∀ p, p ∈ l → want !! p.1 = Some p.2) → coherent want s → k ∉ (fst <$> l) → want !! k = Some lc →
    enforces s k lc → enforces (foldl update_one s l) k lc).
  { clear. intros l. induction l as [|q l IH]; intros s Hw Co Hk Hwk He; [done|]. cbn [foldl fmap list_fmap] in *.
    apply not_elem_of_cons in Hk as [Hq Hk]. apply IH; [by intros x Hx; apply Hw; right|eapply coherent_shape; [apply update_one_shape|done]|done|done|].
    apply (update_one_enforces want); try done. apply Hw. by left. }
  apply elem_of_cons in Hin as [<-|Hin].
  - apply Hkeep; [by intros x Hx; apply Hw; right|done|done|apply (Hw (k, lc)); by left|]. by apply (update_one_sets s (k, lc) live).
  - destruct (shape_live s (update_one s p) k live (update_one_shape s p) Hl) as (live' & Hl' & _).
    apply (IH ltac:(by intros x Hx; apply Hw; right) Hnd Hin _ live'); done.
Qed.
Lemma update_kept_enforces want s k lc live :
  coherent want s → want !! k = Some lc → n_live s !! k = Some live → enforces (update_kept want s) k lc.
Proof.
  intros Co Hk Hl. eapply (update_enforces want); [done| | |by apply iter_elem|done].
  - intros [k' c'] Hin. by apply iter_elem in Hin.
  - rewrite iter_perm. apply NoDup_fst_map_to_list.
Qed.

(** *** Binding *)

(** Old cells are left alone. *)
Definition cells_extend (c c' : Cells) : Prop :=
  (next_cell c ≤ next_cell c')%nat ∧
  ∀ n, (n < next_cell c)%nat → acls c' !! n = acls c !! n ∧ ctxs c' !! n = ctxs c !! n.
#[local] Instance cells_extend_preorder : PreOrder cells_extend.
Proof.
  split; [done|]. intros a b c [A1 A2] [B1 B2]. split; [lia|]. intros n Hn.
  destruct (A2 n Hn) as [<- <-]. apply B2. lia.
Qed.
(** A pair waiting to be bound, with cells that hold its settings. *)
Definition pending_ok (cfg : list Listener) (c : Cells) (p : Pending) : Prop :=
  p_lc p ∈ cfg ∧ has_protocol (p_lc p) (p_proto p) = true ∧ p_proto p ∈ PROTOS ∧
  (p_acl p < next_cell c)%nat ∧ (p_ctx p < next_cell c)%nat ∧
  acls c !! p_acl p = Some (Acl.new (lc_allow_from (p_lc p))) ∧ ctxs c !! p_ctx p = Some (context_of (p_lc p)).
Lemma pending_ok_extend cfg c c' p : cells_extend c c' → pending_ok cfg c p → pending_ok cfg c' p.
Proof.
  intros [E1 E2] (H1 & H2 & H3 & H4 & H5 & H6 & H7). destruct (E2 _ H4) as [Ea _], (E2 _ H5) as [_ Ec].
  unfold pending_ok. rewrite Ea, Ec. split_and!; try done; lia.
Qed.
Lemma plan_spec ls s pend s' :
  plan ls s = (pend, s') →
  cells_extend (n_cells s) (n_cells s') ∧ n_tasks s' = n_tasks s ∧ n_next s' = n_next s ∧ n_live s' = n_live s ∧
  Forall (λ p, pending_ok ls (n_cells s') p ∧ n_live s !! p_key p = None) pend ∧
  ∀ lc proto, lc ∈ ls → proto ∈ PROTOS → has_protocol lc proto = true → n_live s !! key_of lc proto = None →
    ∃ p, p ∈ pend ∧ p_key p = key_of lc proto.
Proof.
  revert s pend s'. induction ls as [|lc ls IH]; intros s pend s'; cbn [plan].
  { intros [= <- <-]. split_and!; try done. intros lc proto Hlc. by apply elem_of_nil in Hlc. }
  cbn [make_acl_swap make_ctx_swap next_cell acls ctxs]. set (c2 := {| acls := _ |}).
  destruct (plan ls (set_cells c2 s)) as [rest s1] eqn:E. intros [= <- <-].
  destruct (IH _ _ _ E) as (Ex & Ht & Hn & Hl & Hp & Hc). cbn [set_cells n_cells n_tasks n_next n_live] in *.
  assert (E0 : cells_extend (n_cells s) c2).
  { split; [cbn; lia|]. intros n Hn0. cbn. rewrite !lookup_insert_ne by lia. done. }
  split_and!; try done; [by etrans| |].
  - apply Forall_app. split.
    + apply Forall_forall. intros p Hin. apply list_elem_of_fmap in Hin as (proto & -> & Hin).
      apply list_elem_of_In in Hin. unfold unbound in Hin. apply filter_In in Hin as [Hin Hb].
      apply andb_true_iff in Hb as [Hb Hx]. split.
      * apply (pending_ok_extend _ c2); [done|]. unfold pending_ok. cbn.
        rewrite lookup_insert_eq, lookup_insert_eq. split_and!; try done; [by left|by apply list_elem_of_In|lia..].
      * apply negb_true_iff, bool_decide_eq_false in Hx. unfold p_key. cbn [p_lc p_proto]. by apply eq_None_not_Some.
    + eapply Forall_impl; [exact Hp|]. intros p [(H1 & H2) H3]. split; [|done]. split; [by right|done].
  - intros lc' proto Hlc Hproto Hh Hnone. apply elem_of_cons in Hlc as [->|Hlc].
    + exists {| p_lc := lc; p_proto := proto; p_acl := next_cell (n_cells s); p_ctx := S (next_cell (n_cells s)) |}.
      split; [|done]. apply elem_of_app. left. apply list_elem_of_fmap. exists proto. split; [done|].
      apply list_elem_of_In. unfold unbound. apply filter_In. split; [by apply list_elem_of_In|]. by rewrite Hh, Hnone.
    + destruct (Hc lc' proto Hlc Hproto Hh Hnone) as (p & Hin & Hk). exists p. split; [|done]. apply elem_of_app. by right.
Qed.

(** What binding pairs of [pend] does: cells stay, listeners and tasks are only added, each
    new listener is one of the pairs. *)
Record grows (pend : list Pending) (s s' : Net) : Prop := {
  gr_ok : net_ok s';
  gr_cells : n_cells s' = n_cells s;
  gr_tasks h t : n_tasks s !! h = Some t → n_tasks s' !! h = Some t;
  gr_old k live : n_live s !! k = Some live → n_live s' !! k = Some live;
  gr_new k live : n_live s' !! k = Some live → n_live s !! k = Some live ∨
    ∃ p, p ∈ pend ∧ p_key p = k ∧ ll_name live = lc_name (p_lc p) ∧ ll_acl live = p_acl p ∧ ll_ctx live = p_ctx p }.
Lemma grown_refl pend s : net_ok s → grows pend s s.
Proof. intros Ok. split; try done. by left. Qed.
Lemma grown_trans p1 p2 pend s1 s2 s3 :
  grows p1 s1 s2 → grows p2 s2 s3 → p1 ⊆ pend → p2 ⊆ pend → grows pend s1 s3.
Proof.
  intros [A1 A2 A3 A4 A5] [B1 B2 B3 B4 B5] H1 H2. split; [done|congruence|auto|auto|].
  intros k live Hk. destruct (B5 k live Hk) as [Hl|(p & Hp & X)]; [|right; exists p; split; [set_solver|done]].
  destruct (A5 k live Hl) as [?|(p & Hp & X)]; [by left|right; exists p; split; [set_solver|done]].
Qed.
(** Binding one pair; the cells of the pair exist. *)
Definition pending_cells (s : Net) (p : Pending) : Prop :=
  (p_acl p < next_cell (n_cells s) ∧ p_ctx p < next_cell (n_cells s))%nat.
Lemma spawn_task_grows binds p tls s hs s' :
  net_ok s → pending_cells s p →
  spawn_task binds (p_lc p) (p_proto p) tls (p_acl p) (p_ctx p) s = (Ok (Bound hs), s') →
  grows [p] s {| n_cells := n_cells s'; n_tasks := n_tasks s'; n_next := n_next s'; n_tries := n_tries s';
    n_live := <[p_key p := {| ll_name := lc_name (p_lc p); ll_acl := p_acl p; ll_ctx := p_ctx p; ll_handles := hs |}]> (n_live s') |}.
Proof.
  intros Ok [Ca Cc]. unfold spawn_task. fold (p_key p). destruct (in_use (p_key p) (n_tasks s)) eqn:U; [done|].
  destruct (negb _); [done|]. intros [= <- <-]. cbn [n_cells n_tasks n_next n_tries n_live].
  assert (Hfree : ∀ h t, n_tasks s !! h = Some t → tk_key t ≠ p_key p).
  { intros h t Ht Hk. assert (in_use (p_key p) (n_tasks s) = true) by (apply in_use_spec; eauto). congruence. }
  assert (Hnone : n_live s !! p_key p = None).
  { destruct (n_live s !! p_key p) as [live|] eqn:E; [|done].
    destruct (no_listed s Ok _ _ E) as (h & t & _ & Ht & Hk & _). by apply Hfree in Ht. }
  assert (Hnew : n_tasks s !! n_next s = None).
  { destruct (n_tasks s !! n_next s) eqn:E; [|done]. pose proof (no_fresh s Ok (n_next s) ltac:(by eexists)). lia. }
  split; cbn [n_cells n_tasks n_next n_tries n_live]; [|done| | |].
  - split; cbn [n_cells n_tasks n_next n_tries n_live].
    + intros k live. destruct (decide (k = p_key p)) as [->|Hk].
      * rewrite lookup_insert_eq. intros [= <-]. eexists _, _. cbn. rewrite lookup_insert_eq. done.
      * rewrite lookup_insert_ne by done. intros (h & t & Hh & Ht & X)%(no_listed s Ok). exists h, t.
        rewrite lookup_insert_ne by (intros <-; congruence). done.
    + intros h t. destruct (decide (h = n_next s)) as [->|Hh].
      * rewrite lookup_insert_eq. intros [= <-]. cbn. eexists. rewrite lookup_insert_eq. done.
      * rewrite lookup_insert_ne by done. intros Ht. destruct (no_running s Ok h t Ht) as (live & Hl & X). exists live.
        rewrite lookup_insert_ne by (intros E; by apply (Hfree h t Ht)). done.
    + intros h. destruct (decide (h = n_next s)) as [->|Hh]; [lia|]. rewrite lookup_insert_ne by done.
      intros X%(no_fresh s Ok). lia.
    + intros k live. destruct (decide (k = p_key p)) as [->|Hk].
      * rewrite lookup_insert_eq. by intros [= <-].
      * rewrite lookup_insert_ne by done. apply (no_cells s Ok).
  - intros h t Ht. by rewrite lookup_insert_ne by (intros <-; congruence).
  - intros k live Hl. by rewrite lookup_insert_ne by (intros <-; congruence).
  - intros k live. destruct (decide (k = p_key p)) as [->|Hk].
    + rewrite lookup_insert_eq. intros [= <-]. right. exists p. split; [by left|done].
    + rewrite lookup_insert_ne by done. by left.
Qed.
(** The pairs that are skipped for want of TLS. *)
Definition needs_tls (p : Pending) : bool :=
  negb (String.eqb (p_proto p) "udp" || String.eqb (p_proto p) "tcp").
Lemma net_ok_tries s n :
  net_ok s → net_ok {| n_cells := n_cells s; n_tasks := n_tasks s; n_next := n_next s; n_tries := n; n_live := n_live s |}.
Proof. intros [A B C D]. by split. Qed.
Lemma bind_pass_spec binds tls pend s still s' :
  net_ok s → Forall (pending_cells s) pend → bind_pass binds tls pend s = (still, s') →
  grows pend s s' ∧ still ⊆ pend ∧
  ∀ p, p ∈ pend → p ∈ still ∨ is_Some (n_live s' !! p_key p) ∨ needs_tls p = true ∧ (tls = None ∨ p_proto p ∉ PROTOS).
Proof.
  revert s still s'. induction pend as [|p pend IH]; intros s still s' Nk Hc; cbn [bind_pass].
  { intros [= <- <-]. split_and!; [by apply grown_refl|done|]. intros p Hp. by apply elem_of_nil in Hp. }
  apply Forall_cons in Hc as [Hp Hc].
  destruct (try_bind_one binds (p_lc p) (p_proto p) tls (p_acl p) (p_ctx p) s) as [r s1] eqn:T.
  assert (Try : (∃ hs, r = Ok (Bound hs) ∧ ∃ tls', spawn_task binds (p_lc p) (p_proto p) tls' (p_acl p) (p_ctx p) s = (Ok (Bound hs), s1)) ∨
    (∃ e, r = Err e) ∧ s1 = {| n_cells := n_cells s; n_tasks := n_tasks s; n_next := n_next s; n_tries := S (n_tries s); n_live := n_live s |} ∨
    r = Ok Skipped ∧ s1 = s ∧ needs_tls p = true ∧ (tls = None ∨ p_proto p ∉ PROTOS)).
  { assert (Sp : ∀ tls', spawn_task binds (p_lc p) (p_proto p) tls' (p_acl p) (p_ctx p) s = (r, s1) →
      (∃ hs, r = Ok (Bound hs) ∧ spawn_task binds (p_lc p) (p_proto p) tls' (p_acl p) (p_ctx p) s = (Ok (Bound hs), s1)) ∨
      (∃ e, r = Err e) ∧ s1 = {| n_cells := n_cells s; n_tasks := n_tasks s; n_next := n_next s; n_tries := S (n_tries s); n_live := n_live s |}).
    { intros tls' E. rewrite E. unfold spawn_task in E. destruct (_ || _); injection E as <- <-; [right|left]; eauto. }
    unfold try_bind_one in T. unfold needs_tls. destruct (_ || _) eqn:U.
    - destruct (Sp _ T) as [(hs & -> & E)|X]; [left; eauto|right; left; done].
    - destruct (String.eqb (p_proto p) "dot" || _) eqn:D.
      + destruct tls as [t|]; [|injection T as <- <-; right; right; eauto].
        destruct (Sp _ T) as [(hs & -> & E)|X]; [left; eauto|right; left; done].
      + injection T as <- <-. right. right. split_and!; try done. right. intros Hin.
        apply orb_false_iff in U as [U1 U2], D as [D1 D2]. unfold PROTOS in Hin.
        repeat (apply elem_of_cons in Hin as [Hin|Hin]; [by rewrite Hin in *|]). by apply elem_of_nil in Hin. }
  destruct Try as [(hs & -> & tls' & Sp)|[([e ->] & ->)|(-> & -> & Hn & Ht)]].
  - apply (spawn_task_grows binds p tls' s hs s1 Nk Hp) in Sp as G. intros E.
    apply IH in E as (G2 & Hsub & Hcov); [|apply G|].
    2: { eapply Forall_impl; [exact Hc|]. intros q [? ?]. unfold pending_cells. by rewrite (gr_cells _ _ _ G). }
    split_and!; [eapply grown_trans; [exact G|exact G2|set_solver..]|set_solver|].
    intros q [->|Hq]%elem_of_cons; [|by apply Hcov]. right. left. eexists. apply (gr_old _ _ _ G2). cbn. apply lookup_insert_eq.
  - destruct (bind_pass binds tls pend _) as [still2 s2] eqn:E. intros [= <- <-].
    apply IH in E as (G2 & Hsub & Hcov); [|by apply net_ok_tries|done].
    split_and!; [|set_solver|intros q [->|Hq]%elem_of_cons; [left; by left|]].
    + destruct G2 as [G1 G2 G3 G4 G5]. split; try done. intros k live Hk. destruct (G5 k live Hk) as [?|(q & ? & ?)]; [by left|].
      right. exists q. split; [by right|done].
    + destruct (Hcov q Hq) as [?|?]; [left; by right|by right].
  - intros E. apply IH in E as (G2 & Hsub & Hcov); [|done..].
    split_and!; [|set_solver|intros q [->|Hq]%elem_of_cons; [|by apply Hcov]; by right; right].
    destruct G2 as [G1 G2 G3 G4 G5]. split; try done. intros k live Hk. destruct (G5 k live Hk) as [?|(q & ? & ?)]; [by left|].
    right. exists q. split; [by right|done].
Qed.
Lemma bind_loop_spec binds fuel pass clock deadline tls pend s fin left s' :
  net_ok s → Forall (pending_cells s) pend → bind_loop binds fuel pass clock deadline tls pend s = (fin, left, s') →
  grows pend s s' ∧ left ⊆ pend ∧
  ∀ p, p ∈ pend → p ∈ left ∨ is_Some (n_live s' !! p_key p) ∨ needs_tls p = true ∧ (tls = None ∨ p_proto p ∉ PROTOS).
Proof.
  revert pass pend s. induction fuel as [|fuel IH]; intros pass pend s Nk Hc E.
  { destruct pend; injection E as <- <- <-; (split_and!; [by apply grown_refl|done|]); [by intros p ?%elem_of_nil|by left]. }
  cbn [bind_loop] in E. destruct pend as [|p0 pend0] eqn:Ep.
  { injection E as <- <- <-. split_and!; [by apply grown_refl|done|]. by intros p ?%elem_of_nil. }
  rewrite <- Ep in *. clear Ep. destruct (bind_pass binds tls pend s) as [still s1] eqn:B.
  apply bind_pass_spec in B as (G & Hsub & Hcov); [|done..].
  destruct still as [|q0 still0] eqn:Es; [injection E as <- <- <-; by split_and!|]. rewrite <- Es in *. clear Es q0 still0.
  destruct (deadline <=? clock pass); [injection E as <- <- <-; by split_and!|].
  apply IH in E as (G2 & Hs2 & Hc2); [|apply G|].
  - split_and!; [eapply grown_trans; [exact G|exact G2|done..]|set_solver|]. intros p Hp.
    destruct (Hcov p Hp) as [Hst|[[live Hl]|X]]; [by apply Hc2| |by right; right].
    right. left. exists live. by apply (gr_old _ _ _ G2).
  - apply Forall_forall. intros p Hp. unfold pending_cells. rewrite (gr_cells _ _ _ G).
    rewrite Forall_forall in Hc. by apply Hc, Hsub.
Qed.
(** The loop ends: each wait is at least the back-off. *)
Definition waits (clock : nat → Z) : Prop := 0 ≤ clock 0%nat ∧ ∀ n, clock n + 200 ≤ clock (S n).
Lemma bind_loop_ends binds fuel pass clock deadline tls pend s :
  waits clock → (deadline / 200 + 2 - Z.of_nat pass ≤ Z.of_nat fuel) → 0 ≤ deadline → (0 < fuel)%nat →
  (bind_loop binds fuel pass clock deadline tls pend s).1.1 = true.
Proof.
  intros [W0 W] Hf Hd. revert pass pend s Hf. induction fuel as [|fuel IH]; intros pass pend s Hf Hp; [lia|].
  cbn [bind_loop]. destruct pend as [|p pend0] eqn:Ep; [done|]. rewrite <- Ep. clear Ep p pend0.
  destruct (bind_pass binds tls _ s) as [[|q still] s1]; [done|].
  destruct (Z.leb_spec deadline (clock pass)) as [L|L]; [done|].
  assert (C : 200 * Z.of_nat pass ≤ clock pass).
  { clear -W0 W. induction pass as [|n IHn]; [cbn; lia|]. specialize (W n). lia. }
  assert (Z.of_nat pass ≤ deadline / 200) by (apply Z.div_le_lower_bound; lia). apply IH; lia.
Qed.

(** ** Reloading the listener set *)

Lemma desire_elem l ps m k lc :
  foldl (desire l) m ps !! k = Some lc →
  m !! k = Some lc ∨ ∃ proto, proto ∈ ps ∧ lc = l ∧ has_protocol l proto = true ∧ key_of l proto = k.
Proof.
  revert m. induction ps as [|p ps IH]; intros m; cbn [foldl]; [by left|]. intros [Hk|(q & ? & X)]%IH.
  - unfold desire in Hk. destruct (has_protocol l p) eqn:Hp; [|by left]. destruct (decide (key_of l p = k)) as [<-|].
    + rewrite lookup_insert_eq in Hk. injection Hk as <-. right. exists p. split; [by left|done].
    + rewrite lookup_insert_ne in Hk by done. by left.
  - right. exists q. split; [by right|done].
Qed.
Lemma desired_elem ls m k lc :
  desired_of ls m !! k = Some lc →
  m !! k = Some lc ∨ ∃ proto, lc ∈ ls ∧ proto ∈ PROTOS ∧ has_protocol lc proto = true ∧ key_of lc proto = k.
Proof.
  revert m. induction ls as [|l ls IH]; intros m; cbn [desired_of]; [by left|]. intros [Hk|(proto & ? & X)]%IH.
  - apply desire_elem in Hk as [?|(p & Hp & -> & Hh & <-)]; [by left|]. right. exists p. split; [by left|done].
  - right. exists proto. split; [by right|done].
Qed.
Lemma desire_mono l ps m k : is_Some (m !! k) → is_Some (foldl (desire l) m ps !! k).
Proof.
  revert m. induction ps as [|p ps IH]; intros m Hm; cbn [foldl]; [done|]. apply IH. unfold desire.
  destruct (has_protocol l p); [|done]. destruct (decide (key_of l p = k)) as [<-|]; [by rewrite lookup_insert_eq|].
  by rewrite lookup_insert_ne.
Qed.
Lemma desired_mono ls m k : is_Some (m !! k) → is_Some (desired_of ls m !! k).
Proof.
  revert m. induction ls as [|l ls IH]; intros m Hm; cbn [desired_of]; [done|]. by apply IH, desire_mono.
Qed.
Lemma desired_has ls m lc proto :
  lc ∈ ls → proto ∈ PROTOS → has_protocol lc proto = true → is_Some (desired_of ls m !! key_of lc proto).
Proof.
  revert m. induction ls as [|l ls IH]; intros m Hin Hp Hh; [by apply elem_of_nil in Hin|]. cbn [desired_of].
  apply elem_of_cons in Hin as [<-|Hin]; [|by apply IH]. apply desired_mono. clear IH.
  apply list_elem_of_split in Hp as (pre & post & ->). rewrite foldl_app. cbn [foldl]. apply desire_mono.
  unfold desire. by rewrite Hh, lookup_insert_eq.
Qed.

(** Cells are shared by the protocols of one address and port only. *)
Definition shares (s : Net) : Prop :=
  ∀ k1 k2 l1 l2, n_live s !! k1 = Some l1 → n_live s !! k2 = Some l2 →
    ll_acl l1 = ll_acl l2 ∨ ll_ctx l1 = ll_ctx l2 → k_addr k1 = k_addr k2 ∧ k_port k1 = k_port k2.
Lemma plan_cells ls s :
  Forall (λ p, next_cell (n_cells s) ≤ p_acl p ∧ next_cell (n_cells s) ≤ p_ctx p)%nat (plan ls s).1 ∧
  ∀ p q, p ∈ (plan ls s).1 → q ∈ (plan ls s).1 → p_acl p = p_acl q ∨ p_ctx p = p_ctx q → p_lc p = p_lc q.
Proof.
  revert s. induction ls as [|lc ls IH]; intros s; cbn [plan].
  { split; [by constructor|]. intros p q Hp. by apply elem_of_nil in Hp. }
  cbn [make_acl_swap make_ctx_swap next_cell acls ctxs]. set (c2 := {| acls := _ |}).
  specialize (IH (set_cells c2 s)). destruct (plan ls (set_cells c2 s)) as [rest s1]. cbn [fst snd] in *.
  destruct IH as [Lo Eq]. rewrite Forall_forall in Lo. cbn in Lo.
  assert (Here : ∀ p, p ∈ map (λ proto, {| p_lc := lc; p_proto := proto; p_acl := next_cell (n_cells s); p_ctx := S (next_cell (n_cells s)) |})
      (unbound lc (n_live s)) → p_lc p = lc ∧ p_acl p = next_cell (n_cells s) ∧ p_ctx p = S (next_cell (n_cells s))).
  { intros p (proto & -> & _)%list_elem_of_fmap. done. }
  split.
  - apply Forall_forall. intros p [Hp|Hp]%elem_of_app; [apply Here in Hp as (_ & -> & ->); lia|]. specialize (Lo p Hp). lia.
  - intros p q [Hp|Hp]%elem_of_app [Hq|Hq]%elem_of_app Hs; [| | |by apply Eq];
      try (apply Here in Hp as (-> & Ha & Hc)); try (apply Here in Hq as (-> & Ha' & Hc')); try done.
    + specialize (Lo q Hq). lia.
    + specialize (Lo p Hp). lia.
Qed.

(** What clients of an address get: the allow-list and the context its task reads. *)
Definition serves (s : Net) (k : ListenerKey) (a : Acl.ClientAcl) (x : ListenerContext) : Prop :=
  ∃ h t, n_tasks s !! h = Some t ∧ tk_key t = k ∧ acls (n_cells s) !! tk_acl t = Some a ∧ ctxs (n_cells s) !! tk_ctx t = Some x.
Lemma enforces_serves s k lc :
  net_ok s → enforces s k lc → serves s k (Acl.new (lc_allow_from lc)) (context_of lc).
Proof.
  intros Ok (live & Hl & _ & Ha & Hc). destruct (no_listed s Ok k live Hl) as (h & t & _ & Ht & Hk & Ea & Ec).
  exists h, t. by rewrite Ea, Ec.
Qed.
(** Entries of one address and port agree on the settings. *)
Definition one_per_socket (ls : list Listener) : Prop :=
  ∀ l1 l2, l1 ∈ ls → l2 ∈ ls → lc_address l1 = lc_address l2 → lc_port l1 = lc_port l2 →
    lc_allow_from l1 = lc_allow_from l2 ∧ context_of l1 = context_of l2.
Lemma shares_coherent cfg s :
  shares s → one_per_socket (b_listeners (c_block cfg)) → coherent (desired cfg) s.
Proof.
  intros Sh One k1 k2 l1 l2 c1 c2 H1 H2 W1 W2.
  apply desired_elem in W1 as [W1|(p1 & I1 & _ & _ & <-)]; [by rewrite lookup_empty in W1|].
  apply desired_elem in W2 as [W2|(p2 & I2 & _ & _ & <-)]; [by rewrite lookup_empty in W2|].
  pose proof (Sh _ _ _ _ H1 H2) as E. cbn in E. split; intros X; apply One; try done; apply E; auto.
Qed.

(** The outcome of binding the listeners of [cfg] next to those of [s]. *)
Lemma bind_set_spec binds cfg clock deadline tls s fin left s' :
  net_ok s → shares s → waits clock → 0 ≤ deadline →
  bind_listener_set_with_retry binds cfg clock deadline tls s = (fin, left, s') →
  fin = true ∧ net_ok s' ∧ shares s' ∧
  (∀ h t, n_tasks s !! h = Some t → n_tasks s' !! h = Some t) ∧
  (∀ k lc, enforces s k lc → enforces s' k lc) ∧
  (∀ k live, n_live s' !! k = Some live → n_live s !! k = Some live ∨
     ∃ lc proto, lc ∈ b_listeners (c_block cfg) ∧ proto ∈ PROTOS ∧ has_protocol lc proto = true ∧ key_of lc proto = k ∧ enforces s' k lc) ∧
  ∀ lc proto, lc ∈ b_listeners (c_block cfg) → proto ∈ PROTOS → has_protocol lc proto = true →
    is_Some (n_live s' !! key_of lc proto) ∨ key_of lc proto ∈ map p_key left ∨ (proto = "dot" ∨ proto = "doh") ∧ tls = None.
Proof.
  intros Nk Sh W Hd. unfold bind_listener_set_with_retry.
  pose proof (plan_cells (b_listeners (c_block cfg)) s) as [Lo Eq].
  destruct (plan (b_listeners (c_block cfg)) s) as [pend s1] eqn:P. cbn [fst] in Lo, Eq. intros B.
  apply plan_spec in P as (Ex & Et & En & El & Hp & Hcov). rewrite Forall_forall in Hp, Lo.
  assert (Nk1 : net_ok s1).
  { destruct Nk as [A1 A2 A3 A4]. split; rewrite ?Et, ?En, ?El; try done.
    intros k live Hk. destruct (A4 k live Hk). destruct Ex as [Ex _]. lia. }
  assert (F : fin = true).
  { pose proof (bind_loop_ends binds (bind_fuel deadline) 0 clock deadline tls pend s1 W) as E. rewrite B in E. apply E; [|done|];
      unfold bind_fuel; pose proof (Z.div_pos deadline 200 Hd ltac:(lia)); lia. }
  apply bind_loop_spec in B as (G & Hsub & Hdone); [|done|].
  2: { apply Forall_forall. intros p Hin. destruct (Hp p Hin) as [(_ & _ & _ & ? & ? & _) _]. done. }
  assert (New : ∀ k live, n_live s' !! k = Some live → n_live s !! k = Some live ∨
    ∃ p, p ∈ pend ∧ p_key p = k ∧ ll_name live = lc_name (p_lc p) ∧ ll_acl live = p_acl p ∧ ll_ctx live = p_ctx p).
  { intros k live Hk. rewrite <- El. by apply (gr_new _ _ _ G). }
  split_and!; [done|apply G| | | | |].
  - intros k1 k2 l1 l2 H1 H2 E.
    destruct (New _ _ H1) as [O1|(p1 & I1 & <- & _ & A1 & C1)], (New _ _ H2) as [O2|(p2 & I2 & <- & _ & A2 & C2)].
    + by apply (Sh _ _ l1 l2).
    + destruct (no_cells s Nk _ _ O1), (Lo p2 I2). lia.
    + destruct (no_cells s Nk _ _ O2), (Lo p1 I1). lia.
    + rewrite A1, A2, C1, C2 in E. cbn. by rewrite (Eq p1 p2 I1 I2 E).
  - intros h t Ht. apply (gr_tasks _ _ _ G). by rewrite Et.
  - intros k lc (live & Hl & Hn & Ha & Hc). exists live. destruct (no_cells s Nk k live Hl) as [La Lc], Ex as [_ Ex].
    rewrite (gr_cells _ _ _ G), (proj1 (Ex _ La)), (proj2 (Ex _ Lc)). split_and!; try done. apply (gr_old _ _ _ G). by rewrite El.
  - intros k live Hk. destruct (New _ _ Hk) as [?|(p & Hin & <- & Nm & A & C)]; [by left|]. right. exists (p_lc p), (p_proto p).
    destruct (Hp p Hin) as [(? & ? & ? & ? & ? & Ha & Hc) _]. split_and!; try done. exists live.
    by rewrite (gr_cells _ _ _ G), A, C.
  - intros lc proto Hlc Hproto Hh. destruct (n_live s !! key_of lc proto) as [live|] eqn:E.
    { left. exists live. apply (gr_old _ _ _ G). by rewrite El. }
    destruct (Hcov lc proto Hlc Hproto Hh E) as (p & Hin & Hk).
    assert (Epr : p_proto p = proto) by (unfold p_key, key_of in Hk; congruence).
    destruct (Hdone p Hin) as [Hleft|[Hlive|[Hn Ht]]]; [|left; by rewrite <- Hk|].
    + right. left. rewrite <- Hk. by apply list_elem_of_fmap_2.
    + right. right. rewrite Epr in Ht. split; [|by destruct Ht]. unfold needs_tls in Hn. rewrite Epr in Hn. clear -Hproto Hn.
      repeat (apply elem_of_cons in Hproto as [->|Hproto]; [by auto|]). by apply elem_of_nil in Hproto.
Qed.

Definition nobody_on (s : Net) (k : ListenerKey) : Prop := ∀ h t, n_tasks s !! h = Some t → tk_key t ≠ k.
(** A running task, found through its listener. *)
Lemma task_live s h t :
  net_ok s → n_tasks s !! h = Some t →
  ∃ live, n_live s !! tk_key t = Some live ∧ tk_acl t = ll_acl live ∧ tk_ctx t = ll_ctx live.
Proof.
  intros Nk Ht. destruct (no_running s Nk h t Ht) as (live & Hl & Hh). exists live. split; [done|].
  destruct (no_listed s Nk _ _ Hl) as (h' & t' & Hh' & Ht' & _ & X). rewrite Hh in Hh'. injection Hh' as <-. congruence.
Qed.
(** Entries of one key have the settings of the one that counts. *)
Lemma desired_settings cfg lc proto :
  one_per_socket (b_listeners (c_block cfg)) → lc ∈ b_listeners (c_block cfg) → proto ∈ PROTOS → has_protocol lc proto = true →
  ∃ lc', desired cfg !! key_of lc proto = Some lc' ∧ lc_allow_from lc' = lc_allow_from lc ∧ context_of lc' = context_of lc.
Proof.
  intros One Hin Hp Hh. destruct (desired_has _ ∅ lc proto Hin Hp Hh) as [lc' Hd]. exists lc'. split; [done|].
  apply desired_elem in Hd as [Hd|(p & I & _ & _ & E)]; [by rewrite lookup_empty in Hd|]. injection E as E1 E2 _. by apply One.
Qed.

(** What a reload leaves, by listener. *)
Lemma reload_core binds clock cfg tls s :
  net_ok s → shares s → one_per_socket (b_listeners (c_block cfg)) → waits clock →
  ∃ left s', reload_listeners binds clock cfg tls s = (true, left, s') ∧ net_ok s' ∧ shares s' ∧
    (∀ k live, n_live s' !! k = Some live → ∃ lc, desired cfg !! k = Some lc ∧
       acls (n_cells s') !! ll_acl live = Some (Acl.new (lc_allow_from lc)) ∧ ctxs (n_cells s') !! ll_ctx live = Some (context_of lc)) ∧
    (∀ h t, n_tasks s !! h = Some t → is_Some (desired cfg !! tk_key t) → n_tasks s' !! h = Some t) ∧
    (∀ lc proto, lc ∈ b_listeners (c_block cfg) → proto ∈ PROTOS → has_protocol lc proto = true →
       is_Some (n_live s' !! key_of lc proto) ∨ key_of lc proto ∈ map p_key left ∨ (proto = "dot" ∨ proto = "doh") ∧ tls = None).
Proof.
  intros Nk Sh One W. unfold reload_listeners. set (want := desired cfg). set (s2 := update_kept want (retain want s)).
  assert (Co : coherent want (retain want s)).
  { apply shares_coherent; [|done]. intros k1 k2 l1 l2 [H1 _]%retain_live [H2 _]%retain_live. by apply Sh. }
  assert (S2 : same_shape (retain want s) s2) by apply update_shape.
  assert (Nk2 : net_ok s2) by (eapply shape_ok; [exact S2|by apply retain_ok]).
  assert (Sh2 : shares s2).
  { intros k1 k2 l1 l2 (m1 & [H1 _]%retain_live & A1 & C1 & _)%(shape_live_inv _ _ _ _ S2)
      (m2 & [H2 _]%retain_live & A2 & C2 & _)%(shape_live_inv _ _ _ _ S2). rewrite A1, A2, C1, C2. by apply Sh. }
  assert (Kept : ∀ k live, n_live s2 !! k = Some live → ∃ lc, want !! k = Some lc ∧ enforces s2 k lc).
  { intros k live (m & Hm & _)%(shape_live_inv _ _ _ _ S2). pose proof Hm as [_ [lc Hw]]%retain_live. exists lc. split; [done|].
    by apply (update_kept_enforces want _ k lc m). }
  destruct (bind_listener_set_with_retry binds cfg clock 5000 tls s2) as [[fin left] s'] eqn:B.
  apply bind_set_spec in B as (-> & Nk' & Sh' & Ht' & He' & Hn' & Hd'); [|done..].
  exists left, s'. split_and!; [done..| | |done].
  - intros k live Hk. destruct (Hn' k live Hk) as [Hold|(lc & proto & I & Hp & Hh & <- & (live' & Hl & _ & Ha & Hc))];
      [destruct (Kept k live Hold) as (lc & Hw & (live' & Hl & _ & Ha & Hc)%He'); exists lc; split; [done|]
      |destruct (desired_settings cfg lc proto One I Hp Hh) as (lc' & Hw & Ea & Ec); exists lc'; rewrite Ea, Ec; split; [done|]];
      rewrite Hk in Hl; by injection Hl as ->.
  - intros h t Ht Hw. apply Ht'. rewrite (sh_tasks _ _ S2). by apply retain_task.
Qed.
(** Every running task is of an entry and reads its settings. *)
Definition conforms (cfg : DnsConfig) (s : Net) : Prop :=
  ∀ h t, n_tasks s !! h = Some t → ∃ lc, desired cfg !! tk_key t = Some lc ∧
    acls (n_cells s) !! tk_acl t = Some (Acl.new (lc_allow_from lc)) ∧ ctxs (n_cells s) !! tk_ctx t = Some (context_of lc).
Lemma conforms_live cfg s :
  net_ok s → (∀ k live, n_live s !! k = Some live → ∃ lc, desired cfg !! k = Some lc ∧
    acls (n_cells s) !! ll_acl live = Some (Acl.new (lc_allow_from lc)) ∧ ctxs (n_cells s) !! ll_ctx live = Some (context_of lc)) →
  conforms cfg s.
Proof. intros Nk Now h t Ht. destruct (task_live s h t Nk Ht) as (live & Hl & -> & ->). by apply (Now _ live). Qed.
(** The first bind. *)
Lemma first_bind binds cfg clock deadline tls s fin left s' :
  n_live s = ∅ → net_ok s → one_per_socket (b_listeners (c_block cfg)) → waits clock → 0 ≤ deadline →
  bind_listener_set_with_retry binds cfg clock deadline tls s = (fin, left, s') → net_ok s' ∧ shares s' ∧ conforms cfg s'.
Proof.
  intros E0 Nk One W Hd B. apply bind_set_spec in B as (_ & Nk' & Sh' & _ & _ & Hn' & _); [|done| |done..].
  2: { intros k1 k2 l1 l2 H1. by rewrite E0, lookup_empty in H1. }
  split_and!; [done..|]. apply conforms_live; [done|]. intros k live Hk.
  destruct (Hn' k live Hk) as [Hold|(lc & proto & I & Hp & Hh & <- & (live' & Hl & _ & Ha & Hc))];
    [by rewrite E0, lookup_empty in Hold|].
  destruct (desired_settings cfg lc proto One I Hp Hh) as (lc' & Hw & Ea & Ec). exists lc'. rewrite Ea, Ec. split; [done|].
  rewrite Hk in Hl. by injection Hl as ->.
Qed.

(** C12. Reload brings the running listeners to the configuration, whatever ran before.
    When entries of one address and port agree on their settings (otherwise see
    [split_settings_collapse]) and the clock goes on while a bind is retried: the retry loop ends;
    every task that runs afterwards belongs to a configured pair, and the allow-list and
    the context it reads are those of its entry, also for listeners that were kept; a
    task whose pair is still configured is never restarted; every other task is gone;
    and every configured pair is served, but for those whose bind failed up to the
    deadline and for DoT and DoH pairs without TLS that nobody served before. *)
Theorem reload_reaches_config binds clock cfg tls s :
  net_ok s → shares s → one_per_socket (b_listeners (c_block cfg)) → waits clock →
  ∃ left s', reload_listeners binds clock cfg tls s = (true, left, s') ∧ net_ok s' ∧ shares s' ∧ conforms cfg s' ∧
    (∀ h t, n_tasks s !! h = Some t → is_Some (desired cfg !! tk_key t) → n_tasks s' !! h = Some t) ∧
    ∀ k lc, desired cfg !! k = Some lc →
      serves s' k (Acl.new (lc_allow_from lc)) (context_of lc) ∨ k ∈ map p_key left ∨
      (k_proto k = "dot" ∨ k_proto k = "doh") ∧ tls = None ∧ nobody_on s k.
Proof.
  intros Nk Sh One W. destruct (reload_core binds clock cfg tls s Nk Sh One W) as (left & s' & R & Nk' & Sh' & Now & Keep & Cov).
  exists left, s'. split_and!; [done..|by apply conforms_live|done|]. intros k lc Hw.
  assert (Srv : ∀ h t, n_tasks s' !! h = Some t → tk_key t = k → serves s' k (Acl.new (lc_allow_from lc)) (context_of lc)).
  { intros h t Ht Hk. destruct (conforms_live cfg s' Nk' Now h t Ht) as (lc' & Hw' & Ha & Hc). rewrite Hk, Hw in Hw'.
    injection Hw' as <-. by exists h, t. }
  pose proof Hw as [Hx|(proto & I & Hp & Hh & <-)]%desired_elem; [by rewrite lookup_empty in Hx|].
  destruct (Cov lc proto I Hp Hh) as [[live Hl]|[Hl|[Hpr Htls]]]; [left|by right; left|].
  - destruct (no_listed s' Nk' _ _ Hl) as (h & t & _ & Ht & Hk & _). by apply (Srv h t).
  - destruct (n_live s !! key_of lc proto) as [live|] eqn:E; [left|right; right].
    + destruct (no_listed s Nk _ _ E) as (h & t & _ & Ht & Hk & _). apply (Srv h t); [|done]. apply Keep; [done|]. rewrite Hk. eauto.
    + split_and!; try done. intros h t Ht Hk. destruct (task_live s h t Nk Ht) as (live & Hl & _). congruence.
Qed.
(** Nothing runs after a shutdown. *)
Lemma shutdown_stops s : net_ok s → n_tasks (shutdown s) = ∅.
Proof.
  intros Nk. apply map_empty. intros h. cbn [shutdown n_tasks]. rewrite abort_lookup. case_bool_decide as Hin; [done|].
  destruct (n_tasks s !! h) as [t|] eqn:Ht; [|done]. exfalso. apply Hin.
  destruct (no_running s Nk h t Ht) as (live & Hl & Hh). apply list_elem_of_In, in_concat. exists (ll_handles live).
  rewrite Hh. split; [|by left]. rewrite <- Hh. apply in_map_iff. exists (tk_key t, live). split; [done|].
  by apply list_elem_of_In, iter_elem.
Qed.

(** ** What the control socket reports *)

Lemma ascii_compare a b : Ascii.compare a b = N.compare (Ascii.N_of_ascii a) (Ascii.N_of_ascii b).
Proof. done. Qed.
Lemma string_lt_trans a b c : String.compare a b = Lt → String.compare b c = Lt → String.compare a c = Lt.
Proof.
  revert b c. induction a as [|x a IH]; intros [|y b] [|z c]; cbn; try done. rewrite !ascii_compare.
  destruct (N.compare_spec (Ascii.N_of_ascii x) (Ascii.N_of_ascii y)) as [E1|L1|L1],
    (N.compare_spec (Ascii.N_of_ascii y) (Ascii.N_of_ascii z)) as [E2|L2|L2]; try done;
    destruct (N.compare_spec (Ascii.N_of_ascii x) (Ascii.N_of_ascii z)) as [E3|L3|L3]; try done; try lia. by apply IH.
Qed.
Lemma string_compare_refl a : String.compare a a = Eq.
Proof. induction a as [|x a IH]; cbn; [done|]. by rewrite ascii_compare, N.compare_refl. Qed.
(** The order of the rows is that of their keys. *)
Lemma row_le_spec a b :
  row_le a b = true ↔
    String.compare (li_address a) (li_address b) = Lt ∨ li_address a = li_address b ∧
    (li_port a < li_port b ∨ li_port a = li_port b ∧
     (String.compare (li_protocol a) (li_protocol b) = Lt ∨ li_protocol a = li_protocol b)).
Proof.
  unfold row_le, String.leb. destruct (String.compare (li_address a) (li_address b)) eqn:E.
  - apply String.compare_eq_iff in E. destruct (Z.ltb_spec (li_port a) (li_port b)), (Z.ltb_spec (li_port b) (li_port a)); try lia.
    + split; [|done]. auto.
    + split; [done|]. intros [?|[_ [?|[? _]]]]; [done|lia..].
    + destruct (String.compare (li_protocol a) (li_protocol b)) eqn:P.
      * apply String.compare_eq_iff in P. split; [|done]. intros _. right. split; [done|]. right. split; [lia|by right].
      * split; [|done]. intros _. right. split; [done|]. right. split; [lia|by left].
      * split; [done|]. intros [?|[_ [?|[_ [?|X]]]]]; [done|lia|done|]. by rewrite X, string_compare_refl in P.
  - split; [by left|done].
  - split; [done|]. intros [?|[X _]]; [done|]. by rewrite X, string_compare_refl in E.
Qed.
#[local] Instance row_le_trans : Transitive (λ a b, row_le a b = true).
Proof.
  intros a b c. rewrite !row_le_spec.
  intros [A|[-> A]] [B|[<- B]]; [left; by eapply string_lt_trans|by left|by left|].
  right. split; [done|]. destruct A as [A|[-> A]], B as [B|[<- B]]; [left; lia..|]. right. split; [done|].
  destruct A as [A| ->], B as [B| <-]; [left; by eapply string_lt_trans|by left|by left|by right].
Qed.
Lemma row_le_total a b : row_le a b = false → row_le b a = true.
Proof.
  destruct (row_le b a) eqn:E; [done|]. unfold row_le, String.leb in *. rewrite (String.compare_antisym (li_address b)) in E.
  rewrite (String.compare_antisym (li_protocol b)) in E. destruct (String.compare (li_address a) (li_address b)); try done.
  destruct (Z.ltb_spec (li_port a) (li_port b)), (Z.ltb_spec (li_port b) (li_port a)); try done.
  by destruct (String.compare (li_protocol a) (li_protocol b)).
Qed.
Lemma insert_row_perm r l : insert_row r l ≡ₚ r :: l.
Proof. induction l as [|x l IH]; cbn; [done|]. destruct (row_le r x); [done|]. rewrite IH. by constructor. Qed.
Lemma sort_rows_perm l : sort_rows l ≡ₚ l.
Proof. induction l as [|r l IH]; cbn; [done|]. by rewrite insert_row_perm, IH. Qed.
Lemma insert_row_sorted r l :
  StronglySorted (λ a b, row_le a b = true) l → StronglySorted (λ a b, row_le a b = true) (insert_row r l).
Proof.
  induction 1 as [|x l S IH Hx]; cbn; [repeat constructor|]. destruct (row_le r x) eqn:E.
  - constructor; [by constructor|]. constructor; [done|]. eapply Forall_impl; [exact Hx|]. intros y Hy. by apply (row_le_trans r x y).
  - constructor; [done|]. rewrite insert_row_perm. constructor; [by apply row_le_total|done].
Qed.
Lemma sort_rows_sorted l : StronglySorted (λ a b, row_le a b = true) (sort_rows l).
Proof. induction l as [|r l IH]; cbn; [constructor|]. by apply insert_row_sorted. Qed.
End Snapshot.

(** The row of a running task. *)
Definition row_of (show_net : IpNet → string) (s : Net) (t : LTask) (r : ListenerInfo) : Prop :=
  li_address r = IpText.show_ip (k_addr (tk_key t)) ∧ li_port r = k_port (tk_key t) ∧ li_protocol r = k_proto (tk_key t) ∧
  (∀ a, acls (n_cells s) !! tk_acl t = Some a → li_allow_from r = map show_net (Acl.allow a)) ∧
  (∀ x, ctxs (n_cells s) !! tk_ctx t = Some x → li_dns64 r = ctx_dns64 x).
Lemma info_row show_net s k live h t :
  tk_key t = k → tk_acl t = ll_acl live → tk_ctx t = ll_ctx live → n_tasks s !! h = Some t →
  row_of show_net s t (info_of show_net (n_cells s) (k, live)).
Proof.
  intros <- Ea Ec Ht. unfold row_of, info_of. cbn. rewrite Ea, Ec. split_and!; try done; [intros a ->|intros x ->]; done.
Qed.
Lemma row_key_inj show_net s k1 k2 l1 l2 :
  is_ip_addr (k_addr k1) → is_ip_addr (k_addr k2) → n_live s !! k1 = Some l1 → n_live s !! k2 = Some l2 →
  let r1 := info_of show_net (n_cells s) (k1, l1) in let r2 := info_of show_net (n_cells s) (k2, l2) in
  row_le r1 r2 = true → row_le r2 r1 = true → r1 = r2.
Proof.
  intros I1 I2 H1 H2 r1 r2 L1 L2. assert (k1 = k2) as ->; [|unfold r1, r2; congruence].
  apply row_le_spec in L1, L2. subst r1 r2. cbn in L1, L2.
  assert (NoLt : ∀ a b, String.compare a b = Lt → String.compare b a = Lt → False).
  { intros a b A B. pose proof (string_lt_trans _ _ _ A B) as C. by rewrite string_compare_refl in C. }
  destruct L1 as [A|[Ea L1]], L2 as [B|[Eb L2]]; [by edestruct NoLt|..];
    [by rewrite Eb, string_compare_refl in A|by rewrite Ea, string_compare_refl in B|].
  apply IpText.show_ip_inj in Ea; [|done..]. destruct L1 as [?|[Ep L1]], L2 as [?|[Ep2 L2]]; try lia.
  destruct L1 as [A|Et]; [destruct L2 as [B|Et]; [by edestruct NoLt|]|]; destruct k1, k2; cbn in *; congruence.
Qed.
(** The [listeners] command tells the truth and always in the same order: there is a
    row for every running task, with its address, port and protocol and the allow-list
    and DNS64 flag in force for it; no other rows; sorted by address, port and protocol;
    and the rows do not depend on the order in which the listener map is traversed. *)
Theorem listeners_report (show_net : IpNet → string) (iter iter' : ∀ V, gmap ListenerKey V → list (ListenerKey * V)) s :
  (∀ V m, iter V m ≡ₚ map_to_list m) → (∀ V m, iter' V m ≡ₚ map_to_list m) → net_ok s →
  (∀ h t, n_tasks s !! h = Some t → is_ip_addr (k_addr (tk_key t))) →
  let rows := snapshot_listeners show_net iter s in
  snapshot_listeners show_net iter' s = rows ∧ StronglySorted (λ a b, row_le a b = true) rows ∧
  (∀ h t, n_tasks s !! h = Some t → ∃ r, r ∈ rows ∧ row_of show_net s t r) ∧
  (∀ r, r ∈ rows → ∃ h t, n_tasks s !! h = Some t ∧ row_of show_net s t r).
Proof.
  intros P P' Nk Ips rows. unfold rows, snapshot_listeners.
  assert (Mem : ∀ r, r ∈ sort_rows (map (info_of show_net (n_cells s)) (iter _ (n_live s))) ↔
    ∃ k live, n_live s !! k = Some live ∧ r = info_of show_net (n_cells s) (k, live)).
  { intros r. rewrite sort_rows_perm, list_elem_of_fmap. split.
    - intros ([k live] & -> & Hin). rewrite P in Hin. apply elem_of_map_to_list in Hin. eauto.
    - intros (k & live & Hl & ->). exists (k, live). split; [done|]. by rewrite P, elem_of_map_to_list. }
  assert (Row : ∀ k live, n_live s !! k = Some live → ∃ h t, n_tasks s !! h = Some t ∧ tk_key t = k ∧
    row_of show_net s t (info_of show_net (n_cells s) (k, live))).
  { intros k live Hl. destruct (no_listed s Nk k live Hl) as (h & t & _ & Ht & Hk & Ea & Ec). exists h, t.
    split_and!; try done. by eapply info_row. }
  assert (Ip : ∀ k live, n_live s !! k = Some live → is_ip_addr (k_addr k)).
  { intros k live Hl. destruct (Row k live Hl) as (h & t & Ht & <- & _). by eapply Ips. }
  assert (PP : sort_rows (map (info_of show_net (n_cells s)) (iter' _ (n_live s))) ≡ₚ
               sort_rows (map (info_of show_net (n_cells s)) (iter _ (n_live s)))).
  { rewrite !sort_rows_perm. apply Permutation_map. by rewrite P, P'. }
  split_and!; [|apply sort_rows_sorted| |].
  - apply (StronglySorted_unique_strong (λ a b, row_le a b = true)); try apply sort_rows_sorted; [|done].
    intros r1 r2. rewrite PP. intros (k1 & l1 & H1 & ->)%Mem (k2 & l2 & H2 & ->)%Mem. eapply row_key_inj; eauto.
  - intros h t Ht. destruct (task_live s h t Nk Ht) as (live & Hl & Ea & Ec).
    exists (info_of show_net (n_cells s) (tk_key t, live)). split; [apply Mem; eauto|by eapply info_row].
  - intros r (k & live & Hl & ->)%Mem. destruct (Row k live Hl) as (h & t & Ht & _ & Hr). eauto.
Qed.
End Daemon.
Arguments LTask : clear implicits.
Arguments Net : clear implicits.
End Daemon.

(** ** Examples *)
Module DaemonExamples.
Import Config Handler Daemon.

Definition ex_iter (V : Type) (m : gmap ListenerKey V) : list (ListenerKey * V) := map_to_list m.
Definition ex_clock (n : nat) : Z := 200 * Z.of_nat n.
Lemma ex_waits : waits ex_clock.
Proof. split; [done|]. intros n. unfold ex_clock. lia. Qed.
Definition ex_listener (name : string) (d : Z) (protos : list string) (token : option string) : Listener := {|
  lc_name := name; lc_address := V4 [10; 0; 0; d]; lc_port := 53; lc_interface := None; lc_protocols := protos;
  lc_allow_from := []; lc_dns64 := false; lc_max_inflight := None; lc_auth_token := token |}.
Definition ex_config (ls : list Listener) : DnsConfig := {|
  c_block := {| b_enabled := true; b_listeners := ls; b_forwarders := []; b_recursion := None; b_cache := None;
                b_dns64 := None; b_tls := None; b_rate_limit := None; b_sfw := None; b_tcp_workers := None |};
  c_tor_socks := default_tor_socks; c_vrfs := [] |}.
Definition ex_empty : Net unit :=
  {| n_cells := {| acls := ∅; ctxs := ∅; next_cell := 0 |}; n_tasks := ∅; n_next := 0; n_tries := 0; n_live := ∅ |}.
Definition ex_bound (ls : list Listener) : bool * list Pending * Net unit :=
  bind_listener_set_with_retry (λ i _, negb (i =? 1)%nat) (ex_config ls) ex_clock 20000 None ex_empty.
Definition ex_view (s : Net unit) : list (nat * Z * string * option string) :=
  map (λ p, (p.1, match k_addr (tk_key p.2) with V4 a => List.last a 0 | V6 _ => 0 end, k_proto (tk_key p.2),
             ctx_name <$> ctxs (n_cells s) !! tk_ctx p.2)) (map_to_list (n_tasks s)).

(** Two listeners; then one is renamed and loses TCP, the other is replaced. *)
Definition ex_before : list Listener := [ex_listener "lan" 1 ["udp"; "TCP"] None; ex_listener "old" 2 ["udp"] None].
Definition ex_after : list Listener := [ex_listener "lan2" 1 ["udp"; "dot"] None; ex_listener "new" 3 ["tcp"] None].
Lemma ex_one : one_per_socket ex_before ∧ one_per_socket ex_after.
Proof.
  split; intros l1 l2 H1 H2; repeat (apply elem_of_cons in H1 as [->|H1]); try (by apply elem_of_nil in H1);
    repeat (apply elem_of_cons in H2 as [->|H2]); by try (by apply elem_of_nil in H2).
Qed.
Lemma ex_bound_ok : net_ok (ex_bound ex_before).2 ∧ shares (ex_bound ex_before).2.
Proof.
  destruct (ex_bound ex_before) as [[fin left] s] eqn:E. unfold ex_bound in E.
  apply (first_bind ex_iter) in E as (? & ? & _); [done|done|done|apply net_empty|apply ex_one|apply ex_waits|done].
Qed.
Lemma reload_reaches_config_witness :
  ex_view (ex_bound ex_before).2 =
    [(2%nat, 1, "tcp", Some "lan"); (1%nat, 2, "udp", Some "old"); (0%nat, 1, "udp", Some "lan")] ∧
  let r := reload_listeners ex_iter (λ _ _, true) ex_clock (ex_config ex_after) None (ex_bound ex_before).2 in
  ex_view r.2 = [(3%nat, 3, "tcp", Some "new"); (0%nat, 1, "udp", Some "lan2")] ∧ conforms (ex_config ex_after) r.2.
Proof.
  split; [vm_compute; reflexivity|]. cbv zeta. split; [vm_compute; reflexivity|].
  destruct (reload_reaches_config ex_iter (λ _ _, reflexivity _) (λ _ _, true) ex_clock (ex_config ex_after) None
    (ex_bound ex_before).2 (proj1 ex_bound_ok) (proj2 ex_bound_ok) (proj2 ex_one) ex_waits) as (left & s' & R & _ & _ & C & _).
  rewrite R. exact C.
Defined.
(** Entries that split the protocols of one listener share its cells: both tasks read
    the settings of one of them, which one is up to the order of the map. *)
Definition ex_split : list Listener := [ex_listener "open" 1 ["udp"] None; ex_listener "gated" 1 ["tcp"] (Some "token")].
Definition ex_split_reload (iter : ∀ V, gmap ListenerKey V → list (ListenerKey * V)) : Net unit :=
  (reload_listeners iter (λ _ _, true) ex_clock (ex_config ex_split) None (ex_bound ex_before).2).2.
Lemma split_settings_collapse :
  ex_view (ex_split_reload ex_iter) = [(2%nat, 1, "tcp", Some "gated"); (0%nat, 1, "udp", Some "gated")] ∧
  ex_view (ex_split_reload (λ V m, reverse (ex_iter V m))) = [(2%nat, 1, "tcp", Some "open"); (0%nat, 1, "udp", Some "open")].
Proof. split; vm_compute; reflexivity. Qed.
Definition ex_rows (iter : ∀ V, gmap ListenerKey V → list (ListenerKey * V)) : list (string * string * string) :=
  map (λ r, (li_name r, li_address r, li_protocol r)) (snapshot_listeners (λ _, "net") iter (ex_bound ex_before).2).
Lemma listeners_report_witness :
  ex_rows ex_iter = [("lan", "10.0.0.1", "tcp"); ("lan", "10.0.0.1", "udp"); ("old", "10.0.0.2", "udp")] ∧
  snapshot_listeners (λ _, "net") (λ V m, reverse (ex_iter V m)) (ex_bound ex_before).2 =
  snapshot_listeners (λ _, "net") ex_iter (ex_bound ex_before).2.
Proof.
  split; [vm_compute; reflexivity|].
  apply (listeners_report (λ _, "net") ex_iter (λ V m, reverse (ex_iter V m)) (ex_bound ex_before).2).
  - reflexivity.
  - intros V m. apply reverse_Permutation.
  - apply ex_bound_ok.
  - intros h t Ht. assert (A : map_Forall (λ _ t, is_ip_addr (k_addr (tk_key t))) (n_tasks (ex_bound ex_before).2)); [|by apply (A h)].
    clear. vm_compute (n_tasks (ex_bound ex_before).2).
    apply map_Forall_to_list, List.Forall_forall. vm_compute map_to_list.
    intros [h t] [<-|[<-|[<-|[]]]]; (split; [reflexivity|]); repeat constructor; vm_compute; try discriminate; reflexivity.
Defined.
End DaemonExamples.
