(* ===== verification/Process.v ===== *)
(** * The process ([main.rs])

    Start-up with and without service, SIGHUP reload of the whole daemon, the signal
    loop.  What other tasks (queries, the prewarm, the cache) do to the handler in force
    is an event of its own, an arbitrary function of the handler's state. *)
From S2P Require Import Prelude Hickory Reference Net Dns64 Cache TtlCaches Text IpText LocalZones Anchor Dnssec Validator Iterative ClientPolicy Forwarder Handler Service Config Hints Build Tls Daemon.

Module Process.
Import Config Handler Service Sources Build Tls Daemon.

Section Process.
Context `{NameOps} {HK : Hickory} `{IpNets, !Moka, !MapIter, Rrl.Governor, !Base64, !Anchor.Serde}.
(** Rendering of names and networks, the order of map traversal, the YAML parser. *)
Context (display : Name → string) (show_net : IpNet → string)
  (iter : ∀ V, gmap ListenerKey V → list (ListenerKey * V)) (from_yaml : string → result RouterYaml).
(** Certificates and keys ([rustls], PEM and X.509 parsing). *)
Context {Cert Key : Type} (pem_certs : list Z → result (list Cert)) (pem_key : list Z → result Key)
  (accepts : list Cert → Key → bool) (x509 : Cert → option X509).
Abbreviation Sc := (@ServerConfig Cert Key).

(** What a start or a reload meets outside: files, sockets, clock, interfaces. *)
Record World := {
  wo_files : string → result string; wo_tls_files : string → result (list Z); wo_mkdir : result unit;
  wo_hints : option string; wo_env : BuildEnv; wo_up : HWorld;
  wo_v6 : result (list Iface); wo_v4 : result (list Iface);
  wo_binds : nat → ListenerKey → bool; wo_clock : nat → Z }.
Record Args := { a_config : string; a_data_dir : string; a_vrf : option string }.
Definition anchor_dir (args : Args) : string := a_data_dir args +:+ "/anchor".

(** What runs: the handler cell, the listeners, the cells the control socket reads, and
    what [WaitArgs] captured at the start. *)
Record DSt := {
  d_live : LiveHandler Built; d_net : Net Sc; d_forwarders : list Forwarders.ForwarderEntry;
  d_rows : list ListenerInfo; d_tls_info : TlsInfo; d_tls : option Sc;
  d_v6 : option Ipv6Addr; d_v4 : option Ipv4Addr }.
Definition d_cache (d : DSt) : DnsCache.DnsCache := Iterative.rcache (h_it (bu_st (inner (d_live d)))).
Definition with_st (f : HSt → HSt) (bt : Built) : Built := {|
  bu_self := bu_self bt; bu_st := f (bu_st bt); bu_client := bu_client bt; bu_disk := bu_disk bt; bu_refresh := bu_refresh bt |}.
(** [spawn_dnssec_prewarm] up to the spawn of its task. *)
Definition prewarm_spawned (w : World) (bt : Built) : Built :=
  with_st (spawn_dnssec_prewarm (bu_self bt) (wo_up w) (λ _ _ st, st) (λ _, PREWARM_NAMES) 0) bt.
Definition found {A} (r : result (option A)) : option A := match r with Ok x => x | Err _ => None end.
Definition no_net : Net Sc :=
  {| n_cells := {| acls := ∅; ctxs := ∅; next_cell := 0 |}; n_tasks := ∅; n_next := 0; n_tries := 0; n_live := ∅ |}.

(** The second half of [async_main], up to the signal loop: TLS, listeners, what is
    published. *)
Definition bring_up (cfg : DnsConfig) (w : World) (forwarders : list Forwarders.ForwarderEntry)
  (v6 : option Ipv6Addr) (v4 : option Ipv4Addr) (built : Built) : result DSt :=
  let live := live_new (prewarm_spawned w built) in
  setup ← build_tls (wo_tls_files w) pem_certs pem_key accepts x509 (wo_mkdir w) cfg;
  let tls := ts_config <$> setup in
  let info := match setup with Some s => ts_info s | None => default_info end in
  let '(_, _, net) := bind_listener_set_with_retry (wo_binds w) cfg (wo_clock w) 20000 tls no_net in
  Ok {| d_live := live; d_net := net; d_forwarders := forwarders; d_rows := snapshot_listeners show_net iter net;
        d_tls_info := info; d_tls := tls; d_v6 := v6; d_v4 := v4 |}.
Definition start (args : Args) (cfg : DnsConfig) (w : World) : result DSt :=
  let b := c_block cfg in
  let cache := build_cache_from_config b in
  forwarders ← build_forwarders_from_config display b;
  let v6 := if be_kernel (wo_env w) then None else found (discover_v6_source (wo_v6 w)) in
  let v4 := if be_kernel (wo_env w) then None else found (discover_v4_source (wo_v4 w)) in
  built ← from_parts (wo_env w) cfg cache forwarders (wo_hints w) v6 v4 (Some (anchor_dir args));
  bring_up cfg w forwarders v6 v4 built.

Definition publish_forwarders (f : list Forwarders.ForwarderEntry) (d : DSt) : DSt := {|
  d_live := d_live d; d_net := d_net d; d_forwarders := f; d_rows := d_rows d; d_tls_info := d_tls_info d;
  d_tls := d_tls d; d_v6 := d_v6 d; d_v4 := d_v4 d |}.
(** What a reload builds before it touches the running service. *)
Definition rebuilt (args : Args) (w : World) (cfg : DnsConfig) (f : list Forwarders.ForwarderEntry) (d : DSt) : result Built :=
  from_parts (wo_env w) cfg (d_cache d) f (wo_hints w) (d_v6 d) (d_v4 d) (Some (anchor_dir args)).
Definition reload (args : Args) (w : World) (d : DSt) : DSt :=
  match load (wo_files w) from_yaml (a_config args) with
  | Err _ => d
  | Ok cfg =>
      match Forwarders.new display (b_forwarders (c_block cfg)) with
      | Err _ => d
      | Ok f =>
          let d := publish_forwarders f d in
          match rebuilt args w cfg f d with
          | Err _ => d
          | Ok built =>
              let setup := found (build_tls (wo_tls_files w) pem_certs pem_key accepts x509 (wo_mkdir w) cfg) in
              let tls := match setup with Some s => Some (ts_config s) | None => d_tls d end in
              let info := default default_info (ts_info <$> setup) in
              let live := swap (prewarm_spawned w built) (d_live d) in
              let '(_, _, net) := reload_listeners iter (wo_binds w) (wo_clock w) cfg tls (d_net d) in
              {| d_live := live; d_net := net; d_forwarders := f; d_rows := snapshot_listeners show_net iter net;
                 d_tls_info := info; d_tls := d_tls d; d_v6 := d_v6 d; d_v4 := d_v4 d |}
          end
      end
  end.

(** ** Signals *)

Inductive Signal : Type := Hup | Term | Int.
(** A process: with service, control socket only, or gone; [socket]: its socket file is
    still there. *)
Inductive Proc : Type :=
  | Serving (d : DSt)
  | ControlOnly (cache : DnsCache.DnsCache) (forwarders : list Forwarders.ForwarderEntry)
  | Gone (socket : bool) (net : Net Sc).
(** [main] after the arguments; a process whose start fails is gone. *)
Definition run_control_only (cfg : DnsConfig) : result Proc :=
  let cache := build_cache_from_config (c_block cfg) in
  forwarders ← build_forwarders_from_config display (c_block cfg);
  Ok (ControlOnly cache forwarders).
Definition main (args : Args) (w : World) : result Proc :=
  cfg ← load_initial (wo_files w) from_yaml (a_config args) (a_vrf args);
  if negb (b_enabled (c_block cfg)) then run_control_only cfg
  else d ← start args cfg w; Ok (Serving d).
(** Delivery of a signal.  Without service nothing handles SIGHUP, whose default action
    ends the process. *)
Definition deliver (args : Args) (sig : Signal) (w : World) (p : Proc) : Proc :=
  match p, sig with
  | Serving d, Hup => Serving (reload args w d)
  | Serving d, _ => Gone false (shutdown iter (d_net d))
  | ControlOnly _ _, Hup => Gone true no_net
  | ControlOnly _ _, _ => Gone false no_net
  | Gone s n, _ => Gone s n
  end.
(** Events: a signal, with what a reload then meets; other tasks at work on the handler. *)
Inductive Event : Type := Sig (sig : Signal) (w : World) | Work (f : HSt → HSt).
Definition working (f : HSt → HSt) (d : DSt) : DSt := {|
  d_live := {| inner := with_st f (inner (d_live d)) |}; d_net := d_net d; d_forwarders := d_forwarders d; d_rows := d_rows d;
  d_tls_info := d_tls_info d; d_tls := d_tls d; d_v6 := d_v6 d; d_v4 := d_v4 d |}.
Definition event (args : Args) (p : Proc) (e : Event) : Proc :=
  match e, p with
  | Sig sig w, _ => deliver args sig w p
  | Work f, Serving d => Serving (working f d)
  | Work _, _ => p
  end.
Definition run (args : Args) (es : list Event) (p : Proc) : Proc := foldl (event args) p es.

(** ** Reloads that cannot be carried out *)

(** The configuration a reload puts in force, if any. *)
Definition applies (args : Args) (w : World) (d : DSt) : option DnsConfig :=
  match load (wo_files w) from_yaml (a_config args) with
  | Err _ => None
  | Ok cfg =>
      match Forwarders.new display (b_forwarders (c_block cfg)) with
      | Err _ => None
      | Ok f => match rebuilt args w cfg f d with Err _ => None | Ok _ => Some cfg end
      end
  end.
Lemma from_parts_facts env cfg cache f hints v6 v4 dir bt :
  from_parts env cfg cache f hints v6 v4 dir = Ok bt →
  Iterative.rcache (h_it (bu_st bt)) = cache ∧ h_forwarders (bu_self bt) = f.
Proof.
  unfold from_parts. destruct (choose_sources cfg v6 v4) as [s4 s6].
  intros (c & _ & (pol & _ & E)%result_bind_Ok)%result_bind_Ok. destruct (load_anchors _ _) as [anchors disk]. by injection E as <-.
Qed.
Lemma prewarm_spawned_facts w bt :
  bu_self (prewarm_spawned w bt) = bu_self bt ∧ Iterative.rcache (h_it (bu_st (prewarm_spawned w bt))) = Iterative.rcache (h_it (bu_st bt)).
Proof.
  split; [done|]. unfold prewarm_spawned, spawn_dnssec_prewarm. cbn [with_st bu_st]. destruct (h_iterative _); [|done].
  by destruct (negb _).
Qed.
(** A reload that applies. *)
Lemma reload_applies args w d cfg :
  applies args w d = Some cfg →
  ∃ f bt tls left fin net, load (wo_files w) from_yaml (a_config args) = Ok cfg ∧ Forwarders.new display (b_forwarders (c_block cfg)) = Ok f ∧
    rebuilt args w cfg f d = Ok bt ∧ reload_listeners iter (wo_binds w) (wo_clock w) cfg tls (d_net d) = (fin, left, net) ∧
    d_live (reload args w d) = {| inner := prewarm_spawned w bt |} ∧ d_net (reload args w d) = net ∧
    d_forwarders (reload args w d) = f ∧ d_rows (reload args w d) = snapshot_listeners show_net iter net.
Proof.
  unfold applies, reload. destruct (load _ _ _) as [c|] eqn:L; [|done]. destruct (Forwarders.new _ _) as [f|] eqn:F; [|done].
  change (rebuilt args w c f (publish_forwarders f d)) with (rebuilt args w c f d).
  destruct (rebuilt args w c f d) as [bt|] eqn:B; [|done]. intros [= <-].
  set (tls := match found _ with Some _ => _ | None => _ end).
  destruct (reload_listeners iter (wo_binds w) (wo_clock w) c tls (d_net d)) as [[fin left] net] eqn:R.
  exists f, bt, tls, left, fin, net. cbn [d_net publish_forwarders]. rewrite R. done.
Qed.

(** C26. A reload never loses what works.  The response cache is the same before and after,
    whatever the outcome.  When the new configuration cannot be read, its forwarders are
    invalid or the resolver cannot be built from it, the handler in force, the listeners,
    the reported bindings and the TLS state stay as they are; only the reported
    forwarder table may differ, and then the forwarders were valid and the build
    failed. *)
Theorem reload_keeps_service args w d :
  let d' := reload args w d in
  d_cache d' = d_cache d ∧
  (applies args w d = None →
     d_live d' = d_live d ∧ d_net d' = d_net d ∧ d_rows d' = d_rows d ∧ d_tls_info d' = d_tls_info d ∧ d_tls d' = d_tls d ∧
     (d_forwarders d' = d_forwarders d ∨
      ∃ cfg f e, load (wo_files w) from_yaml (a_config args) = Ok cfg ∧ Forwarders.new display (b_forwarders (c_block cfg)) = Ok f ∧
        rebuilt args w cfg f d = Err e ∧ d_forwarders d' = f)).
Proof.
  destruct (applies args w d) as [cfg|] eqn:A; cbv zeta.
  - split; [|done]. destruct (reload_applies _ _ _ _ A) as (f & bt & tls & left & fin & net & _ & _ & B & _ & E & _).
    unfold d_cache at 1. rewrite E. cbn [inner]. rewrite (proj2 (prewarm_spawned_facts w bt)). by apply from_parts_facts in B as [-> _].
  - unfold applies in A. unfold reload. destruct (load _ _ _) as [c|] eqn:L; [|by split; [|intros _; split_and!; auto]].
    destruct (Forwarders.new _ _) as [f|] eqn:F; [|by split; [|intros _; split_and!; auto]].
    change (rebuilt args w c f (publish_forwarders f d)) with (rebuilt args w c f d).
    destruct (rebuilt args w c f d) as [bt|e] eqn:B; [done|]. split_and!; try done. intros _. split_and!; try done.
    right. by exists c, f, e.
Qed.

(** ** The service follows the configuration *)

(** The configuration in force after the events. *)
Fixpoint in_force (args : Args) (es : list Event) (c : DnsConfig) (d : DSt) : DnsConfig :=
  match es with
  | [] => c
  | Sig Hup w :: es' => in_force args es' (default c (applies args w d)) (reload args w d)
  | Sig _ _ :: _ => c
  | Work f :: es' => in_force args es' c (working f d)
  end.
(** The handler was built from the configuration. *)
Definition built_from (c : DnsConfig) (self : HConfig) : Prop :=
  ∃ env cache f hints v6 v4 dir bt, Forwarders.new display (b_forwarders (c_block c)) = Ok f ∧
    from_parts env c cache f hints v6 v4 dir = Ok bt ∧ self = bu_self bt.
Record follows (c : DnsConfig) (d : DSt) : Prop := {
  fo_ok : net_ok (d_net d); fo_shares : shares (d_net d); fo_conforms : conforms c (d_net d);
  fo_rows : d_rows d = snapshot_listeners show_net iter (d_net d); fo_built : built_from c (bu_self (inner (d_live d))) }.
Definition fair_world (args : Args) (w : World) : Prop :=
  waits (wo_clock w) ∧
  ∀ cfg, load (wo_files w) from_yaml (a_config args) = Ok cfg → one_per_socket (b_listeners (c_block cfg)).

Hypothesis iter_perm : ∀ V (m : gmap ListenerKey V), iter V m ≡ₚ map_to_list m.

Lemma reload_follows args w c d :
  fair_world args w → follows c d → follows (default c (applies args w d)) (reload args w d).
Proof.
  intros [W One] [F1 F2 F3 F4 F5]. destruct (applies args w d) as [cfg|] eqn:A; cbn [default].
  - destruct (reload_applies _ _ _ _ A) as (f & bt & tls & left & fin & net & L & Fw & B & R & El & En & _ & Er).
    destruct (reload_core iter iter_perm (wo_binds w) (wo_clock w) cfg tls (d_net d) F1 F2 (One _ L) W)
      as (left' & net' & R' & Nk & Sh & Now & _). rewrite R in R'. injection R' as -> <- <-.
    split; rewrite ?El, ?En, ?Er; try done; [by apply conforms_live|]. cbn [inner]. by exists (wo_env w), (d_cache d), f, (wo_hints w), (d_v6 d), (d_v4 d), (Some (anchor_dir args)), bt.
  - assert (E : d_live (reload args w d) = d_live d ∧ d_net (reload args w d) = d_net d ∧ d_rows (reload args w d) = d_rows d).
    { unfold applies in A. unfold reload. destruct (load _ _ _) as [c'|]; [|done]. destruct (Forwarders.new _ _) as [f|]; [|done].
      change (rebuilt args w c' f (publish_forwarders f d)) with (rebuilt args w c' f d). by destruct (rebuilt args w c' f d). }
    destruct E as (E1 & E2 & E3). split; rewrite ?E1, ?E2, ?E3; done.
Qed.
Lemma start_follows args cfg w d :
  waits (wo_clock w) → one_per_socket (b_listeners (c_block cfg)) → start args cfg w = Ok d → follows cfg d.
Proof.
  intros W One. unfold start, bring_up. intros (f & F & (bt & B & (setup & _ & E)%result_bind_Ok)%result_bind_Ok)%result_bind_Ok.
  destruct (bind_listener_set_with_retry _ cfg _ 20000 _ no_net) as [[fin left] net] eqn:N. injection E as <-.
  apply (first_bind iter iter_perm) in N as (Nk & Sh & Cf); [|done|by apply net_empty|done..].
  split; try done. unfold built_from. cbn [d_live live_new inner].
  eexists _, _, f, _, _, _, _, bt. split_and!; [exact F|exact B|done].
Qed.
Definition fair_event (args : Args) (e : Event) : Prop :=
  match e with Sig _ w => fair_world args w | Work _ => True end.
Lemma run_gone args es s n : run args es (Gone s n) = Gone s n.
Proof. unfold run. induction es as [|[sig w|f] es IH]; cbn; done. Qed.
Lemma run_follows args es c d d' :
  Forall (fair_event args) es → follows c d → run args es (Serving d) = Serving d' → follows (in_force args es c d) d'.
Proof.
  revert c d. induction es as [|e es IH]; intros c d Hf Fo; [by intros [= <-]|].
  apply Forall_cons in Hf as [He Hf]. cbn [run foldl event in_force].
  destruct e as [[| |] w|f].
  - apply (IH _ _ Hf). by apply reload_follows.
  - change (run args es (Gone false (shutdown iter (d_net d))) = Serving d' → follows c d'). by rewrite run_gone.
  - change (run args es (Gone false (shutdown iter (d_net d))) = Serving d' → follows c d'). by rewrite run_gone.
  - apply (IH _ _ Hf). by destruct Fo.
Qed.

(** C11. Say that in the configuration at start and in every one a reload reads, entries of one
    address and port agree on allow-list and context (otherwise see
    [split_settings_collapse]), and that the clock goes on while a bind is
    retried.  Then whatever happens while the daemon serves (reloads that apply or fail, work of
    other tasks on the handler), the handler and the listeners belong to one
    configuration, the last one that could be applied: the handler was built from it,
    every running task serves an entry of it with that entry's allow-list and context,
    and the reported bindings are those of the running listeners.  SIGTERM or SIGINT
    then stops every listener and removes the control socket. *)
Theorem service_follows_config args cfg w es d d' :
  fair_world args w → one_per_socket (b_listeners (c_block cfg)) → Forall (fair_event args) es →
  start args cfg w = Ok d → run args es (Serving d) = Serving d' →
  let c := in_force args es cfg d in
  net_ok (d_net d') ∧ conforms c (d_net d') ∧ built_from c (bu_self (inner (d_live d'))) ∧
  d_rows d' = snapshot_listeners show_net iter (d_net d') ∧
  ∀ sig w', sig ≠ Hup → ∃ net, deliver args sig w' (Serving d') = Gone false net ∧ n_tasks net = ∅.
Proof.
  intros [W _] One Hf S R. destruct (run_follows args es cfg d d' Hf (start_follows _ _ _ _ W One S) R) as [Nk Sh Cf Ro Bu].
  split_and!; try done. intros sig w' Hs. exists (shutdown iter (d_net d')). split; [by destruct sig|].
  by apply (shutdown_stops iter iter_perm).
Qed.
(** Without service a SIGHUP ends the process and leaves its socket file behind. *)
Lemma control_only_hup args w cache f : deliver args Hup w (ControlOnly cache f) = Gone true no_net.
Proof. done. Qed.
End Process.
End Process.

(** ** Examples *)
Module ProcessExamples.
Import Config Handler HandlerExamples Service Sources Build Tls Daemon DaemonExamples Process.
#[local] Existing Instances HandlerExamples.ExMoka HandlerExamples.ExGovernor.
#[local] Instance ExHickory : Hickory := ex_hickory 4.

(** The file's text names the configuration; [socks]: the upstream sockets bind. *)
Definition ex_yaml (text : string) : result RouterYaml :=
  if String.eqb text "before" then Ok {| y_vrfs := []; y_dns := Some (ex_config ex_before) |}
  else if String.eqb text "after" then Ok {| y_vrfs := []; y_dns := Some (ex_config ex_after) |}
  else Err "yaml".
Definition ex_world (text : string) (socks : bool) : World := {|
  wo_files := λ _, Ok text; wo_tls_files := λ _, Err "io"; wo_mkdir := Ok (); wo_hints := None;
  wo_env := {| be_kernel := true; be_port := λ i, 40000 + Z.of_nat i; be_binds := λ _ _, socks; be_workers := 1;
    be_disk := λ _, {| Anchor.state_text := None; Anchor.anchor_text := None |}; be_read_ok := true; be_now := 0;
    be_state_ok := true; be_anchor_ok := true; be_nesting := 2 |};
  wo_up := ex_hworld; wo_v6 := Err "no VPP"; wo_v4 := Err "no VPP"; wo_binds := λ _ _, true; wo_clock := ex_clock |}.
Definition ex_args : Args := {| a_config := "router.yaml"; a_data_dir := "/data"; a_vrf := None |}.
Definition ex_certs (_ : list Z) : result (list unit) := Err "pem".
Definition ex_key (_ : list Z) : result unit := Err "pem".
Definition ex_x509 (_ : unit) : option X509 := None.
Definition ex_start : result DSt :=
  start (λ _, "") (λ _, "net") ex_iter ex_certs ex_key (λ _ _, true) ex_x509 ex_args (ex_config ex_before) (ex_world "before" true).
Definition ex_events : list Event :=
  [Work (λ st, st); Sig Hup (ex_world "garbage" true); Sig Hup (ex_world "after" false); Sig Hup (ex_world "after" true)].
Definition ex_run (n : nat) (d : DSt) : Proc :=
  run (λ _, "") (λ _, "net") ex_iter ex_yaml ex_certs ex_key (λ _ _, true) ex_x509 ex_args (take n ex_events) (Serving d).
Definition ex_names (p : Proc (Cert := unit) (Key := unit)) : list string :=
  match p with Serving d => map li_name (d_rows d) | _ => [] end.
Lemma ex_fair text socks : fair_world ex_yaml ex_args (ex_world text socks).
Proof.
  split; [apply ex_waits|]. intros cfg. unfold load, read_router, ex_yaml. cbn.
  destruct (String.eqb text "before"); [intros [= <-]; apply ex_one|].
  destruct (String.eqb text "after"); [intros [= <-]; apply ex_one|done].
Qed.
Lemma service_follows_config_witness :
  (λ d, map (λ n, ex_names (ex_run n d)) [0; 2; 3; 4]%nat) <$> ex_start =
  Ok [["lan"; "lan"; "old"]; ["lan"; "lan"; "old"]; ["lan"; "lan"; "old"]; ["lan2"; "new"]] ∧
  ∃ d d', ex_start = Ok d ∧ ex_run 4 d = Serving d' ∧ conforms (ex_config ex_after) (d_net d').
Proof.
  split; [vm_compute; reflexivity|].
  assert (S : res_ok ((λ d, match ex_run 4 d with Serving _ => true | _ => false end) <$> ex_start) = Some true)
    by (vm_compute; reflexivity).
  destruct ex_start as [d|e] eqn:E; [|discriminate S]. cbn [fmap result_fmap res_ok] in S.
  destruct (ex_run 4 d) as [d'| |] eqn:R; [|discriminate S..]. exists d, d'. split; [done|]. split; [done|].
  destruct (service_follows_config (λ _, "") (λ _, "net") ex_iter ex_yaml ex_certs ex_key (λ _ _, true) ex_x509
    (λ _ _, reflexivity _) ex_args (ex_config ex_before) (ex_world "before" true) ex_events d d'
    (ex_fair "before" true) (proj1 ex_one)) as (_ & C & _); [|exact E|exact R|].
  - repeat apply List.Forall_cons; try apply List.Forall_nil; first [exact I|apply ex_fair].
  - assert (F : res_ok ((λ d, in_force (λ _, "") (λ _, "net") ex_iter ex_yaml ex_certs ex_key (λ _ _, true) ex_x509 ex_args ex_events
      (ex_config ex_before) d) <$> ex_start) = Some (ex_config ex_after)) by (vm_compute; reflexivity).
    rewrite E in F. cbn [fmap result_fmap res_ok] in F. apply (inj Some) in F. rewrite F in C. exact C.
Defined.
(** The third event: the resolver cannot be built, the listeners stay. *)
Lemma reload_keeps_service_witness :
  ∃ d, ex_start = Ok d ∧
    let d' := reload (λ _, "") (λ _, "net") ex_iter ex_yaml ex_certs ex_key (λ _ _, true) ex_x509 ex_args (ex_world "after" false) d in
    applies (λ _, "") ex_yaml ex_args (ex_world "after" false) d = None ∧ d_net d' = d_net d ∧ d_cache d' = d_cache d.
Proof.
  assert (S : res_ok ((λ d, applies (λ _, "") ex_yaml ex_args (ex_world "after" false) d) <$> ex_start) = Some None)
    by (vm_compute; reflexivity).
  destruct ex_start as [d|e]; [|discriminate S]. cbn [fmap result_fmap res_ok] in S. apply (inj Some) in S. exists d. split; [done|]. cbv zeta.
  destruct (reload_keeps_service (λ _, "") (λ _, "net") ex_iter ex_yaml ex_certs ex_key (λ _ _, true) ex_x509 ex_args
    (ex_world "after" false) d) as [C K]. destruct (K S) as (_ & N & _). split; [exact S|]. split; [exact N|exact C].
Defined.

(** The instance of VRF [red], and the default instance, in one file. *)
Definition ex_vrf_yaml (text : string) : result RouterYaml :=
  Ok {| y_vrfs := [{| vy_name := "red"; vy_table_id_v4 := 1; vy_table_id_v6 := 1; vy_description := None |}];
        y_dns := Some {| c_block := c_block (ex_config ex_before); c_tor_socks := default_tor_socks;
                         c_vrfs := [{| v_name := "red"; v_block := c_block (ex_config ex_after) |}] |} |}.
Definition ex_vrf_args : Args := {| a_config := "router.yaml"; a_data_dir := "/data"; a_vrf := Some "red" |}.
Definition ex_vrf_run (es : list Event) : result (list string) :=
  p ← main (λ _, "") (λ _, "net") ex_iter ex_vrf_yaml ex_certs ex_key (λ _ _, true) ex_x509 ex_vrf_args (ex_world "" true);
  Ok (ex_names (run (λ _, "") (λ _, "net") ex_iter ex_vrf_yaml ex_certs ex_key (λ _ _, true) ex_x509 ex_vrf_args es p)).
(** A SIGHUP turns the VRF's instance into the default one. *)
Lemma reload_forgets_vrf :
  ex_vrf_run [] = Ok ["lan2"; "new"] ∧ ex_vrf_run [Sig Hup (ex_world "" true)] = Ok ["lan"; "lan"; "old"].
Proof. split; vm_compute; reflexivity. Qed.
End ProcessExamples.
