(* ===== verification/Control.v ===== *)
(** * The control socket ([control.rs], [metrics.rs])

    Line-delimited JSON over a stream: the server's loop over the bytes of a connection,
    the commands, and the client of [dnsd query].  [serde_json] is a parameter.  SIGHUP
    is asynchronous: a [reload] request leaves one pending for the signal loop when the
    daemon serves; without service nothing handles it. *)
From Stdlib Require Import Ascii.
From stdpp Require Import pretty.
From S2P Require Import Prelude Hickory Reference Net Dns64 Cache TtlCaches Text IpText LocalZones Anchor Dnssec Validator Iterative ClientPolicy Forwarder Handler Http Service Config Hints Build Tls Daemon Process.

Module Control.
Import Config Handler Service Sources Build Tls Daemon Process.

(** ** Counters ([metrics.rs]) *)

Record Metrics := {
  queries_udp : Z; queries_tcp : Z; queries_dot : Z; queries_doh : Z; cache_hits : Z; cache_misses : Z;
  forwarder_matched : Z; recursion_walked : Z; rrl_dropped : Z; acl_denied : Z; dns64_synthesised : Z;
  dnssec_validated : Z; dnssec_failed : Z; udp_inflight_shed : Z }.
Record MetricsSnapshot := {
  ms_queries_udp : Z; ms_queries_tcp : Z; ms_queries_dot : Z; ms_queries_doh : Z; ms_cache_hits : Z; ms_cache_misses : Z;
  ms_forwarder_matched : Z; ms_recursion_walked : Z; ms_rrl_dropped : Z; ms_acl_denied : Z; ms_dns64_synthesised : Z;
  ms_dnssec_validated : Z; ms_dnssec_failed : Z; ms_udp_inflight_shed : Z }.
Definition snapshot (m : Metrics) : MetricsSnapshot := {|
  ms_queries_udp := queries_udp m; ms_queries_tcp := queries_tcp m; ms_queries_dot := queries_dot m;
  ms_queries_doh := queries_doh m; ms_cache_hits := cache_hits m; ms_cache_misses := cache_misses m;
  ms_forwarder_matched := forwarder_matched m; ms_recursion_walked := recursion_walked m; ms_rrl_dropped := rrl_dropped m;
  ms_acl_denied := acl_denied m; ms_dns64_synthesised := dns64_synthesised m; ms_dnssec_validated := dnssec_validated m;
  ms_dnssec_failed := dnssec_failed m; ms_udp_inflight_shed := udp_inflight_shed m |}.

(** ** Requests and responses *)

Inductive ControlRequest : Type :=
| RStats
| RCache (op name rrtype : option string)
| RForwarders
| RListeners
| RTls
| RReload
| RUpstream (name : string).
Record CacheDumpEntry := { cd_name : string; cd_rtype : string; cd_class : string; cd_ttl : Z; cd_size : nat }.
Record ForwarderInfo := { fi_domain : string; fi_servers : list string }.
Inductive ControlResponse : Type :=
| Stats (m : MetricsSnapshot)
| CacheStats (entries : Z)
| CacheDump (entries : list CacheDumpEntry)
| ForwardersInfo (forwarders : list ForwarderInfo)
| ListenersInfo (listeners : list ListenerInfo)
| TlsState (t : TlsInfo)
| Done (message : string)
| Trace (steps : list string)
| Error (error : string).

(** [str::contains]. *)
Fixpoint str_contains (s needle : string) : bool :=
  String.prefix needle s || match s with "" => false | String _ s' => str_contains s' needle end.

Section Control.
Context `{NameOps} {HK : Hickory} `{IpNets, !Moka, !MapIter, Rrl.Governor, !Base64, !Anchor.Serde} {Cert Key : Type}.
(** [Display] of names, types and classes, [Debug] of strings,
    [to_lowercase] and [to_uppercase], and the order in which the cache is walked. *)
Context (display : Name → string) (show_type : RecordType → string) (show_class : DNSClass → string)
  (debug : string → string) (lower upper : string → string)
  (citer : gmap CacheKey (Z * nat) → list (CacheKey * (Z * nat))).

Abbreviation CProc := (Proc (Cert := Cert) (Key := Key)).
(** What the socket sees: the process, the counters, and a SIGHUP waiting to be taken by
    the signal loop. *)
Record CSt := { c_proc : CProc; c_metrics : Metrics; c_hup : bool }.
(** No answer comes from a process that is gone. *)
Inductive Outcome : Type := Replied (r : ControlResponse) | Died.
Definition set_proc (p : CProc) (s : CSt) : CSt := {| c_proc := p; c_metrics := c_metrics s; c_hup := c_hup s |}.

Definition cache_of (p : CProc) : DnsCache.DnsCache :=
  match p with Serving d => d_cache d | ControlOnly c _ => c | Gone _ _ => DnsCache.new 0 0 0 0 0 end.
Definition flushed (st : HSt) : HSt :=
  set_it {| Iterative.rcache := DnsCache.flush (Iterative.rcache (h_it st)); Iterative.delegations := Iterative.delegations (h_it st);
            Iterative.roots := Iterative.roots (h_it st); Iterative.itick := Iterative.itick (h_it st);
            Iterative.sent := Iterative.sent (h_it st) |} st.
Definition flush_cache (p : CProc) : CProc :=
  match p with
  | Serving d => Serving (working flushed d)
  | ControlOnly c f => ControlOnly (DnsCache.flush c) f
  | Gone s n => Gone s n
  end.
Definition dump_entries (now : Z) (c : DnsCache.DnsCache) : list CacheDumpEntry :=
  map (λ '(k, (ttl, size)), {| cd_name := display (k_name k); cd_rtype := show_type (k_rtype k);
    cd_class := show_class (k_class k); cd_ttl := ttl; cd_size := size |}) (citer (DnsCache.dump now c)).
Definition name_filter (n : string) (e : CacheDumpEntry) : bool := str_contains (lower (cd_name e)) (lower n).
Definition rtype_filter (t : string) (e : CacheDumpEntry) : bool := same_ascii (cd_rtype e) (upper t).
Definition forwarder_info (e : Forwarders.ForwarderEntry) : ForwarderInfo := {|
  fi_domain := display (Forwarders.e_domain e);
  fi_servers := map (λ s, IpText.show_ip (ForwarderCfg.address s)) (Forwarders.e_servers e) |}.
Definition forwarders_of (p : CProc) : list Forwarders.ForwarderEntry :=
  match p with Serving d => d_forwarders d | ControlOnly _ f => f | Gone _ _ => [] end.
Definition rows_of (p : CProc) : list ListenerInfo := match p with Serving d => d_rows d | _ => [] end.
Definition tls_of (p : CProc) : TlsInfo := match p with Serving d => d_tls_info d | _ => default_info end.

(** [rc] is what [kill] returns. *)
Definition dispatch (now rc : Z) (req : ControlRequest) (s : CSt) : Outcome * CSt :=
  match req with
  | RStats => (Replied (Stats (snapshot (c_metrics s))), s)
  | RCache op name rrtype =>
      let op := default "stats" op in
      if String.eqb op "stats" then (Replied (CacheStats (DnsCache.entry_count (cache_of (c_proc s)))), s)
      else if String.eqb op "flush" then (Replied (Done "cache flushed"), set_proc (flush_cache (c_proc s)) s)
      else if String.eqb op "dump" then
        let entries := dump_entries now (cache_of (c_proc s)) in
        let entries := match name with Some n => List.filter (name_filter n) entries | None => entries end in
        let entries := match rrtype with Some t => List.filter (rtype_filter t) entries | None => entries end in
        (Replied (CacheDump entries), s)
      else (Replied (Error ("unknown cache op " +:+ debug op +:+ " (want stats|flush|dump)")), s)
  | RForwarders => (Replied (ForwardersInfo (map forwarder_info (forwarders_of (c_proc s)))), s)
  | RListeners => (Replied (ListenersInfo (rows_of (c_proc s))), s)
  | RTls => (Replied (TlsState (tls_of (c_proc s))), s)
  | RReload =>
      if rc =? 0 then
        match c_proc s with
        | Serving _ => (Replied (Done "reload signal sent (SIGHUP to self)"),
                        {| c_proc := c_proc s; c_metrics := c_metrics s; c_hup := true |})
        | _ => (Died, set_proc (Gone true no_net) s)
        end
      else (Replied (Error ("kill(SIGHUP) failed: rc=" +:+ pretty rc)), s)
  | RUpstream name =>
      (Replied (Trace ["per-query resolution tracing for " +:+ debug name +:+
        " is a follow-up — it requires instrumenting the forwarder/recursor path to capture timings + server choices without affecting the hot path"]), s)
  end.

(** ** What the commands do *)

(** The parts of the process no control command changes. *)
Definition same_service (p p' : CProc) : Prop :=
  rows_of p' = rows_of p ∧ forwarders_of p' = forwarders_of p ∧ tls_of p' = tls_of p ∧
  match p with
  | Serving d => ∃ d', p' = Serving d' ∧ d_net d' = d_net d ∧ bu_self (inner (d_live d')) = bu_self (inner (d_live d)) ∧
      h_ready (bu_st (inner (d_live d'))) = h_ready (bu_st (inner (d_live d))) ∧
      h_anchors (bu_st (inner (d_live d'))) = h_anchors (bu_st (inner (d_live d)))
  | ControlOnly _ f => ∃ c, p' = ControlOnly c f
  | Gone b n => p' = Gone b n
  end.
(** What a command may do to the daemon. *)
Definition effect (rc : Z) (req : ControlRequest) (o : Outcome) (s s' : CSt) : Prop :=
  match req with
  | RCache (Some op) _ _ =>
      if String.eqb op "flush" then
        DnsCache.entry_count (cache_of (c_proc s')) = 0 ∧ same_service (c_proc s) (c_proc s') ∧
        c_metrics s' = c_metrics s ∧ c_hup s' = c_hup s
      else s' = s
  | RReload =>
      if rc =? 0 then
        c_metrics s' = c_metrics s ∧
        match c_proc s with
        | Serving d => c_proc s' = Serving d ∧ c_hup s' = true ∧ o ≠ Died
        | _ => c_proc s' = Gone true no_net ∧ o = Died
        end
      else s' = s
  | _ => s' = s
  end.
(** What operators can do over the socket: every command but [cache flush] and
    [reload] leaves the daemon exactly as it is; a flush empties the response cache and
    leaves listeners, forwarders, TLS state and the handler's configuration, readiness and
    anchors alone; [reload] leaves a SIGHUP for the signal loop of a serving daemon, but
    it ends a daemon that runs without service, which leaves its socket file behind. *)
Theorem control_effects now rc req s :
  let '(o, s') := dispatch now rc req s in effect rc req o s s'.
Proof.
  unfold effect.
  destruct req as [|[op|] name rrtype| | | | |name]; cbn [dispatch default]; unfold Datatypes.id; try done.
  - destruct (String.eqb_spec op "flush") as [->|Hf].
    + assert (F : ∀ c, DnsCache.entry_count (DnsCache.flush c) = 0).
      { intros c. unfold DnsCache.entry_count, DnsCache.flush, DnsCache.set_inner. cbn [DnsCache.inner]. by rewrite map_size_empty. }
      cbn [String.eqb set_proc c_proc c_metrics c_hup]. split; [|split; [|done]].
      * destruct (c_proc s) as [d|c f|b n]; [apply F|apply F|]. apply (F (DnsCache.new 0 0 0 0 0)).
      * unfold same_service. destruct (c_proc s) as [d|c f|b n]; cbn; (split_and!; [done..|]); [|by eexists|done].
        eexists. by split_and!.
    + destruct (String.eqb op "stats"); [done|]. by destruct (String.eqb op "dump").
  - destruct (rc =? 0); [|done]. by destruct (c_proc s).
Qed.
Hypothesis citer_perm : ∀ m, citer m ≡ₚ map_to_list m.
(** [cache dump] shows exactly the live entries that match: a row for every entry
    with at least a second to live whose name contains the given text without regard
    to case and whose type is the given one, with its remaining seconds and size, and no
    other rows; and asking changes nothing. *)
Theorem cache_dump_exact now rc name rrtype s :
  ∃ es, dispatch now rc (RCache (Some "dump") name rrtype) s = (Replied (CacheDump es), s) ∧
  ∀ e, e ∈ es ↔ ∃ k ent,
    DnsCache.inner (cache_of (c_proc s)) !! k = Some ent ∧
    as_secs (saturating_sub (e_expires ent) now) ≠ 0 ∧
    e = {| cd_name := display (k_name k); cd_rtype := show_type (k_rtype k); cd_class := show_class (k_class k);
           cd_ttl := as_secs (saturating_sub (e_expires ent) now); cd_size := length (e_bytes ent) |} ∧
    (∀ n, name = Some n → str_contains (lower (display (k_name k))) (lower n) = true) ∧
    (∀ t, rrtype = Some t → same_ascii (show_type (k_rtype k)) (upper t) = true).
Proof.
  eexists. split; [reflexivity|]. intros e.
  assert (D : e ∈ dump_entries now (cache_of (c_proc s)) ↔ ∃ k ent,
    DnsCache.inner (cache_of (c_proc s)) !! k = Some ent ∧ as_secs (saturating_sub (e_expires ent) now) ≠ 0 ∧
    e = {| cd_name := display (k_name k); cd_rtype := show_type (k_rtype k); cd_class := show_class (k_class k);
           cd_ttl := as_secs (saturating_sub (e_expires ent) now); cd_size := length (e_bytes ent) |}).
  { unfold dump_entries. rewrite list_elem_of_fmap. split.
    - intros ([k [ttl size]] & -> & Hin). rewrite citer_perm in Hin. apply elem_of_map_to_list in Hin.
      unfold DnsCache.dump in Hin. rewrite lookup_omap in Hin. destruct (DnsCache.inner _ !! k) as [ent|] eqn:L; [|done]. cbn in Hin.
      destruct (Z.eqb_spec (as_secs (saturating_sub (e_expires ent) now)) 0); [done|]. injection Hin as <- <-. by exists k, ent.
    - intros (k & ent & L & Hs & ->). exists (k, (as_secs (saturating_sub (e_expires ent) now), length (e_bytes ent))).
      split; [done|]. rewrite citer_perm, elem_of_map_to_list. unfold DnsCache.dump. rewrite lookup_omap, L. cbn.
      by destruct (Z.eqb_spec (as_secs (saturating_sub (e_expires ent) now)) 0). }
  assert (F : ∀ (f : CacheDumpEntry → bool) es, e ∈ List.filter f es ↔ e ∈ es ∧ f e = true).
  { intros f es. rewrite !list_elem_of_In. apply filter_In. }
  assert (R : e ∈ match rrtype with
      | Some t => List.filter (rtype_filter t) match name with
          | Some n => List.filter (name_filter n) (dump_entries now (cache_of (c_proc s))) | None => dump_entries now (cache_of (c_proc s)) end
      | None => match name with
          | Some n => List.filter (name_filter n) (dump_entries now (cache_of (c_proc s))) | None => dump_entries now (cache_of (c_proc s)) end
      end ↔ e ∈ dump_entries now (cache_of (c_proc s)) ∧
        (∀ n, name = Some n → name_filter n e = true) ∧ (∀ t, rrtype = Some t → rtype_filter t e = true))
    by (destruct rrtype, name; rewrite ?F; naive_solver).
  rewrite R, D. split.
  - intros ((k & ent & L & Hs & ->) & Hn & Ht). by exists k, ent.
  - intros (k & ent & L & Hs & -> & Hn & Ht). split; [by exists k, ent|done].
Qed.

(** ** Connections *)

Definition QUOTE : string := String (ascii_of_nat 34) "".
Definition NL : string := String (ascii_of_nat 10) "".
(** Up to and with the newline, or up to the end. *)
Fixpoint read_line (s : string) : string * string :=
  match s with
  | "" => ("", "")
  | String c s' => if is_newline c then (String c "", s') else let '(l, r) := read_line s' in (String c l, r)
  end.

(** [serde_json]; the clock, what [kill] returns and which writes succeed, by request. *)
Context (from_req : string → result ControlRequest) (to_resp : ControlResponse → result string)
  (to_req : ControlRequest → result string) (from_resp : string → result ControlResponse)
  (now rc : nat → Z) (write_ok : nat → bool).
Definition encode_error (e : string) : string :=
  "{" +:+ QUOTE +:+ "type" +:+ QUOTE +:+ ":" +:+ QUOTE +:+ "error" +:+ QUOTE +:+ "," +:+ QUOTE +:+ "error" +:+ QUOTE +:+ ":" +:+
  QUOTE +:+ "encode: " +:+ e +:+ QUOTE +:+ "}".
Definition answer (i : nat) (text : string) (s : CSt) : Outcome * CSt :=
  match from_req text with
  | Ok req => dispatch (now i) (rc i) req s
  | Err e => (Replied (Error ("bad request: " +:+ e)), s)
  end.
Definition render (r : ControlResponse) : string :=
  match to_resp r with Ok j => j | Err e => encode_error e end +:+ NL.
(** The lines written, and the state left. *)
Fixpoint handle_conn (fuel i : nat) (input : string) (s : CSt) : list string * CSt :=
  match fuel with
  | O => ([], s)
  | S fuel' =>
      let '(line, rest) := read_line input in
      if String.eqb line "" then ([], s)
      else if negb (Http.utf8_valid (bytes_of_string line)) then ([], s)
      else
        let trimmed := RootHints.str_trim line in
        if String.eqb trimmed "" then handle_conn fuel' i rest s
        else
          match answer i trimmed s with
          | (Died, s) => ([], s)
          | (Replied r, s) =>
              if write_ok i then let '(outs, s) := handle_conn fuel' (S i) rest s in (render r :: outs, s) else ([], s)
          end
  end.
(** A read takes at least one byte, but at the end. *)
Definition conn_fuel (input : string) : nat := S (String.length input).
(** [send_request], against the server. *)
Definition send_request (req : ControlRequest) (s : CSt) : result ControlResponse * CSt :=
  match to_req req with
  | Err e => (Err e, s)
  | Ok payload =>
      let '(outs, s) := handle_conn (conn_fuel (payload +:+ NL)) 0 (payload +:+ NL) s in
      let '(line, _) := read_line (String.concat "" outs) in
      (from_resp (RootHints.str_trim line), s)
  end.

(** The [query] subcommand: the request of a command, and the text printed. *)
Inductive QueryCmd : Type :=
| QStats
| QForwarders
| QListeners
| QTls
| QReload
| QCache (op name rrtype : option string)
| QUpstream (name : string).
Definition query_request (cmd : QueryCmd) : ControlRequest :=
  match cmd with
  | QStats => RStats
  | QForwarders => RForwarders
  | QListeners => RListeners
  | QTls => RTls
  | QReload => RReload
  | QCache op name rrtype => RCache op name rrtype
  | QUpstream name => RUpstream name
  end.
Definition run_query (to_string_pretty : ControlResponse → result string) (cmd : QueryCmd) (s : CSt) : result string * CSt :=
  let '(r, s) := send_request (query_request cmd) s in (resp ← r; j ← to_string_pretty resp; Ok (j +:+ NL), s).

(** ** Lines *)

Lemma read_line_app l rest :
  string_all (λ c, negb (is_newline c)) l = true → read_line (l +:+ NL +:+ rest) = (l +:+ NL, rest).
Proof.
  induction l as [|c l IH]; [done|]. cbn [string_all]. intros [Hc Hl]%andb_true_iff. apply negb_true_iff in Hc.
  rewrite !string_app_cons. cbn [read_line]. by rewrite Hc, (IH Hl).
Qed.
Lemma trim_back_ws s c : is_whitespace c = true → RootHints.trim_back (s +:+ String c "") = RootHints.trim_back s.
Proof.
  intros Hc. induction s as [|x s IH]; [change (RootHints.trim_back (String c "") = ""); cbn [RootHints.trim_back]; by rewrite Hc|].
  rewrite string_app_cons. cbn [RootHints.trim_back]. by rewrite IH.
Qed.
Lemma trim_front_app s c :
  is_whitespace c = true →
  RootHints.trim_front (s +:+ String c "") = if String.eqb (RootHints.trim_front s) "" then "" else RootHints.trim_front s +:+ String c "".
Proof.
  intros Hc. induction s as [|x s IH]; [change (RootHints.trim_front (String c "") = ""); cbn [RootHints.trim_front]; by rewrite Hc|].
  rewrite string_app_cons. cbn [RootHints.trim_front]. by destruct (is_whitespace x).
Qed.
Lemma trim_newline s : RootHints.str_trim (s +:+ NL) = RootHints.str_trim s.
Proof.
  unfold RootHints.str_trim, NL. rewrite trim_front_app by done. destruct (String.eqb_spec (RootHints.trim_front s) "") as [->|]; [done|].
  by apply trim_back_ws.
Qed.

(** ** The conversation *)

(** A line: no newline inside, valid UTF-8. *)
Definition line_ok (l : string) : Prop :=
  string_all (λ c, negb (is_newline c)) l = true ∧ Http.utf8_valid (bytes_of_string (l +:+ NL)) = true.
Definition stream (ls : list string) : string := String.concat "" (map (λ l, l +:+ NL) ls).
Definition blank (l : string) : bool := String.eqb (RootHints.str_trim l) "".
(** Line by line: each non-blank one is answered in the state the earlier ones left. *)
Fixpoint converse (i : nat) (ls : list string) (s : CSt) : list string * CSt :=
  match ls with
  | [] => ([], s)
  | l :: ls' =>
      if blank l then converse i ls' s
      else
        match answer i (RootHints.str_trim l) s with
        | (Died, s) => ([], s)
        | (Replied r, s) => let '(outs, s) := converse (S i) ls' s in (render r :: outs, s)
        end
  end.
Lemma stream_cons l ls : stream (l :: ls) = l +:+ NL +:+ stream ls.
Proof.
  unfold stream. cbn [map]. destruct ls as [|l' ls].
  - cbn. by rewrite string_app_nil_r.
  - cbn [map String.concat]. by rewrite string_app_assoc.
Qed.
Hypothesis writes : ∀ i, write_ok i = true.
Lemma handle_conn_lines fuel i ls s :
  Forall line_ok ls → (String.length (stream ls) < fuel)%nat → handle_conn fuel i (stream ls) s = converse i ls s.
Proof.
  revert fuel i s. induction ls as [|l ls IH]; intros [|fuel] i s Hl Hf; try lia; [done|].
  apply Forall_cons in Hl as [[Hn Hu] Hl]. rewrite stream_cons in Hf |- *. cbn [handle_conn converse].
  rewrite read_line_app by done. rewrite !string_length_app in Hf. cbn in Hf.
  destruct (String.eqb_spec (l +:+ NL) "") as [E|_]; [by destruct l|]. rewrite Hu. cbn [negb]. rewrite trim_newline. unfold blank.
  destruct (String.eqb (RootHints.str_trim l) ""); [apply IH; [done|lia]|].
  destruct (answer i (RootHints.str_trim l) s) as [[r|] s1]; [|done]. rewrite writes, IH by (done || lia). done.
Qed.
(** A session, line by line, with its answers: blank lines are passed over; a line that is no
    request is answered with an error and changes nothing; a request is answered and has the
    effect of its command; and the answers end early only with a [reload] that
    killed a daemon without service. *)
Inductive Session : nat → list string → CSt → list string → CSt → Prop :=
| Se_end i s : Session i [] s [] s
| Se_blank i l ls s outs s' : blank l = true → Session i ls s outs s' → Session i (l :: ls) s outs s'
| Se_bad i l ls s e outs s' :
    blank l = false → from_req (RootHints.str_trim l) = Err e → Session (S i) ls s outs s' →
    Session i (l :: ls) s (render (Error ("bad request: " +:+ e)) :: outs) s'
| Se_request i l ls s req r s1 outs s' :
    blank l = false → from_req (RootHints.str_trim l) = Ok req →
    (dispatch (now i) (rc i) req s).1 = Replied r → effect (rc i) req (Replied r) s s1 →
    Session (S i) ls s1 outs s' → Session i (l :: ls) s (render r :: outs) s'
| Se_died i l ls s s' :
    blank l = false → from_req (RootHints.str_trim l) = Ok RReload → rc i = 0 → (∀ d, c_proc s ≠ Serving d) →
    c_proc s' = Gone true no_net → Session i (l :: ls) s [] s'.

Lemma dispatch_died t k req s s' :
  dispatch t k req s = (Died, s') → req = RReload ∧ k = 0 ∧ (∀ d, c_proc s ≠ Serving d) ∧ c_proc s' = Gone true no_net.
Proof.
  destruct req; cbn; repeat case_match; try done; intros [= <-]; split_and!; try done; by apply Z.eqb_eq.
Qed.
Lemma converse_session i ls s outs s' : converse i ls s = (outs, s') → Session i ls s outs s'.
Proof.
  revert i s outs s'. induction ls as [|l ls IH]; intros i s outs s'; cbn [converse]; [intros [= <- <-]; constructor|].
  destruct (blank l) eqn:B; [intros E; by apply Se_blank, IH|]. unfold answer.
  destruct (from_req _) as [req|e] eqn:F.
  - pose proof (control_effects (now i) (rc i) req s) as Ef. destruct (dispatch (now i) (rc i) req s) as [[r|] s1] eqn:D.
    + destruct (converse (S i) ls s1) as [o s2] eqn:C. intros [= <- <-].
      eapply Se_request; [done|done|by rewrite D|exact Ef|by apply IH].
    + intros [= <- <-]. apply dispatch_died in D as (-> & ? & ? & ?). by apply Se_died.
  - destruct (converse (S i) ls s) as [o s2] eqn:C. intros [= <- <-]. by eapply Se_bad; [..|apply IH].
Qed.
Lemma session_count i ls s outs s' :
  Session i ls s outs s' →
  length outs = length (List.filter (λ l, negb (blank l)) ls) ∨ c_proc s' = Gone true no_net.
Proof.
  induction 1 as [|? ? ? ? ? ? B _ IH|? ? ? ? ? ? ? B ? _ IH|? ? ? ? ? ? ? ? ? B ? ? ? _ IH|]; [by left| | | |by right];
    cbn [List.filter]; rewrite B; cbn [negb length]; destruct IH as [IH|?]; auto.
Qed.

(** C40. The server answers a connection line by line.  For any lines of valid UTF-8, and while its
    writes succeed, the loop over the bytes of the connection ends, and what it did is a [Session]:
    it wrote, in order, an answer to each line that is not blank; a line that is not a
    request was answered with an error and changed nothing; a request was answered
    with what its command says of the state the earlier ones left, and only [cache flush] and
    [reload] changed anything, as [effect] says.  There are as many answers as such lines,
    unless a [reload] ended the process, which it does to a daemon without service. *)
Theorem control_lines ls s :
  Forall line_ok ls →
  let '(outs, s') := handle_conn (conn_fuel (stream ls)) 0 (stream ls) s in
  Session 0 ls s outs s' ∧
  (length outs = length (List.filter (λ l, negb (blank l)) ls) ∨ c_proc s' = Gone true no_net).
Proof.
  intros Hl. rewrite handle_conn_lines by (done || unfold conn_fuel; lia).
  destruct (converse 0 ls s) as [outs s'] eqn:E. apply converse_session in E.
  split; [done|by eapply session_count].
Qed.

(** A text that is one line and that trimming leaves alone, such as a JSON object. *)
Definition json_line (t : string) : Prop := line_ok t ∧ RootHints.str_trim t = t ∧ t ≠ "".
(** [dnsd query] gets what the daemon answered: when the JSON of a request and of a
    response are single lines that read back as what was written, the client's call
    returns exactly the response of the command it sent, computed in the daemon's
    state, and the daemon is left as the command leaves it. *)
Theorem control_roundtrip req s resp s' text rtext :
  to_req req = Ok text → json_line text → from_req text = Ok req →
  dispatch (now 0) (rc 0) req s = (Replied resp, s') →
  to_resp resp = Ok rtext → json_line rtext → from_resp rtext = Ok resp →
  send_request req s = (Ok resp, s').
Proof.
  intros Ht (Lt & Tt & Nt) Hf Hd Hr (Lr & Tr & Nr) Hb. unfold send_request. rewrite Ht.
  assert (E : text +:+ NL = stream [text]) by (by rewrite stream_cons, string_app_nil_r).
  rewrite E, handle_conn_lines by (repeat constructor; first [apply Lt | unfold conn_fuel; lia]).
  cbn [converse]. unfold blank. rewrite Tt. destruct (String.eqb_spec text "") as [?|_]; [done|].
  unfold answer. rewrite Hf, Hd. cbn [String.concat]. unfold render. rewrite Hr.
  rewrite <- (string_app_nil_r (rtext +:+ NL)), string_app_assoc, read_line_app by apply Lr. by rewrite trim_newline, Tr, Hb.
Qed.
End Control.
End Control.

(** ** Examples *)
Module ControlExamples.
Import Config Handler HandlerExamples Service Sources Build Tls Daemon DaemonExamples Process Control.
#[local] Existing Instances HandlerExamples.ExMoka HandlerExamples.ExGovernor.
#[local] Instance ExHickory : Hickory := ex_hickory 4.

(** A daemon without service whose cache holds two names, one about to expire. *)
Definition ex_entry (n : nat) (secs : Z) : Entry := {| e_bytes := repeat 0 n; e_expires := from_secs secs |}.
Definition ex_key (n : string) : CacheKey := cache_key (rn n) RT_A DC_IN.
Definition ex_cache : DnsCache.DnsCache :=
  DnsCache.set_inner (<[ex_key "www.example.com." := ex_entry 40 100]> (<[ex_key "www.test." := ex_entry 50 10]> ∅))
    (DnsCache.new 10 0 3600 60 600).
Definition ex_metrics : Metrics := {|
  queries_udp := 1; queries_tcp := 0; queries_dot := 0; queries_doh := 0; cache_hits := 0; cache_misses := 1;
  forwarder_matched := 0; recursion_walked := 1; rrl_dropped := 0; acl_denied := 0; dns64_synthesised := 0;
  dnssec_validated := 0; dnssec_failed := 0; udp_inflight_shed := 0 |}.
Definition ex_state : CSt (Cert := unit) (Key := unit) := {| c_proc := ControlOnly ex_cache []; c_metrics := ex_metrics; c_hup := false |}.
Definition ex_display (n : Name) : string := if bool_decide (n = to_lowercase (rn "www.test.")) then "www.test." else "www.example.com.".
Definition ex_citer (m : gmap CacheKey (Z * nat)) : list (CacheKey * (Z * nat)) := map_to_list m.
Definition ex_dispatch (req : ControlRequest) (s : CSt) : Outcome * CSt (Cert := unit) (Key := unit) :=
  dispatch ex_display (λ _, "A") (λ _, "IN") (λ s, s) (λ s, s) (λ s, s) ex_citer (from_secs 9) 0 req s.
Definition ex_dumped (name rrtype : option string) : option (list CacheDumpEntry) :=
  match (ex_dispatch (RCache (Some "dump") name rrtype) ex_state).1 with Replied (CacheDump es) => Some es | _ => None end.
Lemma cache_dump_exact_witness :
  ex_dumped (Some "www") (Some "a") =
    Some [{| cd_name := "www.example.com."; cd_rtype := "A"; cd_class := "IN"; cd_ttl := 91; cd_size := 40 |};
          {| cd_name := "www.test."; cd_rtype := "A"; cd_class := "IN"; cd_ttl := 1; cd_size := 50 |}] ∧
  ∃ es, ex_dispatch (RCache (Some "dump") (Some "test") None) ex_state = (Replied (CacheDump es), ex_state) ∧
    ∀ e, e ∈ es → str_contains (cd_name e) "test" = true.
Proof.
  split; [vm_compute; reflexivity|].
  destruct (cache_dump_exact ex_display (λ _, "A") (λ _, "IN") (λ s, s) (λ s, s) (λ s, s) ex_citer (λ _, reflexivity _)
    (from_secs 9) 0 (Some "test") None ex_state) as (es & E & M). exists es. split; [exact E|].
  intros e (k & ent & _ & _ & -> & Hn & _)%M. exact (Hn _ eq_refl).
Defined.

(** A notation for three requests and a few responses. *)
Definition ex_from_req (t : string) : result ControlRequest :=
  if String.eqb t "{stats}" then Ok (RCache None None None)
  else if String.eqb t "{flush}" then Ok (RCache (Some "flush") None None)
  else if String.eqb t "{reload}" then Ok RReload
  else Err "expected value".
Definition ex_to_req (r : ControlRequest) : result string :=
  match r with RCache None None None => Ok "{stats}" | RReload => Ok "{reload}" | _ => Err "unsupported" end.
Definition ex_to_resp (r : ControlResponse) : result string :=
  match r with CacheStats n => Ok ("{entries:" +:+ pretty n +:+ "}") | Done _ => Ok "{ok}" | Error e => Ok ("{error:" +:+ e +:+ "}") | _ => Err "?" end.
Definition ex_from_resp (t : string) : result ControlResponse :=
  if String.eqb t "{entries:2}" then Ok (CacheStats 2) else Err "EOF while parsing a value".
Definition ex_conn (ls : list string) : list string * CSt :=
  handle_conn ex_display (λ _, "A") (λ _, "IN") (λ s, s) (λ s, s) (λ s, s) ex_citer ex_from_req ex_to_resp (λ _, from_secs 9) (λ _, 0)
    (λ _, true) (conn_fuel (stream ls)) 0 (stream ls) ex_state.
Definition ex_send (req : ControlRequest) : result ControlResponse * CSt :=
  send_request ex_display (λ _, "A") (λ _, "IN") (λ s, s) (λ s, s) (λ s, s) ex_citer ex_from_req ex_to_resp ex_to_req ex_from_resp
    (λ _, from_secs 9) (λ _, 0) (λ _, true) req ex_state.
Definition ex_lines : list string := [" {stats} "; ""; "junk"; "{flush}"; "{stats}"].
Lemma ex_lines_ok : Forall line_ok ex_lines.
Proof. repeat constructor. Qed.
Lemma control_lines_witness :
  (ex_conn ex_lines).1 = map (λ l, l +:+ NL) ["{entries:2}"; "{error:bad request: expected value}"; "{ok}"; "{entries:0}"] ∧
  (length (ex_conn ex_lines).1 = 4%nat ∨ c_proc (ex_conn ex_lines).2 = Gone true no_net).
Proof.
  split; [vm_compute; reflexivity|].
  pose proof (control_lines ex_display (λ _, "A") (λ _, "IN") (λ s, s) (λ s, s) (λ s, s) ex_citer ex_from_req ex_to_resp
    (λ _, from_secs 9) (λ _, 0) (λ _, true) (λ _, eq_refl) ex_lines ex_state ex_lines_ok) as C.
  unfold ex_conn. destruct (handle_conn _ _ _ _ _ _ _ _ _ _ _ _ _ _ _ ex_state) as [outs s'].
  destruct C as [_ L]. exact L.
Defined.
Lemma control_roundtrip_witness :
  ex_send (RCache None None None) = (Ok (CacheStats 2), ex_state).
Proof.
  apply (control_roundtrip ex_display (λ _, "A") (λ _, "IN") (λ s, s) (λ s, s) (λ s, s) ex_citer ex_from_req ex_to_resp ex_to_req
    ex_from_resp (λ _, from_secs 9) (λ _, 0) (λ _, true) (λ _, eq_refl) (RCache None None None) ex_state (CacheStats 2) ex_state
    "{stats}" "{entries:2}"); try reflexivity; by repeat constructor.
Defined.
(** [reload] over the socket of a daemon without service: no answer, and no daemon. *)
Lemma reload_without_service :
  (ex_send RReload).1 = Err "EOF while parsing a value" ∧ ∃ net, c_proc (ex_send RReload).2 = Gone true net.
Proof. split; [vm_compute; reflexivity|]. eexists. reflexivity. Qed.
End ControlExamples.
